(* ===== verification/_CoqProject ===== *)
-Q . S2P
Prelude.v
IpAddress.v
HostNormalizer.v
ClientIpResolver.v
UrlAuthenticator.v
BackendConcurrencyLimiter.v
ConnectionAdmission.v
BackendConnectionPool.v
Binary64.v
Json.v
RateLimiter.v
RequestPolicy.v
VirtualHostRouter.v
BackendProbe.v
TlsContextManager.v
RuntimeConfig.v
HttpSession.v
AdminSession.v
Listener.v
ListenerStop.v
ConnectionRegistry.v
AuthService.v
ConfigRepository.v
ConfigService.v
ConfigServiceSpec.v
ConfigBackup.v
AdminJson.v
ServerCore.v
Application.v
Shutdown.v
WindowsService.v
LogManager.v
AdminListener.v
AdminAssets.v
AdminApi.v
AdminApiSpec.v
ServerStatus.v
AdminServer.v
RequestDispatcher.v
SessionRequest.v
ProxyHeaders.v
ProxyTransaction.v
