(* ===== verification/Prelude.v ===== *)
(** * Verification of the WebServer reverse proxy

    ** The program

    A reverse proxy web server for Windows (sources under src/src).  Listeners
    accept connections under an admission limit; sessions read requests; the request
    dispatcher normalizes the Host header, finds the virtual host of the listener,
    checks TLS names, the site's policy (access rules, rate limit, redirects, hotlink
    protection) and the URL signature, and hands the request to a proxy transaction,
    which takes a slot of the site's concurrency limiter and a pooled backend
    connection.  Sites, certificates and settings are rows of a database; the
    configuration service validates a change as a whole into an immutable runtime
    configuration, which the server core prepares, the database commits and the server
    core publishes.  A loopback administration server edits it behind a login.
    Everything is logged by a writer thread.  The process runs in a console or as a
    Windows service.

    ** The files

    Foundations:
    - [Prelude]: byte strings with the C++ string operations, decimal and unsigned
      arithmetic, exceptions ([res]), loops over segments of strings and over maps,
      record updates, tactics and lemmas shared by all files.
    - [IpAddress]: addresses, their bits, and the class [AddressText] that stands for
      Boost's address parser.
    - [Binary64]: IEEE double arithmetic.
    - [Json]: JSON values and their readers; nlohmann's text format is the class
      [JsonText].

    Request path:
    - [HostNormalizer]: routing/HostNormalizer.
    - [ClientIpResolver]: network/ClientIpResolver.
    - [UrlAuthenticator]: policy/UrlAuthenticator; MD5 is the class [Digest].
    - [RateLimiter], [RequestPolicy]: policy/RequestPolicy; RE2 is the class [Regex].
    - [VirtualHostRouter]: routing/VirtualHostRouter.
    - [TlsContextManager]: tls/TlsContextManager; OpenSSL's certificate functions are
      the class [OpenSsl].
    - [RuntimeConfig]: config/RuntimeConfig, the configuration built from the above.
    - [RequestDispatcher]: http/RequestDispatcher, the decision on a request; Boost.Beast's
      request is the class [BeastRequest].
    - [HttpSession], [SessionRequest]: http/HttpSession and http/TlsHttpSession, the
      state machine and the values it hands to the dispatcher.
    - [ProxyHeaders], [ProxyTransaction]: proxy/ProxyTransaction, the forwarded message
      and the state machine of a transaction.

    Resources:
    - [BackendConcurrencyLimiter], [ConnectionAdmission], [BackendConnectionPool]: the
      limits and the pool of proxy/ and network/.
    - [ConnectionRegistry]: core/ConnectionRegistry, the status tables.
    - [LogManager]: logging/LogManager, line text, queue and rotating files.

    Server:
    - [Listener], [ListenerStop]: network/HttpListener and network/TlsListener; the loop
      that stops the sessions.
    - [ServerCore], [ServerStatus]: core/ServerCore over the listeners; its status list.
    - [BackendProbe]: proxy/BackendProbe, the test connection.
    - [Application], [Shutdown]: app/Application, the start of the data plane, and the
      process from its start to its end with the stop request in between.
    - [WindowsService]: service/WindowsService.

    Configuration and administration:
    - [ConfigRepository]: database/ConfigRepository, tables, statements, migrations.
    - [ConfigService], [ConfigServiceSpec], [ConfigBackup]: config/ConfigService,
      operations, their specification, export and import; the server behind it is the
      class [ReloadTarget], which [ServerCore] instantiates.
    - [AuthService]: admin/AuthService; the account table is the class
      [AdminUserStore], PBKDF2 a parameter.
    - [AdminJson], [AdminApi], [AdminApiSpec]: admin/AdminApi, documents, handlers and
      what they guarantee.
    - [AdminAssets], [AdminSession], [AdminListener], [AdminServer]: admin/AdminServer,
      files, sessions, listener, and the request from the socket to the services.

    ** Conventions

    State is a record per object, an operation a function from the state to its result
    and the new state; operations that hold a mutex are atomic, and components with
    several critical sections, threads or asynchronous operations are step relations
    with reachability.  For asynchronous code the state says which operations are
    outstanding, only those complete, and a handler is one step.  Exceptions are values
    of [res]; in the state machines an oracle ([faults]) says which calls throw, so the
    theorems hold for every place an exception can come from.  What the C++ leaves
    undefined is a value of its own.  Clock readings, random bytes and the results of
    system calls are arguments.  Unsigned integers wrap explicitly ([u32], [u64]) where
    the code can reach the bound.  The iteration order of a hash table is a parameter or
    the theorem holds for every order.  A moved-from [std::function] is empty.

    Bounds and fuel: loops over strings use the length of the unread text as fuel, each
    iteration consumes at least one byte; the JSON reader used to state the log theorem
    uses the length of the line; the blocking probe runs four completions, proved to be
    the most there can be; the states of the process in [Shutdown] are enumerated with
    fuel 2000, and the enumeration is checked to be closed.

    ** The theorems

    - End to end ([Application], [AdminApiSpec], [AdminServer]): the server listens on
      exactly the ports of the enabled sites in the database, whatever is administered
      and whatever fails; requests to the administration interface stay within that
      system; only local requests with a session and the request guard change anything,
      and an error answer means that nothing changed.
    - Configuration ([ConfigRepository], [ConfigServiceSpec], [ConfigBackup],
      [AdminJson]): well-formed tables, all-or-nothing changes, the running server
      equals the stored configuration, backups and unedited saves read back.
    - Reconfiguration ([Listener], [ServerCore], [ServerStatus]): listeners never deaf,
      a reload that is given up serves nobody, a failed one changes nothing, the status
      list shows what is configured.
    - Request path ([RequestDispatcher], [SessionRequest], [HttpSession],
      [ProxyTransaction], [ProxyHeaders]): only admitted requests reach a backend, under
      the certificate of the connection; sessions always wait for exactly one thing;
      transactions complete once, never hang and leave nothing behind.
    - Routing, policy ([HostNormalizer], [VirtualHostRouter], [TlsContextManager],
      [RuntimeConfig], [RequestPolicy], [RateLimiter], [UrlAuthenticator],
      [ClientIpResolver]): exact grammars, longest-suffix routing, decisions that never
      fail, exact bursts in binary64, sound and complete signatures.
    - Resources and logs: exact accounting, FIFO grants, no connection in two hands, ids
      never reused, log lines that read back.
    - Administration ([AuthService], [AdminAssets], [AdminSession], [AdminListener],
      [BackendProbe]): bounded guessing, the session life cycle, private keys that no
      page shows, files below their root, one answer per request, probes that complete
      once and tell the truth.
    - Process ([Shutdown], [WindowsService]): a stop request is never lost; the service
      manager is told a legal life cycle.
    - Some theorems record behaviour that contradicts the documentation or an evident
      intention; they are named by what happens, such as [double_slash_leaves_root],
      [stop_with_open_session_undefined], [failed_start_completes_later],
      [unreadable_target_blocks_page], [streamed_upload_reaches_undefined].

    ** Not modelled

    The bytes on sockets, parsers of HTTP messages and deadlines of streams (Boost.Asio
    and Beast); SQLite and database/Database, which only wraps it; OpenSSL context
    options and ALPN; printed texts, signals and the event log; out-of-memory where an
    exception is not caught by the program (it ends the process or the handler). *)

From Stdlib Require Export ZArith Lia Ascii.
From Stdlib Require String.
From stdpp Require Export base tactics option strings gmap list.
From stdpp Require Import pretty.

#[global] Open Scope Z_scope.

(** ** Byte strings

    [std::string] and [std::string_view] are finite byte sequences.  They are
    modelled as lists of [ascii] (8-bit characters); [b! "..."] writes a
    literal. *)

Abbreviation str := (list ascii).

Declare Scope ws_scope.
Delimit Scope ws_scope with ws.
Notation "b! x" := (String.list_ascii_of_string x%string)
  (at level 1, x at level 0, format "b! x") : ws_scope.
#[global] Open Scope ws_scope.

(** The value of a byte as [unsigned char]. *)
Definition byte_val (c : ascii) : Z := Z.of_N (N_of_ascii c).

Definition is_char (c d : ascii) : bool := bool_decide (c = d).

(** [<cctype>] in the "C" locale, which the program never changes. *)
Definition isdigit (c : ascii) : bool :=
  (48 <=? byte_val c) && (byte_val c <=? 57).
Definition isupper (c : ascii) : bool :=
  (65 <=? byte_val c) && (byte_val c <=? 90).
Definition islower (c : ascii) : bool :=
  (97 <=? byte_val c) && (byte_val c <=? 122).
Definition isalnum (c : ascii) : bool := isdigit c || isupper c || islower c.
Definition isxdigit (c : ascii) : bool :=
  isdigit c || ((65 <=? byte_val c) && (byte_val c <=? 70))
            || ((97 <=? byte_val c) && (byte_val c <=? 102)).
Definition tolower (c : ascii) : ascii :=
  if isupper c then ascii_of_N (N_of_ascii c + 32) else c.

(** The character class rejected by the host, redirect and header checks:
    controls, space, DEL and everything above. *)
Definition outside_graph (c : ascii) : bool :=
  (byte_val c <=? 32) || (127 <=? byte_val c).

(** [std::transform(..., tolower)], used by several components. *)
Definition ascii_lower (s : str) : str := tolower <$> s.

(** [find(c)]: position of the first [c], [None] for [npos]. *)
Fixpoint find_char (c : ascii) (s : str) : option nat :=
  match s with
  | [] => None
  | x :: r => if is_char x c then Some 0%nat else S <$> find_char c r
  end.

(** [find(c, pos)]. *)
Definition find_char_from (c : ascii) (pos : nat) (s : str) : option nat :=
  (fun i => (pos + i)%nat) <$> find_char c (drop pos s).

(** [find_last_of(c)]. *)
Fixpoint rfind_char (c : ascii) (s : str) : option nat :=
  match s with
  | [] => None
  | x :: r => match rfind_char c r with
              | Some i => Some (S i)
              | None => if is_char x c then Some 0%nat else None
              end
  end.

(** [substr(pos, n)] and [substr(pos)] for [pos <= size()]. *)
Definition substr (s : str) (pos n : nat) : str := take n (drop pos s).

Fixpoint starts_with (p s : str) : bool :=
  match p, s with
  | [], _ => true
  | a :: p', b :: s' => is_char a b && starts_with p' s'
  | _ :: _, [] => false
  end.

(** [ends_with]: the last [size] bytes are equal to the suffix. *)
Definition ends_with (p s : str) : bool :=
  (length p <=? length s)%nat && bool_decide (drop (length s - length p) s = p).

(** [find(text)] for a string argument: position of the first occurrence. *)
Fixpoint find_str (p s : str) : option nat :=
  if starts_with p s then Some 0%nat
  else match s with
       | [] => None
       | _ :: r => S <$> find_str p r
       end.

Definition contains_char (c : ascii) (s : str) : bool := bool_decide (is_Some (find_char c s)).
Definition contains_str (p s : str) : bool := bool_decide (is_Some (find_str p s)).

(** One step of the segment loops: the text before the first separator and,
    when there is one, the text after it. *)
Fixpoint break_at (c : ascii) (s : str) : str * option str :=
  match s with
  | [] => ([], None)
  | x :: r => if is_char x c then ([], Some r)
              else let '(seg, rest) := break_at c r in (x :: seg, rest)
  end.

(** The loop shape [while (start < size) { end = find(sep, start); ...;
    if (end == npos) break; start = end + 1; }] on the unread suffix.  [step]
    receives the segment, whether it is the last one ([end == npos]) and the
    loop's variables; [None] is an early [return].  Every iteration consumes
    at least one byte, so [length rest] is enough fuel. *)
Fixpoint seg_fold {A} (fuel : nat) (sep : ascii) (step : str -> bool -> A -> option A)
    (rest : str) (acc : A) : option A :=
  match fuel, rest with
  | O, _ | _, [] => Some acc
  | S fuel', _ :: _ =>
      let '(seg, after) := break_at sep rest in
      match step seg (bool_decide (after = None)) acc with
      | None => None
      | Some acc' =>
          match after with
          | None => Some acc'
          | Some rest' => seg_fold fuel' sep step rest' acc'
          end
      end
  end.

Definition for_segments {A} (sep : ascii) (step : str -> bool -> A -> option A)
    (s : str) (acc : A) : option A := seg_fold (length s) sep step s acc.

(** [split c s]: reference decomposition of a string at every separator. *)
Fixpoint split (c : ascii) (s : str) : list str :=
  match s with
  | [] => [[]]
  | x :: r => if is_char x c then [] :: split c r
              else match split c r with
                   | [] => [[x]]
                   | seg :: segs => (x :: seg) :: segs
                   end
  end.

(** [join c segs]: segments with the separator between them. *)
Fixpoint join (c : ascii) (segs : list str) : str :=
  match segs with
  | [] => []
  | [seg] => seg
  | seg :: segs' => seg ++ c :: join c segs'
  end.

(** Decimal digit strings as accumulated by the parsing loops. *)
Definition digit_val (c : ascii) : Z := byte_val c - 48.
Definition dec_value (s : str) : Z := fold_left (fun v c => v * 10 + digit_val c) s 0.

(** Unsigned wrap-around at a given width. *)
Definition wrap_u (w : Z) (z : Z) : Z := z mod 2 ^ w.
Definition u8 (z : Z) : Z := wrap_u 8 z.
Definition u16 (z : Z) : Z := wrap_u 16 z.
Definition u32 (z : Z) : Z := wrap_u 32 z.
Definition u64 (z : Z) : Z := wrap_u 64 z.

Lemma u64_id z : 0 <= z < 2 ^ 64 -> u64 z = z.
Proof. apply Z.mod_small. Qed.

(** [std::to_string]. *)
Definition to_string (z : Z) : str := String.list_ascii_of_string (pretty z).

(** [std::from_chars] for an unsigned type of width [w]: the longest digit
    prefix; [None] when it is empty or the value does not fit. *)
Fixpoint take_digits (s : str) : str * str :=
  match s with
  | [] => ([], [])
  | x :: r => if isdigit x then let '(d, t) := take_digits r in (x :: d, t) else ([], s)
  end.
Definition from_chars_u (w : Z) (s : str) : option (Z * str) :=
  let '(digits, rest) := take_digits s in
  if bool_decide (digits = []) then None
  else if 2 ^ w <=? dec_value digits then None
  else Some (dec_value digits, rest).

(** ** Exceptions

    Fallible code returns [res]: a value or the exception it throws. *)
Inductive exn : Type :=
| invalid_argument (what : str)
| runtime_error (what : str)
| logic_error (what : str)
| json_exception.

Inductive res (A : Type) : Type :=
| Ok (a : A)
| Throw (e : exn).
Arguments Ok {A} a.
Arguments Throw {A} e.

#[export] Instance exn_eq_dec : EqDecision exn.
Proof. solve_decision. Defined.
#[export] Instance res_eq_dec {A} `{EqDecision A} : EqDecision (res A).
Proof. solve_decision. Defined.

#[export] Instance res_ret : MRet res := fun A a => Ok a.
#[export] Instance res_bind : MBind res := fun A B f m =>
  match m with Ok a => f a | Throw e => Throw e end.

(** [if (bad) throw e;] *)
Definition throw_if (bad : bool) (e : exn) : res unit := if bad then Throw e else Ok tt.

Definition is_ok {A} (r : res A) : bool := match r with Ok _ => true | Throw _ => false end.

(** A [for] loop whose body may throw. *)
Fixpoint res_fold {A B} (f : B -> A -> res A) (l : list B) (acc : A) : res A :=
  match l with
  | [] => Ok acc
  | x :: l' => match f x acc with Ok acc' => res_fold f l' acc' | Throw e => Throw e end
  end.
Fixpoint res_map {A B} (f : A -> res B) (l : list A) : res (list B) :=
  match l with
  | [] => Ok []
  | x :: l' => match f x with
               | Ok y => match res_map f l' with Ok ys => Ok (y :: ys) | Throw e => Throw e end
               | Throw e => Throw e
               end
  end.

Lemma res_fold_keeps {A S} (P : S -> Prop) (f : A -> S -> res S) l s s' :
  (forall a s s', P s -> f a s = Ok s' -> P s') -> P s -> res_fold f l s = Ok s' -> P s'.
Proof.
  intros Hf. induction l as [|a l IH] in s |- *; cbn; intros Hs E; [by injection E as <-|].
  destruct (f a s) as [s1|] eqn:Ef; [|done]. eapply IH; [|done]. by eapply Hf.
Qed.

(** ** Automation *)

(** A decidable statement about closed terms. *)
Ltac closed_decision := apply (bool_decide_unpack _); vm_compute; exact I.

(** Field update: [eta s], the record [s] spelled out, with one projection replaced. *)
Ltac record_update eta proj s v :=
  let e := eval red in (eta s) in
  let e' := eval pattern (proj s) in e in
  match e' with ?f _ => let r := eval cbv beta in (f v) in exact r end.

(** ** Loops over a map whose body can erase *)

(** A range-for over the entries of a map: a body that erases the entry the loop stands
    on leaves it with an iterator that must not be advanced ([None]). *)
Fixpoint visit_all {K} (erases : K -> bool) (entries : list K) : option (list K) :=
  match entries with
  | [] => Some []
  | k :: rest => if erases k then None else cons k <$> visit_all erases rest
  end.

Lemma visit_all_some {K} (erases : K -> bool) entries : Forall (fun k => erases k = false) entries -> visit_all erases entries = Some entries.
Proof. induction 1 as [|k rest Hk _ IH]; [done|]. cbn. by rewrite Hk, IH. Qed.

Lemma visit_all_none {K} (erases : K -> bool) entries k : k ∈ entries -> erases k = true -> visit_all erases entries = None.
Proof.
  induction entries as [|k' rest IH]; [by intros ?%elem_of_nil|]. intros [->|Hin]%elem_of_cons Hk; cbn; [by rewrite Hk|].
  destruct (erases k'); [done|]. by rewrite IH.
Qed.

(** Booleans of the code as propositions, for [lia] and [naive_solver]. *)
Ltac bool_to_prop :=
  repeat first
    [ progress simplify_eq/=
    | match goal with
      | H : _ && _ = true |- _ => apply andb_true_iff in H as [??]
      | H : _ && _ = false |- _ => apply andb_false_iff in H
      | H : _ || _ = true |- _ => apply orb_true_iff in H
      | H : _ || _ = false |- _ => apply orb_false_iff in H as [??]
      | H : negb _ = true |- _ => apply negb_true_iff in H
      | H : negb _ = false |- _ => apply negb_false_iff in H
      | H : bool_decide _ = true |- _ => apply bool_decide_eq_true in H
      | H : bool_decide _ = false |- _ => apply bool_decide_eq_false in H
      | H : (_ <=? _)%Z = true |- _ => apply Z.leb_le in H
      | H : (_ <=? _)%Z = false |- _ => apply Z.leb_gt in H
      | H : (_ <? _)%Z = true |- _ => apply Z.ltb_lt in H
      | H : (_ <? _)%Z = false |- _ => apply Z.ltb_ge in H
      | H : (_ =? _)%Z = true |- _ => apply Z.eqb_eq in H
      | H : (_ =? _)%Z = false |- _ => apply Z.eqb_neq in H
      | H : (_ <=? _)%nat = true |- _ => apply Nat.leb_le in H
      | H : (_ <=? _)%nat = false |- _ => apply Nat.leb_gt in H
      | H : (_ <? _)%nat = true |- _ => apply Nat.ltb_lt in H
      | H : (_ <? _)%nat = false |- _ => apply Nat.ltb_ge in H
      | H : (_ =? _)%nat = true |- _ => apply Nat.eqb_eq in H
      | H : (_ =? _)%nat = false |- _ => apply Nat.eqb_neq in H
      end ].

(** Peel the [throw_if] guards and binds off a successful construction. *)
Ltac res_inv :=
  repeat match goal with
  | H : Throw _ = Ok _ |- _ => discriminate H
  | H : Ok _ = Throw _ |- _ => discriminate H
  | H : Ok _ = Ok _ |- _ => injection H as H; subst
  | H : throw_if ?b _ ≫= _ = Ok _ |- _ =>
      let E := fresh "Eg" in
      destruct b eqn:E; [discriminate H | cbn [mbind res_bind throw_if] in H]
  | H : ?m ≫= _ = Ok _ |- _ =>
      let E := fresh "Eb" in
      destruct m eqn:E; [cbn [mbind res_bind] in H | discriminate H]
  | H : mret _ = Ok _ |- _ => injection H as H; subst
  end.

Create HintDb ws.

(** ** Generic lemmas: bytes *)

Lemma byte_val_range c : 0 <= byte_val c < 256.
Proof. unfold byte_val. pose proof (N_ascii_bounded c). lia. Qed.

Lemma byte_val_inj c d : byte_val c = byte_val d -> c = d.
Proof.
  unfold byte_val. intros H. rewrite <- (ascii_N_embedding c), <- (ascii_N_embedding d).
  f_equal. lia.
Qed.

Lemma is_char_spec c d : is_char c d = true <-> c = d.
Proof. apply bool_decide_eq_true. Qed.

Lemma is_char_refl c : is_char c c = true.
Proof. by apply is_char_spec. Qed.

Lemma is_char_ne c d : c <> d -> is_char c d = false.
Proof. apply bool_decide_eq_false_2. Qed.

Lemma tolower_val c :
  byte_val (tolower c) = if isupper c then byte_val c + 32 else byte_val c.
Proof.
  unfold tolower. destruct (isupper c) eqn:E; [|done].
  unfold isupper in E. bool_to_prop. unfold byte_val in *.
  rewrite N_ascii_embedding; lia.
Qed.

Lemma tolower_not_upper c : isupper (tolower c) = false.
Proof.
  unfold isupper at 1. rewrite tolower_val. destruct (isupper c) eqn:E; unfold isupper in E; lia.
Qed.

(** Class membership is settled by the byte's value. *)
Ltac byte_class :=
  unfold isalnum, isxdigit, isdigit, islower, outside_graph in *;
  repeat match goal with
  | |- context [byte_val (tolower ?c)] => rewrite (tolower_val c)
  | H : context [byte_val (tolower ?c)] |- _ => rewrite (tolower_val c) in H
  | |- context [isupper (tolower ?c)] => rewrite (tolower_not_upper c)
  | |- context [if isupper ?c then _ else _] => destruct (isupper c) eqn:?
  | H : context [if isupper ?c then _ else _] |- _ => destruct (isupper c) eqn:?
  end;
  unfold isupper in *;
  repeat match goal with
  | c : ascii |- _ =>
      lazymatch goal with
      | _ : 0 <= byte_val c < 256 |- _ => fail
      | _ => pose proof (byte_val_range c)
      end
  end; lia.

Lemma tolower_idemp c : tolower (tolower c) = tolower c.
Proof. apply byte_val_inj. byte_class. Qed.

Lemma isalnum_tolower c : isalnum (tolower c) = isalnum c.
Proof. byte_class. Qed.

Lemma isxdigit_tolower c : isxdigit (tolower c) = isxdigit c.
Proof. byte_class. Qed.

Lemma isdigit_tolower c : isdigit (tolower c) = isdigit c.
Proof. byte_class. Qed.

Lemma outside_graph_tolower c : outside_graph (tolower c) = outside_graph c.
Proof. byte_class. Qed.

(** A character that is not a letter is a fixed point, and only its own image. *)
Lemma is_char_tolower c d :
  isalnum d = false -> is_char (tolower c) d = is_char c d.
Proof.
  intros Hd. destruct (decide (c = d)) as [->|Hne].
  - rewrite is_char_refl. apply is_char_spec, byte_val_inj. byte_class.
  - rewrite (is_char_ne c d) by done. apply is_char_ne. intros E. apply Hne, byte_val_inj.
    apply (f_equal byte_val) in E. byte_class.
Qed.

Lemma ascii_lower_idemp s : ascii_lower (ascii_lower s) = ascii_lower s.
Proof.
  unfold ascii_lower. rewrite <- list_fmap_compose. apply list_fmap_ext.
  intros ? c ?. apply tolower_idemp.
Qed.

Lemma ascii_lower_length s : length (ascii_lower s) = length s.
Proof. apply length_fmap. Qed.

Lemma ascii_lower_app s t : ascii_lower (s ++ t) = ascii_lower s ++ ascii_lower t.
Proof. apply fmap_app. Qed.

Lemma forallb_lower (f : ascii -> bool) s :
  (forall c, f (tolower c) = f c) -> forallb f (ascii_lower s) = forallb f s.
Proof.
  intros Hf. unfold ascii_lower. induction s as [|c s IH]; [done|]. csimpl. by rewrite Hf, IH.
Qed.

Lemma forallb_elem (f : ascii -> bool) s :
  forallb f s = true <-> (forall c, c ∈ s -> f c = true).
Proof. rewrite forallb_forall. by setoid_rewrite list_elem_of_In. Qed.

(** ** Generic lemmas: searching and splitting *)

Lemma break_at_None c s seg : break_at c s = (seg, None) -> seg = s /\ c ∉ s.
Proof.
  revert seg. induction s as [|x r IH]; intros seg; cbn.
  { intros [= <-]. by split; [|apply not_elem_of_nil]. }
  destruct (is_char x c) eqn:E; [done|].
  destruct (break_at c r) as [sg rest] eqn:Eb. intros [= <- ->].
  destruct (IH sg eq_refl) as [-> Hn]. split; [done|].
  unfold is_char in E. apply bool_decide_eq_false in E. set_solver.
Qed.

Lemma break_at_Some c s seg r :
  break_at c s = (seg, Some r) -> s = seg ++ c :: r /\ c ∉ seg.
Proof.
  revert seg. induction s as [|x t IH]; intros seg; cbn; [done|].
  destruct (is_char x c) eqn:E.
  { intros [= <- <-]. apply is_char_spec in E as ->. split; [done|apply not_elem_of_nil]. }
  destruct (break_at c t) as [sg rest] eqn:Eb. intros [= <- ->].
  destruct (IH sg eq_refl) as [-> Hn]. split; [done|].
  unfold is_char in E. apply bool_decide_eq_false in E. set_solver.
Qed.

Lemma break_at_notin c s : c ∉ s -> break_at c s = (s, None).
Proof.
  induction s as [|x r IH]; [done|]; cbn. intros Hn. rewrite is_char_ne by set_solver.
  by rewrite IH by set_solver.
Qed.

Lemma break_at_app c s r : c ∉ s -> break_at c (s ++ c :: r) = (s, Some r).
Proof.
  induction s as [|x t IH]; intros Hn; cbn.
  { by rewrite is_char_refl. }
  rewrite is_char_ne by set_solver. by rewrite IH by set_solver.
Qed.

(** Induction that follows the segment loops. *)
Lemma str_seg_ind (c : ascii) (P : str -> Prop) :
  (forall s, c ∉ s -> P s) ->
  (forall seg r, c ∉ seg -> P r -> P (seg ++ c :: r)) ->
  forall s, P s.
Proof.
  intros Hlast Hseg s. remember (length s) as n eqn:Hn.
  revert s Hn. induction n as [n IH] using lt_wf_ind. intros s ->.
  destruct (break_at c s) as [seg [r|]] eqn:E.
  - apply break_at_Some in E as [-> Hc]. apply Hseg; [done|].
    apply (IH (length r)); [rewrite length_app; cbn; lia|done].
  - apply break_at_None in E as [-> Hc]. by apply Hlast.
Qed.

Lemma seg_fold_fuel {A} sep (step : str -> bool -> A -> option A) fuel s acc :
  (length s <= fuel)%nat -> seg_fold fuel sep step s acc = for_segments sep step s acc.
Proof.
  unfold for_segments. remember (length s) as n eqn:Hn.
  revert fuel s Hn acc. induction n as [n IH] using lt_wf_ind. intros fuel s -> acc Hf.
  destruct s as [|x s]; [by destruct fuel|]. destruct fuel as [|fuel]; [cbn in Hf; lia|].
  cbn [seg_fold length]. destruct (break_at sep (x :: s)) as [seg [r|]] eqn:E; [|done].
  apply break_at_Some in E as [E _]. destruct (step _ _ _) as [acc'|]; [|done].
  assert (length r <= length s)%nat.
  { apply (f_equal length) in E. rewrite length_app in E. cbn in E. lia. }
  cbn in Hf. rewrite (IH (length r)) by (cbn; lia).
  symmetry. apply (IH (length r)); cbn; lia.
Qed.

Lemma for_segments_last {A} sep (step : str -> bool -> A -> option A) s acc :
  s <> [] -> sep ∉ s -> for_segments sep step s acc = step s true acc.
Proof.
  intros Hne Hn. unfold for_segments. destruct s as [|x s]; [done|].
  cbn [length seg_fold]. rewrite (break_at_notin _ _ Hn). rewrite bool_decide_eq_true_2 by done.
  by destruct (step _ _ _).
Qed.

Lemma for_segments_app {A} sep (step : str -> bool -> A -> option A) seg r acc :
  sep ∉ seg ->
  for_segments sep step (seg ++ sep :: r) acc =
  step seg false acc ≫= for_segments sep step r.
Proof.
  intros Hn. unfold for_segments at 1.
  destruct (seg ++ sep :: r) as [|x s] eqn:E; [by destruct seg|].
  cbn [length seg_fold]. rewrite <- E, (break_at_app _ _ _ Hn).
  rewrite bool_decide_eq_false_2 by done.
  destruct (step seg false acc) as [acc'|]; [|done]. apply seg_fold_fuel.
  apply (f_equal length) in E. rewrite length_app in E. cbn in E. lia.
Qed.

Lemma split_notin c s : c ∉ s -> split c s = [s].
Proof.
  induction s as [|x s IH]; [done|]. intros Hn. cbn.
  rewrite is_char_ne by set_solver. by rewrite IH by set_solver.
Qed.

Lemma split_app c seg r : c ∉ seg -> split c (seg ++ c :: r) = seg :: split c r.
Proof.
  induction seg as [|x s IH]; intros Hn; cbn.
  { by rewrite is_char_refl. }
  rewrite is_char_ne by set_solver. by rewrite IH by set_solver.
Qed.

Lemma split_nonnil c s : split c s <> [].
Proof.
  destruct s as [|x s]; [done|]. cbn. destruct (is_char x c); [done|]. by destruct (split c s).
Qed.

Lemma join_split c s : join c (split c s) = s.
Proof.
  induction s as [s Hn|seg r Hn IH] using (str_seg_ind c).
  - by rewrite split_notin.
  - rewrite split_app by done. cbn. destruct (split c r) eqn:E; [by apply split_nonnil in E|].
    by rewrite IH.
Qed.

(** No segment contains the separator. *)
Lemma split_elem_notin c s seg : seg ∈ split c s -> c ∉ seg.
Proof.
  induction s as [s Hn|sg r Hn IH] using (str_seg_ind c).
  - rewrite split_notin by done. set_solver.
  - rewrite split_app by done. set_solver.
Qed.

Lemma split_join c segs :
  segs <> [] -> Forall (fun seg => c ∉ seg) segs -> split c (join c segs) = segs.
Proof.
  induction segs as [|seg [|seg' segs] IH]; intros Hne HF; [done| |].
  - apply Forall_cons in HF as [? _]. by apply split_notin.
  - apply Forall_cons in HF as [? HF].
    change (join c (seg :: seg' :: segs)) with (seg ++ c :: join c (seg' :: segs)).
    rewrite split_app by done. by rewrite IH.
Qed.

(** [segments c s]: what the segment loops visit, the split without a trailing
    empty segment (the loop exits when the cursor reaches the end). *)
Definition segments (c : ascii) (s : str) : list str :=
  if bool_decide (last (split c s) = Some []) then removelast (split c s) else split c s.

Lemma segments_nil c : segments c [] = [].
Proof. done. Qed.

Lemma segments_notin c s : s <> [] -> c ∉ s -> segments c s = [s].
Proof.
  intros Hne Hn. unfold segments. rewrite split_notin by done.
  rewrite bool_decide_eq_false_2; [done|]. cbn. congruence.
Qed.

Lemma segments_app c seg r : c ∉ seg -> segments c (seg ++ c :: r) = seg :: segments c r.
Proof.
  intros Hn. unfold segments. rewrite split_app by done.
  destruct (split c r) as [|x l] eqn:E; [by apply split_nonnil in E|].
  rewrite last_cons_cons. case_bool_decide; [|done]. done.
Qed.

Lemma last_split_empty c s : last (split c s) = Some [] <-> s = [] \/ last s = Some c.
Proof.
  induction s as [s Hn|seg r Hn IH] using (str_seg_ind c).
  - rewrite split_notin by done. cbn. split; [naive_solver|].
    intros [->|Hl]; [done|]. apply last_Some in Hl as [l ->]. set_solver.
  - rewrite split_app by done. destruct (split c r) as [|x l] eqn:E; [by apply split_nonnil in E|].
    rewrite last_cons_cons, IH. split.
    + intros [->|Hl]; right; [by rewrite last_snoc|].
      rewrite last_app_cons. destruct r; [done|]. done.
    + intros [Hs|Hl]; [by destruct seg|]. rewrite last_app_cons in Hl.
      destruct r; [by left|right]. done.
Qed.

(** Without a trailing separator the loop visits the whole split. *)
Lemma segments_split c s : s <> [] -> last s <> Some c -> segments c s = split c s.
Proof.
  intros Hne Hl. unfold segments. rewrite bool_decide_eq_false_2; [done|].
  rewrite last_split_empty. naive_solver.
Qed.

Lemma for_segments_forall {A} sep (P : str -> bool) (f : str -> A -> A) s acc :
  for_segments sep (fun seg _ a => if P seg then Some (f seg a) else None) s acc =
  if forallb P (segments sep s)
  then Some (fold_left (fun a seg => f seg a) (segments sep s) acc) else None.
Proof.
  revert acc. induction s as [s Hn|seg r Hn IH] using (str_seg_ind sep); intros acc.
  - destruct (decide (s = [])) as [->|Hne]; [done|].
    rewrite for_segments_last, segments_notin by done. cbn. by destruct (P s).
  - rewrite for_segments_app, segments_app by done. cbn [forallb fold_left].
    destruct (P seg); [|done]. cbn. apply IH.
Qed.

Lemma for_segments_ext {A} sep (step step' : str -> bool -> A -> option A) s acc :
  (forall seg l a, step seg l a = step' seg l a) ->
  for_segments sep step s acc = for_segments sep step' s acc.
Proof.
  intros Hext. revert acc. induction s as [s Hn|seg r Hn IH] using (str_seg_ind sep); intros acc.
  - destruct (decide (s = [])) as [->|Hne]; [done|]. by rewrite !for_segments_last.
  - rewrite !for_segments_app, Hext by done. destruct (step' _ _ _); [apply IH|done].
Qed.

Lemma join_snoc_empty c segs : segs <> [] -> join c (segs ++ [[]]) = join c segs ++ [c].
Proof.
  induction segs as [|seg [|seg' segs] IH]; intros Hne; [done..|].
  change ((seg :: seg' :: segs) ++ [[]]) with (seg :: ((seg' :: segs) ++ [[]])).
  change (join c (seg :: seg' :: segs)) with (seg ++ c :: join c (seg' :: segs)).
  change (join c (seg :: ((seg' :: segs) ++ [[]]))) with
    (seg ++ c :: join c ((seg' :: segs) ++ [[]])).
  rewrite IH by done. by rewrite <- app_assoc.
Qed.

(** The text is its visited segments, joined, plus at most one separator. *)
Lemma segments_join c s :
  s = join c (segments c s) \/ s = join c (segments c s) ++ [c].
Proof.
  unfold segments. case_bool_decide as Hl; [|left; by rewrite join_split].
  apply last_Some in Hl as [l Hl]. rewrite Hl, removelast_last.
  pose proof (join_split c s) as Hj. rewrite Hl in Hj.
  destruct (decide (l = [])) as [->|Hne]; [by left|right].
  by rewrite <- Hj, join_snoc_empty.
Qed.

Lemma segments_of_join c segs :
  segs <> [] -> last segs <> Some [] -> Forall (fun seg => c ∉ seg) segs ->
  segments c (join c segs) = segs.
Proof.
  intros Hne Hl HF. unfold segments. rewrite split_join by done.
  by rewrite bool_decide_eq_false_2.
Qed.

Lemma segments_of_join_sep c segs :
  segs <> [] -> Forall (fun seg => c ∉ seg) segs ->
  segments c (join c segs ++ [c]) = segs.
Proof.
  intros Hne HF. rewrite <- join_snoc_empty by done. unfold segments. rewrite split_join.
  - rewrite last_snoc, bool_decide_eq_true_2 by done. apply removelast_last.
  - by destruct segs.
  - apply Forall_app. split; [done|]. constructor; [apply not_elem_of_nil|constructor].
Qed.

Lemma elem_of_split c s x : x ∈ s -> x = c \/ exists seg, seg ∈ split c s /\ x ∈ seg.
Proof.
  induction s as [s Hn|seg r Hn IH] using (str_seg_ind c); intros Hx.
  - right. exists s. rewrite split_notin by done. set_solver.
  - rewrite split_app by done. set_solver.
Qed.

Lemma elem_of_segments c s x : x ∈ s -> x = c \/ exists seg, seg ∈ segments c s /\ x ∈ seg.
Proof.
  intros Hx. destruct (elem_of_split c s x Hx) as [->|(seg & Hs & Hin)]; [by left|right].
  exists seg. split; [|done]. unfold segments. case_bool_decide as Hl; [|done].
  apply last_Some in Hl as [l Hl]. rewrite Hl in *. rewrite removelast_last.
  apply elem_of_app in Hs as [Hs|Hs]; [done|].
  apply list_elem_of_singleton in Hs as ->. by apply not_elem_of_nil in Hin.
Qed.

(** ** Generic lemmas: prefixes, suffixes and positions *)

Lemma starts_with_spec p s : starts_with p s = true <-> exists t, s = p ++ t.
Proof.
  revert s. induction p as [|a p IH]; intros s; cbn.
  { split; [by exists s|done]. }
  destruct s as [|b s]; [split; [done|intros [t [=]]]|].
  rewrite andb_true_iff, is_char_spec, IH. split.
  - intros [-> [t ->]]. by exists t.
  - intros [t [= -> ->]]. split; [done|]. by exists t.
Qed.

Lemma starts_with_app p t : starts_with p (p ++ t) = true.
Proof. apply starts_with_spec. by exists t. Qed.

Lemma ends_with_spec p s : ends_with p s = true <-> exists t, s = t ++ p.
Proof.
  unfold ends_with. rewrite andb_true_iff, Nat.leb_le, bool_decide_eq_true. split.
  - intros [Hl Hd]. exists (take (length s - length p) s).
    rewrite <- Hd at 2. by rewrite take_drop.
  - intros [t ->]. rewrite length_app. split; [lia|].
    replace (length t + length p - length p)%nat with (length t) by lia.
    by rewrite drop_app_length.
Qed.

Lemma find_char_None c s : find_char c s = None <-> c ∉ s.
Proof.
  induction s as [|x s IH]; cbn.
  { split; [intros _; apply not_elem_of_nil|done]. }
  destruct (is_char x c) eqn:E.
  - apply is_char_spec in E as ->. split; [done|set_solver].
  - apply bool_decide_eq_false in E. rewrite fmap_None, IH. set_solver.
Qed.

Lemma find_char_Some c s i :
  find_char c s = Some i <->
  c ∉ take i s /\ exists r, s = take i s ++ c :: r /\ length (take i s) = i.
Proof.
  revert i. induction s as [|x s IH]; intros i; cbn.
  { split; [done|]. intros (_ & r & E & _). by destruct (take i []). }
  destruct (is_char x c) eqn:E.
  - apply is_char_spec in E as ->. split.
    + intros [= <-]. split; [apply not_elem_of_nil|]. by exists s.
    + intros (Hn & r & Hs & Hl). destruct i; [done|]. cbn in Hn. set_solver.
  - apply bool_decide_eq_false in E. rewrite fmap_Some. split.
    + intros (j & Hj & ->). apply IH in Hj as (Hn & r & Hs & Hl). cbn.
      split; [set_solver|]. exists r. split; [by rewrite <- Hs|]. by f_equal.
    + destruct i as [|i]; intros (Hn & r & Hs & Hl); cbn in *; [by simplify_eq|].
      exists i. split; [|done]. apply IH. split; [set_solver|]. exists r.
      injection Hs as Hs. split; [done|lia].
Qed.

(** [find] and the two [substr] calls around it, as [break_at]. *)
Lemma find_char_break c s :
  find_char c s = match break_at c s with
                  | (seg, Some _) => Some (length seg)
                  | (_, None) => None
                  end.
Proof.
  destruct (break_at c s) as [seg [r|]] eqn:E.
  - apply break_at_Some in E as [-> Hn]. apply find_char_Some.
    rewrite take_app_length. split; [done|]. by exists r.
  - apply break_at_None in E as [-> Hn]. by apply find_char_None.
Qed.

Lemma drop_past (s : str) c r : drop (length s + 1) (s ++ c :: r) = r.
Proof. by rewrite drop_app_add. Qed.

Lemma find_str_Some p s i :
  find_str p s = Some i -> s = take i s ++ p ++ drop (i + length p) s.
Proof.
  revert i. induction s as [|x s IH]; intros i; cbn [find_str].
  - destruct (starts_with p []) eqn:E; [|done]. intros [= <-].
    apply starts_with_spec in E as [t E]. by destruct p.
  - destruct (starts_with p (x :: s)) eqn:E.
    + intros [= <-]. apply starts_with_spec in E as [t ->]. cbn. by rewrite drop_app_length.
    + intros (j & Hj & ->)%fmap_Some. apply IH in Hj. cbn. by rewrite Hj at 1.
Qed.

Lemma contains_char_spec c s : contains_char c s = true <-> c ∈ s.
Proof.
  unfold contains_char. rewrite bool_decide_eq_true, <- not_eq_None_Some.
  rewrite find_char_None. destruct (decide (c ∈ s)); naive_solver.
Qed.

Lemma contains_char_false c s : contains_char c s = false <-> c ∉ s.
Proof. rewrite <- not_true_iff_false, contains_char_spec. done. Qed.

(** ** Generic lemmas: lower-casing commutes with searching for punctuation *)

Lemma elem_of_lower c s : isalnum c = false -> c ∈ ascii_lower s <-> c ∈ s.
Proof.
  intros Hc. unfold ascii_lower. rewrite list_elem_of_fmap. split.
  - intros (x & -> & Hx). assert (tolower x = x) as ->; [|done].
    rewrite isalnum_tolower in Hc. apply byte_val_inj. byte_class.
  - intros Hx. exists c. split; [|done]. apply byte_val_inj. byte_class.
Qed.

Lemma ascii_lower_cons_punct c s : isalnum c = false -> ascii_lower (c :: s) = c :: ascii_lower s.
Proof.
  intros Hc. unfold ascii_lower. csimpl. f_equal. apply byte_val_inj. byte_class.
Qed.

Lemma for_segments_lower {A} sep (step : str -> bool -> A -> option A) s acc :
  isalnum sep = false ->
  for_segments sep step (ascii_lower s) acc =
  for_segments sep (fun seg l a => step (ascii_lower seg) l a) s acc.
Proof.
  intros Hsep. revert acc.
  induction s as [s Hn|seg r Hn IH] using (str_seg_ind sep); intros acc.
  - destruct (decide (s = [])) as [->|Hne]; [done|].
    rewrite !for_segments_last; [done|done|done|by destruct s|by rewrite elem_of_lower].
  - rewrite ascii_lower_app, ascii_lower_cons_punct by done.
    rewrite !for_segments_app; [|done|by rewrite elem_of_lower].
    destruct (step _ _ _); [apply IH|done].
Qed.

Lemma starts_with_lower p s :
  forallb (fun c => negb (isalnum c)) p = true ->
  starts_with p (ascii_lower s) = starts_with p s.
Proof.
  revert s. induction p as [|a p IH]; intros s Hp; [done|]. cbn in Hp. bool_to_prop.
  destruct s as [|b s]; [done|]. unfold ascii_lower. csimpl. f_equal.
  - unfold is_char. rewrite (bool_decide_ext (a = tolower b) (tolower b = a)) by naive_solver.
    rewrite (bool_decide_ext (a = b) (b = a)) by naive_solver. by apply is_char_tolower.
  - by apply IH.
Qed.

Lemma find_str_lower p s :
  forallb (fun c => negb (isalnum c)) p = true ->
  find_str p (ascii_lower s) = find_str p s.
Proof.
  intros Hp. induction s as [|x s IH]; [done|]. cbn [find_str].
  pose proof (starts_with_lower p (x :: s) Hp) as Hs. unfold ascii_lower in *. csimpl.
  cbn [find_str]. cbn [fmap list_fmap] in Hs. rewrite <- Hs, <- IH. done.
Qed.

Lemma contains_char_lower c s :
  isalnum c = false -> contains_char c (ascii_lower s) = contains_char c s.
Proof.
  intros Hc. apply eq_iff_eq_true. rewrite !contains_char_spec. by apply elem_of_lower.
Qed.

Lemma split_lower c s :
  isalnum c = false -> split c (ascii_lower s) = ascii_lower <$> split c s.
Proof.
  intros Hc. induction s as [s Hn|seg r Hn IH] using (str_seg_ind c).
  - rewrite !split_notin; [done|done|by rewrite elem_of_lower].
  - rewrite ascii_lower_app, ascii_lower_cons_punct by done.
    rewrite !split_app; [|done|by rewrite elem_of_lower]. by rewrite IH.
Qed.

Lemma last_lower c s :
  isalnum c = false -> last (ascii_lower s) = Some c <-> last s = Some c.
Proof.
  intros Hc. unfold ascii_lower. rewrite fmap_last, fmap_Some. split.
  - intros (x & -> & ->). f_equal. rewrite isalnum_tolower in Hc. apply byte_val_inj. byte_class.
  - intros ->. exists c. split; [done|]. apply byte_val_inj. byte_class.
Qed.

Lemma head_lower c s :
  isalnum c = false -> head (ascii_lower s) = Some c <-> head s = Some c.
Proof.
  intros Hc. destruct s as [|x s]; [done|]. unfold ascii_lower. csimpl. split; intros [= H].
  - f_equal. rewrite <- H, isalnum_tolower in Hc. apply byte_val_inj.
    apply (f_equal byte_val) in H. byte_class.
  - f_equal. rewrite H. apply byte_val_inj. byte_class.
Qed.

(** ** Generic lemmas: decimal numbers *)

Lemma dec_value_app s c : dec_value (s ++ [c]) = dec_value s * 10 + digit_val c.
Proof. unfold dec_value. by rewrite fold_left_app. Qed.

Lemma dec_value_nonneg s : forallb isdigit s = true -> 0 <= dec_value s.
Proof.
  induction s as [|c s IH] using rev_ind; [done|]. rewrite forallb_app, dec_value_app.
  cbn. intros H. bool_to_prop. unfold digit_val. specialize (IH ltac:(done)).
  unfold isdigit in *. bool_to_prop. lia.
Qed.

Lemma take_digits_spec s d t :
  take_digits s = (d, t) ->
  s = d ++ t /\ forallb isdigit d = true /\ (forall x, head t = Some x -> isdigit x = false).
Proof.
  revert d t. induction s as [|x r IH]; cbn; intros d t.
  { intros [= <- <-]. by split_and!. }
  destruct (isdigit x) eqn:E.
  - destruct (take_digits r) as [d' t'] eqn:Et. intros [= <- <-].
    destruct (IH d' t' eq_refl) as (-> & Hd & Ht). cbn. rewrite E. by split_and!.
  - intros [= <- <-]. split_and!; [done..|]. cbn. by intros y [= ->].
Qed.

Lemma take_digits_all s : forallb isdigit s = true -> take_digits s = (s, []).
Proof.
  induction s as [|x r IH]; [done|]. cbn. intros H. bool_to_prop.
  rewrite H. by rewrite IH.
Qed.

(** ** Hints *)

#[export] Hint Resolve tolower_idemp isalnum_tolower isxdigit_tolower isdigit_tolower
  outside_graph_tolower is_char_refl starts_with_app : ws.
#[export] Hint Rewrite ascii_lower_idemp ascii_lower_length ascii_lower_app is_char_refl : ws.

(** ** Numbers as text *)

(** The characters of a decimal number. *)
Definition number_char (c : ascii) : bool := isdigit c || is_char c "." || is_char c "-".

Lemma pretty_N_go_digits x s :
  forallb number_char (String.list_ascii_of_string s) = true ->
  forallb number_char (String.list_ascii_of_string (pretty_N_go x s)) = true.
Proof.
  revert s. induction (N.lt_wf_0 x) as [x _ IH]; intros s Hs.
  assert (x = 0 \/ 0 < x)%N as [->|Hx] by lia; [by rewrite pretty_N_go_0|].
  rewrite pretty_N_go_step by done. apply IH; [by apply N.div_lt|].
  cbn. rewrite Hs, andb_true_r. assert (x mod 10 < 10)%N as Hm by (by apply N.mod_lt).
  revert Hm. generalize (x mod 10)%N as d. intros d Hd.
  assert (d = 0 \/ d = 1 \/ d = 2 \/ d = 3 \/ d = 4 \/ d = 5 \/ d = 6 \/ d = 7 \/ d = 8 \/ d = 9)%N
    as Hc by lia.
  by repeat destruct Hc as [->|Hc]; subst.
Qed.

Lemma pretty_N_digits (x : N) : forallb number_char (String.list_ascii_of_string (pretty x)) = true.
Proof.
  unfold pretty, pretty_N. case_decide; [done|]. by apply pretty_N_go_digits.
Qed.

Lemma to_string_number z : forallb number_char (to_string z) = true.
Proof.
  unfold to_string. destruct z; [done| |]; cbn; apply (pretty_N_digits (N.pos _)).
Qed.

Lemma to_string_nonempty z : to_string z <> [].
Proof.
  assert (Hn : forall n : N, String.list_ascii_of_string (pretty n) <> []).
  { intros n. unfold pretty, pretty_N. case_decide as Hn; [done|].
    rewrite pretty_N_go_step by lia.
    assert (Hgo : forall x s, s <> String.EmptyString -> pretty_N_go x s <> String.EmptyString).
    { intros x. induction (N.lt_wf_0 x) as [x _ IH]; intros s Hs.
      assert (x = 0 \/ 0 < x)%N as [->|Hx] by lia; [by rewrite pretty_N_go_0|].
      rewrite pretty_N_go_step by done. apply IH; [by apply N.div_lt|done]. }
    specialize (Hgo (n `div` 10)%N (String.String (pretty_N_char (n mod 10)) "") ltac:(done)).
    by destruct (pretty_N_go _ _). }
  unfold to_string. destruct z; [done|apply (Hn (N.pos _))|done].
Qed.

#[export] Instance to_string_inj : Inj (=) (=) to_string.
Proof.
  intros x y E%(f_equal String.string_of_list_ascii). unfold to_string in E.
  rewrite !String.string_of_list_ascii_of_string in E. by apply (inj pretty).
Qed.
