(* ===== verification/IpAddress.v ===== *)
(** * IP addresses and prefix masks

    [boost::asio::ip::address] as data, the two Boost functions between
    addresses and text as an interface ([AddressText]), and the bit-level facts
    shared by the two CIDR matchers of the program (ClientIpResolver.cpp and
    RequestPolicy.cpp). *)

From S2P Require Import Prelude.

(** An IPv4 address is its 32-bit value ([to_uint]); an IPv6 address its 16
    bytes ([to_bytes]) and its scope identifier. *)
Inductive address :=
| V4 (value : Z)
| V6 (bytes : list Z) (scope_id : Z).

#[export] Instance address_eq_dec : EqDecision address.
Proof. solve_decision. Defined.

Definition is_v4 (a : address) : bool := match a with V4 _ => true | V6 _ _ => false end.
Definition to_v4_uint (a : address) : Z := match a with V4 v => v | V6 _ _ => 0 end.
Definition to_v6_bytes (a : address) : list Z := match a with V4 _ => [] | V6 b _ => b end.

Definition byte_range (b : Z) : Prop := 0 <= b < 256.
Definition address_wf (a : address) : Prop :=
  match a with
  | V4 v => 0 <= v < 2 ^ 32
  | V6 b _ => length b = 16%nat /\ Forall byte_range b
  end.

(** [make_address(text, error)] and [address::to_string()]. *)
Class AddressText := {
  make_address : str -> option address;
  address_to_string : address -> str
}.

(** A parsed address is a 32-bit value or 16 octets. *)
Class AddressTextLaws `{AddressText} : Prop :=
  make_address_wf s a : make_address s = Some a -> address_wf a.

(** ** Numeric value of an address *)

(** Big-endian value of a byte list. *)
Definition be_value (b : list Z) : Z := fold_left (fun v x => v * 256 + x) b 0.

Definition addr_width (a : address) : Z := if is_v4 a then 32 else 128.
Definition addr_value (a : address) : Z :=
  match a with V4 v => v | V6 b _ => be_value b end.

(** [same_prefix p a b]: same family, and the [p] leading bits agree. *)
Definition same_prefix (p : Z) (a b : address) : Prop :=
  is_v4 a = is_v4 b /\
  Z.shiftr (addr_value a) (addr_width a - p) = Z.shiftr (addr_value b) (addr_width b - p).

(** ** Masks *)

(** Masking with the top [p] of [w] bits compares the leading [p] bits. *)
Lemma land_top_mask w p x y :
  0 < p <= w -> 0 <= x < 2 ^ w -> 0 <= y < 2 ^ w ->
  let mask := wrap_u w (Z.shiftl (2 ^ w - 1) (w - p)) in
  Z.land x mask = Z.land y mask <-> Z.shiftr x (w - p) = Z.shiftr y (w - p).
Proof.
  intros Hp Hx Hy. cbn zeta.
  assert (Hbit : forall z i, 0 <= z < 2 ^ w -> w <= i -> Z.testbit z i = false).
  { intros z i [Hz0 Hz] Hi. destruct (decide (z = 0)) as [->|]; [apply Z.bits_0|].
    apply Z.bits_above_log2; [lia|]. apply Z.log2_lt_pow2; [lia|].
    eapply Z.lt_le_trans; [exact Hz|]. apply Z.pow_le_mono_r; lia. }
  assert (Hmask : forall i, 0 <= i ->
    Z.testbit (wrap_u w (Z.shiftl (2 ^ w - 1) (w - p))) i = (w - p <=? i) && (i <? w)).
  { intros i Hi. unfold wrap_u. replace (2 ^ w - 1) with (Z.ones w) by (rewrite Z.ones_equiv; lia).
    destruct (i <? w) eqn:Ei; bool_to_prop.
    - rewrite Z.mod_pow2_bits_low, Z.shiftl_spec by lia. rewrite andb_true_r.
      destruct (w - p <=? i) eqn:E; bool_to_prop.
      + apply Z.ones_spec_low. lia.
      + apply Z.testbit_neg_r. lia.
    - rewrite Z.mod_pow2_bits_high by lia. by rewrite andb_false_r. }
  split; intros H.
  - apply Z.bits_inj'. intros i Hi. rewrite !Z.shiftr_spec by lia.
    destruct (decide (w <= i + (w - p))).
    + by rewrite !Hbit by lia.
    + apply (f_equal (fun z => Z.testbit z (i + (w - p)))) in H.
      rewrite !Z.land_spec, Hmask in H by lia.
      replace (w - p <=? i + (w - p)) with true in H by (symmetry; lia).
      replace (i + (w - p) <? w) with true in H by (symmetry; lia).
      by rewrite !andb_true_r in H.
  - apply Z.bits_inj'. intros i Hi. rewrite !Z.land_spec, Hmask by lia.
    destruct (w - p <=? i) eqn:E; bool_to_prop; [|by rewrite !andb_false_r].
    apply (f_equal (fun z => Z.testbit z (i - (w - p)))) in H.
    rewrite !Z.shiftr_spec in H by lia. replace (i - (w - p) + (w - p)) with i in H by lia.
    by rewrite H.
Qed.

Lemma be_value_snoc l x : be_value (l ++ [x]) = be_value l * 256 + x.
Proof. unfold be_value. by rewrite fold_left_app. Qed.

Lemma be_value_app l1 l2 :
  be_value (l1 ++ l2) = be_value l1 * 256 ^ Z.of_nat (length l2) + be_value l2.
Proof.
  induction l2 as [|x l2 IH] using rev_ind.
  - rewrite app_nil_r. cbn. lia.
  - rewrite app_assoc, !be_value_snoc, IH, length_app, Nat2Z.inj_add, Z.pow_add_r by lia. cbn [length]. lia.
Qed.

Lemma be_value_range l : Forall byte_range l -> 0 <= be_value l < 256 ^ Z.of_nat (length l).
Proof.
  induction l as [|x l IH] using rev_ind; [done|]. intros [HF Hx]%Forall_app.
  apply Forall_cons in Hx as [Hx _]. specialize (IH HF). unfold byte_range in Hx.
  rewrite be_value_app, length_app, Nat2Z.inj_add, Z.pow_add_r by lia.
  change (be_value [x]) with x. cbn [length]. change (256 ^ Z.of_nat 1) with 256. lia.
Qed.

Lemma be_value_inj l1 l2 :
  length l1 = length l2 -> Forall byte_range l1 -> Forall byte_range l2 ->
  be_value l1 = be_value l2 -> l1 = l2.
Proof.
  revert l2. induction l1 as [|x l1 IH] using rev_ind; intros l2 Hl H1 H2 He.
  { by destruct l2. }
  destruct l2 as [|y l2 _] using rev_ind; [rewrite length_app in Hl; cbn in Hl; lia|].
  rewrite !length_app in Hl. cbn in Hl.
  apply Forall_app in H1 as [H1 Hx]. apply Forall_app in H2 as [H2 Hy].
  apply Forall_cons in Hx as [Hx _]. apply Forall_cons in Hy as [Hy _]. unfold byte_range in *.
  rewrite !be_value_app in He. change (be_value [x]) with x in He. change (be_value [y]) with y in He.
  cbn [length] in He. change (256 ^ Z.of_nat 1) with 256 in He.
  assert (x = y) as -> by lia. f_equal. apply IH; try done; lia.
Qed.

(** The leading [8k] bits of a byte list are its first [k] bytes. *)
Lemma be_value_shiftr l1 l2 :
  Forall byte_range l2 ->
  Z.shiftr (be_value (l1 ++ l2)) (8 * Z.of_nat (length l2)) = be_value l1.
Proof.
  intros H2. rewrite be_value_app, Z.shiftr_div_pow2 by lia.
  pose proof (be_value_range l2 H2) as Hr. rewrite Z.pow_mul_r by lia.
  change (2 ^ 8) with 256. rewrite Z.div_add_l by lia. rewrite Z.div_small by lia. lia.
Qed.
