(* ===== verification/HostNormalizer.v ===== *)
(** * Host normalisation (src/src/routing/HostNormalizer.cpp)

    [HostNormalizer::normalize_authority] and [normalize_domain]: the only
    gate through which a Host header, an SNI name, a site domain, a policy host
    pattern and a backend address pass.  The file holds the C++ helpers in
    source order, a declarative grammar of the accepted DNS names, ports and
    IPv6 literals ([dns_name], [port_text], [ipv6_literal]) and the proof that
    the code accepts exactly that grammar and returns the lower-cased host. *)

From S2P Require Import Prelude.

(** ** The code *)

(** [valid_port]: the digit loop with its [uint32_t] accumulator. *)
Fixpoint valid_port_loop (port : str) (value : Z) : bool :=
  match port with
  | [] => true
  | character :: port' =>
      if negb (isdigit character) then false
      else
        let value := u32 (u32 (value * 10) + u32 (byte_val character - 48)) in
        if 65535 <? value then false else valid_port_loop port' value
  end.
Definition valid_port (port : str) : bool :=
  if bool_decide (port = []) then false else valid_port_loop port 0.

(** The inner loop of [valid_ipv4_address]: [None] is [return false]. *)
Fixpoint ipv4_component_value (component : str) (value : Z) : option Z :=
  match component with
  | [] => Some value
  | character :: component' =>
      if negb (isdigit character) then None
      else ipv4_component_value component'
             (u32 (u32 (value * 10) + u32 (byte_val character - 48)))
  end.

Definition ipv4_step (component : str) (last : bool) (component_count : nat) : option nat :=
  if bool_decide (component = []) || (3 <? length component)%nat then None
  else match ipv4_component_value component 0 with
       | None => None
       | Some value => if 255 <? value then None else Some (S component_count)
       end.

Definition valid_ipv4_address (address : str) : bool :=
  match for_segments "." ipv4_step address 0%nat with
  | None => false
  | Some component_count => (component_count =? 4)%nat
  end.

(** [count_ipv6_groups]: the updated group count, [None] for [return false]. *)
Definition ipv6_step (allow_ipv4_tail : bool) (group : str) (last : bool) (group_count : Z)
    : option Z :=
  if bool_decide (group = []) then None
  else if contains_char "." group then
    if negb allow_ipv4_tail || negb last || negb (valid_ipv4_address group) then None
    else Some (group_count + 2)
  else
    if (4 <? length group)%nat || negb (forallb isxdigit group) then None
    else Some (group_count + 1).

Definition count_ipv6_groups (sequence : str) (group_count : Z) (allow_ipv4_tail : bool)
    : option Z :=
  if bool_decide (sequence = []) then Some group_count
  else if bool_decide (last sequence = Some ":"%char) then None
  else for_segments ":" (ipv6_step allow_ipv4_tail) sequence group_count.

Definition valid_ipv6_literal (literal : str) : bool :=
  if bool_decide (literal = []) then false
  else
    match find_str b!"::" literal with
    | None =>
        match count_ipv6_groups literal 0 true with
        | Some group_count => group_count =? 8
        | None => false
        end
    | Some compression =>
        if contains_str b!"::" (drop (compression + 2) literal) then false
        else
          match count_ipv6_groups (substr literal 0 compression) 0 false with
          | None => false
          | Some group_count =>
              match count_ipv6_groups (drop (compression + 2) literal) group_count true with
              | None => false
              | Some group_count => group_count <? 8
              end
          end
    end.

Definition dns_label_char (character : ascii) : bool :=
  isalnum character || is_char character "-".

Definition dns_step (label : str) (is_last : bool) (_ : unit) : option unit :=
  if bool_decide (label = []) || (63 <? length label)%nat
     || bool_decide (head label = Some "-"%char) || bool_decide (last label = Some "-"%char)
  then None
  else if negb (forallb dns_label_char label) then None
  else Some tt.

Definition valid_dns_name (host : str) : bool :=
  if bool_decide (host = []) || (253 <? length host)%nat
     || bool_decide (last host = Some "."%char)
  then false
  else match for_segments "." dns_step host tt with Some _ => true | None => false end.

(** [normalize]: the bracketed and the plain branch, then the lower-casing. *)
Definition normalize_bracketed (authority : str) (allow_port : bool) : option str :=
  match find_char "]" authority with
  | None => None
  | Some closing_bracket =>
      let host := substr authority 1 (closing_bracket - 1) in
      let remainder := drop (closing_bracket + 1) authority in
      if negb (bool_decide (remainder = [])) &&
         (negb allow_port || negb (bool_decide (head remainder = Some ":"%char))
          || negb (valid_port (drop 1 remainder)))
      then None
      else if negb (valid_ipv6_literal host) then None
      else Some host
  end.

Definition strip_trailing_dot (host : str) : str :=
  if negb (bool_decide (host = [])) && bool_decide (last host = Some "."%char)
  then take (length host - 1) host else host.

Definition checked_dns_host (host : str) : option str :=
  let host := strip_trailing_dot host in
  if negb (valid_dns_name host) then None else Some host.

Definition normalize_plain (authority : str) (allow_port : bool) : option str :=
  let host :=
    match find_char ":" authority with
    | None => Some authority
    | Some colon =>
        if negb allow_port || bool_decide (is_Some (find_char_from ":" (colon + 1) authority))
        then None
        else if negb (valid_port (drop (colon + 1) authority)) then None
        else Some (substr authority 0 colon)
    end in
  match host with
  | None => None
  | Some host => checked_dns_host host
  end.

Definition normalize (authority : str) (allow_port : bool) : option str :=
  if bool_decide (authority = []) then None
  else if existsb outside_graph authority then None
  else
    let host := if bool_decide (head authority = Some "["%char)
                then normalize_bracketed authority allow_port
                else normalize_plain authority allow_port in
    ascii_lower <$> host.

Definition normalize_authority (authority : str) : option str := normalize authority true.
Definition normalize_domain (domain : str) : option str := normalize domain false.

(** Runs of the code. *)
Example normalize_ex1 : normalize_authority b!"Example.COM:8080" = Some b!"example.com".
Proof. vm_compute. reflexivity. Qed.
Example normalize_ex2 : normalize_authority b!"[::FFFF:1.2.3.4]:443" = Some b!"::ffff:1.2.3.4".
Proof. vm_compute. reflexivity. Qed.
Example normalize_ex3 : normalize_domain b!"example.com:80" = None.
Proof. vm_compute. reflexivity. Qed.
Example normalize_ex4 : normalize_authority b!"a..b" = None.
Proof. vm_compute. reflexivity. Qed.
Example normalize_ex5 : normalize_authority b!"[::1.2.3.4.]" = Some b!"::1.2.3.4.".
Proof. vm_compute. reflexivity. Qed.

(** ** What each check accepts *)

(** Digit accumulators: [fold_left] from an arbitrary start. *)
Lemma dec_fold_ge s v :
  forallb isdigit s = true -> 0 <= v ->
  v <= fold_left (fun v c => v * 10 + digit_val c) s v.
Proof.
  revert v. induction s as [|c s IH]; intros v Hd Hv; cbn in *; [lia|].
  bool_to_prop. unfold isdigit, digit_val in *. bool_to_prop.
  etransitivity; [|apply IH; [done|lia]]. lia.
Qed.

Lemma u32_digit_step v c :
  isdigit c = true -> 0 <= v -> v * 10 + 9 < 2 ^ 32 ->
  u32 (u32 (v * 10) + u32 (byte_val c - 48)) = v * 10 + digit_val c.
Proof.
  unfold isdigit, digit_val, u32, wrap_u. intros Hc Hv Hb. bool_to_prop.
  rewrite !Z.mod_small; rewrite ?Z.mod_small; lia.
Qed.

Lemma valid_port_loop_spec p v :
  0 <= v <= 65535 ->
  valid_port_loop p v = true <->
  forallb isdigit p = true /\ fold_left (fun v c => v * 10 + digit_val c) p v <= 65535.
Proof.
  revert v. induction p as [|c p IH]; intros v Hv; cbn [valid_port_loop forallb fold_left].
  { split; [intros _; split; [done|lia]|done]. }
  destruct (isdigit c) eqn:Ec; cbn [negb]; [|naive_solver].
  rewrite u32_digit_step by (done || lia).
  assert (0 <= digit_val c <= 9) by (unfold isdigit, digit_val in *; bool_to_prop; lia).
  destruct (65535 <? v * 10 + digit_val c) eqn:E; bool_to_prop.
  - split; [done|]. intros [Hd Hle].
    pose proof (dec_fold_ge p (v * 10 + digit_val c) Hd). lia.
  - apply IH. lia.
Qed.

(** A decimal port in range; the number of leading zeros is not limited. *)
Definition port_text (p : str) : Prop :=
  p <> [] /\ forallb isdigit p = true /\ dec_value p <= 65535.

Lemma valid_port_spec p : valid_port p = true <-> port_text p.
Proof.
  unfold valid_port, port_text, dec_value. case_bool_decide; [naive_solver|].
  rewrite valid_port_loop_spec by lia. naive_solver.
Qed.

(** An octet of a dotted quad. *)
Definition ipv4_octet (c : str) : bool :=
  negb (bool_decide (c = [])) && (length c <=? 3)%nat && forallb isdigit c
  && (dec_value c <=? 255).

Lemma ipv4_octet_digits c : ipv4_octet c = true -> c <> [] /\ forallb isdigit c = true.
Proof. unfold ipv4_octet. intros H. by bool_to_prop. Qed.

Lemma ipv4_component_value_spec c v :
  0 <= v -> (v + 1) * 10 ^ Z.of_nat (length c) < 2 ^ 32 ->
  ipv4_component_value c v =
  if forallb isdigit c then Some (fold_left (fun v c => v * 10 + digit_val c) c v) else None.
Proof.
  revert v. induction c as [|x c IH]; intros v Hv Hb; [done|].
  cbn [ipv4_component_value forallb fold_left length] in *.
  destruct (isdigit x) eqn:Ex; [|done]. cbn [negb andb].
  rewrite Nat2Z.inj_succ, Z.pow_succ_r in Hb by lia.
  assert (1 <= 10 ^ Z.of_nat (length c)) by (apply (Z.pow_le_mono_r 10 0); lia).
  rewrite u32_digit_step by (done || nia).
  assert (0 <= digit_val x <= 9) by (unfold isdigit, digit_val in *; bool_to_prop; lia).
  apply IH; [lia|]. nia.
Qed.

Lemma ipv4_step_spec c l n :
  ipv4_step c l n = if ipv4_octet c then Some (S n) else None.
Proof.
  unfold ipv4_step, ipv4_octet, dec_value. case_bool_decide; [done|]. cbn [negb andb orb].
  rewrite Nat.leb_antisym. destruct (3 <? length c)%nat eqn:E; [done|]. bool_to_prop.
  rewrite ipv4_component_value_spec; [| lia |].
  - destruct (forallb isdigit c); [|done]. cbn [negb andb]. rewrite Z.leb_antisym.
    by destruct (255 <? _).
  - assert (10 ^ Z.of_nat (length c) <= 10 ^ 3) by (apply Z.pow_le_mono_r; lia). lia.
Qed.

Lemma valid_ipv4_segments s :
  valid_ipv4_address s =
  forallb ipv4_octet (segments "." s) && (length (segments "." s) =? 4)%nat.
Proof.
  unfold valid_ipv4_address.
  rewrite (for_segments_ext _ _ _ _ _ ipv4_step_spec), for_segments_forall.
  destruct (forallb ipv4_octet (segments "." s)); [|done]. cbn [andb]. f_equal.
  generalize (segments "." s). intros l.
  cut (forall n, fold_left (fun a _ => S a) l n = n + length l)%nat; [by intros ->|].
  induction l as [|x l IH]; intros n; cbn; [lia|]. rewrite IH. lia.
Qed.

(** A DNS label and a DNS name, by the split at the dots. *)
Definition dns_label (l : str) : Prop :=
  l <> [] /\ (length l <= 63)%nat /\ head l <> Some "-"%char /\ last l <> Some "-"%char
  /\ forallb dns_label_char l = true.
Definition dns_name (h : str) : Prop :=
  h <> [] /\ (length h <= 253)%nat /\ Forall dns_label (split "." h).

#[export] Instance dns_label_dec l : Decision (dns_label l) := _.
#[export] Instance dns_name_dec h : Decision (dns_name h) := _.

Lemma dns_step_spec l is_last u :
  dns_step l is_last u = if bool_decide (dns_label l) then Some tt else None.
Proof.
  unfold dns_step. destruct (bool_decide (dns_label l)) eqn:E.
  - apply bool_decide_eq_true in E as (? & ? & ? & ? & Hc).
    rewrite !bool_decide_eq_false_2 by done. rewrite (proj2 (Nat.ltb_ge _ _)) by lia.
    by rewrite Hc.
  - apply bool_decide_eq_false in E.
    destruct (bool_decide (l = [])) eqn:E1; [done|].
    destruct (63 <? length l)%nat eqn:E2; [done|].
    destruct (bool_decide (head l = _)) eqn:E3; [done|].
    destruct (bool_decide (last l = _)) eqn:E4; [done|].
    destruct (forallb dns_label_char l) eqn:E5; [|done].
    exfalso. apply E. bool_to_prop. unfold dns_label. split_and!; try done; lia.
Qed.

Lemma valid_dns_name_spec h : valid_dns_name h = true <-> dns_name h.
Proof.
  unfold valid_dns_name, dns_name.
  rewrite (for_segments_ext _ _ _ _ _ dns_step_spec).
  rewrite (for_segments_forall _ (fun l => bool_decide (dns_label l)) (fun _ _ => tt)).
  destruct (bool_decide (h = [])) eqn:E1; bool_to_prop; [naive_solver|].
  destruct (253 <? length h)%nat eqn:E2; bool_to_prop; cbn [orb].
  { split; [done|]. lia. }
  destruct (bool_decide (last h = _)) eqn:E3; bool_to_prop.
  - split; [done|]. intros (_ & _ & HF).
    assert (last (split "." h) = Some []) as Hl by (apply last_split_empty; by right).
    apply last_Some in Hl as [l Hl]. rewrite Hl in HF.
    apply Forall_app in HF as [_ HF]. apply Forall_cons in HF as [[? _] _]. done.
  - rewrite segments_split by done. split.
    + intros H. split; [done|]. split; [lia|]. destruct (forallb _ _) eqn:EF; [|done].
      rewrite Forall_forall. intros x Hx. apply forallb_forall with (x := x) in EF.
      * by apply bool_decide_eq_true in EF.
      * by apply list_elem_of_In.
    + intros (_ & _ & HF). rewrite (proj2 (forallb_forall _ _)); [done|].
      intros x Hx. apply bool_decide_eq_true. rewrite Forall_forall in HF.
      by apply HF, list_elem_of_In.
Qed.

(** ** Characters of accepted hosts *)

Definition ipv6_char (c : ascii) : bool := isxdigit c || is_char c ":" || is_char c ".".

Lemma ipv4_chars s c : valid_ipv4_address s = true -> c ∈ s -> ipv6_char c = true.
Proof.
  rewrite valid_ipv4_segments. intros H Hc. bool_to_prop.
  destruct (elem_of_segments "." s c Hc) as [->|(seg & Hseg & Hin)]; [done|].
  apply forallb_forall with (x := seg) in H; [|by apply list_elem_of_In].
  apply ipv4_octet_digits in H as [_ Hd]. rewrite forallb_elem in Hd.
  unfold ipv6_char, isxdigit. by rewrite Hd.
Qed.

Lemma ipv6_step_chars allow g l n m c :
  ipv6_step allow g l n = Some m -> c ∈ g -> ipv6_char c = true.
Proof.
  unfold ipv6_step. case_bool_decide; [done|].
  destruct (contains_char "." g).
  - destruct (negb allow || negb l || negb (valid_ipv4_address g)) eqn:E; [done|].
    intros _ Hc. bool_to_prop. by eapply ipv4_chars.
  - destruct (forallb isxdigit g) eqn:E; [|by rewrite orb_true_r]. intros _ Hc.
    rewrite forallb_elem in E. unfold ipv6_char. by rewrite E.
Qed.

Lemma ipv6_groups_chars allow s n m c :
  count_ipv6_groups s n allow = Some m -> c ∈ s -> ipv6_char c = true.
Proof.
  unfold count_ipv6_groups. case_bool_decide as Hs; [subst; set_solver|].
  case_bool_decide; [done|]. clear H Hs. revert n.
  induction s as [s Hn|seg r Hn IH] using (str_seg_ind ":"); intros n Hm Hc.
  - destruct (decide (s = [])) as [->|Hne]; [set_solver|].
    rewrite for_segments_last in Hm by done. by eapply ipv6_step_chars.
  - rewrite for_segments_app in Hm by done.
    destruct (ipv6_step allow seg false n) as [n'|] eqn:E; [|done].
    apply elem_of_app in Hc as [Hc|Hc]; [by eapply ipv6_step_chars|].
    apply elem_of_cons in Hc as [->|Hc]; [done|]. by eapply IH.
Qed.

Lemma ipv6_literal_chars s c : valid_ipv6_literal s = true -> c ∈ s -> ipv6_char c = true.
Proof.
  unfold valid_ipv6_literal. case_bool_decide; [done|].
  destruct (find_str b!"::" s) as [i|] eqn:Ei.
  - destruct (contains_str _ _); [done|].
    destruct (count_ipv6_groups (substr s 0 i) 0 false) as [n|] eqn:E1; [|done].
    destruct (count_ipv6_groups (drop (i + 2) s) n true) as [m|] eqn:E2; [|done].
    intros _. apply find_str_Some in Ei. rewrite Ei. rewrite !elem_of_app.
    intros [Hc|[Hc|Hc]]; [exact (ipv6_groups_chars _ _ _ _ _ E1 Hc)| |
      exact (ipv6_groups_chars _ _ _ _ _ E2 Hc)].
    change b!"::" with [":"; ":"]%char in Hc. assert (c = ":"%char) as -> by set_solver. done.
  - destruct (count_ipv6_groups s 0 true) as [n|] eqn:E1; [|done].
    intros _ Hc. by eapply ipv6_groups_chars.
Qed.

Lemma dns_name_chars h c : dns_name h -> c ∈ h -> dns_label_char c || is_char c "." = true.
Proof.
  intros (_ & _ & HF) Hc. destruct (elem_of_split "." h c Hc) as [->|(seg & Hseg & Hin)]; [done|].
  rewrite Forall_forall in HF. destruct (HF seg Hseg) as (_ & _ & _ & _ & Ha).
  rewrite forallb_elem in Ha. by rewrite Ha.
Qed.

(** ** The accepted authorities *)

Inductive port_suffix (allow_port : bool) : str -> Prop :=
| no_port : port_suffix allow_port []
| with_port p : allow_port = true -> port_text p -> port_suffix allow_port (":"%char :: p).

(** [authority_form allow a h]: the authority text [a] names the host [h]. *)
Inductive authority_form (allow_port : bool) : str -> str -> Prop :=
| form_dns h dot suffix :
    dns_name h -> dot = [] \/ dot = ["."%char] -> port_suffix allow_port suffix ->
    authority_form allow_port (h ++ dot ++ suffix) h
| form_ipv6 literal suffix :
    valid_ipv6_literal literal = true -> port_suffix allow_port suffix ->
    authority_form allow_port ("["%char :: literal ++ "]"%char :: suffix) literal.

(** Class facts about single characters. *)
Lemma dns_char_graph c :
  dns_label_char c || is_char c "." = true ->
  outside_graph c = false /\ c <> ":"%char /\ c <> "["%char.
Proof.
  unfold dns_label_char. intros H. rewrite !orb_true_iff in H.
  destruct H as [[H|H]|H]; [|apply is_char_spec in H as ->; by vm_compute..].
  split; [byte_class|]. split; intros ->; by vm_compute in H.
Qed.

Lemma ipv6_char_graph c :
  ipv6_char c = true -> outside_graph c = false /\ c <> "]"%char.
Proof.
  unfold ipv6_char. intros H. rewrite !orb_true_iff in H.
  destruct H as [[H|H]|H]; [|apply is_char_spec in H as ->; by vm_compute..].
  split; [byte_class|]. intros ->. by vm_compute in H.
Qed.

Lemma port_text_graph p c : port_text p -> c ∈ p -> outside_graph c = false /\ c <> ":"%char.
Proof.
  intros (_ & Hd & _) Hc. rewrite forallb_elem in Hd. specialize (Hd c Hc).
  split; [byte_class|]. intros ->. by vm_compute in Hd.
Qed.

(** ** Equivalence of the code with the grammar *)

Lemma dns_name_last h : dns_name h -> last h <> Some "."%char.
Proof.
  intros H. apply valid_dns_name_spec in H. unfold valid_dns_name in H.
  intros Hl. rewrite (bool_decide_eq_true_2 _ Hl), orb_true_r in H. done.
Qed.

Lemma strip_trailing_dot_app host :
  host = strip_trailing_dot host \/ host = strip_trailing_dot host ++ ["."%char].
Proof.
  unfold strip_trailing_dot. case_bool_decide; cbn [negb andb]; [by left|].
  case_bool_decide as Hl; [right|by left].
  apply last_Some in Hl as [l ->]. rewrite length_app. cbn.
  replace (length l + 1 - 1)%nat with (length l) by lia. by rewrite take_app_length.
Qed.

Lemma strip_trailing_dot_name h dot :
  dns_name h -> dot = [] \/ dot = ["."%char] -> strip_trailing_dot (h ++ dot) = h.
Proof.
  intros Hh [->| ->]; unfold strip_trailing_dot.
  - rewrite app_nil_r, (bool_decide_eq_false_2 (last h = _)) by by apply dns_name_last.
    by rewrite andb_false_r.
  - rewrite bool_decide_eq_false_2 by by destruct h.
    rewrite bool_decide_eq_true_2 by apply last_snoc.
    cbn [negb andb]. rewrite length_app. cbn.
    replace (length h + 1 - 1)%nat with (length h) by lia. by rewrite take_app_length.
Qed.

Lemma checked_dns_host_spec host h :
  checked_dns_host host = Some h <->
  dns_name h /\ exists dot, host = h ++ dot /\ (dot = [] \/ dot = ["."%char]).
Proof.
  unfold checked_dns_host. split.
  - destruct (valid_dns_name _) eqn:Ev; [|done]. cbn. intros [= <-].
    apply valid_dns_name_spec in Ev. split; [done|].
    destruct (strip_trailing_dot_app host) as [E|E]; [exists []|eexists].
    + rewrite app_nil_r. by split; [|left].
    + split; [exact E|by right].
  - intros (Hh & dot & -> & Hd). rewrite strip_trailing_dot_name by done.
    apply valid_dns_name_spec in Hh. by rewrite Hh.
Qed.

Lemma normalize_plain_notin a allow :
  ":"%char ∉ a -> normalize_plain a allow = checked_dns_host a.
Proof. intros Hn. unfold normalize_plain. by rewrite (proj2 (find_char_None _ _) Hn). Qed.

Lemma normalize_plain_colon seg r allow :
  ":"%char ∉ seg ->
  normalize_plain (seg ++ ":"%char :: r) allow =
  if negb allow || contains_char ":" r || negb (valid_port r) then None
  else checked_dns_host seg.
Proof.
  intros Hn. unfold normalize_plain, find_char_from, substr, contains_char.
  rewrite find_char_break, break_at_app, drop_past, drop_0, take_app_length by done.
  rewrite (bool_decide_ext (is_Some (_ <$> _)) (is_Some (find_char ":" r))) by apply fmap_is_Some.
  destruct allow; [|done]. destruct (bool_decide _); [done|]. by destruct (valid_port r).
Qed.

Lemma colon_notin_name h dot :
  dns_name h -> dot = [] \/ dot = ["."%char] -> ":"%char ∉ h ++ dot.
Proof.
  intros Hh Hd Hin. apply elem_of_app in Hin as [Hin|Hin].
  - apply (dns_name_chars h) in Hin; [|done]. by vm_compute in Hin.
  - destruct Hd as [-> | ->]; set_solver.
Qed.

Lemma normalize_plain_spec a allow h :
  normalize_plain a allow = Some h <->
  exists dot suffix, a = h ++ dot ++ suffix /\ dns_name h /\ (dot = [] \/ dot = ["."%char])
                     /\ port_suffix allow suffix.
Proof.
  split.
  - destruct (break_at ":" a) as [seg [r|]] eqn:E.
    + apply break_at_Some in E as [-> Hn]. rewrite normalize_plain_colon by done.
      destruct (_ || _ || _) eqn:Eg; [done|]. intros Hc.
      apply checked_dns_host_spec in Hc as (Hh & dot & -> & Hd). bool_to_prop.
      exists dot, (":"%char :: r). rewrite <- app_assoc.
      split_and!; try done. constructor; [done|]. by apply valid_port_spec.
    + apply break_at_None in E as [-> Hn]. rewrite normalize_plain_notin by done.
      intros Hc. apply checked_dns_host_spec in Hc as (Hh & dot & -> & Hd).
      exists dot, []. rewrite app_nil_r. split_and!; try done. constructor.
  - intros (dot & suffix & -> & Hh & Hd & Hs).
    pose proof (colon_notin_name h dot Hh Hd) as Hn. rewrite app_assoc.
    assert (Hc : checked_dns_host (h ++ dot) = Some h) by (apply checked_dns_host_spec; eauto).
    destruct Hs as [|p -> Hp].
    + by rewrite app_nil_r, normalize_plain_notin.
    + rewrite normalize_plain_colon by done. rewrite (proj2 (valid_port_spec p) Hp).
      rewrite (proj2 (contains_char_false _ _)); [done|]. intros Hin.
      by apply (port_text_graph p) in Hin as [_ ?].
Qed.

Lemma normalize_bracketed_cons host r allow :
  "]"%char ∉ host ->
  normalize_bracketed ("["%char :: host ++ "]"%char :: r) allow =
  if negb (bool_decide (r = [])) &&
     (negb allow || negb (bool_decide (head r = Some ":"%char)) || negb (valid_port (drop 1 r)))
  then None else if negb (valid_ipv6_literal host) then None else Some host.
Proof.
  intros Hn. unfold normalize_bracketed, substr.
  change ("["%char :: host ++ "]"%char :: r) with (("["%char :: host) ++ "]"%char :: r).
  rewrite find_char_break, break_at_app by set_solver.
  rewrite drop_past. cbn [length]. rewrite Nat.sub_succ, Nat.sub_0_r.
  cbn [app]. rewrite skipn_cons, drop_0, take_app_length. done.
Qed.

Lemma normalize_bracketed_spec a allow h :
  head a = Some "["%char ->
  normalize_bracketed a allow = Some h <->
  exists suffix, a = "["%char :: h ++ "]"%char :: suffix /\ valid_ipv6_literal h = true
                 /\ port_suffix allow suffix.
Proof.
  intros Ha. split.
  - destruct a as [|x a]; [done|]. injection Ha as ->.
    destruct (break_at "]" a) as [host [r|]] eqn:E.
    + apply break_at_Some in E as [-> Hn]. rewrite normalize_bracketed_cons by done.
      destruct (negb _ && _) eqn:Eg; [done|]. destruct (valid_ipv6_literal host) eqn:Ev; [|done].
      cbn [negb]. intros [= <-]. exists r. split_and!; [done..|].
      destruct r as [|x r]; [constructor|]. cbn [head drop] in Eg.
      rewrite bool_decide_eq_false_2 in Eg by done. cbn [negb andb] in Eg.
      rewrite !orb_false_iff, !negb_false_iff in Eg. destruct Eg as [[-> Hx] Hv].
      apply bool_decide_eq_true in Hx. injection Hx as ->. constructor; [done|].
      by apply valid_port_spec.
    + apply break_at_None in E as [-> Hn]. unfold normalize_bracketed.
      rewrite (proj2 (find_char_None _ _)); [done|]. set_solver.
  - intros (suffix & -> & Hv & Hs). rewrite normalize_bracketed_cons, Hv.
    + destruct Hs as [|p -> Hp]; [done|]. cbn [drop head]. rewrite drop_0.
      by rewrite (proj2 (valid_port_spec p) Hp), andb_false_r.
    + intros Hin. by apply (ipv6_literal_chars h), ipv6_char_graph in Hin as [_ ?].
Qed.

Lemma port_suffix_graph allow suffix c :
  port_suffix allow suffix -> c ∈ suffix -> outside_graph c = false.
Proof.
  intros [|p _ Hp]; [set_solver|]. intros Hc. apply elem_of_cons in Hc as [->|Hc]; [done|].
  by apply (port_text_graph p).
Qed.

Lemma authority_form_graph allow a h c : authority_form allow a h -> c ∈ a -> outside_graph c = false.
Proof.
  intros [h' dot suffix Hh Hd Hs|lit suffix Hv Hs] Hc.
  - rewrite !elem_of_app in Hc. destruct Hc as [Hc|[Hc|Hc]].
    + by apply (dns_name_chars h'), dns_char_graph in Hc as [? _].
    + destruct Hd as [-> | ->]; [set_solver|]. apply list_elem_of_singleton in Hc as ->. done.
    + by eapply port_suffix_graph.
  - rewrite elem_of_cons, elem_of_app, elem_of_cons in Hc.
    destruct Hc as [->|[Hc|[->|Hc]]]; [done| |done|by eapply port_suffix_graph].
    by apply (ipv6_literal_chars lit), ipv6_char_graph in Hc as [? _].
Qed.

Lemma normalize_spec a allow n :
  normalize a allow = Some n <-> exists h, authority_form allow a h /\ n = ascii_lower h.
Proof.
  unfold normalize. split.
  - case_bool_decide; [done|]. destruct (existsb outside_graph a); [done|].
    case_bool_decide as Hh; intros (h & E & ->)%fmap_Some; exists h; (split; [|done]).
    + apply normalize_bracketed_spec in E as (suffix & -> & ? & ?); [|done]. by constructor.
    + apply normalize_plain_spec in E as (dot & suffix & -> & ? & ? & ?). by constructor.
  - intros (h & Hf & ->).
    assert (Hg : existsb outside_graph a = false).
    { apply not_true_iff_false. intros (c & Hc & Ho)%existsb_exists.
      apply list_elem_of_In in Hc. by rewrite (authority_form_graph _ _ _ _ Hf Hc) in Ho. }
    rewrite Hg. destruct Hf as [h dot suffix Hh Hd Hs|lit suffix Hv Hs].
    + destruct h as [|x h]; [by destruct Hh|]. cbn [app]. cbn [head].
      rewrite !bool_decide_eq_false_2; [|..|done].
      * apply fmap_Some. exists (x :: h). split; [|done]. apply normalize_plain_spec. eauto 7.
      * intros [= ->]. assert (Hx : "["%char ∈ "["%char :: h) by set_solver.
        by apply (dns_name_chars _), dns_char_graph in Hx as (_ & _ & ?).
    + rewrite bool_decide_eq_false_2, bool_decide_eq_true_2 by done.
      apply fmap_Some. exists lit. split; [|done]. apply normalize_bracketed_spec; eauto.
Qed.

(** ** Lower-casing does not change what is accepted *)

Lemma lower_digits s : forallb isdigit s = true -> ascii_lower s = s.
Proof.
  intros Hd. unfold ascii_lower. rewrite <- (list_fmap_id s) at 2.
  apply list_fmap_ext. intros i c Hc. rewrite forallb_elem in Hd.
  apply list_elem_of_lookup_2, Hd in Hc. apply byte_val_inj. unfold id. byte_class.
Qed.

Lemma lower_eq_nil s : ascii_lower s = [] <-> s = [].
Proof. by destruct s. Qed.

Lemma ipv4_octet_lower c : ipv4_octet (ascii_lower c) = ipv4_octet c.
Proof.
  unfold ipv4_octet. rewrite (bool_decide_ext _ _ (lower_eq_nil c)), ascii_lower_length.
  rewrite forallb_lower by auto with ws.
  destruct (forallb isdigit c) eqn:E; [by rewrite (lower_digits c E)|by rewrite !andb_false_r].
Qed.

Lemma valid_ipv4_lower s : valid_ipv4_address (ascii_lower s) = valid_ipv4_address s.
Proof.
  unfold valid_ipv4_address. rewrite for_segments_lower by done.
  erewrite for_segments_ext; [done|]. intros. by rewrite !ipv4_step_spec, ipv4_octet_lower.
Qed.

Lemma ipv6_step_lower allow g l n : ipv6_step allow (ascii_lower g) l n = ipv6_step allow g l n.
Proof.
  unfold ipv6_step. rewrite (bool_decide_ext _ _ (lower_eq_nil g)), contains_char_lower by done.
  rewrite valid_ipv4_lower, ascii_lower_length, forallb_lower by auto with ws. done.
Qed.

Lemma count_ipv6_groups_lower s n allow :
  count_ipv6_groups (ascii_lower s) n allow = count_ipv6_groups s n allow.
Proof.
  unfold count_ipv6_groups. rewrite (bool_decide_ext _ _ (lower_eq_nil s)).
  rewrite (bool_decide_ext (last (ascii_lower s) = _) (last s = Some ":"%char))
    by by apply last_lower.
  rewrite for_segments_lower by done.
  by rewrite (for_segments_ext _ _ _ s n (ipv6_step_lower allow)).
Qed.

Lemma valid_ipv6_literal_lower s : valid_ipv6_literal (ascii_lower s) = valid_ipv6_literal s.
Proof.
  assert (Hd : forall i, drop i (ascii_lower s) = ascii_lower (drop i s))
    by (intros; symmetry; apply fmap_drop).
  assert (Ht : forall i, substr (ascii_lower s) 0 i = ascii_lower (substr s 0 i))
    by (intros; symmetry; apply fmap_take).
  unfold valid_ipv6_literal, contains_str.
  rewrite (bool_decide_ext _ _ (lower_eq_nil s)), find_str_lower by done.
  destruct (find_str b!"::" s) as [i|]; [|by rewrite count_ipv6_groups_lower].
  rewrite Hd, Ht, find_str_lower, count_ipv6_groups_lower by done.
  destruct (count_ipv6_groups (substr s 0 i) 0 false); [|done].
  by rewrite count_ipv6_groups_lower.
Qed.

Lemma dns_label_char_lower c : dns_label_char (tolower c) = dns_label_char c.
Proof. unfold dns_label_char. by rewrite isalnum_tolower, is_char_tolower. Qed.

Lemma dns_label_lower l : dns_label (ascii_lower l) <-> dns_label l.
Proof.
  unfold dns_label. rewrite lower_eq_nil, ascii_lower_length.
  rewrite head_lower, last_lower, forallb_lower by (done || apply dns_label_char_lower). done.
Qed.

Lemma dns_name_lower h : dns_name (ascii_lower h) <-> dns_name h.
Proof.
  unfold dns_name. rewrite lower_eq_nil, ascii_lower_length, split_lower by done.
  rewrite Forall_fmap. unfold compose. by setoid_rewrite dns_label_lower.
Qed.

(** An IPv6 literal always contains a colon, a DNS name never does. *)
Lemma ipv6_literal_colon s : valid_ipv6_literal s = true -> ":"%char ∈ s.
Proof.
  unfold valid_ipv6_literal. case_bool_decide as Hne; [done|].
  destruct (find_str b!"::" s) as [i|] eqn:Ei.
  - intros _. apply find_str_Some in Ei. rewrite Ei.
    change b!"::" with [":"; ":"]%char. set_solver.
  - unfold count_ipv6_groups. rewrite bool_decide_eq_false_2 by done. case_bool_decide; [done|].
    destruct (decide (":"%char ∈ s)) as [|Hn]; [done|]. rewrite for_segments_last by done.
    unfold ipv6_step. rewrite bool_decide_eq_false_2 by done. repeat case_match; bool_to_prop; lia.
Qed.

Lemma dns_name_no_colon h : dns_name h -> ":"%char ∉ h.
Proof. intros Hh. pose proof (colon_notin_name h [] Hh). set_solver. Qed.

(** ** Facts other components use *)

(** A normalised host, as produced for a Host header or a configured domain. *)
Definition normalized_host (n : str) : Prop :=
  dns_name n /\ ascii_lower n = n \/
  valid_ipv6_literal n = true /\ ascii_lower n = n.

Lemma normalize_normalized a allow n : normalize a allow = Some n -> normalized_host n.
Proof.
  intros (h & Hf & ->)%normalize_spec. unfold normalized_host. rewrite ascii_lower_idemp.
  destruct Hf; [left; by rewrite dns_name_lower|right; by rewrite valid_ipv6_literal_lower].
Qed.

Lemma normalized_host_nonempty n : normalized_host n -> n <> [].
Proof. by intros [[[? _] _]|[Hv _]] ->. Qed.

Lemma normalized_host_char n c :
  normalized_host n -> c ∈ n ->
  isdigit c || islower c || is_char c "-" || is_char c "." || is_char c ":" = true.
Proof.
  intros Hn Hc.
  assert (Hl : isupper c = false).
  { assert (ascii_lower n = n) as Hl by (destruct Hn; naive_solver). rewrite <- Hl in Hc.
    apply list_elem_of_fmap in Hc as (x & -> & _). apply tolower_not_upper. }
  destruct Hn as [[Hn _]|[Hn _]].
  - apply (dns_name_chars n c Hn) in Hc. unfold dns_label_char, isalnum in Hc.
    rewrite Hl, orb_false_r in Hc. rewrite !orb_true_iff in *. naive_solver.
  - apply (ipv6_literal_chars n c Hn) in Hc. unfold ipv6_char in Hc. rewrite !orb_true_iff in *.
    destruct Hc as [[Hc|Hc]|Hc]; [|naive_solver..].
    assert (isdigit c = true \/ islower c = true); [|naive_solver].
    unfold isxdigit, isdigit, islower, isupper in *. lia.
Qed.

(** ** The grammar of IPv6 literals

    What an accepted literal looks like, written without the parser: groups of
    one to four hexadecimal digits between colons, the last of them possibly a
    dotted quad that stands for two groups; eight groups, or at most seven with
    one double colon between a left and a right run, either of which may be
    empty.  The left run has no dotted quad. *)

(** Four octets between dots.  One more dot at the end is accepted as well. *)
Definition dotted_quad (s : str) : Prop :=
  exists a b c d, Forall (fun o => ipv4_octet o = true) [a; b; c; d] /\
    (s = join "." [a; b; c; d] \/ s = join "." [a; b; c; d] ++ ["."%char]).

Definition ipv6_group (g : str) : Prop :=
  g <> [] /\ (length g <= 4)%nat /\ forall c, c ∈ g -> isxdigit c = true.

(** [ipv6_pieces quad l n]: the texts [l] stand for [n] 16-bit groups. *)
Inductive ipv6_pieces (quad : bool) : list str -> Z -> Prop :=
| pieces_group g : ipv6_group g -> ipv6_pieces quad [g] 1
| pieces_quad q : quad = true -> dotted_quad q -> ipv6_pieces quad [q] 2
| pieces_cons g l n :
    ipv6_group g -> ipv6_pieces quad l n -> ipv6_pieces quad (g :: l) (n + 1).

Inductive ipv6_run (quad : bool) : str -> Z -> Prop :=
| run_empty : ipv6_run quad [] 0
| run_pieces l n : ipv6_pieces quad l n -> ipv6_run quad (join ":" l) n.

Inductive ipv6_literal : str -> Prop :=
| literal_full l : ipv6_pieces true l 8 -> ipv6_literal (join ":" l)
| literal_compressed left right n m :
    ipv6_run false left n -> ipv6_run true right m -> n + m <= 7 ->
    ipv6_literal (left ++ b!"::" ++ right).

(** The embedded IPv4 check of an IPv6 literal accepts exactly the dotted
    quads of four octets (1 to 3 digits, at most 255), each optionally followed
    by one more dot: the loop stops when the cursor reaches the end, so a
    trailing dot is not noticed. *)
Theorem valid_ipv4_grammar (s : str) :
  valid_ipv4_address s = true <-> dotted_quad s.
Proof.
  rewrite valid_ipv4_segments. split.
  - intros H. bool_to_prop. destruct (segments "." s) as [|a [|b [|c [|d [|e l]]]]] eqn:E; try done.
    exists a, b, c, d. split.
    + rewrite forallb_forall in H. apply Forall_forall. intros x Hx.
      by apply H, list_elem_of_In.
    + pose proof (segments_join "." s) as Hj. by rewrite E in Hj.
  - intros (a & b & c & d & HF & Hs).
    assert (Hn : Forall (fun o => "."%char ∉ o) [a; b; c; d]).
    { eapply Forall_impl; [exact HF|]. intros o Ho Hin. apply ipv4_octet_digits in Ho as [_ Ho].
      rewrite forallb_elem in Ho. by apply Ho in Hin. }
    assert (Hd : last [a; b; c; d] <> Some []).
    { intros [= ->]. rewrite Forall_forall in HF. specialize (HF [] ltac:(set_solver)). done. }
    assert (segments "." s = [a; b; c; d]) as ->.
    { destruct Hs as [-> | ->]; [by apply segments_of_join|by apply segments_of_join_sep]. }
    rewrite andb_true_r, forallb_forall. rewrite Forall_forall in HF.
    intros x Hx. by apply HF, list_elem_of_In.
Qed.

(** A piece of a literal is not empty and has no colon in it. *)
Definition colon_free (g : str) : Prop := g <> [] /\ ":"%char ∉ g.

Lemma group_colon_free g : ipv6_group g -> colon_free g.
Proof. intros (Hne & _ & Hx). split; [done|]. intros Hin%Hx. by vm_compute in Hin. Qed.

Lemma ipv4_colon_free s : valid_ipv4_address s = true -> colon_free s.
Proof.
  intros Hv. split; [by intros ->|]. rewrite valid_ipv4_segments in Hv.
  apply andb_true_iff in Hv as [Hv _]. intros Hc. destruct (elem_of_segments "." s _ Hc) as [?|(seg & Hseg & Hin)]; [done|].
  apply forallb_forall with (x := seg) in Hv; [|by apply list_elem_of_In].
  apply ipv4_octet_digits in Hv as [_ Hd]. rewrite forallb_elem in Hd.
  apply Hd in Hin. by vm_compute in Hin.
Qed.

Lemma quad_colon_free s : dotted_quad s -> colon_free s.
Proof. intros Hq%valid_ipv4_grammar. by apply ipv4_colon_free. Qed.

Lemma quad_has_dot s : dotted_quad s -> contains_char "." s = true.
Proof.
  intros (a & b & c & d & _ & [->| ->]); apply contains_char_spec; cbn [join]; set_solver.
Qed.

Lemma group_no_dot g : ipv6_group g -> contains_char "." g = false.
Proof.
  intros (_ & _ & Hx). apply contains_char_false. intros Hin%Hx. by vm_compute in Hin.
Qed.

Lemma pieces_colon_free quad l n : ipv6_pieces quad l n -> l <> [] /\ Forall colon_free l.
Proof.
  induction 1 as [g Hg|q _ Hq|g l n Hg _ [_ IH]]; (split; [done|]);
    auto using group_colon_free, quad_colon_free.
Qed.

(** What one step of [count_ipv6_groups] accepts. *)
Lemma ipv6_step_group quad g last n : ipv6_group g -> ipv6_step quad g last n = Some (n + 1).
Proof.
  intros Hg. unfold ipv6_step. rewrite (group_no_dot g Hg). destruct Hg as (Hne & Hl & Hx).
  rewrite bool_decide_eq_false_2 by done. rewrite (proj2 (Nat.ltb_ge _ _)) by done.
  rewrite (proj2 (forallb_elem _ _)) by done. done.
Qed.

Lemma ipv6_step_quad q n : dotted_quad q -> ipv6_step true q true n = Some (n + 2).
Proof.
  intros Hq. unfold ipv6_step. rewrite (quad_has_dot q Hq).
  rewrite bool_decide_eq_false_2 by by apply quad_colon_free.
  by rewrite (proj2 (valid_ipv4_grammar q) Hq).
Qed.

Lemma ipv6_step_Some quad g last n m :
  ipv6_step quad g last n = Some m ->
  ipv6_group g /\ m = n + 1 \/
  quad = true /\ last = true /\ dotted_quad g /\ m = n + 2.
Proof.
  unfold ipv6_step. case_bool_decide as Hne; [done|]. destruct (contains_char "." g) eqn:Ed.
  - destruct (negb quad || negb last || _) eqn:E; [done|]. intros [= <-]. right. bool_to_prop.
    split_and!; try done. by apply valid_ipv4_grammar.
  - destruct (4 <? length g)%nat eqn:El; [done|]. destruct (forallb isxdigit g) eqn:Ex; [|done].
    intros [= <-]. left. split; [|done]. bool_to_prop. rewrite forallb_elem in Ex.
    split_and!; [done|lia|done].
Qed.

Lemma join_last quad l n : ipv6_pieces quad l n -> join ":" l <> [] /\ last (join ":" l) <> Some ":"%char.
Proof.
  assert (Hone : forall g, colon_free g -> g <> [] /\ last g <> Some ":"%char).
  { intros g [Hne Hn]. split; [done|]. intros [g' ->]%last_Some. set_solver. }
  induction 1 as [g Hg|q _ Hq|g l n Hg Hl [IHne IH]]; cbn [join];
    [by apply Hone, group_colon_free|by apply Hone, quad_colon_free|].
  destruct l as [|g' l]; [by inversion Hl|]. split; [by destruct g|].
  rewrite last_app_cons, last_cons. by destruct (last (join ":" (g' :: l))) eqn:E;
    [|apply last_None in E].
Qed.

Lemma count_pieces quad l n k :
  ipv6_pieces quad l n -> for_segments ":" (ipv6_step quad) (join ":" l) k = Some (k + n).
Proof.
  intros Hl. revert k. induction Hl as [g Hg|q -> Hq|g l n Hg Hl IH]; intros k.
  - destruct (group_colon_free g Hg). cbn [join]. rewrite for_segments_last by done.
    by rewrite ipv6_step_group.
  - destruct (quad_colon_free q Hq). cbn [join]. rewrite for_segments_last by done.
    by rewrite ipv6_step_quad.
  - destruct (group_colon_free g Hg). destruct l as [|g' l]; [by inversion Hl|].
    change (join ":" (g :: g' :: l)) with (g ++ ":"%char :: join ":" (g' :: l)).
    rewrite for_segments_app, ipv6_step_group by done. cbn [mbind option_bind].
    rewrite IH. f_equal. lia.
Qed.

Lemma pieces_of_count quad s k m :
  s <> [] -> last s <> Some ":"%char -> for_segments ":" (ipv6_step quad) s k = Some m ->
  exists l n, ipv6_pieces quad l n /\ s = join ":" l /\ m = k + n.
Proof.
  revert k. induction s as [s Hn|g r Hn IH] using (str_seg_ind ":"); intros k Hne Hl Hm.
  - rewrite for_segments_last in Hm by done. apply ipv6_step_Some in Hm as [[Hg ->]|(-> & _ & Hq & ->)].
    + exists [s], 1. by split; [constructor|].
    + exists [s], 2. by split; [constructor|].
  - rewrite for_segments_app in Hm by done. apply bind_Some in Hm as (k' & Hk & Hm).
    apply ipv6_step_Some in Hk as [[Hg ->]|(_ & ? & _)]; [|done].
    rewrite last_app_cons, last_cons in Hl.
    assert (Hr : r <> []) by by intros ->.
    destruct (IH (k + 1) Hr) as (l & n & Hp & -> & ->); [by destruct (last r)|done|].
    exists (g :: l), (n + 1). split_and!; [by constructor| |lia]. by destruct l; [inversion Hp|].
Qed.

Lemma count_ipv6_groups_spec quad s k m :
  count_ipv6_groups s k quad = Some m <-> exists n, ipv6_run quad s n /\ m = k + n.
Proof.
  unfold count_ipv6_groups. split.
  - case_bool_decide as Hne; [intros [= <-]; subst; exists 0; split; [constructor|lia]|].
    case_bool_decide as Hl; [done|]. intros Hm.
    apply pieces_of_count in Hm as (l & n & Hp & -> & ->); [|done..].
    exists n. by split; [constructor|].
  - intros (n & [|l n' Hl] & ->); [rewrite Z.add_0_r; done|].
    destruct (join_last quad l n' Hl). rewrite !bool_decide_eq_false_2 by done.
    by apply count_pieces.
Qed.

(** The first double colon of a text is the one after its first run. *)
Lemma find_colons_skip g t :
  ":"%char ∉ g -> find_str b!"::" (g ++ t) = Nat.add (length g) <$> find_str b!"::" t.
Proof.
  induction g as [|x g IH]; intros Hn; cbn [app length].
  - by destruct (find_str _ t).
  - assert (is_char ":" x = false) as Hx.
    { apply not_true_iff_false. intros <-%is_char_spec. set_solver. }
    cbn [find_str]. change b!"::" with [":"; ":"]%char at 1. cbn [starts_with]. rewrite Hx.
    cbn [andb]. rewrite IH by set_solver. by destruct (find_str _ t).
Qed.

Lemma find_colons_one x t :
  x <> ":"%char -> find_str b!"::" (":"%char :: x :: t) = S <$> find_str b!"::" (x :: t).
Proof.
  intros Hx. assert (is_char ":" x = false) as Hc
    by (apply not_true_iff_false; by intros <-%is_char_spec).
  change b!"::" with [":"; ":"]%char. cbn [find_str starts_with].
  by rewrite Hc, andb_false_r.
Qed.

Lemma join_head g l : colon_free g -> exists x j, x <> ":"%char /\ join ":" (g :: l) = x :: j.
Proof.
  intros [Hne Hn]. destruct g as [|x g]; [done|]. exists x.
  destruct l; cbn [join app]; eexists; (split; [set_solver|reflexivity]).
Qed.

Lemma find_colons_pieces quad l n t :
  ipv6_pieces quad l n ->
  find_str b!"::" (join ":" l ++ t) = Nat.add (length (join ":" l)) <$> find_str b!"::" t.
Proof.
  induction 1 as [g Hg|q _ Hq|g l n Hg Hl IH].
  - by apply find_colons_skip, group_colon_free.
  - by apply find_colons_skip, quad_colon_free.
  - destruct (pieces_colon_free _ _ _ Hl) as [_ Hf].
    destruct l as [|g' l]; [by inversion Hl|]. apply Forall_cons in Hf as [Hg' _].
    change (join ":" (g :: g' :: l)) with (g ++ ":"%char :: join ":" (g' :: l)).
    destruct (join_head g' l Hg') as (x & j & Hx & Hj). rewrite Hj in *.
    rewrite <- app_assoc. rewrite find_colons_skip by by apply group_colon_free.
    cbn [app] in *. rewrite find_colons_one, IH, length_app by done.
    destruct (find_str b!"::" t) as [i|]; [|done]. cbn [fmap option_fmap option_map length].
    f_equal. lia.
Qed.

Lemma find_colons_run quad s n t :
  ipv6_run quad s n -> find_str b!"::" (s ++ t) = Nat.add (length s) <$> find_str b!"::" t.
Proof.
  intros [|l n' Hl]; [by apply find_colons_skip; set_solver|by eapply find_colons_pieces].
Qed.

Lemma run_no_colons quad s n : ipv6_run quad s n -> find_str b!"::" s = None.
Proof. intros Hs%(find_colons_run _ _ _ []). by rewrite app_nil_r in Hs. Qed.

(** The parser accepts exactly the literals of the grammar. *)
Lemma valid_ipv6_literal_spec s : valid_ipv6_literal s = true <-> ipv6_literal s.
Proof.
  unfold valid_ipv6_literal. split.
  - case_bool_decide as Hne; [done|]. destruct (find_str b!"::" s) as [i|] eqn:Ei.
    + destruct (contains_str _ _); [done|].
      destruct (count_ipv6_groups _ 0 false) as [n|] eqn:E1; [|done].
      destruct (count_ipv6_groups _ n true) as [m|] eqn:E2; [|done]. intros Hm. bool_to_prop.
      apply count_ipv6_groups_spec in E1 as (n1 & H1 & ->), E2 as (n2 & H2 & ->).
      apply find_str_Some in Ei. rewrite Ei. eapply literal_compressed; [exact H1|exact H2|lia].
    + destruct (count_ipv6_groups s 0 true) as [n|] eqn:E1; [|done]. intros Hm. bool_to_prop.
      apply count_ipv6_groups_spec in E1 as (n1 & [|l n' Hl] & Hn); [done|].
      assert (n' = 8) as -> by lia. by constructor.
  - intros [l Hl|left right n m Hl Hr Hb].
    + destruct (join_last _ _ _ Hl) as [Hne _]. rewrite bool_decide_eq_false_2 by done.
      rewrite (run_no_colons true (join ":" l) 8) by by constructor.
      assert (count_ipv6_groups (join ":" l) 0 true = Some 8) as ->; [|done].
      apply count_ipv6_groups_spec. exists 8. by split; [constructor|].
    + rewrite bool_decide_eq_false_2 by by destruct left.
      rewrite (find_colons_run false left n) by done.
      assert (find_str b!"::" (b!"::" ++ right) = Some 0%nat) as -> by by destruct right.
      cbn [fmap option_fmap option_map]. rewrite Nat.add_0_r. unfold substr.
      rewrite drop_0, take_app_length, drop_app_ge, drop_app_length' by (cbn; lia).
      unfold contains_str. rewrite (run_no_colons true right m) by done.
      rewrite bool_decide_eq_false_2 by by intros [? ?].
      rewrite (proj2 (count_ipv6_groups_spec false left 0 n)) by by exists n.
      rewrite (proj2 (count_ipv6_groups_spec true right n (n + m))) by by exists m.
      apply Z.ltb_lt. lia.
Qed.

(** ** Properties *)

(** C26: the code accepts exactly the grammar of authorities.  A Host header is
    accepted iff it is a DNS name of at most 253 bytes made of 1 to 63 byte
    labels (optionally with one trailing dot) or a bracketed IPv6 literal of the
    grammar [ipv6_literal], followed by nothing or by a decimal port of value at
    most 65535; the result is the lower-cased host without dot, brackets and
    port.  For a configured domain the same holds with no port.  An IPv6
    literal is eight groups of one to four hexadecimal digits, the last two of
    which may be written as a dotted quad, or at most seven groups around one
    double colon; the quad may carry one more dot, which stays in the result. *)
Theorem normalize_grammar (a n : str) (allow_port : bool) :
  normalize a allow_port = Some n <->
  (exists h dot suffix,
     a = h ++ dot ++ suffix /\ dns_name h /\ (dot = [] \/ dot = ["."%char]) /\
     port_suffix allow_port suffix /\ n = ascii_lower h) \/
  (exists literal suffix,
     a = "["%char :: literal ++ "]"%char :: suffix /\ ipv6_literal literal /\
     port_suffix allow_port suffix /\ n = ascii_lower literal).
Proof.
  rewrite normalize_spec. split.
  - intros (h & [h' dot suffix Hh Hd Hs|lit suffix Hv Hs] & ->).
    + left. by exists h', dot, suffix.
    + right. apply valid_ipv6_literal_spec in Hv. by exists lit, suffix.
  - intros [(h & dot & suffix & -> & Hh & Hd & Hs & ->)|(lit & suffix & -> & Hv & Hs & ->)].
    + exists h. by split; [constructor|].
    + exists lit. split; [constructor; [by apply valid_ipv6_literal_spec|done]|done].
Qed.

(** Normalisation is idempotent: writing a normalised host back as an
    authority (in brackets when it is an IPv6 literal) and normalising it again
    gives the same host, so a stored host and a requested host can be compared
    byte for byte. *)
Theorem normalize_idempotent (a n : str) :
  normalize_authority a = Some n ->
  normalize_authority
    (if contains_char ":" n then "["%char :: n ++ ["]"%char] else n) = Some n.
Proof.
  intros H. apply normalize_normalized in H as [[Hn Hl]|[Hn Hl]]; apply normalize_spec; exists n.
  - rewrite (proj2 (contains_char_false _ _)) by by apply dns_name_no_colon.
    split; [|done]. rewrite <- (app_nil_r n) at 1.
    apply (form_dns _ n [] []); [done|by left|constructor].
  - rewrite (proj2 (contains_char_spec _ _)) by by apply ipv6_literal_colon.
    split; [|done]. apply form_ipv6; [done|constructor].
Qed.

Lemma normalize_idempotent_witness :
  normalize_authority b!"[2001:DB8::1]:8443" = Some b!"2001:db8::1" /\
  normalize_authority b!"[2001:db8::1]" = Some b!"2001:db8::1".
Proof.
  split; [vm_compute; reflexivity|].
  apply (normalize_idempotent b!"[2001:DB8::1]:8443" b!"2001:db8::1").
  vm_compute. reflexivity.
Defined.

(** A normalised host is non-empty and contains only digits, lower-case
    letters, hyphens, dots and colons: no control character, space, slash,
    quote or upper-case letter reaches routing, logs or a Location header. *)
Theorem normalized_charset (a n : str) (allow_port : bool) (c : ascii) :
  normalize a allow_port = Some n ->
  n <> [] /\
  (c ∈ n -> isdigit c || islower c || is_char c "-" || is_char c "." || is_char c ":" = true).
Proof.
  intros H%normalize_normalized. split; [by apply normalized_host_nonempty|].
  by apply normalized_host_char.
Qed.

Lemma normalized_charset_witness :
  normalize b!"WWW.example.com:80" true = Some b!"www.example.com" /\
  (b!"www.example.com" <> [] /\
   ("w"%char ∈ b!"www.example.com" ->
    isdigit "w" || islower "w" || is_char "w" "-" || is_char "w" "." || is_char "w" ":" = true)).
Proof.
  split; [vm_compute; reflexivity|].
  apply (normalized_charset b!"WWW.example.com:80" b!"www.example.com" true "w"%char).
  vm_compute. reflexivity.
Defined.
