(* ===== verification/ClientIpResolver.v ===== *)
(** * Client address resolution (src/src/network/ClientIpResolver.{hpp,cpp})

    Trusted-proxy ranges, the real-IP headers and the X-Forwarded-For walk.
    Boost's address parsing and printing is the [AddressText] interface. *)

From S2P Require Import Prelude IpAddress.

(** [ClientIpResolver::Range]. *)
Record Range := { network : address; prefix : Z }.

Section ClientIpResolver.
Context `{AddressText}.

(** ** The code *)

Definition blank (c : ascii) : bool := is_char c " " || is_char c "009".

Fixpoint trim_front (value : str) : str :=
  match value with
  | c :: value' => if blank c then trim_front value' else value
  | [] => []
  end.

(** [trim]: leading, then trailing, blanks and tabs. *)
Definition trim (value : str) : str := reverse (trim_front (reverse (trim_front value))).

(** [std::from_chars] into [unsigned], consuming the whole text. *)
Definition parse_unsigned (text : str) : option Z :=
  match from_chars_u 32 text with
  | Some (value, rest) => if bool_decide (rest = []) then Some value else None
  | None => None
  end.

Definition parse_range (text : str) : res Range :=
  let slash := find_char "/" text in
  let address_text := match slash with None => text | Some i => substr text 0 i end in
  match make_address address_text with
  | None => Throw (invalid_argument (b!"invalid trusted proxy CIDR: " ++ text))
  | Some address =>
      let maximum := if is_v4 address then 32 else 128 in
      match slash with
      | None => Ok {| network := address; prefix := u8 maximum |}
      | Some i =>
          match parse_unsigned (drop (i + 1) text) with
          | None => Throw (invalid_argument (b!"invalid trusted proxy CIDR prefix: " ++ text))
          | Some prefix =>
              if maximum <? prefix
              then Throw (invalid_argument (b!"invalid trusted proxy CIDR prefix: " ++ text))
              else Ok {| network := address; prefix := u8 prefix |}
          end
      end
  end.

(** [contains]: the masked 32-bit comparison and the byte-wise IPv6 one. *)
Definition contains (range : Range) (candidate : address) : bool :=
  if negb (bool_decide (is_v4 (network range) = is_v4 candidate)) then false
  else if is_v4 candidate then
    let mask := if prefix range =? 0 then 0 else u32 (Z.shiftl 0xffffffff (32 - prefix range)) in
    Z.land (to_v4_uint (network range)) mask =? Z.land (to_v4_uint candidate) mask
  else
    let network := to_v6_bytes (network range) in
    let address := to_v6_bytes candidate in
    let full_bytes := Z.to_nat (prefix range / 8) in
    let remaining := prefix range mod 8 in
    if negb (bool_decide (take full_bytes network = take full_bytes address)) then false
    else if remaining =? 0 then true
    else
      let mask := u8 (Z.shiftl 0xff (8 - remaining)) in
      Z.land (nth full_bytes network 0) mask =? Z.land (nth full_bytes address 0) mask.

Definition parse_ip (value : str) : option address :=
  let value := trim value in
  if bool_decide (value = []) then None else make_address value.

(** The constructor's [ranges_]. *)
Definition parse_ranges (trusted_proxy_cidrs : list str) : res (list Range) :=
  res_map parse_range trusted_proxy_cidrs.

Definition is_trusted (ranges : list Range) (a : address) : bool :=
  existsb (fun range => contains range a) ranges.

(** The header loop's split of X-Forwarded-For.  [room] is
    [64 - chain.size()]; [None] is [chain.clear(); break;]. *)
Fixpoint xff_chain (room : nat) (rest : str) : option (list address) :=
  match room with
  | O => Some []
  | S room' =>
      let '(segment, after) := break_at "," rest in
      match parse_ip segment with
      | None => None
      | Some parsed =>
          match after with
          | None => Some [parsed]
          | Some rest' => cons parsed <$> xff_chain room' rest'
          end
      end
  end.

(** The walk over [chain.rbegin() .. chain.rend()]. *)
Fixpoint walk_chain (ranges : list Range) (current : address) (backwards : list address) : address :=
  match backwards with
  | [] => current
  | a :: backwards' =>
      if negb (is_trusted ranges current) then current else walk_chain ranges a backwards'
  end.

(** [boost::beast::iequals(name, "X-Forwarded-For")]. *)
Definition is_xff (name : str) : bool :=
  bool_decide (ascii_lower name = b!"x-forwarded-for").

Fixpoint resolve_headers (ranges : list Range) (peer : address) (headers : list (str * str)) : str :=
  match headers with
  | [] => address_to_string peer
  | (name, value) :: headers' =>
      if bool_decide (value = []) then resolve_headers ranges peer headers'
      else if is_xff name then
        let chain := default [] (xff_chain 64 value) in
        let current := walk_chain ranges peer (reverse chain) in
        if negb (bool_decide (chain = [])) then address_to_string current
        else resolve_headers ranges peer headers'
      else
        match parse_ip value with
        | Some single => address_to_string single
        | None => resolve_headers ranges peer headers'
        end
  end.

Definition resolve (ranges : list Range) (peer : address) (headers : list (str * str)) : str :=
  if negb (is_trusted ranges peer) then address_to_string peer
  else resolve_headers ranges peer headers.

(** ** CIDR matching compares leading bits *)

Lemma shiftr_high_low v b r :
  0 < r < 8 -> 0 <= b < 256 ->
  Z.shiftr (v * 256 + b) (8 - r) = v * 2 ^ r + Z.shiftr b (8 - r).
Proof.
  intros Hr Hb. rewrite !Z.shiftr_div_pow2 by lia.
  replace 256 with (2 ^ r * 2 ^ (8 - r)) 
    by (rewrite <- Z.pow_add_r by lia; replace (r + (8 - r)) with 8 by lia; done).
  rewrite Z.mul_assoc, Z.div_add_l; [done|]. pose proof (Z.pow_pos_nonneg 2 (8 - r)). lia.
Qed.

Lemma mul_add_inj m v w b c :
  0 <= b < m -> 0 <= c < m -> v * m + b = w * m + c -> v = w /\ b = c.
Proof.
  intros Hb Hc E. assert (v = w) as ->; [|split; [done|lia]].
  rewrite (Z.div_unique_pos (v * m + b) m v b) by lia.
  rewrite E. symmetry. apply (Z.div_unique_pos _ m w c); lia.
Qed.

(** Splitting a byte list at the partially masked byte. *)
Lemma take_nth_drop (l : list Z) k :
  (k < length l)%nat -> l = (take k l ++ [nth k l 0]) ++ drop (S k) l.
Proof.
  intros Hk. destruct (lookup_lt_is_Some_2 l k Hk) as [x Hx].
  rewrite (nth_lookup_Some _ _ 0 _ Hx). rewrite <- take_S_r by done. by rewrite take_drop.
Qed.

Lemma v6_prefix_spec p (n a : list Z) :
  0 <= p <= 128 -> length n = 16%nat -> length a = 16%nat ->
  Forall byte_range n -> Forall byte_range a ->
  Z.shiftr (be_value n) (128 - p) = Z.shiftr (be_value a) (128 - p) <->
  take (Z.to_nat (p / 8)) n = take (Z.to_nat (p / 8)) a /\
  (p mod 8 = 0 \/
   Z.shiftr (nth (Z.to_nat (p / 8)) n 0) (8 - p mod 8) =
   Z.shiftr (nth (Z.to_nat (p / 8)) a 0) (8 - p mod 8)).
Proof.
  intros Hp Hn Ha HFn HFa. set (k := Z.to_nat (p / 8)). set (r := p mod 8).
  assert (Hpk : p = 8 * Z.of_nat k + r).
  { unfold k, r. rewrite Z2Nat.id by (apply Z.div_pos; lia). apply Z_div_mod_eq_full. }
  assert (Hr : 0 <= r < 8) by (apply Z.mod_pos_bound; lia).
  assert (Hinj : be_value (take k n) = be_value (take k a) <-> take k n = take k a).
  { split; [|congruence]. apply be_value_inj; [rewrite !length_take; lia|by apply Forall_take..]. }
  destruct (decide (r = 0)) as [Hr0|Hr0].
  - assert (Hs : forall l, length l = 16%nat -> Forall byte_range l ->
       Z.shiftr (be_value l) (128 - p) = be_value (take k l)).
    { intros l Hl HF. rewrite <- (take_drop k l) at 1.
      replace (128 - p) with (8 * Z.of_nat (length (drop k l))) by (rewrite length_drop; lia).
      apply be_value_shiftr. by apply Forall_drop. }
    rewrite !Hs, Hinj by done. naive_solver.
  - assert (Hs : forall l, length l = 16%nat -> Forall byte_range l ->
       Z.shiftr (be_value l) (128 - p) =
       be_value (take k l) * 2 ^ r + Z.shiftr (nth k l 0) (8 - r) /\
       0 <= Z.shiftr (nth k l 0) (8 - r) < 2 ^ r).
    { intros l Hl HF. rewrite (take_nth_drop l k) at 1 by lia.
      assert (Hb : 0 <= nth k l 0 < 256).
      { rewrite Forall_forall in HF. apply HF, list_elem_of_In, nth_In. lia. }
      replace (128 - p) with (8 * Z.of_nat (length (drop (S k) l)) + (8 - r))
        by (rewrite length_drop; lia).
      rewrite <- Z.shiftr_shiftr by lia. rewrite be_value_shiftr by by apply Forall_drop.
      rewrite be_value_snoc, shiftr_high_low by lia. split; [done|].
      rewrite Z.shiftr_div_pow2 by lia. pose proof (Z.pow_pos_nonneg 2 (8 - r)).
      split; [apply Z.div_pos; lia|]. apply Z.div_lt_upper_bound; [lia|].
      rewrite <- Z.pow_add_r by lia. replace (8 - r + r) with 8 by lia. lia. }
    destruct (Hs n Hn HFn) as [-> Hbn], (Hs a Ha HFa) as [-> Hba]. rewrite <- Hinj.
    split; [intros [? ?]%mul_add_inj; auto|]. intros [He [Hr1|Hs1]]; [done|congruence].
Qed.

Lemma contains_spec range candidate :
  address_wf (network range) -> address_wf candidate ->
  0 <= prefix range <= addr_width (network range) ->
  contains range candidate = true <-> same_prefix (prefix range) (network range) candidate.
Proof.
  intros Hn Hc Hp. unfold contains, same_prefix. case_bool_decide as Hf; [|naive_solver].
  cbn [negb]. unfold addr_width in *. rewrite Hf in *.
  destruct (network range) as [v|nb sc], candidate as [w|ab sc'], (prefix range) as [|p|p] eqn:Ep;
    try done; cbn [is_v4 to_v4_uint to_v6_bytes addr_value address_wf] in *; try lia.
  - cbn [Z.eqb]. rewrite !Z.land_0_r. split; [intros _; split; [done|]|done].
    rewrite !Z.shiftr_div_pow2 by lia. by rewrite !Z.div_small.
  - change (Z.pos p =? 0) with false. cbv iota.
    pose proof (land_top_mask 32 (Z.pos p) v w ltac:(lia) Hn Hc) as Hm. cbn zeta in Hm.
    change (2 ^ 32 - 1) with 0xffffffff in Hm. unfold u32. rewrite Z.eqb_eq, Hm. naive_solver.
  - destruct Hn as [Hln HFn], Hc as [Hlc HFc].
    rewrite v6_prefix_spec by done. cbn. split; [|done]. intros _. split; [done|]. by split; [|left].
  - destruct Hn as [Hln HFn], Hc as [Hlc HFc]. rewrite v6_prefix_spec by done.
    set (q := Z.pos p) in *. set (k := Z.to_nat (q / 8)).
    case_bool_decide as Ht; cbn [negb]; [|naive_solver].
    destruct (Z.eqb_spec (q mod 8) 0) as [Er|Er]; [naive_solver|].
    assert (Hr : 0 <= q mod 8 < 8) by (apply Z.mod_pos_bound; lia).
    assert (Hk : (k < 16)%nat).
    { unfold k. pose proof (Z_div_mod_eq_full q 8). pose proof (Z.div_pos q 8). lia. }
    assert (Hb : forall l, length l = 16%nat -> Forall byte_range l -> 0 <= nth k l 0 < 2 ^ 8).
    { intros l Hl HF. rewrite Forall_forall in HF. apply HF, list_elem_of_In, nth_In. lia. }
    pose proof (land_top_mask 8 (q mod 8) (nth k nb 0) (nth k ab 0) ltac:(lia)
      (Hb _ Hln HFn) (Hb _ Hlc HFc)) as Hm. cbn zeta in Hm.
    change (2 ^ 8 - 1) with 0xff in Hm. unfold u8. rewrite Z.eqb_eq, Hm. naive_solver.
Qed.

Lemma parse_unsigned_nonneg t p : parse_unsigned t = Some p -> 0 <= p.
Proof.
  unfold parse_unsigned, from_chars_u. destruct (take_digits t) as [d rest] eqn:E.
  apply take_digits_spec in E as (_ & Hd & _).
  repeat case_match; intros; simplify_eq; by apply dec_value_nonneg.
Qed.

(** Accepted ranges satisfy the hypotheses of [contains_spec]. *)
Lemma parse_range_wf `{!AddressTextLaws} text range :
  parse_range text = Ok range ->
  address_wf (network range) /\ 0 <= prefix range <= addr_width (network range).
Proof.
  unfold parse_range. destruct (make_address _) as [a|] eqn:Ea; [|done].
  apply make_address_wf in Ea. assert (Hu : forall z, 0 <= z <= 128 -> u8 z = z).
  { intros z Hz. unfold u8, wrap_u. apply Z.mod_small. lia. }
  destruct (find_char "/" text) as [i|].
  - destruct (parse_unsigned _) as [p|] eqn:Ep; [|done]. destruct (_ <? p) eqn:El; [done|].
    intros [= <-]. cbn. split; [done|]. bool_to_prop. unfold addr_width.
    apply parse_unsigned_nonneg in Ep.
    rewrite Hu; [lia|]. destruct (is_v4 a); lia.
  - intros [= <-]. cbn. split; [done|]. unfold addr_width. rewrite Hu; destruct (is_v4 a); lia.
Qed.
(** ** The X-Forwarded-For walk *)

Lemma xff_chain_split room value :
  xff_chain room value = mapM parse_ip (take room (split "," value)).
Proof.
  revert value. induction room as [|room IH]; intros value; [done|]. cbn [xff_chain].
  destruct (break_at "," value) as [seg [r|]] eqn:E.
  - apply break_at_Some in E as [-> Hn]. rewrite split_app by done. cbn.
    destruct (parse_ip seg); [|done]. cbn. rewrite IH. by destruct (mapM _ _).
  - apply break_at_None in E as [-> Hn]. rewrite split_notin by done. cbn.
    destruct (parse_ip value); [|done]. by rewrite take_nil.
Qed.

Lemma walk_chain_trusted ranges l1 current x l2 :
  is_trusted ranges current = true -> forallb (is_trusted ranges) l1 = true ->
  walk_chain ranges current (l1 ++ x :: l2) = walk_chain ranges x l2.
Proof.
  revert current. induction l1 as [|y l1 IH]; intros current Hc Hl; cbn in *; rewrite Hc; [done|].
  bool_to_prop. by apply IH.
Qed.

Lemma walk_chain_stop ranges current l :
  is_trusted ranges current = false -> walk_chain ranges current l = current.
Proof. intros Hc. destruct l; [done|]. cbn. by rewrite Hc. Qed.

(** Resolution from an X-Forwarded-For header whose first 64 entries parse. *)
Lemma resolve_xff ranges peer entries chain name rest :
  is_trusted ranges peer = true -> is_xff name = true ->
  entries <> [] -> entries <> [[]] -> Forall (fun e => ","%char ∉ e) entries ->
  mapM parse_ip (take 64 entries) = Some chain ->
  resolve ranges peer ((name, join "," entries) :: rest) =
  address_to_string (walk_chain ranges peer (reverse chain)).
Proof.
  intros Hp Hx Hne Hne' Hc Hm. unfold resolve. rewrite Hp. cbn [negb resolve_headers].
  rewrite (bool_decide_eq_false_2 (join "," entries = [])).
  - rewrite Hx, xff_chain_split, split_join, Hm by done. cbn [default].
    unfold id. rewrite bool_decide_eq_false_2; [done|]. intros ->.
    apply length_mapM in Hm. destruct entries; [done|]. rewrite length_take in Hm. cbn in Hm. lia.
  - intros Hj. destruct entries as [|e [|e' entries]]; [done|naive_solver|].
    change (join "," (e :: e' :: entries)) with (e ++ ","%char :: join "," (e' :: entries)) in Hj.
    by destruct e.
Qed.

(** An entry among the first 64 that does not parse discards the whole header. *)
Lemma resolve_xff_discarded ranges peer entries name rest :
  is_xff name = true -> Forall (fun e => ","%char ∉ e) entries -> entries <> [] ->
  mapM parse_ip (take 64 entries) = None ->
  resolve ranges peer ((name, join "," entries) :: rest) = resolve ranges peer rest.
Proof.
  intros Hx Hc Hne Hm. unfold resolve. destruct (is_trusted ranges peer); [|done].
  cbn [negb resolve_headers]. case_bool_decide; [done|].
  by rewrite Hx, xff_chain_split, split_join, Hm by done.
Qed.

(** Headers the request does not have are passed over. *)
Lemma resolve_absent ranges peer before headers :
  Forall (fun h => h.2 = []) before ->
  resolve ranges peer (before ++ headers) = resolve ranges peer headers.
Proof.
  unfold resolve. destruct (is_trusted ranges peer); [|done]. cbn [negb].
  induction 1 as [|[n v] before Hv _ IH]; [done|]. cbn in Hv. subst v. exact IH.
Qed.
End ClientIpResolver.

(** ** Properties *)

(** A trusted-proxy range accepted by the parser contains an address exactly
    when both have the same family and agree on the leading [prefix] bits; the
    32-bit mask arithmetic and the byte-wise IPv6 comparison both compute this. *)
Theorem contains_leading_bits `{AddressText} `{!AddressTextLaws} (text : str) (range : Range)
    (candidate : address) :
  parse_range text = Ok range -> address_wf candidate ->
  contains range candidate = true <-> same_prefix (prefix range) (network range) candidate.
Proof.
  intros Hr Hc. apply parse_range_wf in Hr as [Hn Hp]. by apply contains_spec.
Qed.


(** The 64-entry cap keeps the leftmost entries, the ones the client controls.
    With a trusted peer and an X-Forwarded-For list whose 64th entry is an
    untrusted address, that entry is returned as the client address although
    the entries appended by the proxies, here [appended], come after it. *)
Theorem xff_cap_keeps_forged `{AddressText} (ranges : list Range) (peer forged_addr : address)
    (forged appended : list str) (forged_addrs : list address) (name : str)
    (headers : list (str * str)) :
  is_trusted ranges peer = true -> is_xff name = true -> length forged = 64%nat ->
  Forall (fun e => ","%char ∉ e) (forged ++ appended) ->
  mapM parse_ip forged = Some forged_addrs -> last forged_addrs = Some forged_addr ->
  is_trusted ranges forged_addr = false ->
  resolve ranges peer ((name, join "," (forged ++ appended)) :: headers) =
  address_to_string forged_addr.
Proof.
  intros Hp Hx Hlen Hc Hf Hl Hu. apply last_Some in Hl as [front ->].
  rewrite (resolve_xff _ _ _ (front ++ [forged_addr])); try done.
  - rewrite reverse_snoc. cbn [walk_chain]. rewrite Hp. cbn [negb]. by rewrite walk_chain_stop.
  - by destruct forged.
  - intros E. apply (f_equal length) in E. rewrite length_app in E. cbn in E. lia.
  - by rewrite take_app_length'.
Qed.

(** *** Runs

    Addresses written as decimal numbers, to evaluate the definitions. *)
Definition decimal_address (s : str) : option address :=
  if forallb isdigit s && negb (bool_decide (s = [])) && (dec_value s <? 2 ^ 32)
  then Some (V4 (dec_value s)) else None.
Definition decimal_text (a : address) : str :=
  match a with
  | V4 0 => b!"zero" | V4 1 => b!"one" | V4 2 => b!"two" | V4 3 => b!"three" | _ => b!"other"
  end.
#[local] Instance sample_addresses : AddressText :=
  {| make_address := decimal_address; address_to_string := decimal_text |}.
#[local] Instance sample_addresses_laws : AddressTextLaws.
Proof.
  intros s a. cbn. unfold decimal_address. destruct (_ && _) eqn:E; [|done]. intros [= <-].
  bool_to_prop. cbn. split; [by apply dec_value_nonneg|done].
Defined.

(** The range holding only the address 3. *)
Definition sample_range : Range := {| network := V4 3; prefix := 32 |}.

Lemma contains_leading_bits_witness :
  parse_range b!"167772160/8" = Ok {| network := V4 167772160; prefix := 8 |} /\
  (contains {| network := V4 167772160; prefix := 8 |} (V4 167772161) = true <->
   same_prefix 8 (V4 167772160) (V4 167772161)).
Proof.
  split; [vm_compute; reflexivity|].
  apply (contains_leading_bits b!"167772160/8" {| network := V4 167772160; prefix := 8 |}).
  - vm_compute. reflexivity.
  - vm_compute. split; [discriminate|reflexivity].
Defined.

Definition sample_forwarded (forged : str) : list (str * str) :=
  [(b!"X-Real-IP", [])] ++ [(b!"X-Forwarded-For", join "," ([forged] ++ b!" 2 " :: [b!"3"]))].


Lemma xff_cap_keeps_forged_witness :
  resolve [sample_range] (V4 3)
    [(b!"X-Forwarded-For", join "," (replicate 64 b!"1" ++ [b!"2"]))] = address_to_string (V4 1).
Proof.
  apply (xff_cap_keeps_forged [sample_range] (V4 3) (V4 1) (replicate 64 b!"1") [b!"2"]
           (replicate 64 (V4 1)) b!"X-Forwarded-For" []);
    try (vm_compute; reflexivity).
  apply Forall_app. split; [apply Forall_replicate|repeat constructor];
    apply find_char_None; vm_compute; reflexivity.
Defined.
