(* ===== verification/UrlAuthenticator.v ===== *)
(** * URL authentication (src/src/policy/UrlAuthenticator.{hpp,cpp})

    The Aliyun type-A signed-URL check.  OpenSSL's MD5 is a parameter
    ([Digest]); everything else is the code: the constructor's validation, the
    query parser, the [auth_key] field splitting, the time window and the
    rewritten target.  The properties state which targets are let through, what
    the backend then receives, and that unprotected targets are untouched. *)

From S2P Require Import Prelude.

Inductive UrlAuthScope := scope_all | scope_specified.
Inductive UrlAuthMatch := auth_exact | auth_prefix.
#[export] Instance UrlAuthScope_eq_dec : EqDecision UrlAuthScope.
Proof. solve_decision. Defined.
#[export] Instance UrlAuthMatch_eq_dec : EqDecision UrlAuthMatch.
Proof. solve_decision. Defined.

Record UrlAuthUriSpec := { uri_path : str; uri_match : UrlAuthMatch }.

Record UrlAuthSpec := {
  ua_enabled : bool;
  ua_scope : UrlAuthScope;
  primary_key : str;
  backup_key : str;
  validity_seconds : Z;
  protected_uris : list UrlAuthUriSpec
}.

(** The default member initialisers of [UrlAuthSpec]. *)
Definition default_url_auth : UrlAuthSpec :=
  {| ua_enabled := false; ua_scope := scope_all; primary_key := []; backup_key := [];
     validity_seconds := 1800; protected_uris := [] |}.

Record UrlAuthResult := {
  allowed : bool;
  authentication_applied : bool;
  rewritten_target : str
}.

#[export] Instance UrlAuthResult_eq_dec : EqDecision UrlAuthResult.
Proof. solve_decision. Defined.

(** [return {};] and the [denied] value. *)
Definition passed_through : UrlAuthResult :=
  {| allowed := true; authentication_applied := false; rewritten_target := [] |}.
Definition denied : UrlAuthResult :=
  {| allowed := false; authentication_applied := true; rewritten_target := [] |}.

Definition max_uri_length : nat := 8192.
Definition max_protected_uris : nat := 200.
Definition maximum_validity_seconds : Z := 31536000.
Definition maximum_future_clock_skew_seconds : Z := 300.
Definition int64_max : Z := 2 ^ 63 - 1.

Definition ascii_digit (c : ascii) : bool := (48 <=? byte_val c) && (byte_val c <=? 57).
Definition ascii_alphanumeric (c : ascii) : bool :=
  ascii_digit c || ((65 <=? byte_val c) && (byte_val c <=? 90))
                || ((97 <=? byte_val c) && (byte_val c <=? 122)).

Definition valid_key (key : str) : bool :=
  bool_decide (key = []) ||
  ((6 <=? length key)%nat && (length key <=? 128)%nat && forallb ascii_alphanumeric key).

Definition valid_path (path : str) : bool :=
  negb (bool_decide (path = [])) && (length path <=? max_uri_length)%nat
  && bool_decide (head path = Some "/"%char)
  && negb (existsb (fun c => is_char c "?" || is_char c "#") path)
  && negb (existsb (fun c => (byte_val c <=? 32) || (byte_val c =? 127)) path).

Definition lower_hex_digest (value : str) : bool :=
  (length value =? 32)%nat &&
  forallb (fun c => ascii_digit c || ((97 <=? byte_val c) && (byte_val c <=? 102))) value.

(** EVP_md5 over a byte string: the raw digest, [None] when OpenSSL reports an
    error (no context, init, update or final failure). *)
Class Digest := evp_md5 : str -> option str.

Definition hex_digit (v : Z) : ascii :=
  ascii_of_N (Z.to_N (if v <? 10 then 48 + v else 87 + v)).

Definition hex_of_bytes (digest : str) : str :=
  mjoin ((fun d => [hex_digit (Z.shiftr (byte_val d) 4); hex_digit (Z.land (byte_val d) 15)])
           <$> digest).

Definition md5_hex `{Digest} (value : str) : option str :=
  match evp_md5 value with
  | None => None
  | Some digest => if (length digest =? 16)%nat then Some (hex_of_bytes digest) else None
  end.

(** [digest_matches]: equal lengths and [CRYPTO_memcmp == 0]. *)
Definition digest_matches (candidate expected : str) : bool :=
  (length candidate =? length expected)%nat && bool_decide (candidate = expected).

Record ParsedQuery := {
  auth_key : str;
  retained_parameters : list str;
  auth_key_count : nat
}.

(** One turn of the [while (!query.empty())] loop of [parse_query]. *)
Definition parse_parameter (parameter : str) (is_last : bool) (result : ParsedQuery)
    : option ParsedQuery :=
  let equals := find_char "=" parameter in
  let name := match equals with Some i => substr parameter 0 i | None => parameter end in
  Some
    (if bool_decide (name = b!"auth_key") then
       {| auth_key := match equals with
                      | Some i => drop (i + 1) parameter
                      | None => auth_key result
                      end;
          retained_parameters := retained_parameters result;
          auth_key_count := S (auth_key_count result) |}
     else if negb (bool_decide (name = b!"sign")) && negb (bool_decide (name = b!"time"))
             && negb (bool_decide (parameter = [])) then
       {| auth_key := auth_key result;
          retained_parameters := retained_parameters result ++ [parameter];
          auth_key_count := auth_key_count result |}
     else result).

Definition empty_query : ParsedQuery :=
  {| auth_key := []; retained_parameters := []; auth_key_count := 0 |}.

Definition parse_query (query : str) : ParsedQuery :=
  default empty_query (for_segments "&" parse_parameter query empty_query).

Fixpoint append_parameters (result : str) (first : bool) (parameters : list str) : str :=
  match parameters with
  | [] => result
  | p :: parameters' =>
      append_parameters ((if first then result else result ++ ["&"%char]) ++ p) false parameters'
  end.

Definition cleaned_target (path : str) (parameters : list str) : str :=
  if bool_decide (parameters = []) then path
  else append_parameters (path ++ ["?"%char]) true parameters.

(** The constructor: the specification it keeps, or the exception. *)
Definition rule_key (rule : UrlAuthUriSpec) : str :=
  (if bool_decide (uri_match rule = auth_prefix) then b!"prefix:" else b!"exact:")
  ++ uri_path rule.

Definition check_uri_rule (rule : UrlAuthUriSpec) (unique_rules : gset str)
    : res (gset str) :=
  if negb (valid_path (uri_path rule)) then
    Throw (invalid_argument
      b!"URL authentication protected URI must be a valid encoded absolute path")
  else if bool_decide (rule_key rule ∈ unique_rules) then
    Throw (invalid_argument b!"URL authentication contains a duplicate URI rule")
  else Ok ({[rule_key rule]} ∪ unique_rules).

Definition UrlAuthenticator (spec : UrlAuthSpec) : res UrlAuthSpec :=
  throw_if ((validity_seconds spec =? 0) || (maximum_validity_seconds <? validity_seconds spec))
    (invalid_argument b!"URL authentication validity must be between 1 and 31536000 seconds");;
  throw_if (negb (valid_key (primary_key spec)) || negb (valid_key (backup_key spec)))
    (invalid_argument b!"URL authentication keys must contain 6 to 128 letters or digits");;
  throw_if (ua_enabled spec && bool_decide (primary_key spec = [])
            && bool_decide (backup_key spec = []))
    (invalid_argument b!"URL authentication requires a primary or backup key");;
  throw_if (max_protected_uris <? length (protected_uris spec))%nat
    (invalid_argument
       b!"URL authentication cannot contain more than 200 protected URI rules");;
  _ ← res_fold check_uri_rule (protected_uris spec) ∅;
  throw_if (ua_enabled spec && bool_decide (ua_scope spec = scope_specified)
            && bool_decide (protected_uris spec = []))
    (invalid_argument b!"specified URL authentication requires at least one protected URI");;
  Ok spec.

Definition uri_rule_matches (path : str) (rule : UrlAuthUriSpec) : bool :=
  match uri_match rule with
  | auth_exact => bool_decide (path = uri_path rule)
  | auth_prefix => starts_with (uri_path rule) path
  end.

Definition protects (spec : UrlAuthSpec) (path : str) : bool :=
  if bool_decide (ua_scope spec = scope_all) then true
  else existsb (uri_rule_matches path) (protected_uris spec).

Definition signing_text (path timestamp_text random uid key : str) : str :=
  path ++ "-"%char :: timestamp_text ++ "-"%char :: random ++ "-"%char :: uid
  ++ "-"%char :: key.

(** The [matches_key] lambda. *)
Definition matches_key `{Digest} (path timestamp_text random uid supplied_digest key : str) : bool :=
  if bool_decide (key = []) then false
  else match md5_hex (signing_text path timestamp_text random uid key) with
       | Some expected => digest_matches supplied_digest expected
       | None => false
       end.

(** The time window of a timestamp; the arithmetic is [std::int64_t]'s. *)
Definition outside_window (spec : UrlAuthSpec) (timestamp now_unix_seconds : Z) : bool :=
  (timestamp <? 0) || (now_unix_seconds <? 0)
  || ((now_unix_seconds <? timestamp)
      && (maximum_future_clock_skew_seconds <? timestamp - now_unix_seconds))
  || (int64_max - validity_seconds spec <? timestamp)
  || (timestamp + validity_seconds spec <? now_unix_seconds).

(** [std::from_chars] into a [std::int64_t]; the text has no sign here. *)
Definition parse_timestamp (timestamp_text : str) : option Z :=
  match from_chars_u 63 timestamp_text with
  | Some (timestamp, rest) => if bool_decide (rest = []) then Some timestamp else None
  | None => None
  end.

(** The checks on the four fields of [auth_key] and the final verdict. *)
Definition authenticate_fields `{Digest} (spec : UrlAuthSpec) (path : str)
    (retained : list str) (now_unix_seconds : Z)
    (timestamp_text random uid supplied_digest : str) : UrlAuthResult :=
  if negb (length timestamp_text =? 10)%nat || bool_decide (random = [])
     || bool_decide (uid = []) || negb (forallb ascii_digit timestamp_text)
     || negb (lower_hex_digest supplied_digest)
  then denied
  else
    match parse_timestamp timestamp_text with
    | None => denied
    | Some timestamp =>
        if outside_window spec timestamp now_unix_seconds then denied
        else if negb (matches_key path timestamp_text random uid supplied_digest (primary_key spec))
                && negb (matches_key path timestamp_text random uid supplied_digest
                                     (backup_key spec))
        then denied
        else {| allowed := true; authentication_applied := true;
                rewritten_target := cleaned_target path retained |}
    end.

(** The three [find('-')] calls and the [substr]s between them. *)
Definition authenticate_key `{Digest} (spec : UrlAuthSpec) (path : str) (parsed : ParsedQuery)
    (now_unix_seconds : Z) : UrlAuthResult :=
  let key := auth_key parsed in
  match find_char "-" key with
  | None => denied
  | Some first =>
  match find_char_from "-" (first + 1) key with
  | None => denied
  | Some second =>
  match find_char_from "-" (second + 1) key with
  | None => denied
  | Some third =>
  if bool_decide (is_Some (find_char_from "-" (third + 1) key)) then denied
  else authenticate_fields spec path (retained_parameters parsed) now_unix_seconds
         (substr key 0 first) (substr key (first + 1) (second - first - 1))
         (substr key (second + 1) (third - second - 1)) (drop (third + 1) key)
  end end end.

Definition authenticate `{Digest} (spec : UrlAuthSpec) (target : str) (now_unix_seconds : Z)
    : UrlAuthResult :=
  let query_position := find_char "?" target in
  let path := match query_position with Some i => substr target 0 i | None => target end in
  if negb (ua_enabled spec) || negb (protects spec path) then passed_through
  else
    match query_position with
    | None => denied
    | Some i =>
        let parsed := parse_query (drop (i + 1) target) in
        if negb (auth_key_count parsed =? 1)%nat || bool_decide (auth_key parsed = [])
        then denied
        else authenticate_key spec path parsed now_unix_seconds
    end.

(** ** Query parsing, against the split at the ampersands *)

Definition param_name (p : str) : str := (break_at "=" p).1.
Definition param_value (p : str) : str := default [] (break_at "=" p).2.
Definition is_auth_key (p : str) : bool := bool_decide (param_name p = b!"auth_key").
Definition reserved (p : str) : bool :=
  is_auth_key p || bool_decide (param_name p = b!"sign") || bool_decide (param_name p = b!"time").
Definition business (p : str) : bool := negb (reserved p) && negb (bool_decide (p = [])).

(** The parser's step, without the optional early return it never takes. *)
Definition add_parameter (p : str) (r : ParsedQuery) : ParsedQuery :=
  if is_auth_key p then
    {| auth_key := match (break_at "=" p).2 with Some v => v | None => auth_key r end;
       retained_parameters := retained_parameters r;
       auth_key_count := S (auth_key_count r) |}
  else if business p then
    {| auth_key := auth_key r;
       retained_parameters := retained_parameters r ++ [p];
       auth_key_count := auth_key_count r |}
  else r.

Lemma parse_parameter_spec p l r : parse_parameter p l r = Some (add_parameter p r).
Proof.
  unfold parse_parameter, add_parameter, business, reserved, is_auth_key, param_name, substr.
  rewrite find_char_break. destruct (break_at "=" p) as [n [v|]] eqn:E; cbn [fst snd].
  - apply break_at_Some in E as [-> Hn]. rewrite drop_0, take_app_length, drop_past.
    repeat case_bool_decide; try done; by destruct n.
  - apply break_at_None in E as [-> Hn]. by repeat case_bool_decide.
Qed.

Lemma parse_query_fold q :
  parse_query q = fold_left (fun r p => add_parameter p r) (segments "&" q) empty_query.
Proof.
  unfold parse_query.
  rewrite (for_segments_ext _ _ _ q empty_query parse_parameter_spec).
  rewrite (for_segments_forall "&" (fun _ => true) add_parameter q).
  by replace (forallb _ _) with true by (symmetry; apply forallb_forall; auto).
Qed.

Lemma business_not_auth p : business p = true -> is_auth_key p = false.
Proof. unfold business, reserved. by destruct (is_auth_key p). Qed.

Lemma add_parameters_retained l r :
  retained_parameters (fold_left (fun r p => add_parameter p r) l r) =
  retained_parameters r ++ filter (fun p => business p = true) l.
Proof.
  revert r. induction l as [|p l IH]; intros r; cbn [fold_left]; [by rewrite filter_nil, app_nil_r|].
  rewrite IH, filter_cons. unfold add_parameter. destruct (is_auth_key p) eqn:Ea.
  - rewrite decide_False; [done|]. intros Hb. apply business_not_auth in Hb. congruence.
  - destruct (business p); [|done]. cbn. by rewrite <- app_assoc.
Qed.

Lemma add_parameters_count l r :
  auth_key_count (fold_left (fun r p => add_parameter p r) l r) =
  (auth_key_count r + length (filter (fun p => is_auth_key p = true) l))%nat.
Proof.
  revert r. induction l as [|p l IH]; intros r; cbn [fold_left]; [rewrite filter_nil; cbn; lia|].
  rewrite IH, filter_cons. unfold add_parameter. destruct (is_auth_key p); [rewrite decide_True by done; cbn; lia|rewrite decide_False by done].
  by destruct (business p).
Qed.

Lemma add_parameters_key l r :
  auth_key (fold_left (fun r p => add_parameter p r) l r) =
  fold_left (fun k p => default k (break_at "=" p).2)
    (filter (fun p => is_auth_key p = true) l) (auth_key r).
Proof.
  revert r. induction l as [|p l IH]; intros r; cbn [fold_left]; [done|].
  rewrite IH, filter_cons. unfold add_parameter. destruct (is_auth_key p); [|by destruct (business p)].
  rewrite decide_True by done. cbn. by destruct (break_at "=" p) as [? [?|]].
Qed.

(** An empty parameter is neither an [auth_key] nor kept, so visiting the
    segments or the whole split is the same. *)
Lemma filter_segments (P : str -> bool) c q :
  P [] = false ->
  filter (fun p => P p = true) (segments c q) = filter (fun p => P p = true) (split c q).
Proof.
  intros HP. unfold segments. case_bool_decide as Hl; [|done].
  apply last_Some in Hl as [l Hl]. rewrite Hl, removelast_last, filter_app, filter_cons, HP.
  by rewrite decide_False, filter_nil, app_nil_r.
Qed.

Lemma parse_query_spec q :
  let params := split "&" q in
  let keys := filter (fun p => is_auth_key p = true) params in
  retained_parameters (parse_query q) = filter (fun p => business p = true) params /\
  auth_key_count (parse_query q) = length keys /\
  forall p, keys = [p] -> auth_key (parse_query q) = param_value p.
Proof.
  cbn. rewrite parse_query_fold. split_and!.
  - rewrite add_parameters_retained. by apply filter_segments.
  - rewrite add_parameters_count. cbn. by rewrite filter_segments.
  - intros p Hp. rewrite add_parameters_key, filter_segments, Hp by done. done.
Qed.

(** ** The fields of [auth_key], against the split at the hyphens *)

Lemma find_char_from_past c s x r :
  find_char_from c (length s + 1) (s ++ x :: r) =
  (fun i => (length s + 1 + i)%nat) <$> find_char c r.
Proof. unfold find_char_from. by rewrite drop_past. Qed.

(** [substr] between two separators found one after the other. *)
Lemma substr_between (a b : str) x y r i j :
  i = (length a + 1)%nat -> j = (length a + 1 + length b)%nat ->
  substr (a ++ x :: b ++ y :: r) i (j - length a - 1) = b.
Proof.
  intros -> ->. unfold substr. rewrite drop_past.
  replace (length a + 1 + length b - length a - 1)%nat with (length b) by lia.
  apply take_app_length.
Qed.

Lemma authenticate_key_split `{Digest} spec path parsed now :
  authenticate_key spec path parsed now =
  match split "-" (auth_key parsed) with
  | [ts; rnd; uid; dig] =>
      authenticate_fields spec path (retained_parameters parsed) now ts rnd uid dig
  | _ => denied
  end.
Proof.
  unfold authenticate_key. generalize (auth_key parsed). intros key.
  rewrite find_char_break. destruct (break_at "-" key) as [a [r1|]] eqn:E1.
  2:{ apply break_at_None in E1 as [-> Hn]. by rewrite split_notin. }
  apply break_at_Some in E1 as [-> Ha]. rewrite split_app by done.
  rewrite find_char_from_past, find_char_break.
  destruct (break_at "-" r1) as [b [r2|]] eqn:E2; cbn [fmap option_fmap option_map].
  2:{ apply break_at_None in E2 as [-> Hn]. by rewrite split_notin. }
  apply break_at_Some in E2 as [-> Hb]. rewrite split_app by done.
  assert (Hkey : a ++ "-"%char :: b ++ "-"%char :: r2 = (a ++ "-"%char :: b) ++ "-"%char :: r2)
    by by rewrite <- app_assoc.
  assert (Hlen : (length a + 1 + length b)%nat = length (a ++ "-"%char :: b))
    by (rewrite length_app; cbn; lia).
  rewrite Hlen, Hkey, find_char_from_past, find_char_break.
  destruct (break_at "-" r2) as [c [r3|]] eqn:E3; cbn [fmap option_fmap option_map].
  2:{ apply break_at_None in E3 as [-> Hn]. by rewrite split_notin. }
  apply break_at_Some in E3 as [-> Hc]. rewrite split_app by done.
  assert (Hkey2 : (a ++ "-"%char :: b) ++ "-"%char :: c ++ "-"%char :: r3 =
                  (a ++ "-"%char :: b ++ "-"%char :: c) ++ "-"%char :: r3)
    by (rewrite <- !app_assoc; cbn; by rewrite <- !app_assoc).
  assert (Hlen2 : (length (a ++ "-"%char :: b) + 1 + length c)%nat =
                  length (a ++ "-"%char :: b ++ "-"%char :: c))
    by (rewrite !length_app; cbn; rewrite length_app; cbn; lia).
  rewrite (substr_between (a ++ "-"%char :: b) c "-" "-" r3) by done.
  rewrite Hlen2, Hkey2, find_char_from_past, drop_past.
  rewrite (bool_decide_ext _ _ (fmap_is_Some _ _)).
  destruct (find_char "-" r3) as [i|] eqn:E4.
  - rewrite bool_decide_eq_true_2 by eauto.
    destruct (split "-" r3) as [|d [|e l]] eqn:E5; [done| |done].
    assert (Hj := join_split "-" r3). rewrite E5 in Hj. cbn in Hj. subst d.
    assert (Hd : "-"%char ∉ r3) by (apply (split_elem_notin _ r3); rewrite E5; set_solver).
    apply find_char_None in Hd. congruence.
  - rewrite bool_decide_eq_false_2 by by intros [? ?]. apply find_char_None in E4.
    rewrite split_notin by done. f_equal.
    + unfold substr. rewrite drop_0, <- app_assoc. apply take_app_length.
    + rewrite <- Hkey2, <- app_assoc. apply substr_between; [done|]. rewrite length_app; cbn; lia.
Qed.

(** ** When a target is let through *)

Lemma ascii_digit_isdigit s : forallb ascii_digit s = forallb isdigit s.
Proof. done. Qed.

Lemma dec_value_bound s :
  forallb isdigit s = true -> dec_value s < 10 ^ Z.of_nat (length s).
Proof.
  induction s as [|c s IH] using rev_ind; [done|]. rewrite forallb_app, dec_value_app, length_app.
  cbn. intros H. bool_to_prop. specialize (IH ltac:(done)).
  rewrite Nat2Z.inj_add, Z.pow_add_r by lia. unfold isdigit, digit_val in *. bool_to_prop. lia.
Qed.

Lemma parse_timestamp_digits s :
  length s = 10%nat -> forallb isdigit s = true -> parse_timestamp s = Some (dec_value s).
Proof.
  intros Hl Hd. unfold parse_timestamp, from_chars_u. rewrite take_digits_all by done.
  rewrite bool_decide_eq_false_2 by by destruct s.
  pose proof (dec_value_bound s Hd) as Hb. rewrite Hl in Hb.
  rewrite (proj2 (Z.leb_gt _ _)); [done|]. lia.
Qed.

Lemma digest_matches_eq a b : digest_matches a b = true <-> a = b.
Proof.
  unfold digest_matches. split; intros H; bool_to_prop; [done|].
  rewrite Nat.eqb_refl. by rewrite bool_decide_eq_true_2.
Qed.

Lemma matches_key_spec `{Digest} path ts rnd uid dig key :
  matches_key path ts rnd uid dig key = true <->
  key <> [] /\ md5_hex (signing_text path ts rnd uid key) = Some dig.
Proof.
  unfold matches_key. case_bool_decide; [naive_solver|].
  destruct (md5_hex _) as [e|]; [|naive_solver]. rewrite digest_matches_eq. naive_solver.
Qed.

(** The bounds the constructor enforces. *)
Lemma UrlAuthenticator_ok spec spec' :
  UrlAuthenticator spec = Ok spec' -> 0 <= validity_seconds spec ->
  spec' = spec /\ 1 <= validity_seconds spec <= maximum_validity_seconds /\
  (ua_enabled spec = true -> primary_key spec <> [] \/ backup_key spec <> []).
Proof.
  unfold UrlAuthenticator. intros H Hv. res_inv. split_and!; [done|lia..|].
  intros He. rewrite He in Eg1. cbn [andb] in Eg1.
  apply andb_false_iff in Eg1 as [E%bool_decide_eq_false|E%bool_decide_eq_false]; auto.
Qed.

(** A request target signed for [path], as the type-A scheme defines it. *)
Record signed `{Digest} (spec : UrlAuthSpec) (path query : str) (now : Z)
    (ts rnd uid dig : str) : Prop := {
  one_auth_key : exists p, filter (fun p => is_auth_key p = true) (split "&" query) = [p] /\
                           split "-" (param_value p) = [ts; rnd; uid; dig];
  ts_ten_digits : length ts = 10%nat /\ forallb isdigit ts = true;
  rnd_uid_present : rnd <> [] /\ uid <> [];
  digest_form : lower_hex_digest dig = true;
  not_from_future : 0 <= now /\ dec_value ts <= now + maximum_future_clock_skew_seconds;
  not_expired : now <= dec_value ts + validity_seconds spec;
  key_match : exists key, (key = primary_key spec \/ key = backup_key spec) /\ key <> [] /\
                          md5_hex (signing_text path ts rnd uid key) = Some dig
}.

Lemma authenticate_fields_spec `{Digest} spec path retained now ts rnd uid dig :
  1 <= validity_seconds spec <= maximum_validity_seconds ->
  (length ts = 10%nat /\ forallb isdigit ts = true) /\ (rnd <> [] /\ uid <> []) /\
  lower_hex_digest dig = true /\
  (0 <= now /\ dec_value ts <= now + maximum_future_clock_skew_seconds) /\
  now <= dec_value ts + validity_seconds spec /\
  (exists key, (key = primary_key spec \/ key = backup_key spec) /\ key <> [] /\
               md5_hex (signing_text path ts rnd uid key) = Some dig) <->
  authenticate_fields spec path retained now ts rnd uid dig <> denied.
Proof.
  intros Hv. unfold authenticate_fields, maximum_validity_seconds in *.
  destruct (_ || _ || _ || _ || _) eqn:Eg.
  { split; [|done]. intros ((Hl & Hd) & (? & ?) & Hdig & _).
    rewrite Hl, Hdig, ascii_digit_isdigit, Hd in Eg.
    rewrite !bool_decide_eq_false_2 in Eg by done. done. }
  rewrite !orb_false_iff, !negb_false_iff, !bool_decide_eq_false, Nat.eqb_eq in Eg.
  destruct Eg as ((((Hl & Hr) & Hu) & Hd) & Hdig). rewrite parse_timestamp_digits by done.
  pose proof (dec_value_bound ts Hd) as Hb. rewrite Hl in Hb. change (10 ^ Z.of_nat 10) with 10000000000 in Hb.
  pose proof (dec_value_nonneg ts Hd) as Hnn.
  unfold outside_window, maximum_future_clock_skew_seconds, int64_max in *.
  destruct (_ || _ || _ || _ || _) eqn:Ew.
  { split; [|done]. intros (_ & _ & _ & ? & ? & _). exfalso. lia. }
  assert (Hkeys : negb (matches_key path ts rnd uid dig (primary_key spec))
                  && negb (matches_key path ts rnd uid dig (backup_key spec)) = false <->
     exists key, (key = primary_key spec \/ key = backup_key spec) /\ key <> [] /\
               md5_hex (signing_text path ts rnd uid key) = Some dig).
  { rewrite andb_false_iff, !negb_false_iff, !matches_key_spec. naive_solver. }
  destruct (negb _ && negb _).
  - split; [|done]. intros (_ & _ & _ & _ & _ & Hk). apply Hkeys in Hk. done.
  - split; [done|]. intros _. split_and!; try done; try lia. by apply Hkeys.
Qed.

Lemma authenticate_fields_result `{Digest} spec path retained now ts rnd uid dig :
  authenticate_fields spec path retained now ts rnd uid dig <> denied ->
  authenticate_fields spec path retained now ts rnd uid dig =
  {| allowed := true; authentication_applied := true;
     rewritten_target := cleaned_target path retained |}.
Proof. unfold authenticate_fields. by repeat case_match. Qed.

Lemma authenticate_query `{Digest} spec path query now :
  "?"%char ∉ path -> ua_enabled spec = true -> protects spec path = true ->
  authenticate spec (path ++ "?"%char :: query) now =
  let parsed := parse_query query in
  if negb (auth_key_count parsed =? 1)%nat || bool_decide (auth_key parsed = [])
  then denied else authenticate_key spec path parsed now.
Proof.
  intros Hn He Hp. unfold authenticate. rewrite find_char_break, break_at_app by done.
  unfold substr. rewrite drop_0, take_app_length, drop_past, He, Hp. done.
Qed.

(** The protected case: granted exactly for the signed targets. *)
Lemma authenticate_protected `{Digest} spec path query now :
  1 <= validity_seconds spec <= maximum_validity_seconds ->
  "?"%char ∉ path -> ua_enabled spec = true -> protects spec path = true ->
  (exists ts rnd uid dig, signed spec path query now ts rnd uid dig /\
    authenticate spec (path ++ "?"%char :: query) now =
    {| allowed := true; authentication_applied := true;
       rewritten_target :=
         cleaned_target path (filter (fun p => business p = true) (split "&" query)) |}) \/
  (~ (exists ts rnd uid dig, signed spec path query now ts rnd uid dig)) /\
   authenticate spec (path ++ "?"%char :: query) now = denied.
Proof.
  intros Hv Hn He Hp. rewrite authenticate_query by done. cbn zeta.
  destruct (parse_query_spec query) as (Hret & Hcount & Hkey). cbn zeta in *.
  destruct (auth_key_count (parse_query query) =? 1)%nat eqn:Ec; cbn [negb orb].
  2:{ right. split; [|done]. intros (ts & rnd & uid & dig & [(p & Hps & _) _ _ _ _ _ _]).
      rewrite Hps in Hcount. by rewrite Hcount in Ec. }
  bool_to_prop. rewrite Ec in Hcount.
  destruct (filter (fun p => is_auth_key p = true) (split "&" query)) as [|p [|]] eqn:Hps;
    try done. specialize (Hkey p eq_refl).
  rewrite authenticate_key_split, Hret, Hkey. case_bool_decide as Hemp.
  { right. split; [|done]. intros (ts & rnd & uid & dig & [(p' & Hp' & Hs) _ _ _ _ _ _]).
    rewrite Hps in Hp'. injection Hp' as <-. by rewrite Hemp in Hs. }
  destruct (split "-" (param_value p)) as [|ts [|rnd [|uid [|dig [|]]]]] eqn:Es.
  1-4,6: right; split; [|done];
    intros (? & ? & ? & ? & [(p' & Hp' & Hs) _ _ _ _ _ _]);
    rewrite Hps in Hp'; injection Hp' as <-; congruence.
  destruct (decide (authenticate_fields spec path
     (filter (fun p => business p = true) (split "&" query)) now ts rnd uid dig = denied))
    as [Hd|Hd].
  - right. split; [|done]. intros (? & ? & ? & ? & [(p' & Hp' & Hs) ? ? ? ? ? ?]).
    rewrite Hps in Hp'. injection Hp' as <-. rewrite Hs in Es. simplify_eq.
    revert Hd. apply authenticate_fields_spec; [done|]. tauto.
  - left. exists ts, rnd, uid, dig. split; [|by apply authenticate_fields_result].
    apply authenticate_fields_spec in Hd as (? & ? & ? & ? & ? & ?); [|done].
    constructor; try done. eauto.
Qed.

(** ** The rewritten target *)

Lemma append_parameters_spec r params :
  append_parameters r false params = r ++ mjoin ((fun p => "&"%char :: p) <$> params).
Proof.
  revert r. induction params as [|p params IH]; intros r; cbn; [by rewrite app_nil_r|].
  rewrite IH. by rewrite <- !app_assoc.
Qed.

Lemma join_cons c seg segs :
  join c (seg :: segs) = seg ++ mjoin ((fun p => c :: p) <$> segs).
Proof.
  revert seg. induction segs as [|x segs IH]; intros seg; [cbn; by rewrite app_nil_r|].
  change (join c (seg :: x :: segs)) with (seg ++ c :: join c (x :: segs)). by rewrite IH.
Qed.

Lemma cleaned_target_spec path params :
  cleaned_target path params =
  path ++ (if bool_decide (params = []) then [] else "?"%char :: join "&" params).
Proof.
  unfold cleaned_target. destruct params as [|p params]; [by rewrite app_nil_r|].
  rewrite bool_decide_eq_false_2 by done. cbn [append_parameters].
  rewrite append_parameters_spec, join_cons. by rewrite <- !app_assoc.
Qed.

Lemma business_split query :
  let params := filter (fun p => business p = true) (split "&" query) in
  params <> [] -> split "&" (join "&" params) = params.
Proof.
  cbn. intros Hne. apply split_join; [done|]. apply Forall_forall. intros p Hp.
  apply list_elem_of_filter in Hp as [_ Hp]. by apply split_elem_notin in Hp.
Qed.

(** Parsing the cleaned query again finds no [auth_key]. *)
Lemma cleaned_no_key query :
  let params := filter (fun p => business p = true) (split "&" query) in
  params <> [] -> auth_key_count (parse_query (join "&" params)) = 0%nat.
Proof.
  cbn. intros Hne. destruct (parse_query_spec (join "&" (filter (fun p => business p = true)
    (split "&" query)))) as (_ & Hc & _). cbn zeta in Hc. rewrite Hc, business_split by done.
  assert (forall l, filter (fun p => is_auth_key p = true)
     (filter (fun p => business p = true) l) = []) as ->; [|done].
  intros l. induction l as [|p l IH]; [done|]. rewrite filter_cons.
  case_decide as Hb; [|done]. rewrite filter_cons, decide_False; [done|].
  apply business_not_auth in Hb. congruence.
Qed.

(** ** Properties *)

(** A digest to run the definitions with (the sixteen bytes "0"), and a sample
    specification and query. *)
Definition sample_spec : UrlAuthSpec :=
  {| ua_enabled := true; ua_scope := scope_specified; primary_key := b!"secret1";
     backup_key := []; validity_seconds := 1800;
     protected_uris := [{| uri_path := b!"/video/"; uri_match := auth_prefix |}] |}.
Definition sample_query : str :=
  b!"x=1&auth_key=1700000000-r-u-30303030303030303030303030303030&y=2".
Definition sample_digest : Digest := fun _ => Some (replicate 16 "0"%char).

(** C19: under an accepted specification, and for every request target, a request is
    let through untouched when authentication is off or its path is not protected;
    a protected target without a query is denied; and a protected target with a query
    is let through exactly when it is signed: exactly one [auth_key] parameter of the
    form timestamp-rand-uid-md5hash, ten digit timestamp, at most 300 s in the
    future and not older than the validity, and an MD5 of
    path-timestamp-rand-uid-key under the primary or the backup key.  In that
    case the backend's target is the path with the business parameters in
    their order; otherwise the request is denied. *)
Theorem authenticate_sound_complete `{Digest} (spec spec' : UrlAuthSpec) (target : str) (now : Z) :
  0 <= validity_seconds spec ->
  UrlAuthenticator spec = Ok spec' ->
  let path := (break_at "?" target).1 in
  let result := authenticate spec' target now in
  if ua_enabled spec' && protects spec' path then
    match (break_at "?" target).2 with
    | None => result = denied
    | Some query =>
        (exists ts rnd uid dig, signed spec' path query now ts rnd uid dig /\
          result = {| allowed := true; authentication_applied := true;
                      rewritten_target :=
                        cleaned_target path (filter (fun p => business p = true) (split "&" query)) |}) \/
        (~ (exists ts rnd uid dig, signed spec' path query now ts rnd uid dig)) /\ result = denied
    end
  else result = passed_through.
Proof.
  intros Hv Hok. apply UrlAuthenticator_ok in Hok as (-> & Hb & _); [|done].
  destruct (break_at "?" target) as [path [query|]] eqn:E; cbn [fst snd].
  - apply break_at_Some in E as [-> Hq]. destruct (ua_enabled spec) eqn:He; cbn [andb].
    + destruct (protects spec path) eqn:Hp; [by apply authenticate_protected|].
      unfold authenticate. rewrite find_char_break, break_at_app by done. rewrite He. unfold substr. rewrite drop_0, take_app_length, Hp. done.
    + unfold authenticate. by rewrite He.
  - apply break_at_None in E as [-> Hq]. unfold authenticate. rewrite (proj2 (find_char_None _ _) Hq).
    by destruct (ua_enabled spec), (protects spec target).
Qed.

Lemma authenticate_sound_complete_witness :
  (exists r, @authenticate sample_digest sample_spec (b!"/video/a" ++ "?"%char :: sample_query)
              1700000100 = r /\ allowed r = true /\ rewritten_target r = b!"/video/a?x=1&y=2") /\
  @authenticate sample_digest sample_spec b!"/video/a" 1700000100 = denied.
Proof.
  pose proof (@authenticate_sound_complete sample_digest sample_spec sample_spec (b!"/video/a" ++ "?"%char :: sample_query)
    1700000100 ltac:(discriminate) ltac:(vm_compute; reflexivity)) as Hs.
  pose proof (@authenticate_sound_complete sample_digest sample_spec sample_spec b!"/video/a" 1700000100
    ltac:(discriminate) ltac:(vm_compute; reflexivity)) as Hn.
  split.
  - eexists. split; [reflexivity|]. cbv zeta in Hs.
    change (ua_enabled sample_spec && protects sample_spec (break_at "?" (b!"/video/a" ++ "?"%char :: sample_query)).1) with true in Hs.
    change ((break_at "?" (b!"/video/a" ++ "?"%char :: sample_query)).2) with (Some sample_query) in Hs.
    destruct Hs as [(ts & rnd & uid & dig & _ & Hr)|[_ Hr]].
    + rewrite Hr. split; [reflexivity|]. vm_compute. reflexivity.
    + exfalso. vm_compute in Hr. discriminate Hr.
  - exact Hn.
Defined.

(** The signature never reaches the backend and cannot be replayed from
    there: when a protected target is granted, the rewritten target has the
    same path, its parameters are a subsequence of the original ones without
    [auth_key], [sign] and [time], and presenting the rewritten target to the
    same site again is denied. *)
Theorem rewritten_target_is_clean `{Digest} (spec : UrlAuthSpec) (path query : str) (now now' : Z) :
  1 <= validity_seconds spec <= maximum_validity_seconds ->
  ua_enabled spec = true -> protects spec path = true -> "?"%char ∉ path ->
  allowed (authenticate spec (path ++ "?"%char :: query) now) = true ->
  exists params,
    rewritten_target (authenticate spec (path ++ "?"%char :: query) now) =
      path ++ (if bool_decide (params = []) then [] else "?"%char :: join "&" params) /\
    params `sublist_of` split "&" query /\
    Forall (fun p => reserved p = false) params /\
    authenticate spec (rewritten_target (authenticate spec (path ++ "?"%char :: query) now)) now'
      = denied.
Proof.
  intros Hv He Hp Hq Ha.
  destruct (authenticate_protected spec path query now Hv Hq He Hp)
    as [(ts & rnd & uid & dig & _ & Hr)|[_ Hr]]; rewrite Hr in *; [|done]. cbn [rewritten_target].
  rewrite cleaned_target_spec.
  set (params := filter (fun p => business p = true) (split "&" query)). exists params.
  split_and!; [done|apply sublist_filter| |].
  - apply Forall_forall. intros p Hin. apply list_elem_of_filter in Hin as [Hb _].
    unfold business in Hb. by destruct (reserved p).
  - case_bool_decide as Hemp.
    + rewrite app_nil_r. unfold authenticate.
      rewrite (proj2 (find_char_None _ _) Hq), He, Hp. done.
    + rewrite authenticate_query by done. cbn zeta.
      pose proof (cleaned_no_key query Hemp) as Hk. cbn zeta in Hk. fold params in Hk. by rewrite Hk.
Qed.

Lemma rewritten_target_is_clean_witness :
  exists params,
    rewritten_target (@authenticate sample_digest sample_spec
      (b!"/video/a" ++ "?"%char :: sample_query) 1700000100) =
      b!"/video/a" ++ (if bool_decide (params = []) then [] else "?"%char :: join "&" params) /\
    params `sublist_of` split "&" sample_query /\
    Forall (fun p => reserved p = false) params /\
    @authenticate sample_digest sample_spec (rewritten_target (@authenticate sample_digest sample_spec
      (b!"/video/a" ++ "?"%char :: sample_query) 1700000100)) 1700000100 = denied.
Proof.
  apply (@rewritten_target_is_clean sample_digest sample_spec b!"/video/a" sample_query
           1700000100 1700000100).
  - split; discriminate.
  - reflexivity.
  - vm_compute. reflexivity.
  - apply find_char_None. vm_compute. reflexivity.
  - vm_compute. reflexivity.
Defined.
