(* ===== verification/BackendConcurrencyLimiter.v ===== *)
(** * Backend concurrency limiter (src/src/proxy/BackendConcurrencyLimiter.{hpp,cpp})

    One mutex protects the whole limiter, so every public operation is an
    atomic function on [Impl].  A [Pending::State] is shared between the queue
    and the caller's handle; it is modelled by its [waiter_id], the set
    [completed] holding the ids whose atomic flag is set.  The handler calls an
    operation posts are its output events.  [Permit] objects live outside the
    limiter: the system state [System] pairs the limiter with the multiset of
    live permits (their site ids), and destroying one runs [release].

    The main results are the accounting invariant (the active counter of a site
    is the number of its live permits, up to those that were live when the limiter
    was last cleared, and nobody waits while a slot is free) over every reachable state, FIFO order of grants, bounded admission, and the
    collection of retired sites. *)

From Stdlib Require Import Sorted.
From stdpp Require Import sorting.
From S2P Require Import Prelude.

(** ** State *)

Record SiteState := {
  site_name : str;
  backend : str;
  maximum_active : Z;
  maximum_queue : Z;
  queue_timeout_seconds : Z;
  active : Z;
  rejected : Z;
  timeouts : Z;
  queue : list Z;
  retired : bool
}.

(** A value-initialised map entry, [impl_->sites[site_id]]. *)
Definition empty_site : SiteState :=
  {| site_name := []; backend := []; maximum_active := 0; maximum_queue := 0;
     queue_timeout_seconds := 0; active := 0; rejected := 0; timeouts := 0; queue := [];
     retired := false |}.

Record Impl := {
  sites : gmap Z SiteState;
  next_waiter_id : Z;
  completed : gset Z
}.

Definition initial_impl : Impl := {| sites := ∅; next_waiter_id := 1; completed := ∅ |}.

(** The handler invocations ([BackendAcquireResult]) an operation posts. *)
Inductive event :=
| granted (waiter : Z)
| queue_full (waiter : Z)
| queue_timeout (waiter : Z).
#[export] Instance event_eq_dec : EqDecision event.
Proof. solve_decision. Defined.

Definition is_granted (e : event) : bool := match e with granted _ => true | _ => false end.
Definition grants (es : list event) : nat := length (filter (fun e => is_granted e = true) es).

(** ** What the limiter reports *)

Record BackendConcurrencyMetrics := {
  bm_site_id : Z;
  bm_site_name : str;
  bm_backend : str;
  bm_maximum_active : Z;
  bm_maximum_queue : Z;
  bm_queue_timeout_seconds : Z;
  bm_active_connections : Z;
  bm_queue_length : Z;
  bm_rejected_requests : Z;
  bm_queue_timeouts : Z
}.

Definition site_metrics (site_id : Z) (site : SiteState) : BackendConcurrencyMetrics :=
  {| bm_site_id := site_id; bm_site_name := site_name site; bm_backend := backend site;
     bm_maximum_active := maximum_active site; bm_maximum_queue := maximum_queue site;
     bm_queue_timeout_seconds := queue_timeout_seconds site; bm_active_connections := active site;
     bm_queue_length := Z.of_nat (length (queue site)); bm_rejected_requests := rejected site;
     bm_queue_timeouts := timeouts site |}.

Definition metrics_before (a b : BackendConcurrencyMetrics) : Prop := bm_site_id a <= bm_site_id b.
#[export] Instance metrics_before_dec : RelDecision metrics_before.
Proof. intros a b. unfold metrics_before. apply _. Defined.

(** The site ids are unique, so the order of the hash table does not matter. *)
Definition metrics (l : Impl) : list BackendConcurrencyMetrics :=
  merge_sort metrics_before ((fun e => site_metrics e.1 e.2) <$> map_to_list (sites l)).

(** ** Operations *)

(** The [while (site.active < maximum_active && !site.queue.empty())] loop:
    the remaining queue, the active count, the completed flags and [promoted]. *)
Fixpoint promote (q : list Z) (act max : Z) (done : gset Z) : list Z * Z * gset Z * list Z :=
  match q with
  | [] => ([], act, done, [])
  | candidate :: q' =>
      if act <? max then
        if bool_decide (candidate ∈ done) then promote q' act max done
        else
          let '(rest, act', done', promoted) :=
            promote q' (u64 (act + 1)) max ({[candidate]} ∪ done) in
          (rest, act', done', candidate :: promoted)
      else (q, act, done, [])
  end.

Definition async_acquire (site_id : Z) (name backend_name : str) (max_active max_queue timeout : Z)
    (l : Impl) : Impl * list event :=
  let waiter := next_waiter_id l in
  let site := default empty_site (sites l !! site_id) in
  let '(q, act, done, promoted) :=
    promote (queue site) (active site) max_active (completed l) in
  let store act rej q done :=
    {| sites := <[site_id := {| site_name := name; backend := backend_name;
                               maximum_active := max_active; maximum_queue := max_queue;
                               queue_timeout_seconds := u32 timeout; active := act;
                               rejected := rej; timeouts := timeouts site; queue := q;
                               retired := false |}]> (sites l);
       next_waiter_id := u64 (waiter + 1);
       completed := done |} in
  if bool_decide (q = []) && (act <? max_active) then
    (store (u64 (act + 1)) (rejected site) q ({[waiter]} ∪ done),
     (granted <$> promoted) ++ [granted waiter])
  else if max_queue <=? Z.of_nat (length q) then
    (store act (u64 (rejected site + 1)) q ({[waiter]} ∪ done),
     (granted <$> promoted) ++ [queue_full waiter])
  else
    (store act (rejected site) (q ++ [waiter]) done, granted <$> promoted).

(** [site.retired && site.active == 0 && site.queue.empty()]: the entry goes. *)
Definition collectible (site : SiteState) : bool :=
  retired site && (active site =? 0) && bool_decide (queue site = []).
Definition settle (site_id : Z) (site : SiteState) (m : gmap Z SiteState) : gmap Z SiteState :=
  if collectible site then delete site_id m else <[site_id := site]> m.

Definition with_active (act : Z) (s : SiteState) : SiteState :=
  {| site_name := site_name s; backend := backend s; maximum_active := maximum_active s;
     maximum_queue := maximum_queue s; queue_timeout_seconds := queue_timeout_seconds s;
     active := act; rejected := rejected s; timeouts := timeouts s; queue := queue s;
     retired := retired s |}.
Definition with_queue (q : list Z) (s : SiteState) : SiteState :=
  {| site_name := site_name s; backend := backend s; maximum_active := maximum_active s;
     maximum_queue := maximum_queue s; queue_timeout_seconds := queue_timeout_seconds s;
     active := active s; rejected := rejected s; timeouts := timeouts s; queue := q;
     retired := retired s |}.

Definition with_sites (m : gmap Z SiteState) (done : gset Z) (l : Impl) : Impl :=
  {| sites := m; next_waiter_id := next_waiter_id l; completed := done |}.

(** The [while (!site.queue.empty())] loop of [release]. *)
Fixpoint pop_waiter (q : list Z) (done : gset Z) : list Z * option Z :=
  match q with
  | [] => ([], None)
  | candidate :: q' =>
      if bool_decide (candidate ∈ done) then pop_waiter q' done else (q', Some candidate)
  end.

(** The part of [release] under the lock: the new state and [next]. *)
Definition release_locked (site_id : Z) (l : Impl) : Impl * option Z :=
  match sites l !! site_id with
  | None => (l, None)
  | Some site =>
      if maximum_active site <? active site then
        (with_sites (settle site_id (with_active (u64 (active site - 1)) site) (sites l))
           (completed l) l, None)
      else
        match pop_waiter (queue site) (completed l) with
        | (q, Some next) =>
            (with_sites (<[site_id := with_queue q site]> (sites l))
               ({[next]} ∪ completed l) l, Some next)
        | (q, None) =>
            let site := with_queue q site in
            let site := if negb (active site =? 0) then with_active (u64 (active site - 1)) site
                        else site in
            (with_sites (settle site_id site (sites l)) (completed l) l, None)
        end
  end.

(** [release]: [allocs] lists the outcomes of [new Permit]; after a failure the
    waiter is told [queue_full] and the slot is released again. *)
Fixpoint release (allocs : list bool) (site_id : Z) (l : Impl) : Impl * list event :=
  match release_locked site_id l with
  | (l', None) => (l', [])
  | (l', Some next) =>
      match allocs with
      | false :: allocs' =>
          let '(l'', events) := release allocs' site_id l' in (l'', queue_full next :: events)
      | _ => (l', [granted next])
      end
  end.

Definition remove_waiter (waiter : Z) (q : list Z) : list Z :=
  match list_find (fun w => w = waiter) q with
  | Some (i, _) => delete i q
  | None => q
  end.

Definition cancel_pending (site_id waiter : Z) (l : Impl) : Impl :=
  match sites l !! site_id with
  | None => l
  | Some site =>
      if negb (bool_decide (waiter ∈ queue site)) then l
      else if bool_decide (waiter ∈ completed l) then l
      else with_sites (settle site_id (with_queue (remove_waiter waiter (queue site)) site) (sites l))
             ({[waiter]} ∪ completed l) l
  end.

Definition count_timeout (s : SiteState) : SiteState :=
  {| site_name := site_name s; backend := backend s; maximum_active := maximum_active s;
     maximum_queue := maximum_queue s; queue_timeout_seconds := queue_timeout_seconds s;
     active := active s; rejected := u64 (rejected s + 1); timeouts := u64 (timeouts s + 1);
     queue := queue s; retired := retired s |}.

Definition timeout_pending (site_id waiter : Z) (l : Impl) : Impl * list event :=
  match sites l !! site_id with
  | None => (l, [])
  | Some site =>
      if negb (bool_decide (waiter ∈ queue site)) then (l, [])
      else if bool_decide (waiter ∈ completed l) then (l, [])
      else (with_sites
              (settle site_id
                 (count_timeout (with_queue (remove_waiter waiter (queue site)) site)) (sites l))
              ({[waiter]} ∪ completed l) l,
            [queue_timeout waiter])
  end.

Definition update_limits (site_id max_active max_queue : Z) (l : Impl) : Impl * list event :=
  match sites l !! site_id with
  | None => (l, [])
  | Some site =>
      let '(q, act, done, promoted) :=
        promote (queue site) (active site) max_active (completed l) in
      (with_sites
         (<[site_id := {| site_name := site_name site; backend := backend site;
                          maximum_active := max_active; maximum_queue := max_queue;
                          queue_timeout_seconds := queue_timeout_seconds site; active := act;
                          rejected := rejected site; timeouts := timeouts site; queue := q;
                          retired := false |}]> (sites l)) done l,
       granted <$> promoted)
  end.

Definition retire (s : SiteState) : SiteState :=
  {| site_name := site_name s; backend := backend s; maximum_active := maximum_active s;
     maximum_queue := maximum_queue s; queue_timeout_seconds := queue_timeout_seconds s;
     active := active s; rejected := rejected s; timeouts := timeouts s; queue := queue s;
     retired := true |}.

(** [retain_sites]: what happens to one entry, and to all of them. *)
Definition retain_site (active_site_ids : list Z) (site_id : Z) (site : SiteState)
    : option SiteState :=
  if bool_decide (site_id ∈ active_site_ids) then Some site
  else if (active site =? 0) && bool_decide (queue site = []) then None
  else Some (retire site).

Definition retain_sites (active_site_ids : list Z) (l : Impl) : Impl :=
  with_sites (map_imap (retain_site active_site_ids) (sites l)) (completed l) l.

(** [clear]: every queued waiter is completed and dropped, the map emptied. *)
Definition clear (l : Impl) : Impl :=
  with_sites ∅ (map_fold (fun _ site done => list_to_set (queue site) ∪ done) (completed l) (sites l)) l.

(** ** The system: limiter and live permits *)

(** [owed]: the permits that were live when the limiter was last cleared. *)
Record System := { lim : Impl; permits : list Z; owed : list Z }.
Definition initial_system : System := {| lim := initial_impl; permits := []; owed := [] |}.

(** Permits of a site among the live ones. *)
Definition live (s : Z) (ps : list Z) : nat := length (filter (fun p => p = s) ps).

(** [step es n a b]: one operation, posting [es]; [n] counts the acquires
    ([next_waiter_id] is a 64-bit counter).  The ids given to [cancel_pending]
    and [timeout_pending] are arbitrary; the limits are those of a router, from 1
    to 100000.  [clear] runs at any time: [ServerCore::stop] calls it while
    transactions still hold permits, [ServerCore::wait] when all are gone. *)
Inductive step : list event -> nat -> System -> System -> Prop :=
| step_acquire sys site_id name be max_active max_queue timeout l' es :
    1 <= max_active < 2 ^ 32 -> 0 <= max_queue < 2 ^ 32 ->
    async_acquire site_id name be max_active max_queue timeout (lim sys) = (l', es) ->
    step es 1 sys {| lim := l'; permits := replicate (grants es) site_id ++ permits sys; owed := owed sys |}
| step_release sys allocs site_id rest l' es :
    permits sys ≡ₚ site_id :: rest ->
    release allocs site_id (lim sys) = (l', es) ->
    step es 0 sys {| lim := l'; permits := replicate (grants es) site_id ++ rest; owed := owed sys |}
| step_cancel sys site_id waiter :
    step [] 0 sys {| lim := cancel_pending site_id waiter (lim sys); permits := permits sys; owed := owed sys |}
| step_timeout sys site_id waiter l' es :
    timeout_pending site_id waiter (lim sys) = (l', es) ->
    step es 0 sys {| lim := l'; permits := permits sys; owed := owed sys |}
| step_update sys site_id max_active max_queue l' es :
    1 <= max_active < 2 ^ 32 -> 0 <= max_queue < 2 ^ 32 ->
    update_limits site_id max_active max_queue (lim sys) = (l', es) ->
    step es 0 sys {| lim := l'; permits := replicate (grants es) site_id ++ permits sys; owed := owed sys |}
| step_retain sys ids :
    step [] 0 sys {| lim := retain_sites ids (lim sys); permits := permits sys; owed := owed sys |}
| step_clear sys :
    step [] 0 sys {| lim := clear (lim sys); permits := permits sys; owed := permits sys |}.

(** States reachable from the empty limiter, with the outcomes posted so far
    and the number of acquires made. *)
Inductive reachable : list event -> nat -> System -> Prop :=
| reach_init : reachable [] 0 initial_system
| reach_step tr n es m a b :
    reachable tr n a -> step es m a b -> reachable (tr ++ es) (n + m) b.

(** ** Counting permits *)

Lemma live_app s a b : live s (a ++ b) = (live s a + live s b)%nat.
Proof. unfold live. by rewrite filter_app, length_app. Qed.

Lemma live_replicate_eq s n : live s (replicate n s) = n.
Proof.
  unfold live. induction n as [|n IH]; [done|]. cbn [replicate].
  rewrite filter_cons, decide_True by done. cbn. by rewrite IH.
Qed.

Lemma live_replicate_ne s t n : s <> t -> live s (replicate n t) = 0%nat.
Proof.
  intros Hne. unfold live. induction n as [|n IH]; [done|]. cbn [replicate].
  rewrite filter_cons, decide_False by done. done.
Qed.

Lemma live_cons_eq s ps : live s (s :: ps) = S (live s ps).
Proof. unfold live. by rewrite filter_cons, decide_True. Qed.

Lemma live_cons_ne s t ps : s <> t -> live s (t :: ps) = live s ps.
Proof. intros Hne. unfold live. by rewrite filter_cons, decide_False. Qed.

Lemma live_perm s a b : a ≡ₚ b -> live s a = live s b.
Proof. intros Hp. unfold live. by rewrite Hp. Qed.

Lemma grants_granted ws : grants (granted <$> ws) = length ws.
Proof. unfold grants. induction ws as [|w ws IH]; [done|]. csimpl. cbn. by rewrite IH. Qed.

Lemma grants_app a b : grants (a ++ b) = (grants a + grants b)%nat.
Proof. unfold grants. by rewrite filter_app, length_app. Qed.

(** ** The loops in closed form *)

Ltac quad_eq :=
  match goal with
  | |- (_, ?b, ?c, _) = (_, ?b', ?c', _) =>
      replace b' with b by lia; replace c' with c by set_solver; done
  end.

(** The promotion loop takes the longest prefix that fits below the limit. *)
Lemma promote_spec q act max done :
  NoDup q -> (forall w, w ∈ q -> w ∉ done) -> 0 <= act -> max < 2 ^ 32 ->
  let k := Nat.min (length q) (Z.to_nat (max - act)) in
  promote q act max done =
    (drop k q, act + Z.of_nat k, list_to_set (take k q) ∪ done, take k q).
Proof.
  revert act done. induction q as [|w q IH]; intros act done Hnd Hdone Hact Hmax; cbn zeta.
  { cbn. quad_eq. }
  apply NoDup_cons in Hnd as [Hw Hnd]. cbn [promote].
  destruct (Z.ltb_spec act max) as [Hlt|Hge].
  - rewrite bool_decide_eq_false_2 by (apply Hdone; set_solver).
    rewrite u64_id by lia. rewrite IH; [|done|set_solver|lia|done]. cbn zeta.
    replace (Z.to_nat (max - act)) with (S (Z.to_nat (max - (act + 1)))) by lia.
    cbn [length Nat.min drop take list_to_set].
    quad_eq.
  - replace (Z.to_nat (max - act)) with 0%nat by lia. rewrite Nat.min_0_r. cbn [drop take].
    quad_eq.
Qed.

Lemma pop_waiter_spec q done :
  (forall w, w ∈ q -> w ∉ done) ->
  pop_waiter q done = match q with [] => ([], None) | w :: q' => (q', Some w) end.
Proof.
  intros Hd. destruct q as [|w q]; [done|]. cbn. rewrite bool_decide_eq_false_2; [done|].
  apply Hd. set_solver.
Qed.

Lemma remove_waiter_sublist w q : remove_waiter w q `sublist_of` q.
Proof.
  unfold remove_waiter. destruct (list_find _ q) as [[i x]|]; [|done]. apply sublist_delete.
Qed.

(** ** The invariant *)

(** One site: active counter [act], limit [max] and queue [q] with [n] live
    permits, when ids below [next] are allocated and those in [done] completed. *)
Record core (next : Z) (done : gset Z) (n : nat) (act max : Z) (q : list Z) : Prop := {
  core_active : act = Z.of_nat n;
  core_wait : q <> [] -> 1 <= max <= act;
  core_fresh : forall w, w ∈ q -> w < next /\ w ∉ done;
  core_sorted : StronglySorted Z.lt q;
  core_limit : 0 <= max < 2 ^ 32 /\ act < 2 ^ 32
}.

Definition site_core (next : Z) (done : gset Z) (n : nat) (st : SiteState) : Prop :=
  core next done n (active st) (maximum_active st) (queue st).

Definition slot_inv (next : Z) (done : gset Z) (n : nat) (o : option SiteState) : Prop :=
  match o with
  | Some st => site_core next done n st /\ collectible st = false
  | None => n = 0%nat
  end.

Definition queue_of (o : option SiteState) : list Z := default [] (queue <$> o).

Record Inv (l : Impl) (ps : list Z) : Prop := {
  inv_slot : forall s, slot_inv (next_waiter_id l) (completed l) (live s ps) (sites l !! s);
  inv_disjoint : forall s s' w,
    s <> s' -> w ∈ queue_of (sites l !! s) -> w ∈ queue_of (sites l !! s') -> False;
  inv_done : forall w, w ∈ completed l -> w < next_waiter_id l;
  inv_next : 1 <= next_waiter_id l
}.

Lemma sorted_nodup q : StronglySorted Z.lt q -> NoDup q.
Proof.
  induction 1 as [|x q Hs IH HF]; constructor; [|done]. intros Hin.
  rewrite Forall_forall in HF. specialize (HF x Hin). lia.
Qed.

Lemma sorted_sublist q q' : StronglySorted Z.lt q -> q' `sublist_of` q -> StronglySorted Z.lt q'.
Proof.
  intros Hs Hsub. induction Hsub as [|x q' q Hsub IH|x q' q Hsub IH]; [constructor| |];
    apply StronglySorted_inv in Hs as [Hs HF].
  - constructor; [by apply IH|]. rewrite Forall_forall in *. intros y Hy.
    apply HF. by eapply elem_of_sublist.
  - by apply IH.
Qed.

Lemma sorted_snoc q w :
  StronglySorted Z.lt q -> (forall x, x ∈ q -> x < w) -> StronglySorted Z.lt (q ++ [w]).
Proof.
  intros Hs Hw. induction Hs as [|x q Hs IH HF]; cbn; [repeat constructor|].
  constructor; [apply IH; set_solver|]. apply Forall_app. split; [done|].
  repeat constructor. apply Hw. set_solver.
Qed.

Lemma elem_of_drop_queue k (q : list Z) w : w ∈ drop k q -> w ∈ q.
Proof. intros Hw. eapply elem_of_sublist; [done|apply sublist_drop]. Qed.
Lemma elem_of_take_queue k (q : list Z) w : w ∈ take k q -> w ∈ q.
Proof. intros Hw. eapply elem_of_sublist; [done|apply sublist_take]. Qed.

Lemma slot_inv_queue next done n o w :
  slot_inv next done n o -> w ∈ queue_of o -> w < next /\ w ∉ done.
Proof. destruct o as [st|]; [|set_solver]. intros [Hc _]. apply (core_fresh _ _ _ _ _ _ Hc). Qed.

Lemma slot_inv_mono next next' done done' n o :
  slot_inv next done n o -> next <= next' -> (forall w, w ∈ queue_of o -> w ∉ done') ->
  slot_inv next' done' n o.
Proof.
  destruct o as [st|]; [|done]. intros [[Ha Hw Hf Hs Hl] Hc] Hn Hd. split; [|done].
  constructor; try done. intros w Hin. split; [|by apply Hd]. destruct (Hf w Hin). lia.
Qed.

(** An operation that only touches the entry of [s]: it stores [o], allocates
    ids up to [next'] and completes waiters that are new or were queued at [s]. *)
Record local_step (l : Impl) (s : Z) (n : nat) (l' : Impl) : Prop := {
  local_sites : exists o, sites l' = partial_alter (fun _ => o) s (sites l) /\
    slot_inv (next_waiter_id l') (completed l') n o /\
    (forall w, w ∈ queue_of o -> next_waiter_id l <= w \/ w ∈ queue_of (sites l !! s));
  local_next : next_waiter_id l <= next_waiter_id l';
  local_done : forall w, w ∈ completed l' ->
    w ∈ completed l \/ next_waiter_id l <= w < next_waiter_id l' \/ w ∈ queue_of (sites l !! s)
}.

Lemma Inv_local l l' ps ps' s n :
  Inv l ps -> local_step l s n l' -> live s ps' = n ->
  (forall s', s' <> s -> live s' ps' = live s' ps) -> Inv l' ps'.
Proof.
  intros [Hslot Hdis Hd Hnext] [(o & Hs & Ho & Hq) Hn Hdone] <- Hlive.
  assert (Hother : forall s' w, s' <> s -> w ∈ queue_of (sites l !! s') ->
     w ∈ completed l \/ next_waiter_id l <= w \/ w ∈ queue_of (sites l !! s) -> False).
  { intros s' w Hne Hin Hw. pose proof (slot_inv_queue _ _ _ _ w (Hslot s') Hin) as [? ?].
    destruct Hw as [Hw|[Hw|Hw]]; [done|lia|]. by eapply (Hdis s' s w). }
  constructor; rewrite ?Hs; [| | |lia].
  - intros s'. destruct (decide (s' = s)) as [->|Hne].
    + by rewrite lookup_partial_alter_eq.
    + rewrite lookup_partial_alter_ne, Hlive by done.
      eapply slot_inv_mono; [apply Hslot|done|]. intros w Hin Hw. eapply Hother; [done..|].
      destruct (Hdone w Hw) as [?|[[? ?]|?]]; auto.
  - intros s1 s2 w Hne H1 H2.
    destruct (decide (s1 = s)) as [->|Hne1], (decide (s2 = s)) as [->|Hne2]; [done| | |].
    + rewrite lookup_partial_alter_eq in H1. rewrite lookup_partial_alter_ne in H2 by done.
      eapply (Hother s2 w); [done..|]. destruct (Hq w H1); auto.
    + rewrite lookup_partial_alter_eq in H2. rewrite lookup_partial_alter_ne in H1 by done.
      eapply (Hother s1 w); [done..|]. destruct (Hq w H2); auto.
    + rewrite lookup_partial_alter_ne in H1, H2 by done. by eapply (Hdis s1 s2 w).
  - intros w Hw. destruct (Hdone w Hw) as [Hc|[[? ?]|Hin]]; [specialize (Hd w Hc); lia|lia|].
    destruct (slot_inv_queue _ _ _ _ w (Hslot s) Hin). lia.
Qed.

(** ** Every operation preserves the invariant *)

Lemma settle_alter s st m :
  settle s st m = partial_alter (fun _ => if collectible st then None else Some st) s m.
Proof. unfold settle. by destruct (collectible st). Qed.

(** Storing or collecting a site whose counters are right. *)
Lemma slot_inv_settle next done n st :
  site_core next done n st ->
  slot_inv next done n (if collectible st then None else Some st).
Proof.
  intros Hc. destruct (collectible st) eqn:E; [|by split].
  unfold collectible in E. bool_to_prop. pose proof (core_active _ _ _ _ _ _ Hc). cbn. lia.
Qed.

Lemma queue_of_settle st w :
  w ∈ queue_of (if collectible st then None else Some st) -> w ∈ queue st.
Proof. destruct (collectible st); set_solver. Qed.

(** The entry an operation works on, present or value-initialised. *)
Lemma Inv_site l ps s :
  Inv l ps ->
  site_core (next_waiter_id l) (completed l) (live s ps) (default empty_site (sites l !! s)) /\
  queue (default empty_site (sites l !! s)) = queue_of (sites l !! s).
Proof.
  intros [Hslot _ _ _]. specialize (Hslot s). destruct (sites l !! s) as [st|]; cbn in *.
  - by destruct Hslot.
  - rewrite Hslot. split; [|done]. constructor; cbn; [done|done|set_solver|constructor|lia].
Qed.

(** The promotion loop on a site that satisfies the invariant. *)
Lemma promote_core next done n act max0 q max :
  core next done n act max0 q -> 1 <= max < 2 ^ 32 ->
  exists k, (k <= length q)%nat /\
    promote q act max done =
      (drop k q, Z.of_nat (n + k), list_to_set (take k q) ∪ done, take k q) /\
    (drop k q <> [] -> max <= Z.of_nat (n + k)) /\
    core next (list_to_set (take k q) ∪ done) (n + k) (Z.of_nat (n + k)) max (drop k q).
Proof.
  intros [Ha Hw Hf Hs Hl] Hmax. exists (Nat.min (length q) (Z.to_nat (max - act))).
  rewrite promote_spec; [|by apply sorted_nodup|by apply Hf|lia|lia]. subst act. cbn zeta.
  set (k := Nat.min (length q) (Z.to_nat (max - Z.of_nat n))).
  assert (Hwait : drop k q <> [] -> max <= Z.of_nat (n + k)).
  { intros Hne. destruct (decide (length q <= Z.to_nat (max - Z.of_nat n))%nat) as [Hle|Hgt].
    - unfold k in Hne. rewrite Nat.min_l in Hne by done. by rewrite drop_ge in Hne.
    - unfold k. lia. }
  split_and!; [lia| |done|].
  - match goal with |- (_, ?b, _, _) = (_, ?b', _, _) => by replace b' with b by lia end.
  - constructor; try done; [intros Hne; specialize (Hwait Hne); lia|..|lia].
    + intros w Hin. destruct (Hf w (elem_of_drop_queue _ _ _ Hin)) as [? ?]. split; [done|].
      rewrite not_elem_of_union. split; [|done]. intros Htk%elem_of_list_to_set.
      apply sorted_nodup in Hs. rewrite <- (take_drop k q) in Hs.
      apply NoDup_app in Hs as (_ & Hd & _). by apply (Hd w).
    + eapply sorted_sublist; [exact Hs|apply sublist_drop].
Qed.

(** A new id: completed at once, or appended to the queue. *)
Lemma core_complete_new next done n act max q :
  core next done n act max q -> core (next + 1) ({[next]} ∪ done) n act max q.
Proof.
  intros [Ha Hw Hf Hs Hl]. constructor; try done. intros w Hin. destruct (Hf w Hin).
  split; [lia|]. rewrite not_elem_of_union, not_elem_of_singleton. split; [lia|done].
Qed.

Lemma core_enqueue next done n act max q :
  core next done n act max q -> 1 <= max <= act -> next ∉ done ->
  core (next + 1) done n act max (q ++ [next]).
Proof.
  intros [Ha Hw Hf Hs Hl] Hmax Hn. constructor; try done.
  - intros w [Hin|Hin%list_elem_of_singleton]%elem_of_app; [|subst; split; [lia|done]].
    destruct (Hf w Hin). split; [lia|done].
  - apply sorted_snoc; [done|]. intros x Hx. by apply Hf.
Qed.

Lemma async_acquire_local s name be max_active max_queue timeout l l' es ps :
  Inv l ps -> 1 <= max_active < 2 ^ 32 -> next_waiter_id l + 1 < 2 ^ 64 ->
  async_acquire s name be max_active max_queue timeout l = (l', es) ->
  local_step l s (grants es + live s ps) l' /\ next_waiter_id l' = next_waiter_id l + 1.
Proof.
  intros HI Hmax Hnext Hacq. pose proof (inv_next _ _ HI) as Hn1.
  destruct (Inv_site l ps s HI) as [Hcore Hq]. unfold async_acquire in Hacq.
  destruct (promote_core _ _ _ _ _ _ max_active Hcore Hmax) as (k & Hk & Hpr & Hwait & Hcore').
  rewrite Hpr in Hacq. cbv beta iota in Hacq. rewrite (u64_id (next_waiter_id l + 1)) in Hacq by lia.
  set (st := default empty_site (sites l !! s)) in *.
  assert (Hlen : length (take k (queue st)) = k) by (rewrite length_take; lia).
  assert (Hdrop : forall w, w ∈ drop k (queue st) -> w ∈ queue_of (sites l !! s))
    by (rewrite <- Hq; apply elem_of_drop_queue).
  assert (Htake : forall w, w ∈ take k (queue st) -> w ∈ queue_of (sites l !! s))
    by (rewrite <- Hq; apply elem_of_take_queue).
  destruct (bool_decide (drop k (queue st) = []) && (Z.of_nat (live s ps + k) <? max_active)) eqn:E1;
    [|destruct (max_queue <=? Z.of_nat (length (drop k (queue st)))) eqn:E2];
    injection Hacq as <- <-; rewrite ?grants_app, grants_granted, Hlen; (split; [|done]);
    (constructor; cbn [sites next_waiter_id completed];
       [eexists; split; [reflexivity|split; [split; [|done]|]]|lia|]).
  all: try (intros w; rewrite ?elem_of_union, elem_of_list_to_set, ?elem_of_singleton;
            intuition (auto || lia); fail).
  - apply andb_true_iff in E1 as [E1%bool_decide_eq_true E1'%Z.ltb_lt].
    apply core_complete_new in Hcore'. unfold site_core. cbn [active maximum_active queue].
    change (grants [granted (next_waiter_id l)]) with 1%nat. rewrite u64_id by lia.
    destruct Hcore' as [Ha Hw Hf Hs Hl]. constructor; [lia|by rewrite E1|done|done|lia].
  - cbn. auto.
  - apply core_complete_new in Hcore'.
    change (grants [queue_full (next_waiter_id l)]) with 0%nat.
    by replace (k + 0 + live s ps)%nat with (live s ps + k)%nat by lia.
  - cbn. auto.
  - replace (k + live s ps)%nat with (live s ps + k)%nat by lia. apply core_enqueue; [done| |].
    + destruct (decide (drop k (queue st) = [])) as [Hemp|Hne]; [|specialize (Hwait Hne); cbn; lia].
      rewrite bool_decide_eq_true_2 in E1 by done. cbn in E1. bool_to_prop. lia.
    + rewrite not_elem_of_union, elem_of_list_to_set. split.
      * intros Hin%elem_of_take_queue. destruct (core_fresh _ _ _ _ _ _ Hcore _ Hin). lia.
      * intros Hin%(inv_done _ _ HI). lia.
  - cbn. intros w [Hin|Hin%list_elem_of_singleton]%elem_of_app; [auto|left; lia].
Qed.

(** Storing a site through [settle] without allocating an id. *)
Lemma local_settle l s n st done :
  site_core (next_waiter_id l) done n st ->
  (forall w, w ∈ queue st -> w ∈ queue_of (sites l !! s)) ->
  (forall w, w ∈ done -> w ∈ completed l \/ w ∈ queue_of (sites l !! s)) ->
  local_step l s n (with_sites (settle s st (sites l)) done l).
Proof.
  intros Hc Hq Hd. rewrite settle_alter. constructor; cbn.
  - eexists. split; [reflexivity|]. split; [by apply slot_inv_settle|].
    intros w Hw%queue_of_settle. auto.
  - lia.
  - intros w Hw. destruct (Hd w Hw); auto.
Qed.

(** The locked part of [release], started with [S n] permits counted. *)
Lemma release_locked_local s l l' ps next n :
  Inv l ps -> live s ps = S n -> release_locked s l = (l', next) ->
  local_step l s (if next then S n else n) l'.
Proof.
  intros HI Hlive Hrel. pose proof (inv_slot _ _ HI s) as Hslot. rewrite Hlive in Hslot.
  unfold release_locked in Hrel. destruct (sites l !! s) as [st|] eqn:Es; [|done].
  destruct Hslot as [Hcore Hcol]. pose proof Hcore as [Ha Hw Hf Hs Hl].
  destruct (Z.ltb_spec (maximum_active st) (active st)) as [Hlt|Hge].
  - injection Hrel as <- <-. rewrite u64_id by (rewrite Ha in *; lia).
    apply local_settle; rewrite ?Es; auto. constructor; cbn; [lia|intros Hne; specialize (Hw Hne); lia|done|done|lia].
  - rewrite pop_waiter_spec in Hrel by apply Hf. destruct (queue st) as [|w q] eqn:Eq.
    + injection Hrel as <- <-. cbn [with_queue active].
      rewrite (proj2 (Z.eqb_neq (active st) 0)) by lia. cbn [negb]. rewrite u64_id by lia.
      apply local_settle; rewrite ?Es; auto.
      * constructor; cbn; [lia|done|set_solver|constructor|lia].
      * cbn. set_solver.
    + injection Hrel as <- <-. constructor; cbn.
      * eexists. split; [reflexivity|]. rewrite Es. cbn. rewrite Eq. split; [|set_solver].
        apply StronglySorted_inv in Hs as [Hs HF]. rewrite Forall_forall in HF. split.
        -- constructor; cbn; [done|by intros _; apply Hw| |done|done]. intros x Hx.
           destruct (Hf x) as [? ?]; [set_solver|]. split; [done|].
           rewrite not_elem_of_union, not_elem_of_singleton. split; [|done].
           intros ->. specialize (HF _ Hx). lia.
        -- unfold collectible. cbn. rewrite (proj2 (Z.eqb_neq (active st) 0)) by lia.
           by rewrite andb_false_r.
      * lia.
      * intros x. rewrite Es, elem_of_union, elem_of_singleton. cbn. rewrite Eq. set_solver.
Qed.

Lemma release_locked_next s l l' next :
  release_locked s l = (l', next) -> next_waiter_id l' = next_waiter_id l.
Proof.
  unfold release_locked. repeat case_match; intros; simplify_eq; done.
Qed.

Lemma release_inv allocs s l l' es ps rest :
  Inv l ps -> ps ≡ₚ s :: rest -> release allocs s l = (l', es) ->
  Inv l' (replicate (grants es) s ++ rest) /\ next_waiter_id l' = next_waiter_id l.
Proof.
  revert l l' es ps. induction allocs as [|a allocs IH]; intros l l' es ps HI Hp Hrel;
    cbn [release] in Hrel; destruct (release_locked s l) as [l1 next] eqn:E1.
  all: pose proof (release_locked_next _ _ _ _ E1) as Hnx;
    assert (Hlv : live s ps = S (live s rest)) by (by rewrite (live_perm s _ _ Hp), live_cons_eq);
    pose proof (release_locked_local s l l1 ps next _ HI Hlv E1) as Hloc;
    assert (HI1 : Inv l1 ((if next then [s] else []) ++ rest))
      by (eapply Inv_local; [exact HI|exact Hloc|destruct next; cbn [app]; by rewrite ?live_cons_eq|];
          intros s' Hne; rewrite (live_perm s' _ _ Hp), live_cons_ne by done;
          destruct next; cbn [app]; by rewrite ?live_cons_ne).
  all: destruct next as [w|]; [|by injection Hrel as <- <-].
  - injection Hrel as <- <-. done.
  - destruct a; [by injection Hrel as <- <-|].
    destruct (release allocs s l1) as [l2 es2] eqn:E2. injection Hrel as <- <-.
    destruct (IH l1 l2 es2 _ HI1 (reflexivity _) E2) as [HI2 Hnx2]. split; [done|congruence].
Qed.

Lemma remove_waiter_core next done n st w :
  site_core next done n st ->
  site_core next ({[w]} ∪ done) n (with_queue (remove_waiter w (queue st)) st).
Proof.
  intros [Ha Hw Hf Hs Hl]. pose proof (remove_waiter_sublist w (queue st)) as Hsub.
  constructor; cbn; try done.
  - intros Hne. apply Hw. intros E. by rewrite E in Hne.
  - intros x Hx. destruct (Hf x) as [? ?]; [by eapply elem_of_sublist|]. split; [done|].
    rewrite not_elem_of_union, not_elem_of_singleton. split; [|done]. intros ->.
    apply sorted_nodup in Hs. revert Hx. unfold remove_waiter.
    destruct (list_find (fun w' => w' = w) (queue st)) as [[i y]|] eqn:Ef.
    + apply list_find_Some in Ef as (Hi & <- & _). intros Hx.
      apply delete_Permutation in Hi. rewrite Hi in Hs. by apply NoDup_cons in Hs as [? _].
    + rewrite list_find_None, Forall_forall in Ef. intros Hx. by apply (Ef w Hx).
  - by eapply sorted_sublist.
Qed.

(** Cancellation and timeout share their effect on the accounting. *)
Lemma dequeue_local l ps s st w f :
  Inv l ps -> sites l !! s = Some st -> w ∈ queue st ->
  (forall x, active (f x) = active x /\ maximum_active (f x) = maximum_active x
             /\ queue (f x) = queue x) ->
  local_step l s (live s ps)
    (with_sites (settle s (f (with_queue (remove_waiter w (queue st)) st)) (sites l))
       ({[w]} ∪ completed l) l).
Proof.
  intros HI Es Hw Hf. pose proof (inv_slot _ _ HI s) as Hslot. rewrite Es in Hslot.
  destruct Hslot as [Hcore _].
  destruct (Hf (with_queue (remove_waiter w (queue st)) st)) as (Hfa & Hfm & Hfq).
  apply local_settle.
  - unfold site_core. rewrite Hfa, Hfm, Hfq. by apply remove_waiter_core.
  - intros x Hx. rewrite Hfq in Hx. rewrite Es. cbn.
    eapply elem_of_sublist; [exact Hx|apply remove_waiter_sublist].
  - rewrite Es. cbn. set_solver.
Qed.

Lemma Inv_same_permits l l' ps s : Inv l ps -> local_step l s (live s ps) l' -> Inv l' ps.
Proof. intros. by eapply Inv_local. Qed.

Lemma cancel_pending_inv s w l ps :
  Inv l ps -> Inv (cancel_pending s w l) ps /\ next_waiter_id (cancel_pending s w l) = next_waiter_id l.
Proof.
  intros HI. unfold cancel_pending. destruct (sites l !! s) as [st|] eqn:Es; [|done].
  case_bool_decide as Hw; [|done]. cbn [negb]. case_bool_decide; [done|]. split; [|done].
  eapply Inv_same_permits; [done|]. by apply (dequeue_local l ps s st w id).
Qed.

Lemma timeout_pending_inv s w l l' es ps :
  Inv l ps -> timeout_pending s w l = (l', es) ->
  Inv l' ps /\ next_waiter_id l' = next_waiter_id l.
Proof.
  intros HI. unfold timeout_pending. destruct (sites l !! s) as [st|] eqn:Es;
    [|by intros [= <- <-]].
  case_bool_decide as Hw; [|by intros [= <- <-]]. cbn [negb].
  case_bool_decide; intros [= <- <-]; [done|]. split; [|done].
  eapply Inv_same_permits; [done|]. by apply (dequeue_local l ps s st w count_timeout).
Qed.

Lemma update_limits_local s max_active max_queue l l' es ps :
  Inv l ps -> 1 <= max_active < 2 ^ 32 ->
  update_limits s max_active max_queue l = (l', es) ->
  local_step l s (grants es + live s ps) l' /\ next_waiter_id l' = next_waiter_id l.
Proof.
  intros HI Hmax. pose proof (inv_slot _ _ HI s) as Hslot. unfold update_limits.
  destruct (sites l !! s) as [st|] eqn:Es.
  2:{ intros [= <- <-]. split; [|done]. constructor; [|lia|auto].
      exists None. split; [by rewrite <- Es, partial_alter_self|]. rewrite Es. split; [done|set_solver]. }
  destruct Hslot as [Hcore _].
  destruct (promote_core _ _ _ _ _ _ max_active Hcore Hmax) as (k & Hk & Hpr & Hwait & Hcore').
  rewrite Hpr. intros [= <- <-]. rewrite grants_granted, length_take, Nat.min_l by done.
  split; [|done]. constructor; cbn; rewrite ?Es; cbn.
  - eexists. split; [reflexivity|]. cbn. split.
    + split; [|done]. by replace (k + live s ps)%nat with (live s ps + k)%nat by lia.
    + intros w Hw%elem_of_drop_queue. auto.
  - lia.
  - intros w. rewrite elem_of_union, elem_of_list_to_set. intros [Hw%elem_of_take_queue|?]; auto.
Qed.

Lemma retain_sites_inv ids l ps : Inv l ps -> Inv (retain_sites ids l) ps.
Proof.
  intros [Hslot Hdis Hd Hn].
  assert (Hq : forall s w, w ∈ queue_of (map_imap (retain_site ids) (sites l) !! s) ->
                           w ∈ queue_of (sites l !! s)).
  { intros s w. rewrite map_lookup_imap. destruct (sites l !! s) as [st|]; [|done]. cbn.
    unfold retain_site. repeat case_match; set_solver. }
  constructor; cbn; try done; [|intros s s' w Hne H1%Hq H2%Hq; by eapply Hdis].
  intros s. specialize (Hslot s). rewrite map_lookup_imap.
  destruct (sites l !! s) as [st|]; [|done]. cbn. unfold retain_site.
  destruct Hslot as [Hcore Hcol]. case_bool_decide; [by split|].
  destruct ((active st =? 0) && bool_decide (queue st = [])) eqn:E.
  - bool_to_prop. pose proof (core_active _ _ _ _ _ _ Hcore). cbn. lia.
  - split; [done|]. unfold collectible. cbn. done.
Qed.

Lemma fold_done (m : gmap Z SiteState) (done : gset Z) w :
  w ∈ map_fold (fun _ site d => list_to_set (queue site) ∪ d) done m <->
  w ∈ done \/ exists s st, m !! s = Some st /\ w ∈ queue st.
Proof.
  apply (map_fold_weak_ind (fun r m => w ∈ r <-> w ∈ done \/ exists s st, m !! s = Some st /\ w ∈ queue st)).
  - split; [auto|]. intros [?|(s & st & H & _)]; [done|]. by rewrite lookup_empty in H.
  - intros s st m' r Hs IH. rewrite elem_of_union, elem_of_list_to_set, IH. split.
    + intros [?|[?|(s' & st' & Hs' & ?)]]; [right; exists s, st; by rewrite lookup_insert_eq|auto|].
      right. exists s', st'. split; [|done]. rewrite lookup_insert_ne; [done|congruence].
    + intros [?|(s' & st' & Hs' & ?)]; [auto|]. destruct (decide (s' = s)) as [->|Hne].
      * rewrite lookup_insert_eq in Hs'. simplify_eq. auto.
      * rewrite lookup_insert_ne in Hs' by done. right. right. eauto.
Qed.

Lemma clear_inv l ps : Inv l ps -> Inv (clear l) [].
Proof.
  intros [Hslot _ Hd Hn]. constructor; cbn; [intros s; by rewrite lookup_empty|set_solver| |done].
  intros w [Hw|(s & st & Hs & Hw)]%fold_done; [by apply Hd|].
  specialize (Hslot s). rewrite Hs in Hslot. by apply (slot_inv_queue _ _ _ _ w Hslot).
Qed.

(** The release of a permit the counters do not count: nothing happens. *)
Lemma release_stray allocs s l l' es ps :
  Inv l ps -> s ∉ ps -> release allocs s l = (l', es) -> l' = l /\ es = [].
Proof.
  intros HI Hn Hrel. assert (Hlv : live s ps = 0%nat).
  { unfold live. destruct (filter _ ps) as [|x r] eqn:E; [done|]. exfalso. apply Hn.
    assert (Hx : x ∈ filter (fun p => p = s) ps) by (rewrite E; set_solver).
    by apply list_elem_of_filter in Hx as [-> ?]. }
  assert (Hloc : release_locked s l = (l, None)).
  { pose proof (inv_slot _ _ HI s) as Hslot. rewrite Hlv in Hslot. unfold release_locked.
    destruct (sites l !! s) as [st|] eqn:Es; [|done]. destruct Hslot as [[Ha Hw Hf Hs Hl] Hc]. cbn in Ha.
    assert (Hq : queue st = []) by (destruct (queue st); [done|]; specialize (Hw ltac:(done)); lia).
    rewrite (proj2 (Z.ltb_ge _ _)) by lia. rewrite Hq. cbn [pop_waiter]. cbv zeta. cbn [with_queue active]. rewrite Ha. change (negb (Z.of_nat 0 =? 0)) with false. cbv iota.
    assert (with_queue [] st = st) as -> by (destruct st; cbn in *; by subst).
    unfold settle. rewrite Hc, insert_id by done. by destruct l. }
  destruct allocs; cbn [release] in Hrel; rewrite Hloc in Hrel; by injection Hrel as <- <-.
Qed.

(** The live permits: those the counters count and, after [clear], stray ones. *)
Record Accounted (sys : System) (counted stray : list Z) : Prop := {
  ac_inv : Inv (lim sys) counted;
  ac_permits : permits sys ≡ₚ counted ++ stray;
  ac_stray : forall s, (live s stray <= live s (owed sys))%nat
}.

(** Permits of one site are alike: a release is that of a counted permit if there is one. *)
Lemma release_cases s rest sys counted stray : Accounted sys counted stray -> permits sys ≡ₚ s :: rest ->
  (exists counted', counted ≡ₚ s :: counted' /\ rest ≡ₚ counted' ++ stray) \/
  (s ∉ counted /\ exists stray', stray ≡ₚ s :: stray' /\ rest ≡ₚ counted ++ stray').
Proof.
  intros [_ Hp _] Hs. destruct (decide (s ∈ counted)) as [Hin|Hn].
  - left. apply elem_of_Permutation in Hin as [counted' Hc]. exists counted'. split; [done|].
    rewrite Hp, Hc in Hs. symmetry. by apply (Permutation_cons_inv (a := s)).
  - right. split; [done|]. assert (Hin : s ∈ stray).
    { assert (s ∈ counted ++ stray) as [?|?]%elem_of_app; [|done..]. rewrite <-Hp, Hs. set_solver. }
    apply elem_of_Permutation in Hin as [stray' Hc]. exists stray'. split; [done|].
    rewrite Hp, Hc, <-Permutation_middle in Hs. symmetry. by apply (Permutation_cons_inv (a := s)).
Qed.

Lemma accounted_grow sys counted stray s n l' :
  Accounted sys counted stray -> local_step (lim sys) s (n + live s counted) l' ->
  Accounted {| lim := l'; permits := replicate n s ++ permits sys; owed := owed sys |} (replicate n s ++ counted) stray.
Proof.
  intros [HI Hp Hst] Hl. constructor; cbn [lim permits owed]; [|by rewrite Hp, app_assoc|done].
  eapply Inv_local; [exact HI|exact Hl|by rewrite live_app, live_replicate_eq|].
  intros s' Hne. by rewrite live_app, live_replicate_ne.
Qed.

Lemma accounted_release sys counted stray allocs s rest l' es :
  Accounted sys counted stray -> permits sys ≡ₚ s :: rest -> release allocs s (lim sys) = (l', es) ->
  next_waiter_id l' = next_waiter_id (lim sys) /\
  exists counted' stray', Accounted {| lim := l'; permits := replicate (grants es) s ++ rest; owed := owed sys |} counted' stray'.
Proof.
  intros HA Hs Hrel. pose proof HA as [HI Hp Hst]. destruct (release_cases s rest sys _ _ HA Hs) as [(counted' & Hc & Hr)|(Hn & stray' & Hc & Hr)].
  - destruct (release_inv _ _ _ _ _ _ _ HI Hc Hrel) as [HI' Hnx]. split; [done|].
    exists (replicate (grants es) s ++ counted'), stray. constructor; cbn; [done| |done]. by rewrite Hr, app_assoc.
  - destruct (release_stray _ _ _ _ _ _ HI Hn Hrel) as [-> ->]. split; [done|]. exists counted, stray'.
    constructor; cbn [lim permits owed]; [done..|]. intros t. specialize (Hst t). rewrite (live_perm t _ _ Hc) in Hst.
    destruct (decide (t = s)) as [->|Hne]; [rewrite live_cons_eq in Hst; lia|by rewrite live_cons_ne in Hst].
Qed.

Lemma step_inv es m a b counted stray :
  step es m a b -> Accounted a counted stray -> next_waiter_id (lim a) + Z.of_nat m < 2 ^ 64 ->
  (exists counted' stray', Accounted b counted' stray') /\ next_waiter_id (lim b) = next_waiter_id (lim a) + Z.of_nat m.
Proof.
  intros Hstep HA Hn. pose proof HA as [HI Hp Hst]. destruct Hstep; cbn [lim permits owed] in *.
  - destruct (async_acquire_local _ _ _ _ _ _ _ _ _ _ HI H Hn H1) as [Hl ?]. split; [|lia]. do 2 eexists. by apply accounted_grow.
  - destruct (accounted_release _ _ _ _ _ _ _ _ HA H H0) as [? ?]. split; [done|lia].
  - destruct (cancel_pending_inv site_id waiter _ _ HI). split; [|lia]. exists counted, stray. by constructor.
  - destruct (timeout_pending_inv _ _ _ _ _ _ HI H). split; [|lia]. exists counted, stray. by constructor.
  - destruct (update_limits_local _ _ _ _ _ _ _ HI H H1) as [Hl ?]. split; [|lia]. do 2 eexists. by apply accounted_grow.
  - split; [|cbn; lia]. exists counted, stray. constructor; [by apply retain_sites_inv|done..].
  - split; [|cbn; lia]. exists [], (permits sys). constructor; [by eapply clear_inv|done|done].
Qed.

Lemma initial_accounted : Accounted initial_system [] [].
Proof.
  constructor; [|done|done]. constructor; cbn; [intros s; by rewrite lookup_empty|set_solver|set_solver|done].
Qed.

Lemma reachable_inv tr n sys :
  reachable tr n sys -> Z.of_nat n < 2 ^ 64 - 1 ->
  (exists counted stray, Accounted sys counted stray) /\ next_waiter_id (lim sys) = 1 + Z.of_nat n.
Proof.
  intros Hr. induction Hr as [|tr n es m a b Hr IH Hs]; intros Hn.
  - split; [do 2 eexists; apply initial_accounted|done].
  - destruct IH as [(counted & stray & HA) Hnx]; [lia|]. destruct (step_inv _ _ _ _ _ _ Hs HA) as [HA' Hnx']; [lia|].
    split; [done|lia].
Qed.

(** ** Outcomes: at most one per waiter *)

Definition event_waiter (e : event) : Z :=
  match e with granted w | queue_full w | queue_timeout w => w end.

(** The outcomes of an operation complete distinct waiters that were pending. *)
Record outcomes (l : Impl) (es : list event) (l' : Impl) : Prop := {
  outcomes_nodup : NoDup (event_waiter <$> es);
  outcomes_pending : forall w, w ∈ event_waiter <$> es -> w ∉ completed l;
  outcomes_completed : forall w, w ∈ event_waiter <$> es \/ w ∈ completed l -> w ∈ completed l'
}.

Lemma outcomes_silent l l' : completed l ⊆ completed l' -> outcomes l [] l'.
Proof. intros Hsub. constructor; cbn; [constructor|set_solver|set_solver]. Qed.

Lemma outcomes_one l l' e :
  event_waiter e ∉ completed l -> {[event_waiter e]} ∪ completed l ⊆ completed l' ->
  outcomes l [e] l'.
Proof. intros Hn Hsub. constructor; cbn; [apply NoDup_singleton|set_solver|set_solver]. Qed.

Lemma outcomes_app l es l' es' l'' :
  outcomes l es l' -> outcomes l' es' l'' -> outcomes l (es ++ es') l''.
Proof.
  intros [N1 P1 C1] [N2 P2 C2]. constructor; rewrite fmap_app.
  - apply NoDup_app. split_and!; [done| |done]. intros w H1 H2. apply (P2 w H2). auto.
  - intros w [Hw|Hw]%elem_of_app; [auto|]. intros Hc. apply (P2 w Hw). auto.
  - intros w [[Hw|Hw]%elem_of_app|Hw]; auto.
Qed.

Lemma waiter_granted (ws : list Z) : event_waiter <$> (granted <$> ws) = ws.
Proof. induction ws as [|w ws IH]; [done|]. csimpl. by rewrite IH. Qed.

Lemma outcomes_promoted l l' q k :
  NoDup q -> (forall w, w ∈ q -> w ∉ completed l) ->
  list_to_set (take k q) ∪ completed l ⊆ completed l' ->
  outcomes l (granted <$> take k q) l'.
Proof.
  intros Hnd Hf Hsub. constructor; rewrite waiter_granted.
  - eapply sublist_NoDup; [|apply sublist_take]; done.
  - intros w Hw%elem_of_take_queue. auto.
  - set_solver.
Qed.

(** What [async_acquire] does to the site, in closed form. *)
Lemma async_acquire_shape s name be max_active max_queue timeout l l' es ps :
  Inv l ps -> 1 <= max_active < 2 ^ 32 ->
  async_acquire s name be max_active max_queue timeout l = (l', es) ->
  let st := default empty_site (sites l !! s) in
  let w := next_waiter_id l in
  exists k tail st', (k <= length (queue st))%nat /\
    es = (granted <$> take k (queue st)) ++ tail /\
    sites l' = <[s := st']> (sites l) /\
    maximum_active st' = max_active /\ maximum_queue st' = max_queue /\
    active st + Z.of_nat k <= Z.max (active st) max_active /\
    ((tail = [granted w] /\ drop k (queue st) = [] /\ queue st' = [] /\
      active st' = active st + Z.of_nat k + 1 /\ active st' <= max_active /\
      completed l' = {[w]} ∪ (list_to_set (take k (queue st)) ∪ completed l)) \/
     (tail = [queue_full w] /\ queue st' = drop k (queue st) /\
      active st' = active st + Z.of_nat k /\
      completed l' = {[w]} ∪ (list_to_set (take k (queue st)) ∪ completed l)) \/
     (tail = [] /\ queue st' = drop k (queue st) ++ [w] /\
      active st' = active st + Z.of_nat k /\ Z.of_nat (length (drop k (queue st))) < max_queue /\
      completed l' = list_to_set (take k (queue st)) ∪ completed l)).
Proof.
  intros HI Hmax Hacq st w. destruct (Inv_site l ps s HI) as [Hcore _].
  pose proof (core_active _ _ _ _ _ _ Hcore) as Ha. pose proof (core_limit _ _ _ _ _ _ Hcore) as Hl.
  unfold async_acquire in Hacq. fold st in Hacq, Hcore, Ha, Hl.
  rewrite promote_spec in Hacq; [|apply sorted_nodup, Hcore|apply Hcore|lia|lia]. cbv zeta in Hacq.
  set (k := Nat.min (length (queue st)) (Z.to_nat (max_active - active st))) in *.
  assert (Hle : active st + Z.of_nat k <= Z.max (active st) max_active) by lia.
  destruct (bool_decide (drop k (queue st) = []) && (active st + Z.of_nat k <? max_active)) eqn:E1;
    [|destruct (max_queue <=? Z.of_nat (length (drop k (queue st)))) eqn:E2];
    injection Hacq as <- <-.
  - bool_to_prop. exists k, [granted w]. eexists. split; [lia|]. split; [done|].
    split; [reflexivity|]. do 3 (split; [done|]). left. cbn. rewrite u64_id by lia.
    split_and!; try done; lia.
  - exists k, [queue_full w]. eexists. split; [lia|]. split; [done|].
    split; [reflexivity|]. do 3 (split; [done|]). right; left. split_and!; done.
  - bool_to_prop. exists k, []. eexists. split; [lia|]. split; [by rewrite app_nil_r|].
    split; [reflexivity|]. do 3 (split; [done|]). right; right. split_and!; done.
Qed.

Lemma update_limits_shape s max_active max_queue l l' es ps :
  Inv l ps -> 1 <= max_active < 2 ^ 32 ->
  update_limits s max_active max_queue l = (l', es) ->
  l' = l /\ es = [] /\ sites l !! s = None \/
  exists st st' k, sites l !! s = Some st /\ sites l' = <[s := st']> (sites l) /\
    es = granted <$> take k (queue st) /\ queue st' = drop k (queue st) /\
    active st' <= Z.max (active st) max_active /\
    maximum_active st' = max_active /\ maximum_queue st' = max_queue /\
    completed l' = list_to_set (take k (queue st)) ∪ completed l.
Proof.
  intros HI Hmax. pose proof (inv_slot _ _ HI s) as Hslot. unfold update_limits.
  destruct (sites l !! s) as [st|] eqn:Es; [|intros [= <- <-]; auto].
  destruct Hslot as [Hcore _]. pose proof (core_active _ _ _ _ _ _ Hcore).
  rewrite promote_spec; [|apply sorted_nodup, Hcore|apply Hcore|lia|lia]. cbv zeta.
  intros [= <- <-]. right. exists st. do 2 eexists. split; [done|]. split; [reflexivity|].
  split; [reflexivity|]. cbn. split_and!; try done. lia.
Qed.

(** The locked part of [release] hands the slot to the head of the queue. *)
Lemma release_locked_shape s l l' next ps :
  Inv l ps -> release_locked s l = (l', next) ->
  match next with
  | Some w => exists st q, sites l !! s = Some st /\ queue st = w :: q /\
      sites l' = <[s := with_queue q st]> (sites l) /\ completed l' = {[w]} ∪ completed l
  | None => completed l' = completed l /\
      (sites l' = sites l \/
       exists st st', sites l !! s = Some st /\ sites l' = settle s st' (sites l) /\
         active st' <= active st /\ maximum_active st' = maximum_active st /\
         maximum_queue st' = maximum_queue st /\ queue st' = queue st)
  end.
Proof.
  intros HI. pose proof (inv_slot _ _ HI s) as Hslot. unfold release_locked.
  destruct (sites l !! s) as [st|] eqn:Es; [|intros [= <- <-]; auto].
  destruct Hslot as [Hcore _]. pose proof (core_active _ _ _ _ _ _ Hcore) as Ha.
  pose proof (core_limit _ _ _ _ _ _ Hcore) as Hl.
  assert (Hdec : active st <> 0 -> u64 (active st - 1) <= active st)
    by (intros; rewrite u64_id; lia).
  destruct (Z.ltb_spec (maximum_active st) (active st)) as [Hlt|Hge].
  - intros [= <- <-]. split; [done|]. right. do 2 eexists.
    split; [done|]. split; [reflexivity|]. cbn. split_and!; try done. apply Hdec. lia.
  - rewrite pop_waiter_spec by apply Hcore. destruct (queue st) as [|w q] eqn:Eq; intros [= <- <-].
    + split; [done|]. right. do 2 eexists. split; [done|]. split; [reflexivity|].
      cbn [with_queue active]. destruct (Z.eqb_spec (active st) 0) as [Hz|Hz]; cbn; split_and!; try done.
      by apply Hdec.
    + exists st, q. split_and!; try done.
Qed.

Lemma outcomes_acquire s name be max_active max_queue timeout l l' es ps :
  Inv l ps -> 1 <= max_active < 2 ^ 32 ->
  async_acquire s name be max_active max_queue timeout l = (l', es) -> outcomes l es l'.
Proof.
  intros HI Hmax Hacq. destruct (Inv_site l ps s HI) as [Hcore _].
  destruct (async_acquire_shape _ _ _ _ _ _ _ _ _ _ HI Hmax Hacq)
    as (k & tail & st' & Hk & -> & _ & _ & _ & _ & Htail). cbv zeta in *.
  set (q := queue (default empty_site (sites l !! s))) in *.
  set (l1 := with_sites (sites l) (list_to_set (take k q) ∪ completed l) l).
  assert (Hpro : outcomes l (granted <$> take k q) l1).
  { apply outcomes_promoted; [apply sorted_nodup, Hcore|apply Hcore|done]. }
  assert (Hnew : next_waiter_id l ∉ completed l1).
  { cbn. rewrite not_elem_of_union, elem_of_list_to_set. split.
    - intros Hin%elem_of_take_queue. destruct (core_fresh _ _ _ _ _ _ Hcore _ Hin). lia.
    - intros Hin%(inv_done _ _ HI). lia. }
  apply (outcomes_app _ _ l1); [done|].
  destruct Htail as [(-> & _ & _ & _ & _ & Hc)|[(-> & _ & _ & Hc)|(-> & _ & _ & _ & Hc)]].
  - apply outcomes_one; [done|]. by rewrite Hc.
  - apply outcomes_one; [done|]. by rewrite Hc.
  - apply outcomes_silent. by rewrite Hc.
Qed.

Lemma release_locked_pop_inv s l l' w ps rest :
  Inv l ps -> ps ≡ₚ s :: rest -> release_locked s l = (l', Some w) -> Inv l' (s :: rest).
Proof.
  intros HI Hp Hrel.
  assert (Hlv : live s ps = S (live s rest)) by (by rewrite (live_perm s _ _ Hp), live_cons_eq).
  eapply Inv_local; [exact HI|exact (release_locked_local s l l' ps (Some w) _ HI Hlv Hrel)| |].
  - by rewrite live_cons_eq.
  - intros s' Hne. by rewrite (live_perm s' _ _ Hp).
Qed.

Lemma outcomes_release allocs s l l' es ps rest :
  Inv l ps -> ps ≡ₚ s :: rest -> release allocs s l = (l', es) -> outcomes l es l'.
Proof.
  revert l l' es ps. induction allocs as [|a allocs IH]; intros l l' es ps HI Hp Hrel;
    cbn [release] in Hrel; destruct (release_locked s l) as [l1 next] eqn:E1;
    pose proof (release_locked_shape _ _ _ _ _ HI E1) as Hsh; destruct next as [w|].
  2,4: injection Hrel as <- <-; apply outcomes_silent; by destruct Hsh as [-> _].
  all: destruct Hsh as (st & q & Es & Eq & _ & Hc); pose proof (inv_slot _ _ HI s) as Hslot;
    rewrite Es in Hslot; destruct Hslot as [Hcore _];
    assert (Hw : w ∉ completed l) by (apply (core_fresh _ _ _ _ _ _ Hcore); rewrite Eq; set_solver).
  - injection Hrel as <- <-. apply outcomes_one; [done|]. by rewrite Hc.
  - destruct a.
    + injection Hrel as <- <-. apply outcomes_one; [done|]. by rewrite Hc.
    + destruct (release allocs s l1) as [l2 es2] eqn:E2. injection Hrel as <- <-.
      apply (outcomes_app l [queue_full w] l1); [apply outcomes_one; [done|by rewrite Hc]|].
      eapply IH; [by eapply release_locked_pop_inv|reflexivity|done].
Qed.

Lemma outcomes_update s max_active max_queue l l' es ps :
  Inv l ps -> 1 <= max_active < 2 ^ 32 ->
  update_limits s max_active max_queue l = (l', es) -> outcomes l es l'.
Proof.
  intros HI Hmax Hupd.
  destruct (update_limits_shape _ _ _ _ _ _ _ HI Hmax Hupd)
    as [(-> & -> & _)|(st & st' & k & Es & _ & -> & _ & _ & _ & _ & Hc)];
    [by apply outcomes_silent|].
  pose proof (inv_slot _ _ HI s) as Hslot. rewrite Es in Hslot. destruct Hslot as [Hcore _].
  apply outcomes_promoted; [apply sorted_nodup, Hcore|apply Hcore|by rewrite Hc].
Qed.

Lemma step_outcomes es m a b counted stray :
  step es m a b -> Accounted a counted stray -> outcomes (lim a) es (lim b).
Proof.
  intros Hstep HA. pose proof (ac_inv _ _ _ HA) as HI. destruct Hstep; cbn [lim] in *.
  - eapply outcomes_acquire; [exact HI|exact H|exact H1].
  - destruct (release_cases _ _ _ _ _ HA H) as [(counted' & Hc & _)|(Hn & _)];
      [eapply outcomes_release; [exact HI|exact Hc|exact H0]|].
    destruct (release_stray _ _ _ _ _ _ HI Hn H0) as [-> ->]. by apply outcomes_silent.
  - apply outcomes_silent. unfold cancel_pending. repeat case_match; cbn; set_solver.
  - revert H. unfold timeout_pending.
    destruct (sites (lim sys) !! site_id); [|intros [= <- <-]; by apply outcomes_silent].
    case_bool_decide; [|intros [= <- <-]; by apply outcomes_silent]. cbn [negb].
    case_bool_decide; intros [= <- <-]; [by apply outcomes_silent|]. by apply outcomes_one.
  - eapply outcomes_update; [exact HI|exact H|exact H1].
  - by apply outcomes_silent.
  - apply outcomes_silent. intros w Hw. apply fold_done. auto.
Qed.

(** A waiter is overtaken when one that arrived later is granted a slot and it
    is neither granted one nor turned away by the same operation. *)
Definition overtakes (es : list event) (w w' : Z) : Prop :=
  w' < w /\ granted w ∈ es /\ w' ∉ event_waiter <$> es.

Lemma no_overtaking_prefix q k w w' :
  StronglySorted Z.lt q -> w' ∈ q -> w' < w -> w ∈ take k q -> w' ∈ take k q.
Proof.
  intros Hs Hw' Hlt Hw. rewrite <- (take_drop k q) in Hs, Hw'.
  apply elem_of_app in Hw' as [?|Hd]; [done|]. exfalso.
  induction (take k q) as [|x p IH]; [set_solver|]. apply StronglySorted_inv in Hs as [Hs HF].
  rewrite Forall_forall in HF. apply elem_of_cons in Hw as [->|Hw]; [|by apply IH].
  specialize (HF w'). rewrite elem_of_app in HF. specialize (HF (or_intror Hd)). lia.
Qed.

Lemma granted_elem w (ws : list Z) : granted w ∈ granted <$> ws -> w ∈ ws.
Proof. intros (x & [= ->] & Hx)%list_elem_of_fmap. done. Qed.

Lemma release_no_overtaking allocs s l l' es ps rest w w' :
  Inv l ps -> ps ≡ₚ s :: rest -> release allocs s l = (l', es) ->
  w' ∈ queue_of (sites l !! s) -> overtakes es w w' -> False.
Proof.
  revert l l' es ps. induction allocs as [|a allocs IH];
    intros l l' es ps HI Hp Hrel Hq (Hlt & Hg & Hn);
    cbn [release] in Hrel; destruct (release_locked s l) as [l1 next] eqn:E1;
    pose proof (release_locked_shape _ _ _ _ _ HI E1) as Hsh; destruct next as [x|].
  2,4: injection Hrel as <- <-; set_solver.
  all: destruct Hsh as (st & q & Es & Eq & Hs1 & _); pose proof (inv_slot _ _ HI s) as Hslot;
    rewrite Es in Hslot, Hq; destruct Hslot as [Hcore _];
    pose proof (core_sorted _ _ _ _ _ _ Hcore) as Hsort; cbn in Hq; rewrite Eq in Hsort, Hq;
    apply StronglySorted_inv in Hsort as [_ HF]; rewrite Forall_forall in HF;
    assert (Hhead : granted x = granted w -> False)
      by (intros [= ->]; apply elem_of_cons in Hq as [->|Hin]; [lia|]; specialize (HF _ Hin); lia).
  - injection Hrel as <- <-. apply Hhead. by apply list_elem_of_singleton in Hg as ->.
  - destruct a; [injection Hrel as <- <-; apply Hhead; by apply list_elem_of_singleton in Hg as ->|].
    destruct (release allocs s l1) as [l2 es2] eqn:E2. injection Hrel as <- <-. cbn in Hn.
    apply not_elem_of_cons in Hn as [Hnx Hn]. apply elem_of_cons in Hg as [[=]|Hg].
    eapply (IH l1); [by eapply release_locked_pop_inv|reflexivity|done| |by split].
    rewrite Hs1, lookup_insert_eq. cbn. set_solver.
Qed.


Lemma acquire_no_overtaking s name be max_active max_queue timeout l l' es ps w w' :
  Inv l ps -> 1 <= max_active < 2 ^ 32 ->
  async_acquire s name be max_active max_queue timeout l = (l', es) ->
  w' ∈ queue_of (sites l !! s) -> overtakes es w w' -> False.
Proof.
  intros HI Hmax Hacq Hq (Hlt & Hg & Hn). destruct (Inv_site l ps s HI) as [Hcore HQ].
  destruct (async_acquire_shape _ _ _ _ _ _ _ _ _ _ HI Hmax Hacq)
    as (k & tail & st' & Hk & -> & _ & _ & _ & _ & Htail). cbv zeta in *. rewrite HQ in *.
  rewrite fmap_app, waiter_granted, not_elem_of_app in Hn. destruct Hn as [Hn _].
  apply elem_of_app in Hg as [Hg%granted_elem|Hg].
  - apply Hn. eapply (no_overtaking_prefix _ _ w); try done. rewrite <- HQ. apply Hcore.
  - destruct Htail as [(-> & Hd & _)|[(-> & _)|(-> & _)]]; [|set_solver|set_solver].
    apply Hn. rewrite <- (take_drop k (queue_of _)), Hd, app_nil_r in Hq. done.
Qed.

Lemma update_no_overtaking s max_active max_queue l l' es ps w w' :
  Inv l ps -> 1 <= max_active < 2 ^ 32 ->
  update_limits s max_active max_queue l = (l', es) ->
  w' ∈ queue_of (sites l !! s) -> overtakes es w w' -> False.
Proof.
  intros HI Hmax Hupd Hq (Hlt & Hg & Hn).
  destruct (update_limits_shape _ _ _ _ _ _ _ HI Hmax Hupd)
    as [(-> & -> & _)|(st & st' & k & Es & _ & -> & _)]; [set_solver|].
  rewrite waiter_granted in Hn. apply granted_elem in Hg. rewrite Es in Hq.
  pose proof (inv_slot _ _ HI s) as Hslot. rewrite Es in Hslot. destruct Hslot as [Hcore _].
  apply Hn. eapply (no_overtaking_prefix _ _ w); try done. apply Hcore.
Qed.

(** What a step may do to the counters of one site. *)
Definition active_of (o : option SiteState) : Z := default 0 (active <$> o).

Definition bounded_growth (o o' : option SiteState) : Prop :=
  forall st', o' = Some st' ->
    active st' <= Z.max (active_of o) (maximum_active st') /\
    Z.of_nat (length (queue st')) <= Z.max (Z.of_nat (length (queue_of o))) (maximum_queue st').

Lemma bounded_same o : bounded_growth o o.
Proof. intros st ->. cbn. lia. Qed.

Lemma bounded_local m m' s st' :
  m' = <[s := st']> m \/ m' = settle s st' m ->
  bounded_growth (m !! s) (Some st') -> forall t, bounded_growth (m !! t) (m' !! t).
Proof.
  intros Hm Hb t. destruct (decide (t = s)) as [->|Hne].
  - intros st Hst. assert (st = st') as -> by (
      destruct Hm as [->| ->]; [|unfold settle in Hst; destruct (collectible st')];
      rewrite ?lookup_insert_eq, ?lookup_delete_eq in Hst; congruence). by apply Hb.
  - replace (m' !! t) with (m !! t); [apply bounded_same|].
    destruct Hm as [->| ->]; [|unfold settle; destruct (collectible st')];
      by rewrite ?lookup_insert_ne, ?lookup_delete_ne.
Qed.

(** The operations that admit nobody only shrink the entries. *)
Definition shrinks (m m' : gmap Z SiteState) : Prop :=
  forall t st', m' !! t = Some st' ->
    exists st, m !! t = Some st /\ active st' <= active st /\
      (length (queue st') <= length (queue st))%nat.

#[export] Instance shrinks_preorder : PreOrder shrinks.
Proof.
  split.
  - intros m t st Hst. exists st. auto with lia.
  - intros m1 m2 m3 H12 H23 t st3 H3. destruct (H23 _ _ H3) as (st2 & H2 & ? & ?).
    destruct (H12 _ _ H2) as (st1 & H1 & ? & ?). exists st1. split; [done|lia].
Qed.

Lemma shrinks_local m m' s st st' :
  m' = <[s := st']> m \/ m' = settle s st' m -> m !! s = Some st ->
  active st' <= active st -> (length (queue st') <= length (queue st))%nat -> shrinks m m'.
Proof.
  intros Hm Hs Ha Hq t x Hx. destruct (decide (t = s)) as [->|Hne].
  - exists st. split; [done|]. assert (x = st') as -> by (
      destruct Hm as [->| ->]; [|unfold settle in Hx; destruct (collectible st')];
      rewrite ?lookup_insert_eq, ?lookup_delete_eq in Hx; congruence). done.
  - exists x. split; [|auto with lia]. rewrite <- Hx.
    destruct Hm as [->| ->]; [|unfold settle; destruct (collectible st')];
      by rewrite ?lookup_insert_ne, ?lookup_delete_ne.
Qed.

Lemma shrinks_bounded m m' t : shrinks m m' -> bounded_growth (m !! t) (m' !! t).
Proof.
  intros Hsh st' Hst'. destruct (Hsh _ _ Hst') as (st & -> & Ha & Hq). cbn. lia.
Qed.

Lemma bounded_acquire s name be max_active max_queue timeout l l' es ps :
  Inv l ps -> 1 <= max_active < 2 ^ 32 -> 0 <= max_queue ->
  async_acquire s name be max_active max_queue timeout l = (l', es) ->
  forall t, bounded_growth (sites l !! t) (sites l' !! t).
Proof.
  intros HI Hmax Hmq Hacq. destruct (Inv_site l ps s HI) as [_ HQ].
  destruct (async_acquire_shape _ _ _ _ _ _ _ _ _ _ HI Hmax Hacq)
    as (k & tail & st' & Hk & _ & Hs & Hma & Hq & Hle & Htail). cbv zeta in *.
  eapply bounded_local; [by left|]. intros ? [= <-].
  assert (HA : active (default empty_site (sites l !! s)) = active_of (sites l !! s))
    by (by destruct (sites l !! s)).
  rewrite HQ, HA in *. rewrite Hma, Hq.
  destruct Htail as [(_ & _ & -> & ? & ? & _)|[(_ & -> & -> & _)|(_ & -> & -> & ? & _)]];
    rewrite ?length_app, ?length_drop in *; cbn; lia.
Qed.


Lemma bounded_update s max_active max_queue l l' es ps :
  Inv l ps -> 1 <= max_active < 2 ^ 32 ->
  update_limits s max_active max_queue l = (l', es) ->
  forall t, bounded_growth (sites l !! t) (sites l' !! t).
Proof.
  intros HI Hmax Hupd.
  destruct (update_limits_shape _ _ _ _ _ _ _ HI Hmax Hupd)
    as [(-> & _)|(st & st' & k & Es & Hs & _ & Hq & Ha & Hma & _)]; [intros; apply bounded_same|].
  eapply bounded_local; [by left|]. intros ? [= <-]. rewrite Es. cbn.
  rewrite Hq, length_drop. lia.
Qed.

Lemma release_shrinks allocs s l l' es ps rest :
  Inv l ps -> ps ≡ₚ s :: rest -> release allocs s l = (l', es) -> shrinks (sites l) (sites l').
Proof.
  revert l l' es ps. induction allocs as [|a allocs IH]; intros l l' es ps HI Hp Hrel;
    cbn [release] in Hrel; destruct (release_locked s l) as [l1 next] eqn:E1;
    pose proof (release_locked_shape _ _ _ _ _ HI E1) as Hsh; destruct next as [x|].
  2,4: injection Hrel as <- <-; destruct Hsh as [_ [->|(st & st' & Es & -> & Ha & _ & _ & Hq)]];
    [done|eapply shrinks_local; [by right|done..|by rewrite Hq]].
  all: destruct Hsh as (st & q & Es & Eq & Hs1 & _);
    assert (Hsh1 : shrinks (sites l) (sites l1))
      by (eapply shrinks_local; [by left|done|done|cbn; rewrite Eq; cbn; lia]).
  - by injection Hrel as <- <-.
  - destruct a; [by injection Hrel as <- <-|].
    destruct (release allocs s l1) as [l2 es2] eqn:E2. injection Hrel as <- <-.
    etrans; [done|]. eapply IH; [by eapply release_locked_pop_inv|reflexivity|done].
Qed.

Lemma remove_waiter_length w q : (length (remove_waiter w q) <= length q)%nat.
Proof. apply sublist_length, remove_waiter_sublist. Qed.

Lemma step_bounded es m a b counted stray t :
  step es m a b -> Accounted a counted stray ->
  bounded_growth (sites (lim a) !! t) (sites (lim b) !! t).
Proof.
  intros Hstep HA. pose proof (ac_inv _ _ _ HA) as HI. destruct Hstep; cbn [lim] in *.
  - eapply bounded_acquire; [exact HI|exact H|exact (proj1 H0)|exact H1].
  - destruct (release_cases _ _ _ _ _ HA H) as [(counted' & Hc & _)|(Hn & _)];
      [apply shrinks_bounded; eapply release_shrinks; [exact HI|exact Hc|exact H0]|].
    destruct (release_stray _ _ _ _ _ _ HI Hn H0) as [-> _]. apply bounded_same.
  - apply shrinks_bounded. unfold cancel_pending. destruct (sites (lim sys) !! site_id) eqn:E; [|done].
    repeat case_match; try done. eapply shrinks_local; [by right|done|done|apply remove_waiter_length].
  - apply shrinks_bounded. revert H. unfold timeout_pending.
    destruct (sites (lim sys) !! site_id) eqn:E; [|by intros [= <- <-]].
    repeat case_match; intros [= <- <-]; try done.
    eapply shrinks_local; [by right|done|done|apply remove_waiter_length].
  - eapply bounded_update; [exact HI|exact H|exact H1].
  - apply shrinks_bounded. intros s st. cbn. rewrite map_lookup_imap.
    destruct (sites (lim sys) !! s) as [x|]; [|done]. cbn. unfold retain_site.
    repeat case_match; intros [= <-]; exists x; cbn; split; auto with lia.
  - intros st Hst. cbn in Hst. by rewrite lookup_empty in Hst.
Qed.

(** ** Main theorems *)


(** At most one outcome.  Over a whole run no waiter is posted two
    outcomes (grant, queue-full or timeout), and one that has been posted an
    outcome is no longer in any queue. *)
Theorem outcome_at_most_once tr n sys :
  reachable tr n sys -> Z.of_nat n < 2 ^ 64 - 1 ->
  NoDup (event_waiter <$> tr) /\
  (forall w s, w ∈ event_waiter <$> tr -> w ∉ queue_of (sites (lim sys) !! s)).
Proof.
  intros Hr Hn. cut (outcomes initial_impl tr (lim sys)).
  - intros [Hnd _ Hc]. split; [done|]. intros w s Hw Hq.
    destruct (reachable_inv _ _ _ Hr Hn) as [(? & ? & [HI _ _]) _].
    destruct (slot_inv_queue _ _ _ _ w (inv_slot _ _ HI s) Hq) as [_ Hnot]. apply Hnot. auto.
  - induction Hr as [|tr n es m a b Hr IH Hs]; [by apply outcomes_silent|].
    eapply outcomes_app; [apply IH; lia|]. destruct (reachable_inv _ _ _ Hr) as [(? & ? & HA) _]; [lia|].
    by eapply step_outcomes.
Qed.

(** First come, first served.  No operation on a site grants a slot to a
    waiter that arrived after one still left waiting there: neither an acquire
    (the newcomer included), nor a release, nor a limit increase. *)
Theorem grants_are_fifo tr n sys s w w' :
  reachable tr n sys -> Z.of_nat n < 2 ^ 64 - 1 -> w' ∈ queue_of (sites (lim sys) !! s) ->
  (forall name be max_active max_queue timeout l' es, 1 <= max_active < 2 ^ 32 ->
     async_acquire s name be max_active max_queue timeout (lim sys) = (l', es) ->
     ~ overtakes es w w') /\
  (forall allocs rest l' es, permits sys ≡ₚ s :: rest ->
     release allocs s (lim sys) = (l', es) -> ~ overtakes es w w') /\
  (forall max_active max_queue l' es, 1 <= max_active < 2 ^ 32 ->
     update_limits s max_active max_queue (lim sys) = (l', es) -> ~ overtakes es w w').
Proof.
  intros Hr Hn Hw'. destruct (reachable_inv _ _ _ Hr Hn) as [(counted & stray & HA) _]. pose proof (ac_inv _ _ _ HA) as HI. split_and!.
  - intros * Hmax Hacq Ho. eapply acquire_no_overtaking; [exact HI|exact Hmax|exact Hacq|exact Hw'|exact Ho].
  - intros * Hp Hrel Ho. destruct (release_cases _ _ _ _ _ HA Hp) as [(counted' & Hc & _)|(Hs & _)];
      [eapply release_no_overtaking; [exact HI|exact Hc|exact Hrel|exact Hw'|exact Ho]|].
    destruct (release_stray _ _ _ _ _ _ HI Hs Hrel) as [_ ->]. destruct Ho as (_ & Hg & _). set_solver.
  - intros * Hmax Hupd Ho. eapply update_no_overtaking; [exact HI|exact Hmax|exact Hupd|exact Hw'|exact Ho].
Qed.

(** Bounded admission.  A step never takes a site above its limit: after it
    the active count is at most the larger of the count before and the current
    limit, and likewise the queue length and the queue limit, so an excess left
    by lowering a limit only drains. *)
Theorem admission_bounded tr n a es m b s st' :
  reachable tr n a -> Z.of_nat n < 2 ^ 64 - 1 -> step es m a b ->
  sites (lim b) !! s = Some st' ->
  active st' <= Z.max (active_of (sites (lim a) !! s)) (maximum_active st') /\
  Z.of_nat (length (queue st')) <=
    Z.max (Z.of_nat (length (queue_of (sites (lim a) !! s)))) (maximum_queue st').
Proof.
  intros Hr Hn Hs. destruct (reachable_inv _ _ _ Hr Hn) as [(counted & stray & HA) _].
  by apply (step_bounded es m a b _ _ s Hs HA).
Qed.

(** ** A concrete run: two acquires of a site with one slot, then a release *)

Definition run_acquire (sys : System) : System :=
  let '(l', es) := async_acquire 7 [] [] 1 2 30 (lim sys) in
  {| lim := l'; permits := replicate (grants es) 7 ++ permits sys; owed := owed sys |}.

Definition one_active_one_waiting : System := run_acquire (run_acquire initial_system).

Lemma run_acquire_step sys :
  step (snd (async_acquire 7 [] [] 1 2 30 (lim sys))) 1 sys (run_acquire sys).
Proof.
  unfold run_acquire. destruct (async_acquire 7 [] [] 1 2 30 (lim sys)) as [l' es] eqn:E.
  apply (step_acquire sys 7 [] [] 1 2 30); [lia|lia|done].
Qed.

Lemma one_active_one_waiting_reachable : reachable [granted 1] 2 one_active_one_waiting.
Proof.
  apply (reach_step [granted 1] 1 [] 1 (run_acquire initial_system));
    [|exact (run_acquire_step (run_acquire initial_system))].
  exact (reach_step [] 0 [granted 1] 1 initial_system _ reach_init (run_acquire_step initial_system)).
Qed.

Lemma one_active_one_waiting_bound : Z.of_nat 2 < 2 ^ 64 - 1.
Proof. done. Qed.

(** Cleared while a permit is live, then acquired again: two permits are live, one is counted. *)
Definition cleared_once : System :=
  {| lim := clear (lim one_active_one_waiting); permits := permits one_active_one_waiting; owed := permits one_active_one_waiting |}.
Definition cleared_and_used : System := run_acquire cleared_once.
Lemma cleared_and_used_reachable : reachable ([granted 1] ++ [] ++ [granted 3]) 3 cleared_and_used.
Proof.
  apply (reach_step [granted 1] 2 [granted 3] 1 cleared_once); [|exact (run_acquire_step cleared_once)].
  exact (reach_step [granted 1] 2 [] 0 one_active_one_waiting _ one_active_one_waiting_reachable (step_clear one_active_one_waiting)).
Qed.
Example cleared_and_used_counts : live 7 (permits cleared_and_used) = 2%nat /\ active_of (sites (lim cleared_and_used) !! 7) = 1.
Proof. by vm_compute. Qed.


Lemma outcome_at_most_once_witness :
  NoDup (event_waiter <$> [granted 1]) /\
  (forall w s, w ∈ event_waiter <$> [granted 1] ->
     w ∉ queue_of (sites (lim one_active_one_waiting) !! s)).
Proof.
  exact (outcome_at_most_once _ _ _ one_active_one_waiting_reachable one_active_one_waiting_bound).
Defined.

Lemma grants_are_fifo_witness :
  ~ overtakes (snd (update_limits 7 5 5 (lim one_active_one_waiting))) 9 2.
Proof.
  apply (grants_are_fifo [granted 1] 2 one_active_one_waiting 7 9 2
           one_active_one_waiting_reachable one_active_one_waiting_bound
           ltac:(vm_compute; by left))
    with (max_active := 5) (max_queue := 5)
         (l' := fst (update_limits 7 5 5 (lim one_active_one_waiting))); [lia|reflexivity].
Defined.

Lemma admission_bounded_witness :
  active (default empty_site (sites (lim one_active_one_waiting) !! 7)) <=
    Z.max (active_of (sites (lim (run_acquire initial_system)) !! 7)) 1 /\
  Z.of_nat (length (queue (default empty_site (sites (lim one_active_one_waiting) !! 7)))) <=
    Z.max (Z.of_nat (length (queue_of (sites (lim (run_acquire initial_system)) !! 7)))) 2.
Proof.
  exact (admission_bounded [granted 1] 1 (run_acquire initial_system) _ 1 _ 7
    (default empty_site (sites (lim one_active_one_waiting) !! 7))
    (reach_step [] 0 [granted 1] 1 initial_system _ reach_init (run_acquire_step initial_system))
    ltac:(done) (run_acquire_step (run_acquire initial_system)) eq_refl).
Defined.

(** The waiter gets the slot the released permit frees. *)
Example release_hands_over :
  snd (release [] 7 (lim one_active_one_waiting)) = [granted 2].
Proof. reflexivity. Qed.

(** An allocation failure during the hand-over turns the waiter away and frees
    the slot. *)
Example release_allocation_failure :
  snd (release [false] 7 (lim one_active_one_waiting)) = [queue_full 2] /\
  active <$> (sites (fst (release [false] 7 (lim one_active_one_waiting))) !! 7) = Some 0.
Proof. by vm_compute. Qed.
