(* ===== verification/ConnectionAdmission.v ===== *)
(** * Connection admission (src/src/network/ConnectionAdmission.{hpp,cpp})

    A lock-free counting semaphore: [try_acquire] reads the counter, and retries
    a weak compare-and-swap until it reserves a slot or sees the counter at the
    maximum.  Threads interleave at the granularity of the atomic accesses.  A
    relaxed load may return any value of the counter's modification order, so a
    load takes an arbitrary element of [history]; the compare-and-swap and the
    subtractions act on the latest value, as read-modify-write operations do. *)

From S2P Require Import Prelude.

(** ** State *)

Record State := {
  maximum : Z;
  active : Z;
  rejected : Z;
  history : list Z      (* modification order of [active], latest first *)
}.

Definition ConnectionAdmission (maximum_connections : Z) : res State :=
  if (maximum_connections =? 0) || (1000000 <? maximum_connections) then
    Throw (invalid_argument b!"maximum client connections must be between 1 and 1000000")
  else Ok {| maximum := maximum_connections; active := 0; rejected := 0; history := [0] |}.

Definition set_active (v : Z) (st : State) : State :=
  {| maximum := maximum st; active := v; rejected := rejected st; history := v :: history st |}.

(** [rejected.fetch_add(1)]. *)
Definition reject (st : State) : State :=
  {| maximum := maximum st; active := active st; rejected := u64 (rejected st + 1);
     history := history st |}.

(** [active.compare_exchange_weak(current, current + 1)] that succeeds. *)
Definition reserve (current : Z) (st : State) : option State :=
  if active st =? current then Some (set_active (u64 (current + 1)) st) else None.

(** [active.fetch_sub(1)]. *)
Definition give_back (st : State) : State := set_active (u64 (active st - 1)) st.

(** ** Threads inside [try_acquire] *)

(** The program counter of a thread: outside, at the loop test with [current]
    in its register, or holding a slot while [new Permit] runs. *)
Inductive pc := outside | testing (current : Z) | reserved.
#[export] Instance pc_eq_dec : EqDecision pc.
Proof. solve_decision. Defined.

Record World := {
  shared : State;
  threads : list pc;
  permits : nat          (* live [Permit] objects *)
}.

(** One atomic access of thread [i], or the destruction of a permit. *)
Inductive step : World -> World -> Prop :=
| step_load st ts n i current :
    ts !! i = Some outside -> current ∈ history st ->
    step {| shared := st; threads := ts; permits := n |}
         {| shared := st; threads := <[i := testing current]> ts; permits := n |}
| step_cas_ok st st' ts n i current :
    ts !! i = Some (testing current) -> current < maximum st ->
    reserve current st = Some st' ->
    step {| shared := st; threads := ts; permits := n |}
         {| shared := st'; threads := <[i := reserved]> ts; permits := n |}
| step_cas_fail st ts n i current seen :
    ts !! i = Some (testing current) -> current < maximum st -> seen ∈ history st ->
    step {| shared := st; threads := ts; permits := n |}
         {| shared := st; threads := <[i := testing seen]> ts; permits := n |}
| step_reject st ts n i current :
    ts !! i = Some (testing current) -> maximum st <= current ->
    step {| shared := st; threads := ts; permits := n |}
         {| shared := reject st; threads := <[i := outside]> ts; permits := n |}
| step_permit st ts n i :
    ts !! i = Some reserved ->
    step {| shared := st; threads := ts; permits := n |}
         {| shared := st; threads := <[i := outside]> ts; permits := S n |}
| step_alloc_fails st ts n i :
    ts !! i = Some reserved ->
    step {| shared := st; threads := ts; permits := n |}
         {| shared := give_back st; threads := <[i := outside]> ts; permits := n |}
| step_destroy st ts n :
    step {| shared := st; threads := ts; permits := S n |}
         {| shared := give_back st; threads := ts; permits := n |}.

Inductive reachable (maximum_connections : Z) : World -> Prop :=
| reach_start st threads :
    ConnectionAdmission maximum_connections = Ok st -> 0 <= maximum_connections ->
    Forall (eq outside) threads ->
    reachable maximum_connections {| shared := st; threads := threads; permits := 0 |}
| reach_next w w' : reachable maximum_connections w -> step w w' -> reachable maximum_connections w'.

(** Slots reserved by threads whose [Permit] does not exist yet. *)
Definition in_flight (ts : list pc) : nat := length (filter (fun t => t = reserved) ts).
Arguments in_flight : simpl never.

(** ** Accounting *)

Definition slot (t : pc) : nat := match t with reserved => 1 | _ => 0 end.

Lemma in_flight_insert ts i t t' :
  ts !! i = Some t ->
  (in_flight (<[i := t']> ts) + slot t =
   in_flight ts + slot t')%nat.
Proof.
  intros Hi. rewrite insert_take_drop by (by eapply lookup_lt_Some).
  rewrite <- (take_drop_middle ts i t Hi) at 3. unfold in_flight.
  rewrite !filter_app, !filter_cons, !length_app.
  destruct (decide (t = reserved)) as [->|Ht], (decide (t' = reserved)) as [->|Ht'];
    rewrite ?decide_True, ?decide_False by done; try destruct t; try destruct t'; cbn in *; lia || done.
Qed.

Record Inv (maximum_connections : Z) (w : World) : Prop := {
  inv_maximum : maximum (shared w) = maximum_connections;
  inv_range : 1 <= maximum_connections <= 1000000;
  inv_count : active (shared w) = Z.of_nat (permits w + in_flight (threads w));
  inv_latest : active (shared w) ∈ history (shared w);
  inv_history : forall v, v ∈ history (shared w) -> 0 <= v <= maximum_connections;
  inv_register : forall i c, threads w !! i = Some (testing c) -> c ∈ history (shared w);
  inv_rejected : rejected (shared w) <> 0 -> maximum_connections ∈ history (shared w)
}.

Lemma Inv_start m st ts :
  ConnectionAdmission m = Ok st -> 0 <= m -> Forall (eq outside) ts ->
  Inv m {| shared := st; threads := ts; permits := 0 |}.
Proof.
  unfold ConnectionAdmission. intros Hc Hm Hts. repeat case_match; [done|]. bool_to_prop.
  assert (Hf : in_flight ts = 0%nat).
  { unfold in_flight. induction Hts as [|t ts <- _ IH]; [done|].
    by rewrite filter_cons, decide_False. }
  constructor; cbn; try done; [lia|by rewrite Hf|set_solver| |].
  - intros v ->%list_elem_of_singleton. lia.
  - intros i c Hi. rewrite Forall_lookup in Hts. by specialize (Hts i _ Hi).
Qed.

(** A thread moves without touching the counter. *)
Lemma Inv_move m st ts n i t t' n' :
  Inv m {| shared := st; threads := ts; permits := n |} -> ts !! i = Some t ->
  (n' + slot t' =
   n + slot t)%nat ->
  (forall c, t' = testing c -> c ∈ history st) ->
  Inv m {| shared := st; threads := <[i := t']> ts; permits := n' |}.
Proof.
  intros [Hm Hr Hc Hl Hh Hreg Hrej] Hi Hn Ht. cbn in *. pose proof (in_flight_insert ts i t t' Hi).
  constructor; cbn; try done; [lia|].
  intros j c. destruct (decide (j = i)) as [->|Hne].
  - rewrite list_lookup_insert_eq by (by eapply lookup_lt_Some). intros [= ->]. by apply Ht.
  - rewrite list_lookup_insert_ne by done. apply Hreg.
Qed.

(** The counter and the bookkeeping change together by [d]. *)
Lemma Inv_count m st ts n ts' n' v :
  Inv m {| shared := st; threads := ts; permits := n |} ->
  v = Z.of_nat (n' + in_flight ts') -> v <= m ->
  (forall i c, ts' !! i = Some (testing c) -> ts !! i = Some (testing c)) ->
  Inv m {| shared := set_active v st; threads := ts'; permits := n' |}.
Proof.
  intros [Hm Hr Hc Hl Hh Hreg Hrej] Hv Hle Hts. cbn in *.
  constructor; cbn; try done; [set_solver| | |].
  - intros x [->|Hx]%elem_of_cons; [lia|by apply Hh].
  - intros i c Hi%Hts%Hreg. set_solver.
  - intros Hr0%Hrej. set_solver.
Qed.

Lemma testing_kept (ts : list pc) i t (Ht : forall c, t <> testing c) j c :
  <[i := t]> ts !! j = Some (testing c) -> ts !! j = Some (testing c).
Proof.
  rewrite list_lookup_insert_Some. intros [(_ & Heq & _)|[_ ?]]; [|done]. by specialize (Ht c).
Qed.

Lemma step_inv_admission m w w' : Inv m w -> step w w' -> Inv m w'.
Proof.
  intros HI Hs. pose proof HI as [Hm Hr Hc Hl Hh Hreg Hrej].
  destruct Hs as [st ts n i c Hi Hin|st st' ts n i c Hi Hlt Hres|st ts n i c seen Hi Hlt Hin
                 |st ts n i c Hi Hge|st ts n i Hi|st ts n i Hi|st ts n]; cbn in *;
    pose proof (Hh _ Hl) as Hact.
  - eapply Inv_move; [done..|by intros ? [= <-]].
  - unfold reserve in Hres. destruct (Z.eqb_spec (active st) c) as [Ha|]; [|done].
    injection Hres as <-. pose proof (in_flight_insert ts i _ reserved Hi) as Hf. cbn in Hf.
    rewrite u64_id by lia. eapply Inv_count; [done|lia|lia|by apply testing_kept].
  - eapply Inv_move; [done..|by intros ? [= <-]].
  - assert (c = m) as -> by (specialize (Hh c (Hreg i c Hi)); lia).
    eapply (Inv_move m (reject st) ts); [|done|done|done]. constructor; try done. intros _. by eapply Hreg.
  - eapply Inv_move; [done|done| |done]. cbn. lia.
  - pose proof (in_flight_insert ts i _ outside Hi) as Hf. cbn in Hf. unfold give_back.
    rewrite u64_id by lia. eapply Inv_count; [done|lia|lia|by apply testing_kept].
  - unfold give_back. rewrite u64_id by lia. eapply Inv_count; [done|lia|lia|done].
Qed.

Lemma reachable_inv_admission m w : reachable m w -> Inv m w.
Proof. induction 1; [by apply Inv_start|by eapply step_inv_admission]. Qed.

(** ** Main theorems *)

(** C29: The counter never lies.  In every interleaving of acquisitions,
    allocation failures and releases, the counter equals the live permits plus
    the slots reserved in flight, never wraps, and never exceeds the maximum;
    hence at most [maximum] connections hold a permit. *)
Theorem admission_counter_exact m w :
  reachable m w ->
  active (shared w) = Z.of_nat (permits w + in_flight (threads w)) /\
  0 <= active (shared w) <= m /\ Z.of_nat (permits w) <= m.
Proof.
  intros [Hm Hr Hc Hl Hh _ _]%reachable_inv_admission. specialize (Hh _ Hl). lia.
Qed.

(** No groundless rejection.  If some connection has been rejected, the
    counter held the maximum at some point of its modification order. *)
Theorem admission_rejects_only_when_full m w :
  reachable m w -> rejected (shared w) <> 0 -> m ∈ history (shared w).
Proof. intros [_ _ _ _ _ _ Hrej]%reachable_inv_admission. exact Hrej. Qed.

(** A call that runs without interference completes, and does the right
    thing: below the maximum it gets a permit and the counter goes up by one,
    at the maximum it is rejected. *)
Theorem admission_solo_call m w i :
  reachable m w -> threads w !! i = Some outside ->
  if active (shared w) <? m then
    rtc step w {| shared := set_active (active (shared w) + 1) (shared w);
                  threads := threads w; permits := S (permits w) |}
  else rtc step w {| shared := reject (shared w); threads := threads w; permits := permits w |}.
Proof.
  intros [Hm Hr Hc Hl Hh _ _]%reachable_inv_admission Hi. destruct w as [st ts n]; cbn in *.
  specialize (Hh _ Hl). assert (Hlen : (i < length ts)%nat) by (by eapply lookup_lt_Some).
  destruct (Z.ltb_spec (active st) m) as [Hlt|Hge];
    (eapply rtc_l; [by apply (step_load st ts n i (active st))|]).
  - eapply rtc_l.
    { apply (step_cas_ok st (set_active (active st + 1) st) _ n i (active st)).
      - by rewrite list_lookup_insert_eq.
      - lia.
      - unfold reserve. rewrite Z.eqb_refl, u64_id by lia. done. }
    eapply rtc_l; [apply (step_permit _ _ n i); rewrite list_lookup_insert_eq; [done|by rewrite length_insert]|].
    rewrite !list_insert_insert_eq, list_insert_id by done. done.
  - eapply rtc_l; [apply (step_reject st _ n i (active st)); [by rewrite list_lookup_insert_eq|lia]|].
    rewrite list_insert_insert_eq, list_insert_id by done. done.
Qed.

(** ** A concrete run *)

Definition one_slot : State := {| maximum := 1; active := 0; rejected := 0; history := [0] |}.

Lemma start_reachable : reachable 1 {| shared := one_slot; threads := [outside; outside]; permits := 0 |}.
Proof. apply reach_start; [done|lia|by repeat constructor]. Qed.

(** Both threads read 0; the first takes the slot and the second, whose
    exchange fails, sees 1 and is rejected. *)
Definition contended : World :=
  {| shared := reject (set_active 1 one_slot); threads := [reserved; outside]; permits := 0 |}.

Lemma contended_reachable : reachable 1 contended.
Proof.
  eapply reach_next; [eapply reach_next; [eapply reach_next; [eapply reach_next; [eapply reach_next|]|]|]|].
  - exact start_reachable.
  - apply (step_load one_slot [outside; outside] 0 0 0); [done|by left].
  - apply (step_load one_slot [testing 0; outside] 0 1 0); [done|by left].
  - by apply (step_cas_ok one_slot (set_active 1 one_slot) [testing 0; testing 0] 0 0 0).
  - apply (step_cas_fail (set_active 1 one_slot) [reserved; testing 0] 0 1 0 1); [done|done|by left].
  - by apply (step_reject (set_active 1 one_slot) [reserved; testing 1] 0 1 1).
Qed.

Lemma admission_counter_exact_witness :
  active (shared contended) = Z.of_nat (permits contended + in_flight (threads contended)) /\
  0 <= active (shared contended) <= 1 /\ Z.of_nat (permits contended) <= 1.
Proof. exact (admission_counter_exact 1 contended contended_reachable). Defined.

Lemma admission_rejects_only_when_full_witness : 1 ∈ history (shared contended).
Proof. exact (admission_rejects_only_when_full 1 contended contended_reachable ltac:(done)). Defined.

Lemma admission_solo_call_witness :
  rtc step contended {| shared := reject (shared contended); threads := threads contended;
                        permits := permits contended |}.
Proof. exact (admission_solo_call 1 contended 1 contended_reachable eq_refl). Defined.
