(* ===== verification/BackendConnectionPool.v ===== *)
(** * Backend connection pool (src/src/proxy/BackendConnectionPool.{hpp,cpp})

    Idle backend connections are kept per pool key, most recently released
    last, and a reaper thread closes the expired ones.  A stream is an id; the
    probe [reusable] of the socket is an input of each operation, and so is the
    steady clock (nanoseconds).  Each critical section under [mutex_] is one
    function on [Pool]; [acquire] composes one section per candidate.

    The system [World] also tracks the streams that clients hold, those an
    [acquire] has popped and is still examining, and those that were closed, so
    that ownership can be stated: every stream is in exactly one place. *)

From S2P Require Import Prelude.

Record IdleConnection := { stream : Z; released_at : Z; expires_at : Z }.

Record Pool := {
  idle : gmap str (list IdleConnection);
  next_expiration : option Z;
  stopping : bool
}.

Definition empty_pool : Pool := {| idle := ∅; next_expiration := None; stopping := false |}.

Definition nanoseconds (seconds : Z) : Z := seconds * 1000000000.

(** ** Critical sections *)

(** The locked part of one [acquire] iteration.  [undefined] is [back()] on an
    empty list. *)
Inductive pop_result :=
| missing
| popped (connection : IdleConnection) (wake_reaper : bool) (pool : Pool)
| undefined.

Definition expires_first (connection : IdleConnection) (p : Pool) : bool :=
  match next_expiration p with
  | Some deadline => expires_at connection <=? deadline
  | None => false
  end.

Definition acquire_pop (pool_key : str) (p : Pool) : pop_result :=
  match idle p !! pool_key with
  | None => missing
  | Some connections =>
      match last connections with
      | None => undefined
      | Some connection =>
          let rest := take (length connections - 1) connections in
          let wake := expires_first connection p in
          popped connection wake
            {| idle := if decide (rest = []) then delete pool_key (idle p)
                       else <[pool_key := rest]> (idle p);
               next_expiration := if wake then None else next_expiration p;
               stopping := stopping p |}
      end
  end.

(** The unlocked test of [acquire]: is the popped connection handed out? *)
Definition usable (idle_ttl now : Z) (reusable : bool) (connection : IdleConnection) : bool :=
  (0 <? idle_ttl) && (now <=? expires_at connection) &&
  (now - released_at connection <=? nanoseconds idle_ttl) && reusable.

(** [acquire] as one thread runs it: the stream handed out, the streams closed
    on the way and the pool left.  [probe] gives the clock and the socket probe
    when a stream is examined; the fuel is one more than the candidates. *)
Fixpoint acquire_loop (fuel : nat) (pool_key : str) (idle_ttl : Z) (probe : Z -> Z * bool)
    (p : Pool) (closed : list Z) : option Z * list Z * Pool :=
  match fuel with
  | O => (None, closed, p)
  | S fuel' =>
      match acquire_pop pool_key p with
      | popped connection _ p' =>
          let '(now, reusable) := probe (stream connection) in
          if usable idle_ttl now reusable connection then (Some (stream connection), closed, p')
          else acquire_loop fuel' pool_key idle_ttl probe p' (closed ++ [stream connection])
      | _ => (None, closed, p)
      end
  end.

Definition candidates (pool_key : str) (p : Pool) : list IdleConnection :=
  default [] (idle p !! pool_key).

Definition acquire (pool_key : str) (idle_ttl : Z) (probe : Z -> Z * bool) (p : Pool)
    : option Z * list Z * Pool :=
  acquire_loop (S (length (candidates pool_key p))) pool_key idle_ttl probe p [].

(** [release]: the pool and whether the stream was retained (it is closed
    otherwise). *)
Definition release (pool_key : str) (s : Z) (maximum_idle idle_ttl now : Z) (reusable : bool)
    (p : Pool) : Pool * bool :=
  if (maximum_idle =? 0) || (idle_ttl <=? 0) || negb reusable then (p, false)
  else if stopping p then (p, false)
  else
    let connections := candidates pool_key p in
    if Z.of_nat (length connections) <? maximum_idle then
      let expires := now + nanoseconds idle_ttl in
      let earlier := match next_expiration p with
                     | None => true
                     | Some deadline => expires <? deadline
                     end in
      ({| idle := <[pool_key := connections ++
                      [{| stream := s; released_at := now; expires_at := expires |}]]> (idle p);
          next_expiration := if earlier then Some expires else next_expiration p;
          stopping := stopping p |}, true)
    else
      (* [idle_[key]] has created the entry if it was absent *)
      ({| idle := <[pool_key := connections]> (idle p);
          next_expiration := next_expiration p; stopping := stopping p |}, false).

Definition clear (p : Pool) : Pool :=
  {| idle := ∅; next_expiration := None; stopping := stopping p |}.

(** The reaper: the scan for the earliest deadline, and a pass at [now]. *)
Definition scan_list (connections : list IdleConnection) (deadline : option Z) : option Z :=
  foldl (fun acc c => match acc with
                      | None => Some (expires_at c)
                      | Some d => if expires_at c <? d then Some (expires_at c) else Some d
                      end) deadline connections.

Definition scan (m : gmap str (list IdleConnection)) : option Z :=
  map_fold (fun _ connections deadline => scan_list connections deadline) None m.

Definition reaper_arm (p : Pool) : Pool :=
  match next_expiration p with
  | Some _ => p
  | None => {| idle := idle p; next_expiration := scan (idle p); stopping := stopping p |}
  end.

Definition survivors (now : Z) (connections : list IdleConnection) : option (list IdleConnection) :=
  let kept := filter (fun c => now < expires_at c) connections in
  if decide (kept = []) then None else Some kept.

Definition reap (now : Z) (p : Pool) : Pool :=
  {| idle := omap (survivors now) (idle p); next_expiration := None; stopping := stopping p |}.

(** All idle connections, and those a pass at [now] takes out. *)
Definition all_idle (m : gmap str (list IdleConnection)) : list IdleConnection :=
  map_to_list m ≫= snd.
Definition expired (now : Z) (p : Pool) : list IdleConnection :=
  filter (fun c => expires_at c <= now) (all_idle (idle p)).

(** ** The system *)

Record World := {
  pool : Pool;
  held : list Z;                    (* streams in the hands of clients *)
  examined : list IdleConnection;   (* popped by an [acquire] that has not decided yet *)
  closed : list Z;
  created : list Z                  (* every stream ever connected *)
}.

Definition initial_world : World :=
  {| pool := empty_pool; held := []; examined := []; closed := []; created := [] |}.

Inductive step : World -> World -> Prop :=
| step_connect w s :
    s ∉ created w ->
    step w {| pool := pool w; held := s :: held w; examined := examined w; closed := closed w;
              created := s :: created w |}
| step_pop w key c wake p' :
    acquire_pop key (pool w) = popped c wake p' ->
    step w {| pool := p'; held := held w; examined := c :: examined w; closed := closed w;
              created := created w |}
| step_examine w c rest idle_ttl now reusable :
    examined w ≡ₚ c :: rest ->
    step w (if usable idle_ttl now reusable c then
              {| pool := pool w; held := stream c :: held w; examined := rest;
                 closed := closed w; created := created w |}
            else
              {| pool := pool w; held := held w; examined := rest;
                 closed := stream c :: closed w; created := created w |})
| step_release w s rest key maximum_idle idle_ttl now reusable p' retained :
    0 <= maximum_idle -> held w ≡ₚ s :: rest ->
    release key s maximum_idle idle_ttl now reusable (pool w) = (p', retained) ->
    step w {| pool := p'; held := rest; examined := examined w;
              closed := if retained then closed w else s :: closed w; created := created w |}
| step_discard w s rest :        (* the client closes the connection itself *)
    held w ≡ₚ s :: rest ->
    step w {| pool := pool w; held := rest; examined := examined w; closed := s :: closed w;
              created := created w |}
| step_clear w :
    step w {| pool := clear (pool w); held := held w; examined := examined w;
              closed := (stream <$> all_idle (idle (pool w))) ++ closed w; created := created w |}
| step_arm w :
    step w {| pool := reaper_arm (pool w); held := held w; examined := examined w;
              closed := closed w; created := created w |}
| step_reap w now :
    step w {| pool := reap now (pool w); held := held w; examined := examined w;
              closed := (stream <$> expired now (pool w)) ++ closed w; created := created w |}
| step_stop w :
    step w {| pool := {| idle := idle (pool w); next_expiration := next_expiration (pool w);
                         stopping := true |};
              held := held w; examined := examined w; closed := closed w; created := created w |}.

Definition reachable (w : World) : Prop := rtc step initial_world w.

(** ** The idle connections as one list *)

Lemma all_idle_insert m k l :
  m !! k = None -> all_idle (<[k := l]> m) ≡ₚ l ++ all_idle m.
Proof. intros Hk. unfold all_idle. by rewrite map_to_list_insert. Qed.

Lemma all_idle_at m k : all_idle m ≡ₚ default [] (m !! k) ++ all_idle (delete k m).
Proof.
  destruct (m !! k) as [l|] eqn:E; cbn.
  - rewrite <- (insert_delete_id m k l E) at 1. apply all_idle_insert, lookup_delete_eq.
  - by rewrite delete_id.
Qed.

Lemma all_idle_set m k l : all_idle (<[k := l]> m) ≡ₚ l ++ all_idle (delete k m).
Proof. rewrite (all_idle_at _ k), lookup_insert_eq. cbn. by rewrite delete_insert_eq. Qed.

Lemma all_idle_elem m c : c ∈ all_idle m <-> exists k l, m !! k = Some l /\ c ∈ l.
Proof.
  unfold all_idle. rewrite list_elem_of_bind. split.
  - intros ([k l] & Hc & Hkl%elem_of_map_to_list). eauto.
  - intros (k & l & Hk%elem_of_map_to_list & Hc). by exists (k, l).
Qed.

(** A pass splits the idle connections into survivors and expired ones. *)
Lemma reap_split now m :
  all_idle (omap (survivors now) m) ++ filter (fun c => expires_at c <= now) (all_idle m)
  ≡ₚ all_idle m.
Proof.
  induction m as [|k l m Hk IH] using map_ind; [by rewrite omap_empty|].
  assert (Hl : filter (fun c => now < expires_at c) l ++ filter (fun c => expires_at c <= now) l ≡ₚ l).
  { induction l as [|c l IHl]; [done|]. rewrite !filter_cons. repeat case_decide; try lia; cbn.
    - by rewrite IHl.
    - by rewrite <- Permutation_middle, IHl. }
  assert (Hm : all_idle (omap (survivors now) (<[k := l]> m)) ≡ₚ
               filter (fun c => now < expires_at c) l ++ all_idle (omap (survivors now) m)).
  { unfold survivors. destruct (decide (filter (fun c => now < expires_at c) l = [])) as [E|E].
    - rewrite omap_insert_None, E by (by rewrite E, decide_True). cbn.
      rewrite delete_id; [done|]. by rewrite lookup_omap, Hk.
    - erewrite omap_insert_Some by (by rewrite decide_False).
      apply all_idle_insert. by rewrite lookup_omap, Hk. }
  rewrite Hm, all_idle_insert, filter_app by done.
  transitivity ((filter (fun c => now < expires_at c) l ++ filter (fun c => expires_at c <= now) l) ++
    (all_idle (omap (survivors now) m) ++ filter (fun c => expires_at c <= now) (all_idle m))).
  { solve_Permutation. }
  by rewrite Hl, IH.
Qed.

Lemma pop_split key p c wake p' :
  acquire_pop key p = popped c wake p' ->
  all_idle (idle p) ≡ₚ c :: all_idle (idle p') /\
  exists rest, idle p !! key = Some (rest ++ [c]) /\
    idle p' = (if decide (rest = []) then delete key (idle p) else <[key := rest]> (idle p)) /\
    next_expiration p' = (if expires_first c p then None else next_expiration p) /\
    stopping p' = stopping p.
Proof.
  unfold acquire_pop. destruct (idle p !! key) as [l|] eqn:E; [|done].
  destruct (last l) as [x|] eqn:Hl; [|done]. intros [= -> <- <-].
  apply last_Some in Hl as [rest ->].
  assert (Hrest : take (length (rest ++ [c]) - 1) (rest ++ [c]) = rest).
  { rewrite length_app. cbn. rewrite take_app_le by lia. by rewrite take_ge by lia. }
  rewrite Hrest. split; [|by exists rest]. cbn.
  rewrite (all_idle_at (idle p) key), E. cbn. case_decide as Hr.
  - by rewrite Hr.
  - rewrite all_idle_set. solve_Permutation.
Qed.

(** ** Deadlines *)

(** [d] is the earliest deadline of the connections satisfying [P]. *)
Definition earliest (d : option Z) (P : IdleConnection -> Prop) : Prop :=
  match d with
  | None => forall c, ~ P c
  | Some t => (exists c, P c /\ expires_at c = t) /\ forall c, P c -> t <= expires_at c
  end.

#[export] Instance earliest_proper d :
  Proper (pointwise_relation IdleConnection iff ==> iff) (earliest d).
Proof.
  intros P Q HPQ. destruct d as [t|]; cbn; [|by setoid_rewrite HPQ].
  assert (HPQ' : forall c, P c <-> Q c) by apply HPQ. split; intros [(c & Hc & He) Hle];
    (split; [exists c; split; [by apply HPQ'|done]|intros x Hx; by apply Hle, HPQ']).
Qed.

Lemma earliest_add d P c :
  earliest d P ->
  earliest (match d with
            | None => Some (expires_at c)
            | Some t => if expires_at c <? t then Some (expires_at c) else Some t
            end) (fun x => P x \/ x = c).
Proof.
  destruct d as [t|]; cbn.
  - intros [(x & Hx & He) Hle]. destruct (Z.ltb_spec (expires_at c) t) as [Hlt|Hge]; cbn.
    + split; [eauto|]. intros y [Hy| ->]; [specialize (Hle y Hy)|]; lia.
    + split; [eauto|]. intros y [Hy| ->]; [by apply Hle|lia].
  - intros Hnone. split; [eauto|]. intros y [Hy| ->]; [by apply Hnone in Hy|lia].
Qed.

Lemma scan_list_earliest l d P :
  earliest d P -> earliest (scan_list l d) (fun c => P c \/ c ∈ l).
Proof.
  revert d P. induction l as [|c l IH]; intros d P Hd; cbn.
  - eapply earliest_proper; [|exact Hd]. intros x. set_solver.
  - eapply earliest_proper; [|apply IH, (earliest_add d P c Hd)]. intros x. cbn. set_solver.
Qed.

Lemma scan_earliest m : earliest (scan m) (fun c => c ∈ all_idle m).
Proof.
  apply (map_fold_weak_ind (fun d m => earliest d (fun c => c ∈ all_idle m))); [set_solver|].
  intros k l m' d Hk Hd. eapply earliest_proper; [|apply scan_list_earliest, Hd].
  intros c. cbn. rewrite all_idle_insert, elem_of_app by done. tauto.
Qed.

(** ** The pool invariant *)

Record pool_wf (p : Pool) : Prop := {
  wf_nonempty : forall k l, idle p !! k = Some l -> l <> [];
  wf_deadline : forall t, next_expiration p = Some t ->
                  exists c, c ∈ all_idle (idle p) /\ expires_at c = t
}.

Lemma pop_wf key p c wake p' : pool_wf p -> acquire_pop key p = popped c wake p' -> pool_wf p'.
Proof.
  intros [Hne Hdl] Hpop. destruct (pop_split _ _ _ _ _ Hpop) as (Hperm & rest & _ & Hidle & Hnext & _).
  constructor.
  - intros k l. rewrite Hidle. case_decide; [rewrite lookup_delete_Some|rewrite lookup_insert_Some];
      naive_solver.
  - intros t. rewrite Hnext. unfold expires_first. destruct (next_expiration p) as [d|] eqn:Ed; [|done].
    destruct (Z.leb_spec (expires_at c) d) as [|Hlt]; [done|]. intros [= <-].
    destruct (Hdl d eq_refl) as (x & Hx & He). exists x. split; [|done].
    rewrite Hperm in Hx. apply elem_of_cons in Hx as [->|Hx]; [lia|done].
Qed.

Lemma release_spec key s maximum_idle idle_ttl now reusable p p' retained :
  0 <= maximum_idle -> pool_wf p ->
  release key s maximum_idle idle_ttl now reusable p = (p', retained) ->
  if retained then
    let c := {| stream := s; released_at := now; expires_at := now + nanoseconds idle_ttl |} in
    idle p' = <[key := candidates key p ++ [c]]> (idle p) /\
    Z.of_nat (length (candidates key p)) < maximum_idle /\
    (next_expiration p' = Some (expires_at c) \/ next_expiration p' = next_expiration p)
  else p' = p.
Proof.
  intros Hmax [Hne _]. unfold release.
  destruct ((maximum_idle =? 0) || (idle_ttl <=? 0) || negb reusable) eqn:E1; [by intros [= <- <-]|].
  destruct (stopping p) eqn:Es; [by intros [= <- <-]|].
  destruct (Z.of_nat (length (candidates key p)) <? maximum_idle) eqn:E2; intros [= <- <-].
  - bool_to_prop. split_and!; [done..|]. repeat case_match; auto.
  - bool_to_prop. destruct p as [m d st]; cbn in *. subst st. f_equal. unfold candidates in *. cbn in *.
    destruct (m !! key) as [l|] eqn:E; cbn in *; [by rewrite insert_id|lia].
Qed.

Lemma release_wf key s maximum_idle idle_ttl now reusable p p' retained :
  0 <= maximum_idle -> pool_wf p ->
  release key s maximum_idle idle_ttl now reusable p = (p', retained) -> pool_wf p'.
Proof.
  intros Hmax Hwf Hrel. pose proof (release_spec _ _ _ _ _ _ _ _ _ Hmax Hwf Hrel) as Hspec.
  destruct retained; [|by subst p']. destruct Hspec as (Hidle & _ & Hnext). destruct Hwf as [Hne Hdl].
  constructor.
  - intros k l. rewrite Hidle, lookup_insert_Some. intros [[_ <-]|[_ Hk]]; [|by eapply Hne].
    by destruct (candidates key p).
  - intros t Ht. rewrite Ht in Hnext. setoid_rewrite Hidle. setoid_rewrite all_idle_set.
    destruct Hnext as [[= ->]|Hnext].
    + eexists. rewrite !elem_of_app, list_elem_of_singleton. split; [left; right; reflexivity|done].
    + destruct (Hdl t (eq_sym Hnext)) as (c & Hc & He). exists c. split; [|done].
      rewrite (all_idle_at _ key) in Hc. fold (candidates key p) in Hc. set_solver.
Qed.

Lemma arm_wf p : pool_wf p -> pool_wf (reaper_arm p).
Proof.
  intros [Hne Hdl]. unfold reaper_arm. destruct (next_expiration p) eqn:E; [by constructor; rewrite ?E|].
  constructor; cbn; [done|]. intros t Ht. pose proof (scan_earliest (idle p)) as Hs.
  rewrite Ht in Hs. destruct Hs as [(c & ? & ?) _]. eauto.
Qed.

Lemma reap_wf now p : pool_wf p -> pool_wf (reap now p).
Proof.
  intros [Hne _]. constructor; [|done]. intros k l. cbn. rewrite lookup_omap.
  destruct (idle p !! k) as [x|]; [|done]. cbn. unfold survivors. by case_decide; intros [= <-].
Qed.

(** ** Ownership *)

Definition places (w : World) : list Z :=
  held w ++ (stream <$> examined w) ++ (stream <$> all_idle (idle (pool w))) ++ closed w.

Record world_inv (w : World) : Prop := {
  winv_pool : pool_wf (pool w);
  winv_places : places w ≡ₚ created w;
  winv_nodup : NoDup (created w)
}.

Lemma release_places key s maximum_idle idle_ttl now reusable p p' retained :
  0 <= maximum_idle -> pool_wf p ->
  release key s maximum_idle idle_ttl now reusable p = (p', retained) ->
  (stream <$> all_idle (idle p')) ++ (if retained then [] else [s]) ≡ₚ
  s :: (stream <$> all_idle (idle p)).
Proof.
  intros Hmax Hwf Hrel. pose proof (release_spec _ _ _ _ _ _ _ _ _ Hmax Hwf Hrel) as Hspec.
  destruct retained; [|subst p'; by rewrite Permutation_app_comm].
  destruct Hspec as (-> & _ & _). rewrite all_idle_set, (all_idle_at (idle p) key).
  fold (candidates key p). rewrite !fmap_app. cbn. rewrite app_nil_r. solve_Permutation.
Qed.

Lemma step_world_inv w w' : world_inv w -> step w w' -> world_inv w'.
Proof.
  intros [Hwf Hpl Hnd] Hs. unfold places in Hpl. destruct Hs; constructor; cbn; try done.
  - unfold places; cbn. by rewrite Hpl.
  - by constructor.
  - by eapply pop_wf.
  - destruct (pop_split _ _ _ _ _ H) as [Hsp _]. rewrite <- Hpl, Hsp. unfold places; cbn. solve_Permutation.
  - by case_match.
  - rewrite H in Hpl. unfold places. case_match; cbn in *; rewrite <- Hpl; solve_Permutation.
  - by case_match.
  - by eapply release_wf.
  - pose proof (release_places _ _ _ _ _ _ _ _ _ H Hwf H1) as Hr. rewrite H0 in Hpl. unfold places. cbn in *.
    rewrite <- Hpl. transitivity (rest ++ (stream <$> examined w) ++
      ((stream <$> all_idle (idle p')) ++ (if retained then [] else [s])) ++ closed w).
    + destruct retained; solve_Permutation.
    + rewrite Hr. solve_Permutation.
  - rewrite H in Hpl. unfold places. cbn in *. rewrite <- Hpl. solve_Permutation.
  - by apply arm_wf.
  - unfold places, reaper_arm. cbn. by destruct (next_expiration (pool w)).
  - by apply reap_wf.
  - unfold places, expired. cbn. rewrite <- Hpl. pose proof (reap_split now (idle (pool w))) as Hsp.
    apply (fmap_Permutation stream) in Hsp. rewrite fmap_app in Hsp.
    transitivity (held w ++ (stream <$> examined w) ++
      ((stream <$> all_idle (omap (survivors now) (idle (pool w)))) ++
       (stream <$> filter (fun c => expires_at c <= now) (all_idle (idle (pool w))))) ++ closed w).
    + solve_Permutation.
    + by rewrite Hsp.
  - destruct Hwf. by constructor.
Qed.

Lemma reachable_world_inv w : reachable w -> world_inv w.
Proof.
  unfold reachable. intros Hr. assert (Hi : world_inv initial_world).
  { constructor; [split; [intros k l; cbn; by rewrite lookup_empty|done]|done|constructor]. }
  revert Hi. induction Hr as [|x y z Hs _ IH]; [done|]. intros Hx. apply IH. by eapply step_world_inv.
Qed.

(** ** [acquire] *)

Definition accepts (idle_ttl : Z) (probe : Z -> Z * bool) (c : IdleConnection) : bool :=
  usable idle_ttl (probe (stream c)).1 (probe (stream c)).2 c.

Lemma candidates_nil key p : pool_wf p -> candidates key p = [] -> acquire_pop key p = missing.
Proof.
  intros [Hne _]. unfold candidates, acquire_pop. destruct (idle p !! key) as [l|] eqn:E; [|done].
  cbn. intros ->. by destruct (Hne _ _ E).
Qed.

Lemma candidates_snoc key p rest c :
  pool_wf p -> candidates key p = rest ++ [c] ->
  exists wake p', acquire_pop key p = popped c wake p' /\ candidates key p' = rest /\
    (forall k, k <> key -> idle p' !! k = idle p !! k) /\ pool_wf p'.
Proof.
  intros Hwf Hc. destruct (acquire_pop key p) as [|x wake p'|] eqn:Epop.
  1,3: unfold acquire_pop, candidates in *; destruct (idle p !! key) as [l|];
       [cbn in Hc; subst l; by rewrite last_snoc in Epop|by destruct rest].
  destruct (pop_split _ _ _ _ _ Epop) as (_ & rest' & Hk & Hidle & _).
  unfold candidates in Hc. rewrite Hk in Hc. cbn in Hc. apply app_inj_tail in Hc as [-> ->].
  exists wake, p'. split; [done|]. split_and!.
  - unfold candidates. rewrite Hidle. case_decide as Hr; [by rewrite lookup_delete_eq, Hr|].
    by rewrite lookup_insert_eq.
  - intros k Hk'. rewrite Hidle. case_decide; by rewrite ?lookup_delete_ne, ?lookup_insert_ne.
  - by eapply pop_wf.
Qed.

(** The outcome of a whole [acquire]: the newest acceptable candidate [c] and
    the ones above it that were closed, or all of them closed. *)
Inductive acquire_outcome (cs : list IdleConnection) (ok : IdleConnection -> bool)
    : option Z -> list Z -> list IdleConnection -> Prop :=
| handed older c newer :
    cs = older ++ c :: newer -> ok c = true -> Forall (fun x => ok x = false) newer ->
    acquire_outcome cs ok (Some (stream c)) (stream <$> reverse newer) older
| exhausted :
    Forall (fun x => ok x = false) cs ->
    acquire_outcome cs ok None (stream <$> reverse cs) [].

Lemma acquire_loop_spec key idle_ttl probe fuel p done cs :
  pool_wf p -> candidates key p = cs -> (length cs < fuel)%nat ->
  exists r shut p', acquire_loop fuel key idle_ttl probe p done = (r, done ++ shut, p') /\
    acquire_outcome cs (accepts idle_ttl probe) r shut (candidates key p') /\
    (forall k, k <> key -> idle p' !! k = idle p !! k) /\ pool_wf p'.
Proof.
  revert fuel p done. induction cs as [|c rest IH] using rev_ind; intros fuel p done Hwf Hc Hf;
    (destruct fuel as [|fuel]; [lia|]); cbn [acquire_loop].
  - rewrite candidates_nil by done. exists None, [], p. rewrite app_nil_r. split_and!; try done.
    rewrite Hc. by apply (exhausted [] _).
  - destruct (candidates_snoc key p rest c Hwf Hc) as (wake & p1 & -> & Hc1 & Hoth & Hwf1).
    destruct (probe (stream c)) as [now re] eqn:Ep.
    assert (Hacc : accepts idle_ttl probe c = usable idle_ttl now re c) by (unfold accepts; by rewrite Ep).
    destruct (usable idle_ttl now re c) eqn:Eu.
    + exists (Some (stream c)), [], p1. rewrite app_nil_r. split_and!; try done. rewrite Hc1.
      by apply (handed _ _ rest c []).
    + rewrite length_app in Hf. cbn in Hf.
      destruct (IH fuel p1 (done ++ [stream c]) Hwf1 Hc1 ltac:(lia)) as (r & shut & p2 & -> & Ho & Hoth2 & Hwf2).
      exists r, (stream c :: shut), p2. split; [by rewrite <- app_assoc|]. split_and!; [|intros; by rewrite Hoth2, Hoth|done].
      destruct Ho as [older x newer -> Hx Hn|Hn].
      * replace (stream c :: _) with (stream <$> reverse (newer ++ [c])) by (by rewrite reverse_app).
        apply (handed _ _ older x (newer ++ [c])); [by rewrite <- app_assoc|done|].
        apply Forall_app. auto.
      * replace (stream c :: _) with (stream <$> reverse (rest ++ [c])) by (by rewrite reverse_app).
        apply exhausted. apply Forall_app. auto.
Qed.

(** ** Main theorems *)

(** C31: Exclusive ownership.  In every interleaving of connects, acquires (pop
    and examination separately), releases, clears and reaper passes, every
    stream ever connected is in exactly one place: with a client, under
    examination, idle in the pool, or closed.  So no connection is handed to
    two clients, reused after it was closed, or lost without being closed. *)
Theorem pool_exclusive_ownership w :
  reachable w -> NoDup (places w) /\ places w ≡ₚ created w.
Proof. intros [_ Hpl Hnd]%reachable_world_inv. by rewrite Hpl. Qed.

(** The pool never calls [back()] on an empty list: in every reachable
    state no key maps to an empty list, and a recorded deadline is the expiry
    of a connection that is still idle. *)
Theorem pool_pop_is_defined w key :
  reachable w ->
  acquire_pop key (pool w) <> undefined /\
  (forall t, next_expiration (pool w) = Some t ->
     exists c, c ∈ all_idle (idle (pool w)) /\ expires_at c = t).
Proof.
  intros [[Hne Hdl] _ _]%reachable_world_inv. split; [|done]. unfold acquire_pop.
  destruct (idle (pool w) !! key) as [l|] eqn:E; [|done].
  destruct (last l) eqn:El; [done|]. apply last_None in El. by destruct (Hne _ _ E).
Qed.

(** [acquire] terminates and hands out the most recently released candidate
    that is within its TTL and still reusable; the newer ones that failed the
    test are closed, the older ones stay, and other keys are untouched.  With
    no such candidate all of them are closed. *)
Theorem acquire_hands_newest_usable w key idle_ttl probe :
  reachable w ->
  exists r shut p', acquire key idle_ttl probe (pool w) = (r, shut, p') /\
    acquire_outcome (candidates key (pool w)) (accepts idle_ttl probe) r shut (candidates key p') /\
    (forall k, k <> key -> idle p' !! k = idle (pool w) !! k).
Proof.
  intros [Hwf _ _]%reachable_world_inv. unfold acquire.
  destruct (acquire_loop_spec key idle_ttl probe (S (length (candidates key (pool w)))) (pool w) []
              _ Hwf eq_refl ltac:(lia)) as (r & shut & p' & Hl & Ho & Hoth & _).
  exists r, shut, p'. done.
Qed.

(** The per-key bound.  A release never makes a pool larger than the bound
    it is given, and never touches another key. *)
Theorem release_respects_bound w key s maximum_idle idle_ttl now reusable p' retained :
  reachable w -> 0 <= maximum_idle ->
  release key s maximum_idle idle_ttl now reusable (pool w) = (p', retained) ->
  Z.of_nat (length (candidates key p')) <=
    Z.max (Z.of_nat (length (candidates key (pool w)))) maximum_idle /\
  (forall k, k <> key -> candidates k p' = candidates k (pool w)).
Proof.
  intros [Hwf _ _]%reachable_world_inv Hmax Hrel.
  pose proof (release_spec _ _ _ _ _ _ _ _ _ Hmax Hwf Hrel) as Hspec.
  destruct retained; [|subst p'; auto with lia]. destruct Hspec as (Hidle & Hlt & _). split.
  - unfold candidates at 1. rewrite Hidle, lookup_insert_eq. cbn. rewrite length_app. cbn. lia.
  - intros k Hk. unfold candidates. by rewrite Hidle, lookup_insert_ne.
Qed.

(** A reaper pass closes exactly the connections whose deadline has passed:
    what remains and what it closes make up what was idle, everything closed
    has expired and everything left has not; and a deadline the reaper computes
    itself is the earliest one. *)
Theorem reaper_pass_exact now p :
  all_idle (idle (reap now p)) ++ expired now p ≡ₚ all_idle (idle p) /\
  Forall (fun c => now < expires_at c) (all_idle (idle (reap now p))) /\
  Forall (fun c => expires_at c <= now) (expired now p) /\
  (next_expiration p = None ->
   earliest (next_expiration (reaper_arm p)) (fun c => c ∈ all_idle (idle p))).
Proof.
  split_and!.
  - apply reap_split.
  - apply Forall_forall. intros c (k & l & Hk & Hc)%all_idle_elem. cbn in Hk.
    rewrite lookup_omap in Hk. destruct (idle p !! k) as [x|]; [|done]. cbn in Hk.
    unfold survivors in Hk. case_decide; [done|]. injection Hk as <-.
    by apply list_elem_of_filter in Hc as [? _].
  - apply Forall_forall. intros c Hc. by apply list_elem_of_filter in Hc as [? _].
  - intros Hn. unfold reaper_arm. rewrite Hn. apply scan_earliest.
Qed.

(** ** Concrete runs *)

(** [run_put s key ttl w]: a client connects stream [s] at time 0 and releases
    it to [key]. *)
Definition run_put (s : Z) (key : str) (ttl : Z) (w : World) : World :=
  let '(p', retained) := release key s 4 ttl 0 true (pool w) in
  {| pool := p'; held := held w; examined := examined w;
     closed := if retained then closed w else s :: closed w; created := s :: created w |}.

Lemma run_put_reachable s key ttl w :
  reachable w -> s ∉ created w -> reachable (run_put s key ttl w).
Proof.
  intros Hr Hs. unfold run_put.
  destruct (release key s 4 ttl 0 true (pool w)) as [p' retained] eqn:E.
  eapply rtc_r; [eapply rtc_r; [exact Hr|by apply (step_connect w s)]|].
  by eapply (step_release
    {| pool := pool w; held := s :: held w; examined := examined w; closed := closed w;
       created := s :: created w |} s (held w) key 4 ttl 0 true p' retained).
Qed.

Definition two_idle : World := run_put 2 b!"B" 5 (run_put 1 b!"A" 10 initial_world).

Lemma two_idle_reachable : reachable two_idle.
Proof. repeat apply run_put_reachable; [apply rtc_refl|by vm_compute; set_solver..]. Qed.

(** Stream 2 is taken out again, which clears the recorded deadline, and stream
    3 goes in with a longer TTL before the reaper has recomputed it. *)
Definition late_deadline_world : World :=
  match acquire_pop b!"B" (pool two_idle) with
  | popped c _ p' =>
      run_put 3 b!"C" 60 {| pool := p'; held := []; examined := [c]; closed := []; created := [2; 1] |}
  | _ => two_idle
  end.

Lemma late_deadline_reachable : reachable late_deadline_world.
Proof.
  unfold late_deadline_world. destruct (acquire_pop b!"B" (pool two_idle)) as [|c wake p'|] eqn:E;
    [apply two_idle_reachable| |apply two_idle_reachable].
  apply run_put_reachable; [|cbn; set_solver].
  eapply rtc_r; [apply two_idle_reachable|]. exact (step_pop two_idle b!"B" c wake p' E).
Qed.

(** The recorded deadline is not always the earliest: an [acquire] clears
    it, and a [release] that gets the lock before the reaper records its own,
    possibly later, deadline.  The reaper then sleeps past the expiry of a
    connection that is idle. *)
Theorem deadline_can_be_late :
  exists w c t, reachable w /\ c ∈ all_idle (idle (pool w)) /\
    next_expiration (reaper_arm (pool w)) = Some t /\ expires_at c < t.
Proof.
  exists late_deadline_world, {| stream := 1; released_at := 0; expires_at := 10000000000 |}, 60000000000.
  split; [apply late_deadline_reachable|]. split_and!; [|by vm_compute|by vm_compute].
  apply all_idle_elem. exists b!"A". eexists. split; [by vm_compute|by left].
Qed.

Lemma pool_exclusive_ownership_witness :
  NoDup (places late_deadline_world) /\ places late_deadline_world ≡ₚ created late_deadline_world.
Proof. exact (pool_exclusive_ownership _ late_deadline_reachable). Defined.

Lemma pool_pop_is_defined_witness :
  acquire_pop b!"A" (pool late_deadline_world) <> undefined /\
  (forall t, next_expiration (pool late_deadline_world) = Some t ->
     exists c, c ∈ all_idle (idle (pool late_deadline_world)) /\ expires_at c = t).
Proof. exact (pool_pop_is_defined _ b!"A" late_deadline_reachable). Defined.

Lemma acquire_hands_newest_usable_witness :
  exists r shut p', acquire b!"A" 10 (fun _ => (7, true)) (pool two_idle) = (r, shut, p') /\
    acquire_outcome (candidates b!"A" (pool two_idle)) (accepts 10 (fun _ => (7, true))) r shut
      (candidates b!"A" p') /\
    (forall k, k <> b!"A" -> idle p' !! k = idle (pool two_idle) !! k).
Proof. exact (acquire_hands_newest_usable _ b!"A" 10 (fun _ => (7, true)) two_idle_reachable). Defined.

Example acquire_hands_out_stream :
  (acquire b!"A" 10 (fun _ => (7, true)) (pool two_idle)).1 = (Some 1, []).
Proof. by vm_compute. Qed.

Lemma release_respects_bound_witness :
  let r := release b!"A" 9 1 10 3 true (pool two_idle) in
  Z.of_nat (length (candidates b!"A" r.1)) <=
    Z.max (Z.of_nat (length (candidates b!"A" (pool two_idle)))) 1 /\
  (forall k, k <> b!"A" -> candidates k r.1 = candidates k (pool two_idle)).
Proof.
  exact (release_respects_bound two_idle b!"A" 9 1 10 3 true _ _ two_idle_reachable
           ltac:(lia) (surjective_pairing _)).
Defined.

Lemma reaper_pass_exact_witness :
  let p := pool late_deadline_world in
  let none := {| idle := idle p; next_expiration := None; stopping := false |} in
  earliest (next_expiration (reaper_arm none)) (fun c => c ∈ all_idle (idle none)).
Proof.
  cbv zeta. apply (reaper_pass_exact 0
    {| idle := idle (pool late_deadline_world); next_expiration := None; stopping := false |}).
  reflexivity.
Defined.
