(* ===== verification/Binary64.v ===== *)
(** * Doubles (IEEE 754 binary64)

    The [double] arithmetic of the rate limiter, on the Standard Library's
    executable specification floats with 53 bits of precision.  The lemmas show
    that integers of at most 53 bits are represented exactly and that comparison
    and decrement act on them as on integers. *)

From Stdlib Require Import SpecFloat.
From S2P Require Import Prelude.

Definition double := spec_float.

(** [static_cast<double>(z)] and the operators. *)
Definition dbl (z : Z) : double := binary_normalize 53 1024 z 0 false.
Definition dadd : double -> double -> double := SFadd 53 1024.
Definition dsub : double -> double -> double := SFsub 53 1024.
Definition dmul : double -> double -> double := SFmul 53 1024.
Definition ddiv : double -> double -> double := SFdiv 53 1024.
Definition dlt (a b : double) : bool := SFltb a b.
Definition dge (a b : double) : bool := SFleb b a.

(** [std::min(a, b)]: [b < a ? b : a]. *)
Definition dmin (a b : double) : double := if dlt b a then b else a.

(** [std::ceil] followed by the conversion to an unsigned integer of [w] bits
    (0 where the conversion is not defined). *)
Definition dceil (a : double) : Z :=
  match a with
  | S754_finite s m e =>
      let v := if s then Zneg m else Zpos m in
      if 0 <=? e then v * 2 ^ e else - ((- v) / 2 ^ (- e))
  | _ => 0
  end.

(** ** Exact integers *)

Definition dg (k : positive) : Z := Zpos (digits2_pos k).

(** [k * 2 ^ n]. *)
Definition shl (n : nat) (k : positive) : positive := Nat.iter n xO k.

(** [k * 2 ^ e] in canonical form. *)
Definition canon (k : positive) (e : Z) : double :=
  S754_finite false (shl (Z.to_nat (53 - dg k)) k) (e + dg k - 53).

Lemma dg_pos k : 1 <= dg k.
Proof. unfold dg. lia. Qed.

Lemma dg_xO k : dg (xO k) = dg k + 1.
Proof. unfold dg. cbn. lia. Qed.

Lemma shl_S n k : shl (S n) k = xO (shl n k).
Proof. done. Qed.

Lemma dg_shl n k : dg (shl n k) = dg k + Z.of_nat n.
Proof. induction n as [|n IH]; [change (shl 0 k) with k; lia|]. rewrite shl_S, dg_xO, IH. lia. Qed.

Lemma dg_bounds k : 2 ^ (dg k - 1) <= Zpos k < 2 ^ dg k.
Proof.
  induction k as [k IH|k IH|]; [| |by vm_compute];
    pose proof (dg_pos k); unfold dg in *; cbn [digits2_pos]; rewrite Pos2Z.inj_succ;
    rewrite Z.pow_succ_r by lia;
    replace (Z.succ (Zpos (digits2_pos k)) - 1) with (Z.succ (Zpos (digits2_pos k) - 1)) by lia;
    rewrite Z.pow_succ_r by lia; lia.
Qed.

Lemma shl_add m n k : shl m (shl n k) = shl (m + n) k.
Proof.
  unfold shl. induction m as [|m IH]; [done|]. cbn. f_equal. exact IH.
Qed.

Lemma shl_value n k : Zpos (shl n k) = Zpos k * 2 ^ Z.of_nat n.
Proof.
  induction n as [|n IH]; [change (shl 0 k) with k; lia|]. rewrite shl_S, Nat2Z.inj_succ, Z.pow_succ_r by lia. lia.
Qed.

Lemma iter_pos_nat {A} (f : A -> A) n x : SpecFloat.iter_pos f n x = Nat.iter (Pos.to_nat n) f x.
Proof.
  revert x. induction n as [n IH|n IH|]; intros x; cbn [SpecFloat.iter_pos]; rewrite ?IH.
  - change (f x) with (Nat.iter 1 f x). rewrite <- !Nat.iter_add. f_equal. lia.
  - rewrite <- Nat.iter_add. f_equal. lia.
  - done.
Qed.

Lemma shl_align_spec m e e' :
  shl_align m e e' = (shl (Z.to_nat (e - e')) m, Z.min e e').
Proof.
  unfold shl_align. destruct (e' - e) as [|d|d] eqn:E.
  - replace (Z.to_nat (e - e')) with 0%nat by lia. f_equal. lia.
  - replace (Z.to_nat (e - e')) with 0%nat by lia. f_equal. lia.
  - f_equal; [|lia]. replace (Z.to_nat (e - e')) with (Pos.to_nat d) by lia. by rewrite Pos2Nat.inj_iter.
Qed.

Lemma shr_1_exact p : shr_1 {| shr_m := Zpos (xO p); shr_r := false; shr_s := false |} =
                      {| shr_m := Zpos p; shr_r := false; shr_s := false |}.
Proof. done. Qed.

(** Shifting trailing zeros out is exact. *)
Lemma shr_exact n k e :
  0 <= n ->
  shr {| shr_m := Zpos (shl (Z.to_nat n) k); shr_r := false; shr_s := false |} e n =
  ({| shr_m := Zpos k; shr_r := false; shr_s := false |}, e + n).
Proof.
  intros Hn. unfold shr. destruct n as [|p|p]; [by rewrite Z.add_0_r| |lia].
  f_equal. rewrite iter_pos_nat, Z2Nat.inj_pos. induction (Pos.to_nat p) as [|m IH]; [done|].
  rewrite shl_S, Nat.iter_succ_r, shr_1_exact. exact IH.
Qed.

Lemma shr_fexp_canon k e :
  dg k <= 53 -> -1000 <= e <= 900 ->
  shr_fexp 53 1024 (Zpos (shl (Z.to_nat (53 - dg k)) k)) (e + dg k - 53) loc_Exact =
  ({| shr_m := Zpos (shl (Z.to_nat (53 - dg k)) k); shr_r := false; shr_s := false |}, e + dg k - 53).
Proof.
  intros Hk He. unfold shr_fexp. change (Zdigits2 (Zpos ?p)) with (dg p). rewrite dg_shl.
  unfold fexp, emin. pose proof (dg_pos k).
  replace (Z.max _ _ - _) with 0 by lia. done.
Qed.

Lemma round_canon k j e :
  dg k <= 53 -> -1000 <= e <= 900 ->
  binary_round 53 1024 false (shl j k) (e - Z.of_nat j) = canon k e.
Proof.
  intros Hk He. pose proof (dg_pos k). unfold binary_round. change (Zpos (digits2_pos ?p)) with (dg p).
  rewrite dg_shl, shl_align_spec.
  assert (Hf : fexp 53 1024 (dg k + Z.of_nat j + (e - Z.of_nat j)) = e + dg k - 53)
    by (unfold fexp, emin; lia).
  rewrite Hf. unfold binary_round_aux.
  assert (Hshr : shr_fexp 53 1024 (Zpos (shl (Z.to_nat (e - Z.of_nat j - (e + dg k - 53))) (shl j k)))
                   (Z.min (e - Z.of_nat j) (e + dg k - 53)) loc_Exact =
                 ({| shr_m := Zpos (shl (Z.to_nat (53 - dg k)) k); shr_r := false; shr_s := false |},
                  e + dg k - 53)).
  { rewrite shl_add. destruct (Z.le_ge_cases (dg k + Z.of_nat j) 53) as [Hle|Hge].
    - rewrite Z.min_r by lia. rewrite <- (shr_fexp_canon k e Hk He). do 3 f_equal. lia.
    - rewrite Z.min_l by lia. replace (Z.to_nat (e - Z.of_nat j - (e + dg k - 53))) with 0%nat by lia.
      rewrite Nat.add_0_l. unfold shr_fexp. change (Zdigits2 (Zpos ?p)) with (dg p).
      rewrite dg_shl, Hf. cbn [shr_record_of_loc].
      replace (shl j k) with (shl (Z.to_nat (e + dg k - 53 - (e - Z.of_nat j)))
                                (shl (Z.to_nat (53 - dg k)) k)) by (rewrite shl_add; f_equal; lia).
      rewrite shr_exact by lia. f_equal. lia. }
  rewrite Hshr. cbn [shr_m loc_of_shr_record round_nearest_even].
  rewrite shr_fexp_canon by done. cbn [shr_m]. rewrite (proj2 (Z.leb_le _ _)) by lia. done.
Qed.

Lemma dg_small k : Zpos k < 2 ^ 53 -> dg k <= 53.
Proof.
  intros Hk. destruct (dg_bounds k) as [Hlo _]. apply Z.nlt_ge. intros Hgt.
  pose proof (Z.pow_le_mono_r 2 53 (dg k - 1)). lia.
Qed.

Lemma dbl_pos k : Zpos k < 2 ^ 53 -> dbl (Zpos k) = canon k 0.
Proof. intros Hk. apply (round_canon k 0 0); [by apply dg_small|lia]. Qed.

(** Aligning a small integer on the exponent of 1.0. *)
Lemma canon_align k : dg k <= 53 ->
  fst (shl_align (shl (Z.to_nat (53 - dg k)) k) (0 + dg k - 53) (-52)) = shl 52 k.
Proof.
  intros Hk. pose proof (dg_pos k). rewrite shl_align_spec. cbn [fst]. rewrite shl_add. f_equal. lia.
Qed.

(** Decrement is exact. *)
Lemma dsub_one z : 1 <= z < 2 ^ 53 -> dsub (dbl z) (dbl 1) = dbl (z - 1).
Proof.
  intros Hz. destruct z as [|k|]; [lia| |lia]. pose proof (dg_small k ltac:(lia)) as Hd.
  rewrite (dbl_pos 1), (dbl_pos k) by lia. unfold dsub, SFsub, canon.
  pose proof (dg_pos k). replace (Z.min (0 + dg k - 53) (0 + dg 1 - 53)) with (-52)
    by (unfold dg in *; cbn; lia).
  rewrite !canon_align by (done || by vm_compute). unfold cond_Zopp. rewrite !shl_value.
  destruct (Z.eq_dec (Zpos k) 1) as [E|E]; [by rewrite E|].
  replace (Zpos k * 2 ^ Z.of_nat 52 - 1 * 2 ^ Z.of_nat 52) with (Zpos (shl 52 (k - 1)))
    by (rewrite shl_value; lia).
  cbn [binary_normalize]. change (-52) with (0 - Z.of_nat 52).
  rewrite (round_canon (k - 1) 52 0); [|apply dg_small; lia|lia].
  replace (Zpos k - 1) with (Zpos (k - 1)) by lia. symmetry. apply dbl_pos. lia.
Qed.

Lemma compare_shl n a b : Pos.compare_cont Eq (shl n a) (shl n b) = Pos.compare a b.
Proof. induction n as [|n IH]; [done|]. rewrite !shl_S. exact IH. Qed.

Lemma dg_mono a b : Zpos a <= Zpos b -> dg a <= dg b.
Proof.
  intros Hab. destruct (dg_bounds a) as [Ha _], (dg_bounds b) as [_ Hb].
  pose proof (dg_pos a). pose proof (dg_pos b). apply Z.nlt_ge. intros Hlt.
  pose proof (Z.pow_le_mono_r 2 (dg b) (dg a - 1)). lia.
Qed.

(** Comparison of small integers. *)
Lemma dbl_compare a b :
  0 <= a < 2 ^ 53 -> 0 <= b < 2 ^ 53 -> SFcompare (dbl a) (dbl b) = Some (Z.compare a b).
Proof.
  intros Ha Hb. destruct a as [|x|], b as [|y|]; try lia.
  - done.
  - by rewrite dbl_pos by lia.
  - by rewrite dbl_pos by lia.
  - rewrite !dbl_pos by lia. unfold canon, SFcompare. f_equal.
    destruct (Z.compare_spec (0 + dg x - 53) (0 + dg y - 53)) as [E|E|E].
    + replace (dg x) with (dg y) by lia. rewrite compare_shl. done.
    + symmetry. apply Z.compare_lt_iff. apply Z.nle_gt. intros Hle%dg_mono. lia.
    + symmetry. apply Z.compare_gt_iff. apply Z.nle_gt. intros Hle%dg_mono. lia.
Qed.

Lemma dlt_dbl a b : 0 <= a < 2 ^ 53 -> 0 <= b < 2 ^ 53 -> dlt (dbl a) (dbl b) = (a <? b).
Proof. intros Ha Hb. unfold dlt, SFltb, Z.ltb. rewrite dbl_compare by done. done. Qed.

Lemma dge_dbl a b : 0 <= a < 2 ^ 53 -> 0 <= b < 2 ^ 53 -> dge (dbl a) (dbl b) = (b <=? a).
Proof. intros Ha Hb. unfold dge, SFleb, Z.leb. rewrite dbl_compare by done. by destruct (b ?= a). Qed.

Lemma dmin_dbl a b : 0 <= a < 2 ^ 53 -> 0 <= b < 2 ^ 53 -> dmin (dbl a) (dbl b) = dbl (Z.min a b).
Proof.
  intros Ha Hb. unfold dmin. rewrite dlt_dbl by done. destruct (Z.ltb_spec b a); f_equal; lia.
Qed.

(** A zero summand changes nothing. *)
Lemma dadd_zero_r z s : 0 <= z < 2 ^ 53 -> dadd (dbl z) (S754_zero s) = dbl z.
Proof. intros Hz. destruct z as [|k|]; [by destruct s| |lia]. by rewrite dbl_pos by lia. Qed.

(** ** Quotients are finite *)

Definition is_finite (x : double) : bool :=
  match x with S754_zero _ | S754_finite _ _ _ => true | _ => false end.

Lemma Zdigits2_bound m d : 0 <= d -> 0 <= m < 2 ^ d -> Zdigits2 m <= d.
Proof.
  intros Hd Hm. destruct m as [|k|]; [done| |lia]. change (Zdigits2 (Zpos k)) with (dg k).
  destruct (dg_bounds k) as [Hlo _]. pose proof (dg_pos k). apply Z.nlt_ge. intros Hgt.
  pose proof (Z.pow_le_mono_r 2 d (dg k - 1)). lia.
Qed.

Lemma shr_1_bound r m : 0 <= shr_m r <= m -> 0 <= shr_m (shr_1 r) <= m.
Proof. destruct r as [z b1 b2]. destruct z as [|[?|?|]|]; cbn; lia. Qed.

Lemma shr_bound r e n m :
  0 <= shr_m r <= m -> 0 <= shr_m (shr r e n).1 <= m /\ (shr r e n).2 = e + Z.max 0 n.
Proof.
  intros Hr. destruct n as [|p|p]; cbn [shr fst snd]; [split; [done|lia]| |split; [done|lia]].
  split; [|lia]. rewrite iter_pos_nat. induction (Pos.to_nat p) as [|k IH]; [done|]. by apply shr_1_bound.
Qed.

Lemma shr_fexp_bound m e l d :
  0 <= d -> 0 <= m < 2 ^ d ->
  0 <= shr_m (shr_fexp 53 1024 m e l).1 <= m /\
  (shr_fexp 53 1024 m e l).2 <= Z.max e (Z.max (d + e - 53) (-1074)).
Proof.
  intros Hd Hm. pose proof (Zdigits2_bound m d Hd Hm). unfold shr_fexp.
  destruct (shr_bound (shr_record_of_loc m l) e (fexp 53 1024 (Zdigits2 m + e) - e) m) as [H1 H2].
  { destruct l as [|[]]; cbn; lia. }
  split; [done|]. rewrite H2. unfold fexp, emin. lia.
Qed.

Lemma round_aux_finite m e l d :
  0 <= d <= 200 -> 0 <= m < 2 ^ d -> e <= 100 -> is_finite (binary_round_aux 53 1024 false m e l) = true.
Proof.
  intros Hd Hm He. unfold binary_round_aux.
  destruct (shr_fexp_bound m e l d ltac:(lia) Hm) as [Hm1 He1].
  destruct (shr_fexp 53 1024 m e l) as [r1 e1]. cbn [fst snd] in *.
  set (m2 := round_nearest_even (shr_m r1) (loc_of_shr_record r1)).
  assert (Hm2 : 0 <= m2 < 2 ^ (d + 1)).
  { rewrite Z.pow_add_r by lia. unfold m2, round_nearest_even. repeat case_match; lia. }
  destruct (shr_fexp_bound m2 e1 loc_Exact (d + 1) ltac:(lia) Hm2) as [Hm3 He3].
  destruct (shr_fexp 53 1024 m2 e1 loc_Exact) as [r3 e3]. cbn [fst snd] in *.
  destruct (shr_m r3) as [|k|]; [done| |lia]. rewrite (proj2 (Z.leb_le _ _)) by lia. done.
Qed.

Lemma ddiv_finite a b : 1 <= a < 2 ^ 53 -> 1 <= b < 2 ^ 53 -> is_finite (ddiv (dbl a) (dbl b)) = true.
Proof.
  intros Ha Hb. destruct a as [|x|], b as [|y|]; try lia. rewrite !dbl_pos by lia.
  pose proof (dg_small x ltac:(lia)). pose proof (dg_small y ltac:(lia)).
  pose proof (dg_pos x). pose proof (dg_pos y).
  unfold ddiv, SFdiv, canon, SFdiv_core_binary. change (Zdigits2 (Zpos ?p)) with (dg p).
  rewrite !dg_shl, !Z2Nat.id by lia. unfold fexp, emin.
  replace (Z.min _ _) with (dg x - dg y - 53) by lia.
  replace (0 + dg x - 53 - (0 + dg y - 53) - (dg x - dg y - 53)) with 53 by lia.
  set (m1 := shl (Z.to_nat (53 - dg x)) x). set (m2 := shl (Z.to_nat (53 - dg y)) y).
  assert (Hm1 : Zpos m1 < 2 ^ 53).
  { destruct (dg_bounds m1) as [_ Hhi]. unfold m1 in Hhi. rewrite dg_shl, Z2Nat.id in Hhi by lia.
    replace (dg x + (53 - dg x)) with 53 in Hhi by lia. exact Hhi. }
  pose proof (Z_div_mod (Z.shiftl (Zpos m1) 53) (Zpos m2) ltac:(lia)) as Hdiv.
  destruct (Z.div_eucl (Z.shiftl (Zpos m1) 53) (Zpos m2)) as [q r].
  rewrite Z.shiftl_mul_pow2 in Hdiv by lia. destruct Hdiv as [Heq Hr].
  apply (round_aux_finite q _ _ 106); [lia| |lia]. nia.
Qed.

(** No time has passed: nothing is added. *)
Lemma no_refill a b z :
  1 <= a < 2 ^ 53 -> 1 <= b < 2 ^ 53 -> 0 <= z < 2 ^ 53 ->
  dadd (dbl z) (dmul (ddiv (dbl 0) (dbl 1000000000)) (ddiv (dbl a) (dbl b))) = dbl z.
Proof.
  intros Ha Hb Hz. pose proof (ddiv_finite a b Ha Hb) as Hf.
  assert (H0 : ddiv (dbl 0) (dbl 1000000000) = S754_zero false) by (by vm_compute). rewrite H0.
  destruct (ddiv (dbl a) (dbl b)); cbn in Hf; try done; cbn [dmul SFmul]; by apply dadd_zero_r.
Qed.
