(* ===== verification/Json.v ===== *)
(** * JSON values (nlohmann::json as the sources use it)

    [json] is the value type of the library: an object is a map from keys to
    values, as its [std::map] is.  The accessors [at], [value], [get] and the
    range-based loop are written out with the exceptions they throw.  Reading and
    writing text are the library's: the class [JsonText] names them and states
    what is documented about them, namely that what [parse] returns can be
    written, and that what [dump] writes reads back as the same value. *)

From Stdlib Require Import Floats.SpecFloat.
From stdpp Require Import sorting countable.
From S2P Require Import Prelude Binary64.

Inductive json :=
| JNull
| JBool (b : bool)
| JInt (z : Z)                    (* number_integer and number_unsigned *)
| JFloat (d : double)
| JString (s : str)
| JArray (l : list json)
| JObject (m : gmap str json).

(** ** Accessors *)

Definition throw_json {A} : res A := Throw json_exception.

Definition is_array (j : json) : bool := match j with JArray _ => true | _ => false end.
Definition is_object (j : json) : bool := match j with JObject _ => true | _ => false end.

(** [j.contains(key)] and [j.at(key)]. *)
Definition j_contains (key : str) (j : json) : bool :=
  match j with JObject m => bool_decide (is_Some (m !! key)) | _ => false end.
Definition j_at (key : str) (j : json) : res json :=
  match j with
  | JObject m => match m !! key with Some v => Ok v | None => throw_json end
  | _ => throw_json
  end.

(** [j.get<std::string>()], [get<bool>()]. *)
Definition get_string (j : json) : res str := match j with JString s => Ok s | _ => throw_json end.
Definition get_bool (j : json) : res bool := match j with JBool b => Ok b | _ => throw_json end.

(** A double cast to an integer type: towards zero. *)
Definition truncate (d : double) : Z :=
  match d with
  | S754_finite sign m e =>
      let magnitude := if 0 <=? e then Z.pos m * 2 ^ e else Z.pos m / 2 ^ (- e) in
      if sign then - magnitude else magnitude
  | _ => 0
  end.

(** [j.get<T>()] for an arithmetic [T] accepts any number; a boolean too, unless
    [T] is one of the library's own number types ([std::int64_t] and
    [std::uint64_t]). *)
Definition get_wide (j : json) : res Z :=
  match j with
  | JInt z => Ok z
  | JFloat d => Ok (truncate d)
  | _ => throw_json
  end.
Definition get_number (j : json) : res Z :=
  match j with JBool b => Ok (if b then 1 else 0) | _ => get_wide j end.
Definition get_u32 (j : json) : res Z := z ← get_number j; Ok (u32 z).
Definition get_u64 (j : json) : res Z := z ← get_wide j; Ok (u64 z).

(** Two's complement reading of the low [w] bits. *)
Definition wrap_s (w z : Z) : Z := (z + 2 ^ (w - 1)) mod 2 ^ w - 2 ^ (w - 1).
Definition get_i64 (j : json) : res Z := z ← get_wide j; Ok (wrap_s 64 z).
Definition get_i32 (j : json) : res Z := z ← get_number j; Ok (wrap_s 32 z).

Definition get_json (j : json) : res json := Ok j.

(** [j.get<std::vector<std::string>>()]. *)
Definition get_strings (j : json) : res (list str) :=
  match j with JArray l => res_map get_string l | _ => throw_json end.

(** [j.value(key, fallback)]. *)
Definition j_value {A} (get : json -> res A) (key : str) (fallback : A) (j : json) : res A :=
  match j with
  | JObject m => match m !! key with Some v => get v | None => Ok fallback end
  | _ => throw_json
  end.

(** The order of [std::map<std::string, ...>]: bytes, lexicographically. *)
Fixpoint str_leb (a b : str) : bool :=
  match a, b with
  | [], _ => true
  | _ :: _, [] => false
  | x :: a', y :: b' =>
      if byte_val x <? byte_val y then true
      else if byte_val y <? byte_val x then false else str_leb a' b'
  end.
Definition key_le (x y : str * json) : Prop := str_leb x.1 y.1 = true.
#[export] Instance key_le_dec : RelDecision key_le.
Proof. intros x y. unfold key_le. apply _. Defined.

(** [for (auto& x : j)]: the elements of an array, the values of an object, a
    primitive value itself, nothing for null. *)
Definition elements (j : json) : list json :=
  match j with
  | JArray l => l
  | JObject m => snd <$> merge_sort key_le (map_to_list m)
  | JNull => []
  | _ => [j]
  end.

(** ** Text *)

Class JsonText := {
  json_parse : str -> option json;            (* None: parse throws *)
  json_dump : json -> option str;             (* None: dump throws, a string is not UTF-8 *)
  json_dump2 : json -> option str;            (* dump(2) *)
  storable : json -> Prop;
  parse_empty : json_parse [] = None;
  parse_storable t j : json_parse t = Some j -> storable j;
  dump_parse j : storable j -> exists t, json_dump j = Some t /\ json_parse t = Some j;
  dump2_parse j : storable j -> exists t, json_dump2 j = Some t /\ json_parse t = Some j;
  storable_bool b : storable (JBool b);
  storable_ascii s : forallb (fun c => byte_val c <? 128) s = true -> storable (JString s);
  storable_int z : - 2 ^ 63 <= z < 2 ^ 64 -> storable (JInt z);
  storable_array l : storable (JArray l) <-> Forall storable l;
  storable_object m : storable (JObject m) <-> map_Forall (fun k j => storable (JString k) /\ storable j) m
}.

Section JsonText.
Context `{JsonText}.

Definition parse (text : str) : res json := match json_parse text with Some j => Ok j | None => throw_json end.
Definition dump (j : json) : res str := match json_dump j with Some t => Ok t | None => throw_json end.
Definition dump2 (j : json) : res str := match json_dump2 j with Some t => Ok t | None => throw_json end.

(** Reading text that was written from what was read gives the same value. *)
Lemma dump_canonical text j : parse text = Ok j -> exists t, dump j = Ok t /\ parse t = Ok j.
Proof.
  unfold parse, dump. destruct (json_parse text) as [j'|] eqn:E; [|done]. intros [= ->].
  destruct (dump_parse j (parse_storable _ _ E)) as (t & Et & Ep). exists t. by rewrite Et, Ep.
Qed.

End JsonText.

(** ** A concrete text format

    The values as lists of tokens, to show that the laws can hold. *)

Fixpoint tree_of (j : json) : gen_tree (positive + str) :=
  match j with
  | JNull => GenNode 0 []
  | JBool b => GenNode 1 [GenLeaf (inl (encode b))]
  | JInt z => GenNode 2 [GenLeaf (inl (encode z))]
  | JFloat d =>
      GenNode 3 [match d with
                 | S754_zero s => GenNode 0 [GenLeaf (inl (encode s))]
                 | S754_infinity s => GenNode 1 [GenLeaf (inl (encode s))]
                 | S754_nan => GenNode 2 []
                 | S754_finite s m e => GenNode 3 [GenLeaf (inl (encode s)); GenLeaf (inl m); GenLeaf (inl (encode e))]
                 end]
  | JString s => GenNode 4 [GenLeaf (inr s)]
  | JArray l => GenNode 5 (tree_of <$> l)
  | JObject m => GenNode 6 ((fun kv => GenNode 0 [GenLeaf (inr kv.1); kv.2]) <$> map_to_list (tree_of <$> m))
  end.

Definition flag (p : positive) : bool := default false (decode p).
Definition integer (p : positive) : Z := default 0 (decode p).

Fixpoint of_tree (t : gen_tree (positive + str)) : json :=
  match t with
  | GenNode 1 [GenLeaf (inl b)] => JBool (flag b)
  | GenNode 2 [GenLeaf (inl z)] => JInt (integer z)
  | GenNode 3 [GenNode 0 [GenLeaf (inl s)]] => JFloat (S754_zero (flag s))
  | GenNode 3 [GenNode 1 [GenLeaf (inl s)]] => JFloat (S754_infinity (flag s))
  | GenNode 3 [GenNode 2 []] => JFloat S754_nan
  | GenNode 3 [GenNode 3 [GenLeaf (inl s); GenLeaf (inl m); GenLeaf (inl e)]] =>
      JFloat (S754_finite (flag s) m (integer e))
  | GenNode 4 [GenLeaf (inr s)] => JString s
  | GenNode 5 l => JArray (of_tree <$> l)
  | GenNode 6 l => JObject (list_to_map (omap (fun t => match t with
      | GenNode 0 [GenLeaf (inr k); v] => Some (k, of_tree v) | _ => None end) l))
  | _ => JNull
  end.

Fixpoint json_size (j : json) : nat :=
  match j with
  | JArray l => S (sum_list (json_size <$> l))
  | JObject m => S (sum_list ((map_to_list (json_size <$> m)).*2))
  | _ => 0
  end.

Lemma sum_list_elem (x : nat) l : x ∈ l -> (x <= sum_list l)%nat.
Proof. induction 1 as [x l|x y l _ IH]; cbn; lia. Qed.

Lemma object_value_smaller m k v : m !! k = Some v -> (json_size v < json_size (JObject m))%nat.
Proof.
  intros E. cbn. apply Nat.lt_succ_r, sum_list_elem, list_elem_of_fmap. exists (k, json_size v). split; [done|].
  apply elem_of_map_to_list. by rewrite lookup_fmap, E.
Qed.

Lemma object_entries_read (h : json -> gen_tree (positive + str)) m :
  (forall k v, m !! k = Some v -> of_tree (h v) = v) ->
  list_to_map (omap (fun t => match t with GenNode 0 [GenLeaf (inr k); v] => Some (k, of_tree v) | _ => None end)
    ((fun kv => GenNode 0 [GenLeaf (inr kv.1); kv.2]) <$> map_to_list (h <$> m))) = m.
Proof.
  intros Hh. apply map_eq. intros k. apply option_eq. intros v.
  assert (E : forall l : list (str * gen_tree (positive + str)), omap (fun t : gen_tree (positive + str) => match t with GenNode 0 [GenLeaf (inr k); v] => Some (k, of_tree v) | _ => None end)
    ((fun kv : str * gen_tree (positive + str) => GenNode 0 [GenLeaf (inr kv.1); kv.2]) <$> l) = prod_map id of_tree <$> l)
    by (intros l; induction l as [|[k' t] l IHl]; cbn; [done|by f_equal]).
  rewrite E. rewrite <-elem_of_list_to_map.
  2: { rewrite <-list_fmap_compose. change (fst ∘ prod_map id of_tree) with (@fst str (gen_tree (positive + str))).
       apply NoDup_fst_map_to_list. }
  rewrite list_elem_of_fmap. split.
  - intros ([k' t] & [= -> ->] & Hin). apply elem_of_map_to_list in Hin. rewrite lookup_fmap in Hin.
    destruct (m !! k') as [j|] eqn:Ek; [|done]. injection Hin as <-. by rewrite (Hh k').
  - intros Hm. exists (k, h v). split; [cbn; by rewrite (Hh k)|]. apply elem_of_map_to_list. by rewrite lookup_fmap, Hm.
Qed.

Lemma of_tree_of j : of_tree (tree_of j) = j.
Proof.
  remember (json_size j) as n eqn:En. revert j En. induction n as [n IH] using lt_wf_ind. intros j ->.
  destruct j as [|b|z|d|s|l|m]; cbn; unfold flag, integer; try done; try (by rewrite decode_encode).
  - destruct d; cbn; by rewrite ?decode_encode.
  - f_equal. rewrite <-list_fmap_compose. rewrite <-(list_fmap_id l) at 2. apply list_fmap_ext. intros i x Hx. cbn.
    apply (IH (json_size x)); [|done]. cbn. apply Nat.lt_succ_r, sum_list_elem, list_elem_of_fmap.
    exists x. split; [done|]. by eapply list_elem_of_lookup_2.
  - f_equal. apply object_entries_read. intros k v Hv. apply (IH (json_size v)); [|done].
    by eapply object_value_smaller.
Qed.

(** Tokens: [n11,1,] a node with two children and tag 1, [p01,] a numeral,
    [s.a.b,] a string. *)
Notation token := (nat * nat + (positive + str))%type.

Fixpoint bits_of (p : positive) : str :=
  match p with xH => [] | xO p => "0"%char :: bits_of p | xI p => "1"%char :: bits_of p end.
Fixpoint dotted (s : str) : str := match s with [] => [] | c :: s => "."%char :: c :: dotted s end.
Definition print_token (t : token) : str :=
  match t with
  | inl (n, tag) => "n"%char :: replicate n "1"%char ++ ","%char :: replicate tag "1"%char ++ [","%char]
  | inr (inl p) => "p"%char :: bits_of p ++ [","%char]
  | inr (inr s) => "s"%char :: dotted s ++ [","%char]
  end.

(** Each reads up to the comma. *)
Fixpoint read_ones (s : str) : nat * str :=
  match s with [] => (0%nat, []) | c :: s => if is_char c "1" then let '(n, r) := read_ones s in (S n, r) else (0%nat, s) end.
Fixpoint read_bits (s : str) : positive * str :=
  match s with
  | [] => (xH, [])
  | c :: s => if is_char c "," then (xH, s)
              else let '(p, r) := read_bits s in (if is_char c "0" then xO p else xI p, r)
  end.
Fixpoint read_dotted (s : str) : str * str :=
  match s with
  | d :: c :: s => if is_char d "." then let '(t, r) := read_dotted s in (c :: t, r) else ([], c :: s)
  | _ => ([], [])
  end.
Definition read_token (s : str) : option (token * str) :=
  match s with
  | c :: s =>
      if is_char c "n" then let '(n, s) := read_ones s in let '(tag, s) := read_ones s in Some (inl (n, tag), s)
      else if is_char c "p" then let '(p, s) := read_bits s in Some (inr (inl p), s)
      else let '(t, s) := read_dotted s in Some (inr (inr t), s)
  | [] => None
  end.
Fixpoint read_tokens (fuel : nat) (s : str) : list token :=
  match fuel with
  | O => []
  | S fuel => match read_token s with Some (t, s) => t :: read_tokens fuel s | None => [] end
  end.

Lemma read_ones_spec n s : read_ones (replicate n "1"%char ++ ","%char :: s) = (n, s).
Proof. induction n as [|n IH]; [done|]. cbn. by rewrite IH. Qed.
Lemma read_bits_spec p s : read_bits (bits_of p ++ ","%char :: s) = (p, s).
Proof. induction p as [p IH|p IH|]; cbn; by rewrite ?IH. Qed.
Lemma read_dotted_spec t s : read_dotted (dotted t ++ ","%char :: s) = (t, s).
Proof. induction t as [|c t IH]; [by destruct s|]. cbn. by rewrite IH. Qed.

Lemma read_token_spec t s : read_token (print_token t ++ s) = Some (t, s).
Proof.
  destruct t as [[n tag]|[p|t]]; unfold print_token; rewrite <-app_comm_cons.
  - rewrite <-app_assoc, <-app_comm_cons, <-app_assoc. cbn [read_token app]. rewrite (is_char_refl "n"), read_ones_spec.
    cbv beta iota. by rewrite read_ones_spec.
  - rewrite <-app_assoc. cbn [read_token app]. by rewrite (is_char_ne "p" "n"), (is_char_refl "p"), read_bits_spec.
  - rewrite <-app_assoc. cbn [read_token app].
    by rewrite (is_char_ne "s" "n"), (is_char_ne "s" "p"), read_dotted_spec.
Qed.

Fixpoint print_tokens (l : list token) : str := match l with [] => [] | t :: l => print_token t ++ print_tokens l end.

Lemma read_tokens_spec l fuel : (length l <= fuel)%nat -> read_tokens fuel (print_tokens l) = l.
Proof.
  induction l as [|t l IH] in fuel |- *; intros Hf; [by destruct fuel|].
  destruct fuel as [|fuel]; cbn in Hf; [lia|]. cbn [print_tokens read_tokens].
  rewrite read_token_spec. f_equal. apply IH. lia.
Qed.

Lemma print_tokens_length l : (length l <= length (print_tokens l))%nat.
Proof.
  induction l as [|t l IH]; [done|]. cbn [print_tokens length]. rewrite length_app.
  assert (1 <= length (print_token t))%nat by (destruct t as [[]|[]]; cbn; lia). lia.
Qed.

Definition token_dump (j : json) : str := print_tokens (gen_tree_to_list (tree_of j)).
Definition token_parse (s : str) : option json := of_tree <$> gen_tree_of_list [] (read_tokens (length s) s).

Lemma token_round j : token_parse (token_dump j) = Some j.
Proof.
  unfold token_parse, token_dump. rewrite read_tokens_spec by apply print_tokens_length.
  rewrite <-(app_nil_r (gen_tree_to_list _)), gen_tree_of_to_list. cbn. by rewrite of_tree_of.
Qed.

#[export, refine] Instance token_json : JsonText := {
  json_parse := token_parse;
  json_dump j := Some (token_dump j);
  json_dump2 j := Some (token_dump j);
  storable _ := True
}.
Proof.
  - by vm_compute.
  - done.
  - intros j _. eauto using token_round.
  - intros j _. eauto using token_round.
  - done.
  - done.
  - done.
  - intros l. split; [intros _; by apply Forall_true|done].
  - intros m. split; [by intros _ k j|done].
Defined.
