(* ===== verification/RateLimiter.v ===== *)
(** * Per-client rate limiter (class RateLimiter of src/src/policy/RequestPolicy.cpp)

    A token bucket per client address with an optional ban, in a table of at
    most 65536 entries that evicts the least recently used client.  One mutex
    protects the table, so [check] is an atomic function of the state and of the
    steady clock (nanoseconds).  Tokens are doubles ([Binary64]).  The iterator
    an entry keeps into the LRU list is represented by the entry's key: the
    invariant proved below (the list holds every key of the table exactly once)
    is what makes the iterators valid. *)

From S2P Require Import Prelude Binary64.

Record RateLimitSpec := {
  rl_enabled : bool;
  window_seconds : Z;
  max_requests : Z;
  ban_seconds : Z
}.

Definition default_rate_limit : RateLimitSpec :=
  {| rl_enabled := false; window_seconds := 10; max_requests := 100; ban_seconds := 60 |}.

Record Entry := { tokens : double; updated : Z; banned_until : Z }.

Record Limiter := {
  rl_spec : RateLimitSpec;
  entries : gmap str Entry;
  lru : list str;              (* least recently used first *)
  request_count : Z
}.

Definition max_rate_limit_entries : Z := 65536.
Definition ns (seconds : Z) : Z := seconds * 1000000000.

Definition RateLimiter (spec : RateLimitSpec) : res Limiter :=
  let l := {| rl_spec := spec; entries := ∅; lru := []; request_count := 0 |} in
  if negb (rl_enabled spec) then Ok l
  else if (window_seconds spec =? 0) || (3600 <? window_seconds spec) then
    Throw (invalid_argument b!"rate limit window must be between 1 and 3600 seconds")
  else if (max_requests spec =? 0) || (1000000 <? max_requests spec) then
    Throw (invalid_argument b!"rate limit maximum must be between 1 and 1000000")
  else if 86400 <? ban_seconds spec then
    Throw (invalid_argument b!"rate limit ban must not exceed 86400 seconds")
  else Ok l.

Definition seconds_until (deadline now : Z) : Z :=
  let milliseconds := Z.quot (deadline - now) 1000000 in
  Z.max 1 (u32 (Z.quot (milliseconds + 999) 1000)).

Definition retention (spec : RateLimitSpec) : Z :=
  ns (u32 (window_seconds spec + ban_seconds spec + 1)).

Definition stale (spec : RateLimitSpec) (now : Z) (e : Entry) : bool :=
  (banned_until e <=? now) && (retention spec <? now - updated e).

Definition stale_at (spec : RateLimitSpec) (now : Z) (o : option Entry) : bool :=
  match o with Some e => stale spec now e | None => false end.

Definition cleanup (now : Z) (l : Limiter) : Limiter :=
  {| rl_spec := rl_spec l;
     entries := filter (fun '(_, e) => stale (rl_spec l) now e = false) (entries l);
     lru := filter (fun k => stale_at (rl_spec l) now (entries l !! k) = false) (lru l);
     request_count := request_count l |}.

Definition evict_oldest (l : Limiter) : Limiter :=
  match lru l with
  | [] => l
  | oldest :: rest =>
      {| rl_spec := rl_spec l; entries := delete oldest (entries l); lru := rest;
         request_count := request_count l |}
  end.

(** [lru_.splice(lru_.end(), lru_, entry.lru_position)]. *)
Definition touch (key : str) (l : list str) : list str := filter (fun k => k <> key) l ++ [key].

Definition with_entry (key : str) (e : Entry) (order : list str) (l : Limiter) : Limiter :=
  {| rl_spec := rl_spec l; entries := <[key := e]> (entries l); lru := order;
     request_count := request_count l |}.

Definition refill_per_second (spec : RateLimitSpec) : double :=
  ddiv (dbl (max_requests spec)) (dbl (window_seconds spec)).

(** The entry after an expired ban is lifted, and after the refill. *)
Definition lift_ban (spec : RateLimitSpec) (now : Z) (e : Entry) : Entry :=
  if negb (banned_until e =? 0) then
    {| tokens := dbl (max_requests spec); updated := now; banned_until := 0 |}
  else e.

Definition refill (spec : RateLimitSpec) (now : Z) (e : Entry) : Entry :=
  let elapsed := ddiv (dbl (now - updated e)) (dbl 1000000000) in
  {| tokens := dmin (dbl (max_requests spec))
                 (dadd (tokens e) (dmul elapsed (refill_per_second spec)));
     updated := now; banned_until := banned_until e |}.

(** The bucket of a known client that is not banned: the entry and the answer. *)
Definition take_token (spec : RateLimitSpec) (now : Z) (e : Entry) : Entry * option Z :=
  let e := refill spec now (lift_ban spec now e) in
  if dge (tokens e) (dbl 1) then
    ({| tokens := dsub (tokens e) (dbl 1); updated := updated e; banned_until := banned_until e |}, None)
  else if negb (ban_seconds spec =? 0) then
    ({| tokens := tokens e; updated := updated e; banned_until := now + ns (ban_seconds spec) |},
     Some (ban_seconds spec))
  else
    (e, Some (Z.max 1 (u32 (dceil (ddiv (dsub (dbl 1) (tokens e)) (refill_per_second spec)))))).

(** Every 1024th request cleans up; a full table makes room. *)
Definition count_request (now : Z) (l : Limiter) : Limiter :=
  let l := {| rl_spec := rl_spec l; entries := entries l; lru := lru l;
              request_count := u64 (request_count l + 1) |} in
  if Z.land (request_count l) 1023 =? 0 then cleanup now l else l.

Definition make_room (l : Limiter) : Limiter :=
  if max_rate_limit_entries <=? Z.of_nat (size (entries l)) then evict_oldest l else l.

(** [check]: [None] admits the request, [Some s] rejects it with Retry-After. *)
Definition check (client_ip : str) (now : Z) (l : Limiter) : option Z * Limiter :=
  let spec := rl_spec l in
  if negb (rl_enabled spec) then (None, l)
  else
    let l := count_request now l in
    match entries l !! client_ip with
    | None =>
        let l := make_room l in
        (None, with_entry client_ip
                 {| tokens := dbl (u32 (max_requests spec - 1)); updated := now; banned_until := 0 |}
                 (lru l ++ [client_ip]) l)
    | Some e =>
        let order := touch client_ip (lru l) in
        if now <? banned_until e then
          (Some (seconds_until (banned_until e) now), with_entry client_ip e order l)
        else
          let '(e', answer) := take_token spec now e in
          (answer, with_entry client_ip e' order l)
    end.

(** A sequence of requests: (client, clock). *)
Fixpoint checks (requests : list (str * Z)) (l : Limiter) : list (option Z) * Limiter :=
  match requests with
  | [] => ([], l)
  | (client_ip, now) :: rest =>
      let '(answer, l') := check client_ip now l in
      let '(answers, l'') := checks rest l' in
      (answer :: answers, l'')
  end.

Inductive reachable (spec : RateLimitSpec) : Limiter -> Prop :=
| reach_new l : RateLimiter spec = Ok l -> reachable spec l
| reach_check l ip now : reachable spec l -> reachable spec (check ip now l).2.

(** Field widths of the specification: three 32-bit unsigned integers. *)
Definition spec_wf (spec : RateLimitSpec) : Prop :=
  0 <= window_seconds spec < 2 ^ 32 /\ 0 <= max_requests spec < 2 ^ 32 /\
  0 <= ban_seconds spec < 2 ^ 32.

(** ** The table and the LRU list *)

Record table_inv (l : Limiter) : Prop := {
  tinv_nodup : NoDup (lru l);
  tinv_keys : forall k, k ∈ lru l <-> is_Some (entries l !! k);
  tinv_size : Z.of_nat (size (entries l)) <= max_rate_limit_entries
}.

Lemma table_length l : table_inv l -> length (lru l) = size (entries l).
Proof.
  intros [Hnd Hk _]. rewrite <- size_dom. replace (dom (entries l)) with (list_to_set (C:=gset str) (lru l)).
  - by rewrite size_list_to_set.
  - apply set_eq. intros k. by rewrite elem_of_list_to_set, elem_of_dom.
Qed.

Lemma cleanup_lookup now l k e :
  entries (cleanup now l) !! k = Some e <-> entries l !! k = Some e /\ stale (rl_spec l) now e = false.
Proof. cbn. by rewrite map_lookup_filter_Some. Qed.

Lemma cleanup_inv now l : table_inv l -> table_inv (cleanup now l).
Proof.
  intros [Hnd Hk Hs]. constructor.
  - by apply NoDup_filter.
  - intros k. cbn [lru cleanup]. rewrite list_elem_of_filter, Hk. split.
    + intros [Hst [e He]]. rewrite He in Hst. exists e. by apply cleanup_lookup.
    + intros [e [He Hst]%cleanup_lookup]. rewrite He. eauto.
  - cbn. etrans; [|exact Hs]. apply inj_le, map_subseteq_size, map_filter_subseteq.
Qed.

Lemma evict_inv l : table_inv l -> table_inv (evict_oldest l).
Proof.
  intros [Hnd Hk Hs]. unfold evict_oldest. destruct (lru l) as [|k0 rest] eqn:E; [by constructor; rewrite ?E|].
  apply NoDup_cons in Hnd as [Hni Hnd]. constructor; cbn.
  - done.
  - intros k. destruct (decide (k = k0)) as [->|Hne].
    + rewrite lookup_delete_eq. split; [done|]. by intros [? ?].
    + rewrite lookup_delete_ne by done. rewrite <- Hk. set_solver.
  - etrans; [|exact Hs]. apply inj_le, map_subseteq_size, delete_subseteq.
Qed.

Lemma evict_size l :
  table_inv l -> entries l <> ∅ -> Z.of_nat (size (entries (evict_oldest l))) < max_rate_limit_entries.
Proof.
  intros HI Hne. pose proof (table_length l HI) as Hlen. destruct HI as [_ Hk Hs]. unfold evict_oldest.
  destruct (lru l) as [|k rest] eqn:E.
  - destruct Hne. apply map_size_empty_inv. cbn in Hlen. lia.
  - cbn in *. rewrite map_size_delete_Some by (apply Hk; set_solver). lia.
Qed.

Lemma insert_inv key e l :
  table_inv l -> entries l !! key = None ->
  Z.of_nat (size (entries l)) < max_rate_limit_entries ->
  table_inv (with_entry key e (lru l ++ [key]) l).
Proof.
  intros [Hnd Hk Hs] Hnew Hroom. constructor; cbn.
  - apply NoDup_app. split_and!; [done| |apply NoDup_singleton].
    intros k Hin ->%list_elem_of_singleton. apply Hk in Hin. rewrite Hnew in Hin. by destruct Hin.
  - intros k. rewrite elem_of_app, Hk, list_elem_of_singleton. destruct (decide (k = key)) as [->|Hne].
    + rewrite lookup_insert_eq. naive_solver.
    + rewrite lookup_insert_ne by done. naive_solver.
  - rewrite map_size_insert_None by done. lia.
Qed.

Lemma touch_inv key e l :
  table_inv l -> is_Some (entries l !! key) -> table_inv (with_entry key e (touch key (lru l)) l).
Proof.
  intros [Hnd Hk Hs] [e0 He]. constructor; cbn; unfold touch.
  - apply NoDup_app. split_and!; [by apply NoDup_filter| |apply NoDup_singleton].
    intros k [Hne _]%list_elem_of_filter ->%list_elem_of_singleton. done.
  - intros k. rewrite elem_of_app, list_elem_of_filter, Hk, list_elem_of_singleton.
    destruct (decide (k = key)) as [->|Hne].
    + rewrite lookup_insert_eq. naive_solver.
    + rewrite lookup_insert_ne by done. naive_solver.
  - by rewrite map_size_insert_Some by done.
Qed.

Lemma count_request_inv now l : table_inv l -> table_inv (count_request now l).
Proof.
  intros HI. unfold count_request.
  assert (HI' : table_inv {| rl_spec := rl_spec l; entries := entries l; lru := lru l;
                             request_count := u64 (request_count l + 1) |}) by (by destruct HI).
  case_match; [by apply cleanup_inv|done].
Qed.

Lemma count_request_spec now l : rl_spec (count_request now l) = rl_spec l.
Proof. unfold count_request. by case_match. Qed.

(** An entry survives counting and the periodic cleanup unless it is stale. *)
Lemma count_request_lookup now l k :
  entries (count_request now l) !! k = entries l !! k \/
  entries (count_request now l) !! k = None /\ stale_at (rl_spec l) now (entries l !! k) = true.
Proof.
  unfold count_request. case_match; [|auto]. cbn [rl_spec entries cleanup].
  destruct (entries l !! k) as [e|] eqn:He.
  - destruct (stale (rl_spec l) now e) eqn:Est.
    + right. split; [|done]. apply map_lookup_filter_None. right. intros x Hx. assert (x = e) as -> by congruence. by rewrite Est.
    + left. by apply map_lookup_filter_Some.
  - left. apply map_lookup_filter_None. auto.
Qed.

Lemma count_request_fresh now l k e :
  entries l !! k = Some e -> stale (rl_spec l) now e = false ->
  entries (count_request now l) !! k = Some e.
Proof.
  intros He Hst. destruct (count_request_lookup now l k) as [->|[_ Hs]]; [done|].
  rewrite He in Hs. cbn in Hs. congruence.
Qed.

Lemma make_room_inv l :
  table_inv l -> table_inv (make_room l) /\ Z.of_nat (size (entries (make_room l))) < max_rate_limit_entries.
Proof.
  intros HI. unfold make_room. case_match; bool_to_prop; [|done]. split; [by apply evict_inv|].
  apply evict_size; [done|]. intros He. rewrite He, map_size_empty in *. unfold max_rate_limit_entries in *. lia.
Qed.

Lemma make_room_lookup l k :
  entries (make_room l) !! k = entries l !! k \/
  (entries (make_room l) !! k = None /\ head (lru l) = Some k /\
   max_rate_limit_entries <= Z.of_nat (size (entries l))).
Proof.
  unfold make_room. case_match; bool_to_prop; [|auto]. unfold evict_oldest.
  destruct (lru l) as [|k0 rest]; [auto|]. cbn. destruct (decide (k = k0)) as [->|Hne].
  - right. by rewrite lookup_delete_eq.
  - left. by rewrite lookup_delete_ne.
Qed.

Lemma make_room_spec l : rl_spec (make_room l) = rl_spec l.
Proof. unfold make_room, evict_oldest. by repeat case_match. Qed.

Lemma check_spec ip now l : rl_spec (check ip now l).2 = rl_spec l.
Proof.
  unfold check. repeat case_match; try done; cbn; by rewrite ?make_room_spec, ?count_request_spec.
Qed.

Lemma check_inv ip now l : table_inv l -> table_inv (check ip now l).2.
Proof.
  intros HI. unfold check. destruct (negb (rl_enabled (rl_spec l))); [done|].
  apply (count_request_inv now) in HI. destruct (entries (count_request now l) !! ip) as [e|] eqn:He.
  - destruct (now <? banned_until e); [by apply touch_inv|].
    destruct (take_token (rl_spec l) now e) as [e' a]. by apply touch_inv.
  - destruct (make_room_inv _ HI) as [HI' Hroom]. cbn. apply insert_inv; [done| |done].
    destruct (make_room_lookup (count_request now l) ip) as [->|[? _]]; done.
Qed.

Lemma reachable_table spec l : reachable spec l -> table_inv l /\ rl_spec l = spec.
Proof.
  induction 1 as [l Hl|l ip now Hr [HI Hs]].
  - assert (l = {| rl_spec := spec; entries := ∅; lru := []; request_count := 0 |}) as ->
      by (unfold RateLimiter in Hl; repeat case_match; congruence).
    split; [|done]. constructor; cbn; [constructor| |done]. intros k. rewrite lookup_empty.
    split; [set_solver|by intros [? ?]].
  - split; [by apply check_inv|by rewrite check_spec].
Qed.

(** A limiter that was constructed enabled has parameters in range. *)
Lemma reachable_params spec l :
  reachable spec l -> spec_wf spec -> rl_enabled spec = true ->
  1 <= window_seconds spec <= 3600 /\ 1 <= max_requests spec <= 1000000 /\ 0 <= ban_seconds spec <= 86400.
Proof.
  intros Hr (Hw & Hm & Hb) Hen. induction Hr as [l Hl|]; [|done].
  unfold RateLimiter in Hl. rewrite Hen in Hl. cbn in Hl. repeat case_match; try done. bool_to_prop. lia.
Qed.

(** ** Bursts *)

Section Burst.
Context (spec : RateLimitSpec) (ip : str) (now : Z).
Hypothesis Henabled : rl_enabled spec = true.
Hypothesis Hwindow : 1 <= window_seconds spec <= 3600.
Hypothesis Hmax : 1 <= max_requests spec <= 1000000.
Hypothesis Hnow : 0 <= now.
Hypothesis Hban : 0 <= ban_seconds spec <= 86400.

(** The client has [t] whole tokens left at [now]. *)
Definition bucket (t : Z) (l : Limiter) : Prop :=
  rl_spec l = spec /\
  entries l !! ip = Some {| tokens := dbl t; updated := now; banned_until := 0 |}.

(** The client has none left, and is banned if bans are on. *)
Definition blocked (l : Limiter) : Prop :=
  rl_spec l = spec /\
  exists b, entries l !! ip = Some {| tokens := dbl 0; updated := now; banned_until := b |} /\
            (ban_seconds spec = 0 /\ b = 0 \/ now < b).

Lemma current_not_stale b : stale spec now {| tokens := b; updated := now; banned_until := 0 |} = false.
Proof.
  unfold stale, retention, ns, u32, wrap_u. cbn [banned_until updated].
  pose proof (Z.mod_pos_bound (window_seconds spec + ban_seconds spec + 1) (2 ^ 32) ltac:(lia)).
  rewrite (proj2 (Z.ltb_ge _ _)) by lia. by rewrite andb_false_r.
Qed.

Lemma refill_now t : 0 <= t <= max_requests spec ->
  refill spec now {| tokens := dbl t; updated := now; banned_until := 0 |} =
  {| tokens := dbl t; updated := now; banned_until := 0 |}.
Proof.
  intros Ht. unfold refill, refill_per_second. cbn [updated tokens banned_until].
  rewrite Z.sub_diag, no_refill, dmin_dbl, Z.min_r by lia. done.
Qed.

Lemma check_bucket t l :
  bucket t l -> 1 <= t <= max_requests spec ->
  (check ip now l).1 = None /\ bucket (t - 1) (check ip now l).2.
Proof.
  intros [Hs He] Ht. unfold check. rewrite Hs, Henabled. cbn [negb].
  rewrite (count_request_fresh _ _ _ _ He) by (rewrite Hs; apply current_not_stale).
  cbn [banned_until]. rewrite (proj2 (Z.ltb_ge _ _)) by lia. unfold take_token, lift_ban.
  cbn [banned_until Z.eqb negb]. rewrite refill_now by lia. cbn [tokens updated banned_until].
  rewrite dge_dbl by lia. rewrite (proj2 (Z.leb_le _ _)) by lia. cbn [fst snd]. split; [done|].
  split; [cbn; by rewrite count_request_spec|]. cbn. rewrite lookup_insert_eq, dsub_one by lia. done.
Qed.

Lemma check_exhausted l :
  bucket 0 l \/ blocked l ->
  is_Some (check ip now l).1 /\ blocked (check ip now l).2.
Proof.
  intros Hl. assert (Hb : exists b, rl_spec l = spec /\
    entries l !! ip = Some {| tokens := dbl 0; updated := now; banned_until := b |} /\
    (b = 0 \/ now < b)).
  { destruct Hl as [[? ?]|[? (b & ? & [[? ?]|?])]]; eauto 6. }
  destruct Hb as (b & Hs & He & Hb). unfold check. rewrite Hs, Henabled. cbn [negb].
  assert (Hst : stale spec now {| tokens := dbl 0; updated := now; banned_until := b |} = false).
  { destruct Hb as [->|Hb]; [apply current_not_stale|]. unfold stale. cbn [banned_until].
    by rewrite (proj2 (Z.leb_gt _ _)) by lia. }
  rewrite (count_request_fresh _ _ _ _ He) by (by rewrite Hs). cbn [banned_until].
  destruct (Z.ltb_spec now b) as [Hlt|Hge].
  - split; [by eexists|]. split; [cbn; by rewrite count_request_spec|]. exists b.
    cbn. rewrite lookup_insert_eq. auto.
  - assert (b = 0) as -> by lia. unfold take_token, lift_ban. cbn [banned_until Z.eqb negb].
    rewrite refill_now by lia. cbn [tokens updated banned_until]. rewrite dge_dbl by lia.
    rewrite (proj2 (Z.leb_gt _ _)) by lia. destruct (Z.eqb_spec (ban_seconds spec) 0) as [Hz|Hz]; cbn.
    + split; [by eexists|]. split; [cbn; by rewrite count_request_spec|]. exists 0.
      cbn. rewrite lookup_insert_eq. auto.
    + split; [by eexists|]. split; [cbn; by rewrite count_request_spec|].
      exists (now + ns (ban_seconds spec)). cbn. rewrite lookup_insert_eq. split; [done|].
      right. unfold ns. lia.
Qed.

Lemma checks_cons l rest :
  checks ((ip, now) :: rest) l =
  ((check ip now l).1 :: (checks rest (check ip now l).2).1, (checks rest (check ip now l).2).2).
Proof. cbn. destruct (check ip now l) as [a l']. cbn. by destruct (checks rest l'). Qed.

Lemma burst_exhausted k l :
  bucket 0 l \/ blocked l ->
  length (checks (replicate k (ip, now)) l).1 = k /\
  Forall is_Some (checks (replicate k (ip, now)) l).1.
Proof.
  revert l. induction k as [|k IH]; intros l Hl; [by repeat constructor|].
  cbn [replicate]. rewrite checks_cons. cbn [fst]. destruct (check_exhausted l Hl) as [Hr Hb].
  destruct (IH _ (or_intror Hb)) as [Hlen HF]. split; [cbn; by rewrite Hlen|by constructor].
Qed.

Lemma burst_bucket t k l :
  (Z.of_nat t <= max_requests spec) -> bucket (Z.of_nat t) l ->
  exists rejected, (checks (replicate (t + k) (ip, now)) l).1 = replicate t None ++ rejected /\
    length rejected = k /\ Forall is_Some rejected.
Proof.
  revert l. induction t as [|t IH]; intros l Ht Hl.
  - eexists. split; [reflexivity|]. apply burst_exhausted. auto.
  - cbn [replicate Nat.add]. rewrite checks_cons. cbn [fst].
    destruct (check_bucket _ l Hl ltac:(lia)) as [-> Hb].
    replace (Z.of_nat (S t) - 1) with (Z.of_nat t) in Hb by lia.
    destruct (IH _ ltac:(lia) Hb) as (rej & -> & ? & ?). by exists rej.
Qed.

Lemma check_new_client l :
  rl_spec l = spec -> entries l !! ip = None ->
  (check ip now l).1 = None /\ bucket (max_requests spec - 1) (check ip now l).2.
Proof.
  intros Hs He. unfold check. rewrite Hs, Henabled. cbn [negb].
  destruct (count_request_lookup now l ip) as [Hl|[Hl _]]; rewrite ?He in Hl; rewrite Hl;
    (split; [done|]; split; [cbn; by rewrite make_room_spec, count_request_spec|]);
    cbn; rewrite lookup_insert_eq; do 2 f_equal; unfold u32, wrap_u; by rewrite Z.mod_small by lia.
Qed.
End Burst.

(** ** Main theorems *)

(** The table and the LRU list never get out of step: after any sequence of
    requests the list holds every client of the table exactly once (so the
    stored list positions are valid) and the table never exceeds 65536 clients. *)
Theorem rate_table_consistent spec l :
  reachable spec l ->
  NoDup (lru l) /\ (forall k, k ∈ lru l <-> is_Some (entries l !! k)) /\
  Z.of_nat (size (entries l)) <= max_rate_limit_entries.
Proof. intros [[Hnd Hk Hs] _]%reachable_table. done. Qed.

(** C38: The burst limit is exact.  A client without history that sends
    [max_requests + k] requests at one instant gets exactly [max_requests] of
    them admitted, then [k] rejected; the double arithmetic loses nothing, and
    neither the periodic cleanup nor eviction interferes. *)
Theorem burst_admits_exactly_max spec l ip now k :
  reachable spec l -> spec_wf spec -> rl_enabled spec = true -> 0 <= now ->
  entries l !! ip = None ->
  exists rejected,
    (checks (replicate (Z.to_nat (max_requests spec) + k) (ip, now)) l).1 =
      replicate (Z.to_nat (max_requests spec)) None ++ rejected /\
    length rejected = k /\ Forall is_Some rejected.
Proof.
  intros Hr Hwf Hen Hnow He. destruct (reachable_params _ _ Hr Hwf Hen) as (Hw & Hm & Hb).
  destruct (reachable_table _ _ Hr) as [_ Hs].
  destruct (check_new_client spec ip now Hen Hm l Hs He) as [Ha Hbk].
  replace (Z.to_nat (max_requests spec)) with (S (Z.to_nat (max_requests spec - 1))) by lia.
  cbn [replicate Nat.add]. rewrite checks_cons. cbn [fst]. rewrite Ha.
  edestruct (burst_bucket spec ip now Hen Hw Hm Hnow Hb (Z.to_nat (max_requests spec - 1)) k)
    as (rej & -> & ? & ?); [lia|by rewrite Z2Nat.id by lia|]. by exists rej.
Qed.

Lemma seconds_until_spec deadline now bound :
  0 < deadline - now <= ns bound -> 0 <= bound <= 86400 ->
  1 <= seconds_until deadline now <= Z.max 1 bound /\
  deadline - now < ns (seconds_until deadline now) + 1000000.
Proof.
  intros Hd Hb. unfold seconds_until, ns, u32, wrap_u in *. rewrite (Z.quot_div_nonneg (deadline - now)) by lia.
  pose proof (Z.div_pos (deadline - now) 1000000 ltac:(lia) ltac:(lia)).
  rewrite Z.quot_div_nonneg by lia.
  pose proof (Z.div_mod (deadline - now) 1000000 ltac:(lia)) as H1.
  pose proof (Z.mod_pos_bound (deadline - now) 1000000 ltac:(lia)).
  set (ms := (deadline - now) / 1000000) in *.
  pose proof (Z.div_mod (ms + 999) 1000 ltac:(lia)) as H2.
  pose proof (Z.mod_pos_bound (ms + 999) 1000 ltac:(lia)).
  set (s := (ms + 999) / 1000) in *. rewrite (Z.mod_small s (2 ^ 32)) by lia. lia.
Qed.

(** A ban holds.  While a ban of at most [ban_seconds] is running, every
    request of the banned client is rejected, its entry is left as it is
    (requests neither extend nor shorten the ban), and Retry-After lies between
    1 and [ban_seconds] and falls short of the remaining time by less than a
    millisecond. *)
Theorem ban_is_enforced spec l ip now e :
  reachable spec l -> spec_wf spec -> rl_enabled spec = true ->
  entries l !! ip = Some e -> now < banned_until e <= now + ns (ban_seconds spec) ->
  exists s, (check ip now l).1 = Some s /\ entries (check ip now l).2 !! ip = Some e /\
    1 <= s <= ban_seconds spec /\ banned_until e - now < ns s + 1000000.
Proof.
  intros Hr Hwf Hen He Hban. destruct (reachable_params _ _ Hr Hwf Hen) as (Hw & Hm & Hb).
  destruct (reachable_table _ _ Hr) as [_ Hs].
  destruct (seconds_until_spec (banned_until e) now (ban_seconds spec) ltac:(lia) Hb) as [Hrange Hlate].
  unfold check. rewrite Hs, Hen. cbn [negb].
  rewrite (count_request_fresh _ _ _ _ He)
    by (unfold stale; by rewrite (proj2 (Z.leb_gt _ _)) by lia).
  rewrite (proj2 (Z.ltb_lt _ _)) by lia. eexists. split; [done|]. cbn. rewrite lookup_insert_eq.
  unfold ns in *. split_and!; try done; lia.
Qed.

(** Clients do not disturb each other.  A request leaves the entry of
    another client alone, except that the periodic cleanup may drop it when its
    ban is over and its bucket has been idle for longer than the window, and
    that a full table drops the least recently used client. *)
Theorem check_isolates_clients ip now l k :
  k <> ip ->
  let l' := (check ip now l).2 in
  entries l' !! k = entries l !! k \/
  (entries l' !! k = None /\
   (stale_at (rl_spec l) now (entries l !! k) = true \/
    (head (lru (count_request now l)) = Some k /\
     max_rate_limit_entries <= Z.of_nat (size (entries (count_request now l)))))).
Proof.
  intros Hne. cbv zeta. unfold check. destruct (negb (rl_enabled (rl_spec l))); [auto|].
  pose proof (count_request_lookup now l k) as Hc.
  destruct (entries (count_request now l) !! ip) as [e|].
  - destruct (now <? banned_until e); [|destruct (take_token (rl_spec l) now e)];
      cbn; rewrite lookup_insert_ne by done; naive_solver.
  - cbn. rewrite lookup_insert_ne by done.
    destruct (make_room_lookup (count_request now l) k) as [->|(-> & ? & ?)]; naive_solver.
Qed.

(** ** A concrete limiter: two requests per second, ban of five seconds *)

Definition sample_spec : RateLimitSpec :=
  {| rl_enabled := true; window_seconds := 1; max_requests := 2; ban_seconds := 5 |}.
Definition sample_limiter : Limiter :=
  {| rl_spec := sample_spec; entries := ∅; lru := []; request_count := 0 |}.

Lemma sample_reachable : reachable sample_spec sample_limiter.
Proof. by apply reach_new. Qed.

Example sample_burst :
  (checks [(b!"1.2.3.4", 100); (b!"1.2.3.4", 100); (b!"1.2.3.4", 100); (b!"1.2.3.4", 5000000000);
           (b!"1.2.3.4", 5000000100)] sample_limiter).1
  = [None; None; Some 5; Some 1; None].
Proof. by vm_compute. Qed.

(** The state after the third request: the client is banned. *)
Definition sample_banned : Limiter :=
  (check b!"a" 100 (check b!"a" 100 (check b!"a" 100 sample_limiter).2).2).2.

Lemma sample_banned_reachable : reachable sample_spec sample_banned.
Proof. unfold sample_banned. repeat apply reach_check. apply sample_reachable. Qed.

Lemma rate_table_consistent_witness :
  NoDup (lru sample_banned) /\
  (forall k, k ∈ lru sample_banned <-> is_Some (entries sample_banned !! k)) /\
  Z.of_nat (size (entries sample_banned)) <= max_rate_limit_entries.
Proof. exact (rate_table_consistent sample_spec sample_banned sample_banned_reachable). Defined.

Lemma burst_admits_exactly_max_witness :
  exists rejected,
    (checks (replicate (Z.to_nat (max_requests sample_spec) + 3) (b!"a", 100)) sample_limiter).1 =
      replicate (Z.to_nat (max_requests sample_spec)) None ++ rejected /\
    length rejected = 3%nat /\ Forall is_Some rejected.
Proof.
  exact (burst_admits_exactly_max sample_spec sample_limiter b!"a" 100 3 sample_reachable
           ltac:(unfold spec_wf; cbn; lia) eq_refl ltac:(lia) eq_refl).
Defined.

Lemma ban_is_enforced_witness :
  exists e s, (check b!"a" 200 sample_banned).1 = Some s /\
    entries (check b!"a" 200 sample_banned).2 !! b!"a" = Some e /\
    1 <= s <= ban_seconds sample_spec /\ banned_until e - 200 < ns s + 1000000.
Proof.
  exists {| tokens := dbl 0; updated := 100; banned_until := 5000000100 |}.
  exact (ban_is_enforced sample_spec sample_banned b!"a" 200
           {| tokens := dbl 0; updated := 100; banned_until := 5000000100 |}
           sample_banned_reachable ltac:(unfold spec_wf; cbn; lia) eq_refl
           ltac:(by vm_compute) ltac:(unfold ns; cbn; lia)).
Defined.

Lemma check_isolates_clients_witness :
  let l' := (check b!"b" 300 sample_banned).2 in
  entries l' !! b!"a" = entries sample_banned !! b!"a" \/
  (entries l' !! b!"a" = None /\
   (stale_at (rl_spec sample_banned) 300 (entries sample_banned !! b!"a") = true \/
    (head (lru (count_request 300 sample_banned)) = Some b!"a" /\
     max_rate_limit_entries <= Z.of_nat (size (entries (count_request 300 sample_banned)))))).
Proof. exact (check_isolates_clients b!"b" 300 sample_banned b!"a" ltac:(done)). Defined.
