(* ===== verification/RequestPolicy.v ===== *)
(** * Request policy (src/src/policy/RequestPolicy.{hpp,cpp})

    The site policy chain: request interception, IP deny rules, rate limit,
    remaining ACL rules, forced HTTPS, redirects and hotlink protection.  The
    constructor validates and compiles the specification; [evaluate] decides a
    request and threads the rate limiter's state.  RE2 is the interface [Regex],
    Boost's address parser [AddressText]. *)

From S2P Require Import Prelude IpAddress HostNormalizer ClientIpResolver RateLimiter.

(** RE2: does a pattern compile, and does it match part of a text?  The flag is
    [case_sensitive]. *)
Class Regex := {
  re2_ok : str -> bool -> bool;
  re2_partial_match : str -> bool -> str -> bool
}.

(** ** Specification types *)

Inductive AclField :=
| field_ip | field_uri | field_host | field_method | field_user_agent | field_referer | field_header.
#[export] Instance AclField_eq_dec : EqDecision AclField.
Proof. solve_decision. Defined.

Inductive MatchOperator :=
| op_equal | op_not_equal | op_contains | op_not_contains | op_starts_with | op_ends_with
| op_regex | op_in_cidr | op_not_in_cidr.
#[export] Instance MatchOperator_eq_dec : EqDecision MatchOperator.
Proof. solve_decision. Defined.

Inductive AclAction := acl_allow | acl_deny | acl_redirect | acl_return_status.
#[export] Instance AclAction_eq_dec : EqDecision AclAction.
Proof. solve_decision. Defined.

Record AclConditionSpec := {
  cond_field : AclField;
  cond_operation : MatchOperator;
  cond_value : str;
  cond_header_name : str;
  cond_case_sensitive : bool
}.

Record AclRuleSpec := {
  rule_name : str;
  rule_enabled : bool;
  rule_conditions : list AclConditionSpec;
  rule_action : AclAction;
  rule_status : Z;
  rule_redirect_location : str
}.

Record HotlinkSpec := {
  hotlink_enabled : bool;
  protected_extensions : list str;
  allowed_hosts : list str;
  allow_empty_referer : bool;
  hotlink_redirect_location : str
}.

Inductive RedirectMatch := redirect_exact | redirect_prefix.
#[export] Instance RedirectMatch_eq_dec : EqDecision RedirectMatch.
Proof. solve_decision. Defined.

Record RedirectRuleSpec := {
  red_name : str;
  red_enabled : bool;
  source_host : str;
  source_path : str;
  red_match : RedirectMatch;
  destination : str;
  red_status : Z;
  preserve_path : bool;
  preserve_query : bool
}.

Record SitePolicySpec := {
  force_https : bool;
  https_port : Z;
  acl_rules : list AclRuleSpec;
  rate_limit : RateLimitSpec;
  hotlink : HotlinkSpec;
  redirects : list RedirectRuleSpec
}.

Record PolicyDecision := {
  status : Z;
  body : str;
  location : str;
  retry_after_seconds : Z
}.

Record RequestView := {
  method : str;
  target : str;
  user_agent : str;
  referer : str;
  header_value : option (str -> str)
}.

(** ** Helpers *)

Definition max_policy_uri_length : Z := 8192.

Definition wildcard_host_matches (pattern host : str) : bool :=
  if negb (starts_with b!"*." pattern) then bool_decide (pattern = host)
  else
    let pattern := drop 2 pattern in
    (length pattern <? length host)%nat && ends_with pattern host &&
    bool_decide (host !! (length host - length pattern - 1)%nat = Some "."%char).

Definition normalized_host_pattern (pattern : str) : res str :=
  let wildcard := starts_with b!"*." pattern in
  match normalize_domain (if wildcard then drop 2 pattern else pattern) with
  | None => Throw (invalid_argument (b!"invalid policy host pattern: " ++ pattern))
  | Some domain =>
      if wildcard && negb (contains_char "." domain) then
        Throw (invalid_argument (b!"invalid policy host pattern: " ++ pattern))
      else Ok (if wildcard then b!"*." ++ domain else domain)
  end.

Definition split_target (target : str) : str * str :=
  match find_char "?" target with
  | None => (target, [])
  | Some query => (take query target, drop (query + 1) target)
  end.

Definition target_extension (target : str) : str :=
  let path := (split_target target).1 in
  let slash := rfind_char "/" path in
  match rfind_char "." path with
  | None => []
  | Some dot =>
      if match slash with Some s => (dot <? s)%nat | None => false end ||
         (length path <=? dot + 1)%nat then []
      else ascii_lower (drop (dot + 1) path)
  end.

(** [find_first_of(chars)]: the text before the first of them. *)
Fixpoint before_any (chars : list ascii) (s : str) : str :=
  match s with
  | [] => []
  | c :: s' => if bool_decide (c ∈ chars) then [] else c :: before_any chars s'
  end.

Definition referer_host (referer : str) : option str :=
  match find_str b!"://" referer with
  | None | Some O => None
  | Some scheme =>
      let normalized_scheme := ascii_lower (take scheme referer) in
      if negb (bool_decide (normalized_scheme = b!"http")) &&
         negb (bool_decide (normalized_scheme = b!"https")) then None
      else normalize_authority (before_any ["/"; "?"; "#"]%char (drop (scheme + 3) referer))
  end.

Definition checked_status (value : Z) (context : str) : res Z :=
  if (value <? 300) || (599 <? value) then
    Throw (invalid_argument (context ++ b!" status is out of range"))
  else Ok value.

Definition valid_redirect_status (s : Z) : bool := (s =? 301) || (s =? 302) || (s =? 307) || (s =? 308).

Definition valid_redirect_destination (d : str) : bool :=
  if bool_decide (d = []) || (4096 <? length d)%nat || existsb outside_graph d then false
  else starts_with b!"/" d || starts_with b!"http://" d || starts_with b!"https://" d.

Definition valid_header_name (name : str) : bool :=
  if bool_decide (name = []) || (128 <? length name)%nat then false
  else forallb (fun c => isalnum c || contains_char c b!"!#$%&'*+-.^_`|~") name.

Definition append_path (d path : str) : str :=
  match path with
  | [] => d
  | first :: _ =>
      let d' :=
        match last d with
        | None => d
        | Some l =>
            if is_char l "/" && is_char first "/" then take (length d - 1) d
            else if negb (is_char l "/") && negb (is_char first "/") then d ++ b!"/"
            else d
        end in
      d' ++ path
  end.

Local Notation "'throwing' e" := (Throw (invalid_argument e)) (at level 10).

Record CidrRange := { cidr_network : address; cidr_prefix : Z }.

Record CompiledCondition := { cc_spec : AclConditionSpec; cc_cidr : option CidrRange }.
Record CompiledAclRule := { cr_spec : AclRuleSpec; cr_conditions : list CompiledCondition }.

Section RequestPolicy.
Context `{AddressText} `{Regex}.

Definition parse_acl_cidr (text : str) : res CidrRange :=
  match find_char "/" text with
  | None => throwing b!"ACL CIDR must use address/prefix notation"
  | Some slash =>
      if (slash =? 0)%nat || (length text <=? slash + 1)%nat ||
         bool_decide (is_Some (find_char_from "/" (slash + 1) text)) then
        throwing b!"ACL CIDR must use address/prefix notation"
      else
        match make_address (take slash text) with
        | None => throwing b!"ACL contains an invalid CIDR address"
        | Some network =>
            let maximum_prefix := if is_v4 network then 32 else 128 in
            match parse_unsigned (drop (slash + 1) text) with
            | None => throwing b!"ACL contains an invalid CIDR prefix"
            | Some prefix =>
                if maximum_prefix <? prefix then throwing b!"ACL contains an invalid CIDR prefix"
                else Ok {| cidr_network := network; cidr_prefix := u8 prefix |}
            end
        end
  end.

Definition cidr_contains (range : CidrRange) (candidate : address) : bool :=
  if negb (bool_decide (is_v4 (cidr_network range) = is_v4 candidate)) then false
  else if is_v4 candidate then
    let prefix := cidr_prefix range in
    let mask := if prefix =? 0 then 0 else u32 (Z.shiftl 0xffffffff (32 - prefix)) in
    Z.land (to_v4_uint (cidr_network range)) mask =? Z.land (to_v4_uint candidate) mask
  else
    let network := to_v6_bytes (cidr_network range) in
    let address := to_v6_bytes candidate in
    let full_bytes := Z.to_nat (cidr_prefix range / 8) in
    let remaining_bits := cidr_prefix range mod 8 in
    if negb (bool_decide (take full_bytes network = take full_bytes address)) then false
    else if remaining_bits =? 0 then true
    else
      let mask := u8 (Z.shiftl 0xff (8 - remaining_bits)) in
      Z.land (nth full_bytes network 0) mask =? Z.land (nth full_bytes address 0) mask.

Definition field_value (request : RequestView) (condition : AclConditionSpec) (client_ip host : str)
    : str :=
  match cond_field condition with
  | field_ip => client_ip
  | field_uri => target request
  | field_host => host
  | field_method => method request
  | field_user_agent => user_agent request
  | field_referer => referer request
  | field_header => match header_value request with
                    | Some f => f (cond_header_name condition)
                    | None => []
                    end
  end.

(** The comparison operators, on texts already folded. *)
Definition compare_text (op : MatchOperator) (value expected : str) : bool :=
  match op with
  | op_equal => bool_decide (value = expected)
  | op_not_equal => negb (bool_decide (value = expected))
  | op_contains => contains_str expected value
  | op_not_contains => negb (contains_str expected value)
  | op_starts_with => starts_with expected value
  | op_ends_with => ends_with expected value
  | op_regex | op_in_cidr | op_not_in_cidr => false
  end.

Definition match_condition (condition : CompiledCondition) (candidate : str) : bool :=
  let spec := cc_spec condition in
  let fold s := if cond_case_sensitive spec then s else ascii_lower s in
  match cond_operation spec with
  | op_regex => re2_partial_match (cond_value spec) (cond_case_sensitive spec) candidate
  | op_in_cidr | op_not_in_cidr =>
      match make_address candidate, cc_cidr condition with
      | Some address, Some range =>
          let contained := cidr_contains range address in
          if bool_decide (cond_operation spec = op_in_cidr) then contained else negb contained
      | _, _ => false
      end
  | op => compare_text op (fold candidate) (fold (cond_value spec))
  end.

Definition is_pre_rate_limit_ip_deny (rule : CompiledAclRule) : bool :=
  if negb (bool_decide (rule_action (cr_spec rule) = acl_deny)) then false
  else forallb (fun c =>
         bool_decide (cond_field (cc_spec c) = field_ip) &&
         (bool_decide (cond_operation (cc_spec c) = op_equal) ||
          bool_decide (cond_operation (cc_spec c) = op_in_cidr) ||
          bool_decide (cond_operation (cc_spec c) = op_not_in_cidr))) (cr_conditions rule).

(** ** Compilation *)

Definition compile_condition (condition : AclConditionSpec) : res CompiledCondition :=
  if bool_decide (cond_value condition = []) || (4096 <? length (cond_value condition))%nat then
    throwing b!"ACL condition value must contain 1 to 4096 characters"
  else if bool_decide (cond_field condition = field_header) &&
          negb (valid_header_name (cond_header_name condition)) then
    throwing b!"ACL Header match requires a valid header name"
  else
    match cond_operation condition with
    | op_regex =>
        if negb (re2_ok (cond_value condition) (cond_case_sensitive condition)) then
          throwing b!"ACL contains an invalid or unsupported RE2 expression"
        else Ok {| cc_spec := condition; cc_cidr := None |}
    | op_in_cidr | op_not_in_cidr =>
        if negb (bool_decide (cond_field condition = field_ip)) then
          throwing b!"ACL CIDR operators are only valid for the IP field"
        else
          match parse_acl_cidr (cond_value condition) with
          | Throw e => Throw e
          | Ok range => Ok {| cc_spec := condition; cc_cidr := Some range |}
          end
    | _ => Ok {| cc_spec := condition; cc_cidr := None |}
    end.

Definition check_acl_rule (rule : AclRuleSpec) : res unit :=
  if bool_decide (rule_name rule = []) || (128 <? length (rule_name rule))%nat ||
     bool_decide (rule_conditions rule = []) || (8 <? length (rule_conditions rule))%nat then
    throwing b!"invalid ACL rule name or condition count"
  else
    match rule_action rule with
    | acl_redirect =>
        if negb (valid_redirect_status (rule_status rule)) ||
           negb (valid_redirect_destination (rule_redirect_location rule)) then
          throwing b!"invalid ACL redirect action"
        else Ok tt
    | acl_allow => Ok tt
    | _ =>
        if negb (rule_status rule =? 403) && negb (rule_status rule =? 404) &&
           negb (rule_status rule =? 429) then
          throwing b!"ACL status must be 403, 404, or 429"
        else Ok tt
    end.

(** One iteration of [compile_acl]: the rule lists before the rate limit and
    after it. *)
Definition compile_acl_rule (rule : AclRuleSpec)
    (acc : list CompiledAclRule * list CompiledAclRule)
    : res (list CompiledAclRule * list CompiledAclRule) :=
  if negb (rule_enabled rule) then Ok acc
  else
    match check_acl_rule rule with
    | Throw e => Throw e
    | Ok _ =>
        match res_map compile_condition (rule_conditions rule) with
        | Throw e => Throw e
        | Ok conditions =>
            let compiled := {| cr_spec := rule; cr_conditions := conditions |} in
            Ok (if is_pre_rate_limit_ip_deny compiled then (acc.1 ++ [compiled], acc.2)
                else (acc.1, acc.2 ++ [compiled]))
        end
    end.

Definition compile_acl (rules : list AclRuleSpec) : res (list CompiledAclRule * list CompiledAclRule) :=
  if (200 <? length rules)%nat then throwing b!"a site cannot contain more than 200 ACL rules"
  else res_fold compile_acl_rule rules ([], []).

Definition compile_redirect (rule : RedirectRuleSpec) (acc : list RedirectRuleSpec)
    : res (list RedirectRuleSpec) :=
  if negb (red_enabled rule) then Ok acc
  else if bool_decide (red_name rule = []) || (128 <? length (red_name rule))%nat ||
          bool_decide (source_path rule = []) || negb (starts_with b!"/" (source_path rule)) ||
          (max_policy_uri_length <? Z.of_nat (length (source_path rule))) ||
          negb (valid_redirect_status (red_status rule)) ||
          negb (valid_redirect_destination (destination rule)) then
    throwing b!"invalid redirect rule"
  else if bool_decide (source_host rule = []) then Ok (acc ++ [rule])
  else
    match normalized_host_pattern (source_host rule) with
    | Throw e => Throw e
    | Ok host =>
        Ok (acc ++ [{| red_name := red_name rule; red_enabled := red_enabled rule;
                       source_host := host; source_path := source_path rule;
                       red_match := red_match rule; destination := destination rule;
                       red_status := red_status rule; preserve_path := preserve_path rule;
                       preserve_query := preserve_query rule |}])
    end.

Definition compile_redirects (rules : list RedirectRuleSpec) : res (list RedirectRuleSpec) :=
  if (100 <? length rules)%nat then throwing b!"a site cannot contain more than 100 redirect rules"
  else res_fold compile_redirect rules [].

Definition compile_extension (extension : str) (acc : gset str) : res (gset str) :=
  let extension := if starts_with b!"." extension then drop 1 extension else extension in
  let extension := ascii_lower extension in
  if bool_decide (extension = []) || (16 <? length extension)%nat || negb (forallb isalnum extension) then
    throwing b!"invalid hotlink-protected extension"
  else Ok ({[extension]} ∪ acc).

Definition compile_host (host : str) (acc : gset str) : res (gset str) :=
  match normalized_host_pattern host with
  | Throw e => Throw e
  | Ok pattern => Ok ({[pattern]} ∪ acc)
  end.

(** [RequestPolicy::Impl]: the specification, the rate limiter and the compiled
    rules. *)
Record Policy := {
  policy_spec : SitePolicySpec;
  rate_limiter : Limiter;
  pre_rate_limit_acl_rules : list CompiledAclRule;
  policy_acl_rules : list CompiledAclRule;
  policy_redirects : list RedirectRuleSpec;
  hotlink_extensions : gset str;
  hotlink_hosts : gset str
}.

Definition RequestPolicy (spec : SitePolicySpec) (site_domains : list str) : res Policy :=
  limiter ← RateLimiter (rate_limit spec);
  hosts ← res_fold compile_host site_domains ∅;
  hosts ← res_fold compile_host (allowed_hosts (hotlink spec)) hosts;
  extensions ← res_fold compile_extension (protected_extensions (hotlink spec)) ∅;
  if hotlink_enabled (hotlink spec) && bool_decide (extensions = ∅) then
    throwing b!"hotlink protection requires at least one extension"
  else if negb (bool_decide (hotlink_redirect_location (hotlink spec) = [])) &&
          negb (valid_redirect_destination (hotlink_redirect_location (hotlink spec))) then
    throwing b!"invalid hotlink redirect destination"
  else
    rules ← compile_acl (acl_rules spec);
    reds ← compile_redirects (redirects spec);
    Ok {| policy_spec := spec; rate_limiter := limiter;
          pre_rate_limit_acl_rules := rules.1; policy_acl_rules := rules.2;
          policy_redirects := reds; hotlink_extensions := extensions; hotlink_hosts := hosts |}.

(** ** Evaluation *)

Definition decision (s : Z) (b l : str) (retry : Z) : PolicyDecision :=
  {| status := s; body := b; location := l; retry_after_seconds := retry |}.

Definition rule_matches (request : RequestView) (client_ip host : str) (rule : CompiledAclRule) : bool :=
  forallb (fun c => match_condition c (field_value request (cc_spec c) client_ip host))
    (cr_conditions rule).

(** What a matching rule does: [None] is [break]. *)
Definition rule_decision (rule : CompiledAclRule) : res (option PolicyDecision) :=
  let spec := cr_spec rule in
  match rule_action spec with
  | acl_allow => Ok None
  | acl_redirect =>
      match checked_status (rule_status spec) b!"ACL redirect" with
      | Ok s => Ok (Some (decision s [] (rule_redirect_location spec) 0))
      | Throw e => Throw e
      end
  | action =>
      match checked_status (rule_status spec) b!"ACL" with
      | Ok s => Ok (Some (decision s (if bool_decide (action = acl_deny) then b!"Request denied by ACL"
                                      else b!"Request blocked by ACL") [] 0))
      | Throw e => Throw e
      end
  end.

Fixpoint evaluate_acl (rules : list CompiledAclRule) (request : RequestView) (client_ip host : str)
    : res (option PolicyDecision) :=
  match rules with
  | [] => Ok None
  | rule :: rules' =>
      if negb (rule_matches request client_ip host rule) then evaluate_acl rules' request client_ip host
      else rule_decision rule
  end.

Definition redirect_matches (rule : RedirectRuleSpec) (path host : str) : bool :=
  (bool_decide (source_host rule = []) || wildcard_host_matches (source_host rule) host) &&
  match red_match rule with
  | redirect_exact => bool_decide (path = source_path rule)
  | redirect_prefix => starts_with (source_path rule) path
  end.

Definition redirect_location (rule : RedirectRuleSpec) (path query : str) : str :=
  let location :=
    if preserve_path rule then
      append_path (destination rule)
        match red_match rule with
        | redirect_prefix => drop (length (source_path rule)) path
        | redirect_exact => path
        end
    else destination rule in
  if preserve_query rule && negb (bool_decide (query = [])) then
    location ++ (if contains_char "?" location then b!"&" else b!"?") ++ query
  else location.

Fixpoint evaluate_redirects (rules : list RedirectRuleSpec) (path query host : str)
    : option PolicyDecision :=
  match rules with
  | [] => None
  | rule :: rules' =>
      if redirect_matches rule path host
      then Some (decision (red_status rule) [] (redirect_location rule path query) 0)
      else evaluate_redirects rules' path query host
  end.

Definition evaluate_hotlink (p : Policy) (request : RequestView) : option PolicyDecision :=
  let spec := hotlink (policy_spec p) in
  let denied :=
    if negb (bool_decide (hotlink_redirect_location spec = []))
    then Some (decision 302 [] (hotlink_redirect_location spec) 0)
    else Some (decision 403 b!"Hotlink protection denied the request" [] 0) in
  if negb (hotlink_enabled spec) ||
     negb (bool_decide (target_extension (target request) ∈ hotlink_extensions p)) then None
  else if bool_decide (referer request = []) then
    if allow_empty_referer spec then None else denied
  else
    match referer_host (referer request) with
    | Some host =>
        if existsb (fun pattern => wildcard_host_matches pattern host) (elements (hotlink_hosts p))
        then None else denied
    | None => denied
    end.

Definition https_location (spec : SitePolicySpec) (host target : str) : str :=
  b!"https://" ++ (if contains_char ":" host then b!"[" ++ host ++ b!"]" else host) ++
  (if negb (https_port spec =? 443) then b!":" ++ to_string (https_port spec) else []) ++ target.

Definition evaluate_post_acl (p : Policy) (request : RequestView) (host scheme : str)
    : option PolicyDecision :=
  if force_https (policy_spec p) && bool_decide (scheme = b!"http") then
    Some (decision 308 [] (https_location (policy_spec p) host (target request)) 0)
  else
    let '(path, query) := split_target (target request) in
    match evaluate_redirects (policy_redirects p) path query host with
    | Some redirect => Some redirect
    | None => evaluate_hotlink p request
    end.

Definition with_limiter (l : Limiter) (p : Policy) : Policy :=
  {| policy_spec := policy_spec p; rate_limiter := l;
     pre_rate_limit_acl_rules := pre_rate_limit_acl_rules p; policy_acl_rules := policy_acl_rules p;
     policy_redirects := policy_redirects p; hotlink_extensions := hotlink_extensions p;
     hotlink_hosts := hotlink_hosts p |}.

Definition evaluate (request : RequestView) (client_ip host scheme : str) (now : Z) (p : Policy)
    : res (option PolicyDecision) * Policy :=
  let m := ascii_lower (method request) in
  if bool_decide (m = b!"trace") || bool_decide (m = b!"track") then
    (Ok (Some (decision 405 b!"Method is not allowed" [] 0)), p)
  else if max_policy_uri_length <? Z.of_nat (length (target request)) then
    (Ok (Some (decision 414 b!"Request target is too long" [] 0)), p)
  else
    match evaluate_acl (pre_rate_limit_acl_rules p) request client_ip host with
    | Throw e => (Throw e, p)
    | Ok (Some d) => (Ok (Some d), p)
    | Ok None =>
        let '(retry_after, limiter) := check client_ip now (rate_limiter p) in
        let p := with_limiter limiter p in
        match retry_after with
        | Some s => (Ok (Some (decision 429 b!"Rate limit exceeded" [] s)), p)
        | None =>
            match evaluate_acl (policy_acl_rules p) request client_ip host with
            | Throw e => (Throw e, p)
            | Ok (Some d) => (Ok (Some d), p)
            | Ok None => (Ok (evaluate_post_acl p request host scheme), p)
            end
        end
    end.

(** ** What the constructor establishes *)

(** A compiled rule that can decide a request has a usable status and, for a
    redirect, a usable destination. *)
Definition acl_rule_ok (rule : AclRuleSpec) : Prop :=
  match rule_action rule with
  | acl_allow => True
  | acl_redirect => valid_redirect_status (rule_status rule) = true /\
                    valid_redirect_destination (rule_redirect_location rule) = true
  | _ => rule_status rule ∈ [403; 404; 429]
  end.

Definition redirect_rule_ok (rule : RedirectRuleSpec) : Prop :=
  valid_redirect_status (red_status rule) = true /\
  valid_redirect_destination (destination rule) = true.

Record policy_wf (p : Policy) : Prop := {
  wf_pre : Forall (fun r => acl_rule_ok (cr_spec r)) (pre_rate_limit_acl_rules p);
  wf_acl : Forall (fun r => acl_rule_ok (cr_spec r)) (policy_acl_rules p);
  wf_redirects : Forall redirect_rule_ok (policy_redirects p);
  wf_hotlink : hotlink_redirect_location (hotlink (policy_spec p)) = [] \/
               valid_redirect_destination (hotlink_redirect_location (hotlink (policy_spec p))) = true
}.

Lemma check_acl_rule_ok rule u : check_acl_rule rule = Ok u -> acl_rule_ok rule.
Proof.
  unfold check_acl_rule, acl_rule_ok. case_match; [done|].
  destruct (rule_action rule); [done| | |]; case_match eqn:E; try done; intros _.
  2: by apply orb_false_iff in E as [?%negb_false_iff ?%negb_false_iff].
  all: destruct (Z.eqb_spec (rule_status rule) 403), (Z.eqb_spec (rule_status rule) 404),
         (Z.eqb_spec (rule_status rule) 429); try done; rewrite !elem_of_cons; auto.
Qed.

(** Invariants of a loop whose body may throw. *)
Lemma res_fold_inv {A B} (f : B -> A -> res A) (P : A -> Prop) l acc r :
  (forall x a a', x ∈ l -> P a -> f x a = Ok a' -> P a') -> P acc -> res_fold f l acc = Ok r -> P r.
Proof.
  revert acc. induction l as [|x l IH]; cbn; intros acc Hf Hacc; [by intros [= <-]|].
  destruct (f x acc) as [a|e] eqn:E; [|done]. apply IH.
  - intros y b b' Hy. apply Hf. set_solver.
  - eapply Hf; [|done|done]. set_solver.
Qed.

Lemma compile_acl_ok rules pre post :
  compile_acl rules = Ok (pre, post) ->
  Forall (fun r => acl_rule_ok (cr_spec r)) pre /\ Forall (fun r => acl_rule_ok (cr_spec r)) post.
Proof.
  unfold compile_acl. case_match; [done|]. intros Hf.
  apply (res_fold_inv _ (fun acc => Forall (fun r => acl_rule_ok (cr_spec r)) acc.1 /\
                                    Forall (fun r => acl_rule_ok (cr_spec r)) acc.2) _ _ _) in Hf; [done| |done].
  intros rule [a1 a2] acc' _ [Hp Ha] Hc. unfold compile_acl_rule in Hc.
  destruct (negb (rule_enabled rule)); [by injection Hc as <-|].
  destruct (check_acl_rule rule) as [u|] eqn:Ec; [|done]. apply check_acl_rule_ok in Ec.
  destruct (res_map compile_condition (rule_conditions rule)) as [cs|]; [|done].
  injection Hc as <-. case_match; cbn in *; split; try done; apply Forall_app; auto.
Qed.

Lemma compile_redirects_ok rules reds :
  compile_redirects rules = Ok reds -> Forall redirect_rule_ok reds.
Proof.
  unfold compile_redirects. case_match; [done|]. intros Hf.
  apply (res_fold_inv _ (Forall redirect_rule_ok) _ _ _) in Hf; [done| |done].
  intros rule acc acc' _ Hacc Hc. unfold compile_redirect in Hc.
  destruct (negb (red_enabled rule)); [by injection Hc as <-|]. case_match eqn:E; [done|].
  rewrite !orb_false_iff, !negb_false_iff in E. destruct E as [[_ Hs] Hd].
  repeat case_match; try done; injection Hc as <-; apply Forall_app; split; try done; by repeat constructor.
Qed.

Lemma RequestPolicy_wf spec domains p :
  RequestPolicy spec domains = Ok p -> policy_wf p /\ policy_spec p = spec.
Proof.
  unfold RequestPolicy. intros Hc. res_inv. repeat case_match; try done. res_inv.
  match goal with H : compile_acl _ = Ok ?a |- _ => destruct a as [pre post]; apply compile_acl_ok in H as [??] end.
  match goal with H : compile_redirects _ = Ok _ |- _ => apply compile_redirects_ok in H end.
  split; [|done]. constructor; try done. cbn.
  match goal with
  | H : negb _ && negb _ = false |- _ =>
      apply andb_false_iff in H as [H%negb_false_iff|H%negb_false_iff];
        [left; by apply bool_decide_eq_true in H|by right]
  end.
Qed.

(** ** Decisions *)

(** A well-formed decision: a documented status, a Location exactly when it is
    a redirect. *)
Definition decision_ok (d : PolicyDecision) : Prop :=
  (status d ∈ [301; 302; 307; 308] /\ location d <> []) \/
  (status d ∈ [403; 404; 405; 414; 429] /\ location d = []).

Lemma valid_destination_nonempty d : valid_redirect_destination d = true -> d <> [].
Proof. unfold valid_redirect_destination. by intros Hd ->. Qed.

Lemma valid_status_elem s : valid_redirect_status s = true -> s ∈ [301; 302; 307; 308].
Proof. unfold valid_redirect_status. rewrite !elem_of_cons, !orb_true_iff, !Z.eqb_eq. tauto. Qed.

Lemma checked_status_ok s c : 300 <= s <= 599 -> checked_status s c = Ok s.
Proof.
  intros Hs. unfold checked_status. by rewrite (proj2 (Z.ltb_ge _ _)), (proj2 (Z.ltb_ge _ _)) by lia.
Qed.

Lemma rule_decision_ok rule :
  acl_rule_ok (cr_spec rule) ->
  exists o, rule_decision rule = Ok o /\ forall d, o = Some d -> decision_ok d.
Proof.
  unfold acl_rule_ok, rule_decision. destruct (rule_action (cr_spec rule)) eqn:Ea.
  - intros _. exists None. done.
  - intros Hs. rewrite checked_status_ok by (rewrite !elem_of_cons in Hs; set_solver by lia).
    eexists. split; [done|]. intros d [= <-]. right. cbn. set_solver.
  - intros [Hs Hd]. pose proof (valid_status_elem _ Hs) as Hin.
    rewrite checked_status_ok by (rewrite !elem_of_cons in Hin; set_solver by lia).
    eexists. split; [done|]. intros d [= <-]. left. cbn. by apply valid_destination_nonempty in Hd.
  - intros Hs. rewrite checked_status_ok by (rewrite !elem_of_cons in Hs; set_solver by lia).
    eexists. split; [done|]. intros d [= <-]. right. cbn. set_solver.
Qed.

Lemma evaluate_acl_ok rules request ip host :
  Forall (fun r => acl_rule_ok (cr_spec r)) rules ->
  exists o, evaluate_acl rules request ip host = Ok o /\ forall d, o = Some d -> decision_ok d.
Proof.
  induction 1 as [|r rules Hr _ IH]; cbn; [by exists None|].
  case_match; [done|]. by apply rule_decision_ok.
Qed.

Lemma append_path_nonempty d path : d <> [] -> append_path d path <> [].
Proof. intros Hd. unfold append_path. destruct path; [done|]. by intros [_ ?]%app_eq_nil. Qed.

Lemma redirect_location_nonempty rule path query :
  destination rule <> [] -> redirect_location rule path query <> [].
Proof.
  intros Hd. unfold redirect_location. set (l := if preserve_path rule then _ else _).
  assert (Hl : l <> []) by (unfold l; case_match; [by apply append_path_nonempty|done]).
  case_match; [by intros [? _]%app_eq_nil|done].
Qed.

Lemma evaluate_redirects_ok rules path query host d :
  Forall redirect_rule_ok rules -> evaluate_redirects rules path query host = Some d -> decision_ok d.
Proof.
  induction 1 as [|r rules [Hs Hd] _ IH]; cbn; [done|]. case_match; [|done]. intros [= <-]. left. cbn.
  split; [by apply valid_status_elem|]. by apply redirect_location_nonempty, valid_destination_nonempty.
Qed.

Lemma evaluate_hotlink_ok p request d :
  policy_wf p -> evaluate_hotlink p request = Some d -> decision_ok d.
Proof.
  intros [_ _ _ Hh]. unfold evaluate_hotlink.
  assert (Hden : forall o, o = (if negb (bool_decide (hotlink_redirect_location (hotlink (policy_spec p)) = []))
      then Some (decision 302 [] (hotlink_redirect_location (hotlink (policy_spec p))) 0)
      else Some (decision 403 b!"Hotlink protection denied the request" [] 0)) ->
      o = Some d -> decision_ok d).
  { intros o ->. case_bool_decide as Hl; cbn [negb]; intros [= <-]; [right|left]; cbn; split; try set_solver.
  }
  repeat case_match; try done; by apply Hden.
Qed.

Lemma evaluate_post_acl_ok p request host scheme d :
  policy_wf p -> evaluate_post_acl p request host scheme = Some d -> decision_ok d.
Proof.
  intros Hwf. unfold evaluate_post_acl. case_match.
  - intros [= <-]. left. cbn. split; [set_solver|done].
  - destruct (split_target (target request)) as [path query].
    destruct (evaluate_redirects (policy_redirects p) path query host) as [r|] eqn:E.
    + intros [= <-]. eapply evaluate_redirects_ok; [apply Hwf|done].
    + by apply evaluate_hotlink_ok.
Qed.

Lemma evaluate_ok request ip host scheme now p :
  policy_wf p ->
  (exists o, (evaluate request ip host scheme now p).1 = Ok o /\ forall d, o = Some d -> decision_ok d) /\
  policy_wf (evaluate request ip host scheme now p).2.
Proof.
  intros Hwf. assert (Hwl : forall l, policy_wf (with_limiter l p)) by (by destruct Hwf).
  unfold evaluate. case_match; [|case_match].
  1,2: split; [|done]; eexists; split; [done|]; intros d [= <-]; right; cbn; split; [set_solver|done].
  destruct (evaluate_acl_ok _ request ip host (wf_pre p Hwf)) as (o & -> & Ho).
  destruct o as [d|]; [split; [by exists (Some d)|done]|].
  destruct (check ip now (rate_limiter p)) as [[s|] l].
  - split; [|apply Hwl]. eexists. split; [done|]. intros d [= <-]. right. cbn. split; [set_solver|done].
  - destruct (evaluate_acl_ok _ request ip host (wf_acl _ (Hwl l))) as (o' & Hev & Ho').
    rewrite Hev. destruct o' as [d|]; (split; [|apply Hwl]); [by exists (Some d)|].
    eexists. split; [done|]. intros d. by apply evaluate_post_acl_ok.
Qed.

(** ** IP deny rules *)

(** The rules that run before the rate limit: deny rules on the client address
    alone. *)
Definition ip_deny_rule (rule : AclRuleSpec) : Prop :=
  rule_enabled rule = true /\ rule_action rule = acl_deny /\
  Forall (fun c => cond_field c = field_ip /\
                   cond_operation c ∈ [op_equal; op_in_cidr; op_not_in_cidr]) (rule_conditions rule).

Lemma compile_condition_spec c cc : compile_condition c = Ok cc -> cc_spec cc = c.
Proof. unfold compile_condition. repeat case_match; try done; by intros [= <-]. Qed.

Lemma res_map_spec cs ccs :
  res_map compile_condition cs = Ok ccs -> cc_spec <$> ccs = cs.
Proof.
  revert ccs. induction cs as [|c cs IH]; cbn; intros ccs; [by intros [= <-]|].
  destruct (compile_condition c) as [cc|] eqn:Ec; [|done].
  destruct (res_map compile_condition cs) as [ys|]; [|done]. intros [= <-]. csimpl.
  f_equal; [by apply compile_condition_spec|by apply IH].
Qed.

Lemma ip_deny_compiled rule cs :
  ip_deny_rule rule -> res_map compile_condition (rule_conditions rule) = Ok cs ->
  is_pre_rate_limit_ip_deny {| cr_spec := rule; cr_conditions := cs |} = true.
Proof.
  intros (_ & Ha & HF) Hcs. apply res_map_spec in Hcs. unfold is_pre_rate_limit_ip_deny. cbn.
  rewrite bool_decide_true by done. cbn. apply forallb_forall. intros c Hc%list_elem_of_In.
  rewrite Forall_forall in HF. destruct (HF (cc_spec c)) as [Hf Ho].
  { rewrite <- Hcs. by apply list_elem_of_fmap_2. }
  rewrite bool_decide_true by done. cbn. rewrite !elem_of_cons in Ho.
  destruct Ho as [->|[->|[->|Ho]]]; [done..|set_solver].
Qed.

(** Only deny rules are moved before the rate limit, and all of them are. *)
Lemma compile_acl_pre rules pre post :
  compile_acl rules = Ok (pre, post) ->
  Forall (fun r => rule_action (cr_spec r) = acl_deny) pre /\
  (forall rule cs, rule ∈ rules -> ip_deny_rule rule ->
     res_map compile_condition (rule_conditions rule) = Ok cs ->
     {| cr_spec := rule; cr_conditions := cs |} ∈ pre).
Proof.
  unfold compile_acl. case_match; [done|]. intros Hf. split.
  - apply (res_fold_inv _ (fun acc => Forall (fun r => rule_action (cr_spec r) = acl_deny) acc.1)) in Hf;
      [done| |done].
    intros rule [a1 a2] acc' _ Hp Hc. unfold compile_acl_rule in Hc. repeat case_match; try done;
      injection Hc as <-; cbn in *; try done. apply Forall_app. split; [done|]. repeat constructor. cbn.
    unfold is_pre_rate_limit_ip_deny in *. cbn in *. case_bool_decide; done.
  - match goal with Hlen : (200 <? _)%nat = false |- _ => clear Hlen end.
    revert Hf. generalize (@nil CompiledAclRule, @nil CompiledAclRule) as acc.
    induction rules as [|r rules IH]; intros acc Hf rule cs Hin Hd Hcs; [set_solver|]. cbn in Hf.
    destruct (compile_acl_rule r acc) as [acc1|] eqn:Ec; [|done].
    apply elem_of_cons in Hin as [->|Hin]; [|by eapply IH].
    assert (H1 : {| cr_spec := r; cr_conditions := cs |} ∈ acc1.1).
    { unfold compile_acl_rule in Ec. destruct (Hd) as (Hen & _). rewrite Hen in Ec. cbn in Ec.
      destruct (check_acl_rule r); [|done]. rewrite Hcs in Ec.
      rewrite (ip_deny_compiled _ _ Hd Hcs) in Ec. injection Ec as <-. cbn. set_solver. }
    apply (res_fold_inv _ (fun acc => {| cr_spec := r; cr_conditions := cs |} ∈ acc.1)) in Hf; [done| |done].
    intros x a a' _ Ha Hc. unfold compile_acl_rule in Hc. repeat case_match; try done;
      injection Hc as <-; cbn in *; set_solver.
Qed.

(** ** Host patterns *)

(** The hosts a normalized pattern stands for: itself, or the proper subdomains
    of what follows the asterisk. *)
Definition covers (pattern host : str) : Prop :=
  if starts_with b!"*." pattern then exists l, host = l ++ b!"." ++ drop 2 pattern
  else pattern = host.

Lemma wildcard_host_matches_spec pattern host :
  wildcard_host_matches pattern host = true <-> covers pattern host.
Proof.
  unfold wildcard_host_matches, covers. destruct (starts_with b!"*." pattern); cbn [negb];
    [|by rewrite bool_decide_eq_true].
  set (d := drop 2 pattern). rewrite !andb_true_iff, Nat.ltb_lt, ends_with_spec, bool_decide_eq_true. split.
  - intros [[Hlen (t & ->)] Hdot]. rewrite length_app in *.
    replace (length t + length d - length d - 1)%nat with (pred (length t)) in Hdot by lia.
    rewrite lookup_app_l in Hdot by lia. rewrite <- last_lookup in Hdot.
    apply last_Some in Hdot as [l ->]. exists l. by rewrite <- app_assoc.
  - intros (l & ->). rewrite !length_app. cbn. split; [split; [lia|]|].
    + exists (l ++ b!"."). by rewrite <- app_assoc.
    + replace (length l + S (length d) - length d - 1)%nat with (length l) by lia.
      by rewrite list_lookup_middle.
Qed.

(** The set built by inserting the results of a loop that may throw. *)
Lemma res_fold_hosts hosts acc r pat :
  res_fold compile_host hosts acc = Ok r ->
  pat ∈ r <-> pat ∈ acc \/ exists h, h ∈ hosts /\ normalized_host_pattern h = Ok pat.
Proof.
  revert acc. induction hosts as [|h hosts IH]; cbn; intros acc; [intros [= <-]; set_solver|].
  unfold compile_host at 1. destruct (normalized_host_pattern h) as [q|] eqn:E; [|done].
  intros Hr. rewrite (IH _ Hr), elem_of_union, elem_of_singleton. split.
  - intros [[->|?]|(x & Hx & Hp)]; [right; exists h; set_solver|auto|right; exists x; set_solver].
  - intros [?|(x & [->|Hx]%elem_of_cons & Hp)]; [auto|left; left; congruence|right; eauto].
Qed.

Lemma RequestPolicy_hosts spec domains p pat :
  RequestPolicy spec domains = Ok p ->
  pat ∈ hotlink_hosts p <->
  exists h, h ∈ domains ++ allowed_hosts (hotlink spec) /\ normalized_host_pattern h = Ok pat.
Proof.
  unfold RequestPolicy. intros Hc. res_inv. repeat case_match; try done. res_inv. cbn.
  repeat match goal with Hh : res_fold compile_host _ _ = Ok _ |- _ =>
    pose proof (res_fold_hosts _ _ _ pat Hh); clear Hh end.
  setoid_rewrite elem_of_app. set_solver.
Qed.

Lemma existsb_covers (hosts : gset str) h :
  existsb (fun pattern => wildcard_host_matches pattern h) (elements hosts) = true <->
  exists pat, pat ∈ hosts /\ covers pat h.
Proof.
  rewrite existsb_exists. setoid_rewrite wildcard_host_matches_spec. split.
  - intros (x & Hx%list_elem_of_In & Hc). exists x. split; [by apply elem_of_elements|done].
  - intros (x & Hx & Hc). exists x. split; [by apply list_elem_of_In, elem_of_elements|done].
Qed.

(** ** Redirect locations *)

(** [tail] cannot extend the last component of what precedes it. *)
Definition delimited (tail : str) : Prop :=
  tail = [] \/ exists c t, tail = c :: t /\ c ∈ ["/"; "?"; "&"]%char.

Definition strip_slash (d : str) : str :=
  if bool_decide (last d = Some "/"%char) then take (length d - 1) d else d.

Lemma strip_slash_snoc d l :
  strip_slash (d ++ [l]) = if bool_decide (l = "/"%char) then d else d ++ [l].
Proof.
  unfold strip_slash. rewrite last_snoc. destruct (decide (l = "/"%char)) as [->|Hl].
  - rewrite !bool_decide_true by done. rewrite length_app. cbn. rewrite take_app_le by lia.
    by rewrite take_ge by lia.
  - rewrite !bool_decide_false by congruence. done.
Qed.

Lemma append_path_split d path :
  d <> [] -> exists tail, append_path d path = strip_slash d ++ tail /\
    (tail = [] \/ exists t, tail = "/"%char :: t).
Proof.
  intros Hd. destruct (last d) as [l|] eqn:El; [|by apply last_None in El].
  apply last_Some in El as [d1 ->]. rewrite strip_slash_snoc. unfold append_path.
  destruct path as [|first path].
  { case_bool_decide; subst; [by exists b!"/"; eauto|exists []; rewrite app_nil_r; auto]. }
  rewrite last_snoc. unfold is_char.
  destruct (decide (l = "/"%char)) as [->|Hl], (decide (first = "/"%char)) as [->|Hf];
    repeat rewrite bool_decide_true by done; repeat rewrite bool_decide_false by done; cbn [andb negb].
  - exists ("/"%char :: path). split; [|eauto]. f_equal. rewrite length_app. cbn.
    rewrite take_app_le by lia. by rewrite take_ge by lia.
  - exists ("/"%char :: first :: path). split; [by rewrite <- app_assoc|eauto].
  - exists ("/"%char :: path). split; [done|eauto].
  - exists ("/"%char :: first :: path). split; [by rewrite <- app_assoc|eauto].
Qed.

Lemma strip_slash_self d : d <> [] -> exists tail, d = strip_slash d ++ tail /\
  (tail = [] \/ exists t, tail = "/"%char :: t).
Proof. intros Hd. by apply (append_path_split d []) in Hd. Qed.

Lemma redirect_location_split rule path query :
  destination rule <> [] ->
  exists tail, redirect_location rule path query = strip_slash (destination rule) ++ tail /\
    delimited tail.
Proof.
  intros Hd. unfold redirect_location. set (loc := if preserve_path rule then _ else _).
  assert (Hl : exists tail, loc = strip_slash (destination rule) ++ tail /\
                            (tail = [] \/ exists t, tail = "/"%char :: t)).
  { unfold loc. case_match; [by apply append_path_split|by apply strip_slash_self]. }
  destruct Hl as (tail & Hloc & Ht). rewrite Hloc. case_match.
  - exists (tail ++ (if contains_char "?" (strip_slash (destination rule) ++ tail)
                     then b!"&" else b!"?") ++ query).
    split; [by rewrite <- app_assoc|]. right.
    destruct Ht as [->|[t ->]]; [case_match|]; cbn; do 2 eexists; (split; [reflexivity|set_solver]).
  - exists tail. split; [done|]. destruct Ht as [->|[t ->]]; [by left|right].
    do 2 eexists. split; [reflexivity|set_solver].
Qed.

Lemma evaluate_redirects_source rules path query host d :
  evaluate_redirects rules path query host = Some d ->
  exists rule, rule ∈ rules /\ redirect_matches rule path host = true /\
    d = decision (red_status rule) [] (redirect_location rule path query) 0.
Proof.
  induction rules as [|r rules IH]; cbn; [done|]. case_match.
  - intros [= <-]. exists r. split; [by left|done].
  - intros (rule & Hin & ?)%IH. exists rule. split; [by right|done].
Qed.

Lemma evaluate_acl_pre_deny rules request ip host rule :
  Forall (fun r => acl_rule_ok (cr_spec r)) rules ->
  Forall (fun r => rule_action (cr_spec r) = acl_deny) rules ->
  rule ∈ rules -> rule_matches request ip host rule = true ->
  exists s, evaluate_acl rules request ip host = Ok (Some (decision s b!"Request denied by ACL" [] 0)) /\
            s ∈ [403; 404; 429].
Proof.
  intros Hok Hden Hin Hm. induction rules as [|r rules IH]; [set_solver|].
  apply Forall_cons in Hok as [Hr Hok]. apply Forall_cons in Hden as [Hd Hden]. cbn.
  destruct (rule_matches request ip host r) eqn:E; cbn.
  - unfold rule_decision. unfold acl_rule_ok in Hr. rewrite Hd in *. exists (rule_status (cr_spec r)).
    split; [|done]. rewrite checked_status_ok by (rewrite !elem_of_cons in Hr; set_solver by lia).
    by rewrite bool_decide_true.
  - apply IH; [done|done|]. apply elem_of_cons in Hin as [->|?]; [congruence|done].
Qed.

(** ** Main theorems *)

Lemma RequestPolicy_rules spec domains p :
  RequestPolicy spec domains = Ok p ->
  compile_acl (acl_rules spec) = Ok (pre_rate_limit_acl_rules p, policy_acl_rules p).
Proof.
  unfold RequestPolicy. intros Hc. res_inv. repeat case_match; try done. res_inv.
  cbn. match goal with |- Ok ?a = Ok _ => by destruct a end.
Qed.

(** The states a policy goes through as it serves requests. *)
Inductive serves (spec : SitePolicySpec) (domains : list str) : Policy -> Prop :=
| serves_new p : RequestPolicy spec domains = Ok p -> serves spec domains p
| serves_next p request ip host scheme now :
    serves spec domains p -> serves spec domains (evaluate request ip host scheme now p).2.

Lemma serves_wf spec domains p : serves spec domains p -> policy_wf p.
Proof. induction 1 as [p Hp|p *]; [by apply RequestPolicy_wf in Hp as [? _]|by apply evaluate_ok]. Qed.

(** C12: A policy that was accepted never fails a request.  Whatever requests it
    has served, [evaluate] returns (the status checks inside it never throw),
    and a decision it takes has one of the documented statuses, with a
    Location exactly when it is a redirect. *)
Theorem accepted_policy_never_throws spec domains p request ip host scheme now :
  serves spec domains p ->
  exists o, (evaluate request ip host scheme now p).1 = Ok o /\
            forall d, o = Some d -> decision_ok d.
Proof. intros Hs%serves_wf. by apply evaluate_ok. Qed.

(** Serving a request changes the rate limiter only. *)
Lemma evaluate_limiter request ip host scheme now p : exists l, (evaluate request ip host scheme now p).2 = with_limiter l p.
Proof.
  assert (Hid : exists l, p = with_limiter l p) by (exists (rate_limiter p); by destruct p).
  unfold evaluate. cbv zeta. destruct (_ || _); [exact Hid|]. destruct (_ <? _); [exact Hid|].
  destruct (evaluate_acl (pre_rate_limit_acl_rules p) request ip host) as [[d|]|e]; [exact Hid| |exact Hid].
  destruct (check ip now (rate_limiter p)) as [retry l]. exists l. destruct retry; [done|].
  by destruct (evaluate_acl _ _ _ _) as [[d|]|e].
Qed.

Lemma serves_rules spec domains p : serves spec domains p ->
  exists p0, RequestPolicy spec domains = Ok p0 /\ pre_rate_limit_acl_rules p = pre_rate_limit_acl_rules p0.
Proof.
  induction 1 as [p Hp|p request ip host scheme now _ (p0 & Hp0 & E)]; [eauto|]. exists p0. split; [done|].
  destruct (evaluate_limiter request ip host scheme now p) as [l ->]. exact E.
Qed.

(** C14: IP deny rules come first.  If an enabled deny rule whose conditions are
    all address comparisons matches the client, the request is denied, wherever
    the rule stands in the list, whatever allow rules precede it and whatever state
    earlier requests left the rate limiter in (the client may be banned already), and
    it costs the client no rate-limit token: the policy state is unchanged.  Only the
    refusals of TRACE and TRACK and of overlong targets come before it. *)
Theorem ip_deny_rule_wins spec domains p request ip host scheme now rule cs :
  serves spec domains p ->
  rule ∈ acl_rules spec -> ip_deny_rule rule ->
  res_map compile_condition (rule_conditions rule) = Ok cs ->
  rule_matches request ip host {| cr_spec := rule; cr_conditions := cs |} = true ->
  ascii_lower (method request) ∉ [b!"trace"; b!"track"] ->
  Z.of_nat (length (target request)) <= max_policy_uri_length ->
  exists s, evaluate request ip host scheme now p =
              (Ok (Some (decision s b!"Request denied by ACL" [] 0)), p) /\ s ∈ [403; 404; 429].
Proof.
  intros Hserve Hin Hd Hcs Hm Hmeth Hlen. pose proof (serves_wf _ _ _ Hserve) as Hwf.
  destruct (serves_rules _ _ _ Hserve) as (p0 & Hp & Erules).
  destruct (compile_acl_pre _ _ _ (RequestPolicy_rules _ _ _ Hp)) as [Hden Hall]. rewrite <-Erules in Hden, Hall.
  destruct (evaluate_acl_pre_deny _ request ip host _ (wf_pre _ Hwf) Hden (Hall _ _ Hin Hd Hcs) Hm)
    as (s & Hev & Hs).
  exists s. split; [|done]. unfold evaluate. rewrite !not_elem_of_cons in Hmeth.
  rewrite !bool_decide_false by tauto. cbn [orb]. rewrite (proj2 (Z.ltb_ge _ _)) by lia.
  by rewrite Hev.
Qed.

(** Hotlink protection admits exactly the permitted referers.  For a target
    with a protected extension the hotlink check passes iff the referer is
    empty and empty referers are allowed, or it names an http(s) host that is
    covered by a site domain or an allowed host (subdomains for wildcards). *)
Theorem hotlink_admits_exactly spec domains p request :
  RequestPolicy spec domains = Ok p -> hotlink_enabled (hotlink spec) = true ->
  target_extension (target request) ∈ hotlink_extensions p ->
  evaluate_hotlink p request = None <->
  (referer request = [] /\ allow_empty_referer (hotlink spec) = true) \/
  (referer request <> [] /\ exists h name pattern,
     referer_host (referer request) = Some h /\
     name ∈ domains ++ allowed_hosts (hotlink spec) /\
     normalized_host_pattern name = Ok pattern /\ covers pattern h).
Proof.
  intros Hp Hen Hext. pose proof (RequestPolicy_wf _ _ _ Hp) as [_ Hspec].
  pose proof (fun pat => RequestPolicy_hosts _ _ _ pat Hp) as Hhosts.
  unfold evaluate_hotlink. rewrite Hspec, Hen. rewrite bool_decide_true by done. cbn [negb orb].
  assert (Hden : (if negb (bool_decide (hotlink_redirect_location (hotlink spec) = []))
                  then Some (decision 302 [] (hotlink_redirect_location (hotlink spec)) 0)
                  else Some (decision 403 b!"Hotlink protection denied the request" [] 0)) <> None)
    by (by case_match).
  revert Hden. generalize (if negb (bool_decide (hotlink_redirect_location (hotlink spec) = []))
                  then Some (decision 302 [] (hotlink_redirect_location (hotlink spec)) 0)
                  else Some (decision 403 b!"Hotlink protection denied the request" [] 0)).
  intros denied Hden. case_bool_decide as Hr.
  { destruct (allow_empty_referer (hotlink spec)); split; [auto|done|intros E; by destruct (Hden E)|].
    intros [[_ ?]|[? _]]; done. }
  destruct (referer_host (referer request)) as [h|].
  2:{ split; [intros E; by destruct (Hden E)|]. intros [[? _]|(_ & x & name & pat & ? & _)]; done. }
  destruct (existsb _ _) eqn:E.
  - apply existsb_covers in E as (pat & Hpat & Hc). apply Hhosts in Hpat as (name & ? & ?).
    split; [|done]. intros _. right. split; [done|]. by exists h, name, pat.
  - split; [intros E'; by destruct (Hden E')|]. intros [[? _]|(_ & x & name & pat & [= <-] & Hin & Hn & Hc)]; [done|].
    exfalso. apply not_true_iff_false in E. apply E. apply existsb_covers. exists pat.
    split; [apply Hhosts; eauto|done].
Qed.

(** A redirect cannot be steered off its destination's last component.  The
    Location of a redirect rule is the configured destination (without one
    trailing slash) followed by nothing or by text starting with a slash, a
    question mark or an ampersand; so for a destination that names a host the
    request cannot extend the host. *)
Theorem redirect_keeps_destination spec domains p path query host d :
  RequestPolicy spec domains = Ok p ->
  evaluate_redirects (policy_redirects p) path query host = Some d ->
  exists rule tail, rule ∈ policy_redirects p /\ redirect_matches rule path host = true /\
    status d = red_status rule /\
    location d = strip_slash (destination rule) ++ tail /\ delimited tail.
Proof.
  intros Hp (rule & Hin & Hm & ->)%evaluate_redirects_source.
  pose proof (RequestPolicy_wf _ _ _ Hp) as [[_ _ Hred _] _].
  rewrite Forall_forall in Hred. destruct (Hred _ Hin) as [_ Hd%valid_destination_nonempty].
  destruct (redirect_location_split rule path query Hd) as (tail & Hloc & Ht).
  exists rule, tail. by rewrite <- Hloc.
Qed.

(** A prefix rule that sends /old to the site root and keeps the path. *)
Definition root_redirect : RedirectRuleSpec :=
  {| red_name := b!"legacy"; red_enabled := true; source_host := []; source_path := b!"/old";
     red_match := redirect_prefix; destination := b!"/"; red_status := 301;
     preserve_path := true; preserve_query := true |}.

Definition root_redirect_spec : SitePolicySpec :=
  {| force_https := false; https_port := 443; acl_rules := []; rate_limit := default_rate_limit;
     hotlink := {| hotlink_enabled := false; protected_extensions := []; allowed_hosts := [];
                   allow_empty_referer := true; hotlink_redirect_location := [] |};
     redirects := [root_redirect] |}.

Definition get_request (t : str) : RequestView :=
  {| method := b!"GET"; target := t; user_agent := []; referer := []; header_value := None |}.

(** With the destination "/" the guarantee is empty: stripping the slash
    leaves nothing, and a preserved path that starts with two slashes becomes a
    scheme-relative Location, so an accepted same-site rule redirects to a host
    the client chooses. *)
Theorem root_redirect_leaves_site :
  exists p d, RequestPolicy root_redirect_spec [] = Ok p /\
    (evaluate (get_request b!"/old//evil.example/x") b!"192.0.2.1" b!"site.example" b!"https" 0 p).1
      = Ok (Some d) /\
    status d = 301 /\ location d = b!"//evil.example/x".
Proof. do 2 eexists. split; [by vm_compute|]. split; [by vm_compute|by vm_compute]. Qed.

End RequestPolicy.

(** ** Concrete policies *)

(** An address parser that knows one address, and a matcher for literals. *)
#[local] Instance sample_addresses : AddressText :=
  {| make_address s := if bool_decide (s = b!"192.0.2.1") then Some (V4 3221225985) else None;
     address_to_string _ := b!"192.0.2.1" |}.
#[local] Instance sample_regex : Regex :=
  {| re2_ok _ _ := true; re2_partial_match pattern _ text := contains_str pattern text |}.

Definition deny_rule : AclRuleSpec :=
  {| rule_name := b!"block"; rule_enabled := true;
     rule_conditions := [{| cond_field := field_ip; cond_operation := op_equal;
                            cond_value := b!"192.0.2.1"; cond_header_name := [];
                            cond_case_sensitive := false |}];
     rule_action := acl_deny; rule_status := 403; rule_redirect_location := [] |}.
Definition allow_rule : AclRuleSpec :=
  {| rule_name := b!"admit"; rule_enabled := true;
     rule_conditions := [{| cond_field := field_uri; cond_operation := op_starts_with;
                            cond_value := b!"/"; cond_header_name := [];
                            cond_case_sensitive := false |}];
     rule_action := acl_allow; rule_status := 403; rule_redirect_location := [] |}.

Definition sample_policy_spec : SitePolicySpec :=
  {| force_https := false; https_port := 443; acl_rules := [allow_rule; deny_rule];
     rate_limit := RateLimiter.sample_spec;
     hotlink := {| hotlink_enabled := true; protected_extensions := [b!".PNG"];
                   allowed_hosts := [b!"*.cdn.example"]; allow_empty_referer := false;
                   hotlink_redirect_location := [] |};
     redirects := [root_redirect] |}.

Definition sample_policy : Policy :=
  match RequestPolicy sample_policy_spec [b!"site.example"] with
  | Ok p => p
  | Throw _ =>
      {| policy_spec := sample_policy_spec; rate_limiter := sample_limiter;
         pre_rate_limit_acl_rules := []; policy_acl_rules := []; policy_redirects := [];
         hotlink_extensions := ∅; hotlink_hosts := ∅ |}
  end.

Lemma sample_policy_accepted : RequestPolicy sample_policy_spec [b!"site.example"] = Ok sample_policy.
Proof. by vm_compute. Qed.

Lemma accepted_policy_never_throws_witness :
  exists o, (evaluate (get_request b!"/a") b!"198.51.100.7" b!"site.example" b!"http" 5 sample_policy).1 = Ok o /\
            forall d, o = Some d -> decision_ok d.
Proof.
  exact (accepted_policy_never_throws sample_policy_spec [b!"site.example"] sample_policy
           (get_request b!"/a") b!"198.51.100.7" b!"site.example" b!"http" 5
           (serves_new _ _ _ sample_policy_accepted)).
Defined.

(** The limiter has seen other requests. *)
Definition busy_policy : Policy :=
  (evaluate (get_request b!"/a") b!"198.51.100.7" b!"site.example" b!"http" 5 sample_policy).2.

Lemma ip_deny_rule_wins_witness :
  (exists limited, rate_limiter busy_policy = limited /\ limited <> rate_limiter sample_policy) /\
  exists s, evaluate (get_request b!"/a") b!"192.0.2.1" b!"site.example" b!"http" 5 busy_policy =
              (Ok (Some (decision s b!"Request denied by ACL" [] 0)), busy_policy) /\ s ∈ [403; 404; 429].
Proof.
  split; [eexists; split; [reflexivity|]; intros E; apply (f_equal lru) in E; vm_compute in E; discriminate E|].
  apply (ip_deny_rule_wins sample_policy_spec [b!"site.example"] busy_policy (get_request b!"/a")
           b!"192.0.2.1" b!"site.example" b!"http" 5 deny_rule
           [{| cc_spec := {| cond_field := field_ip; cond_operation := op_equal;
                             cond_value := b!"192.0.2.1"; cond_header_name := [];
                             cond_case_sensitive := false |}; cc_cidr := None |}]).
  - apply serves_next, serves_new. exact sample_policy_accepted.
  - right. by left.
  - split; [done|]. split; [done|]. repeat constructor.
  - by vm_compute.
  - by vm_compute.
  - intros Hin. rewrite !elem_of_cons in Hin. destruct Hin as [E|[E|E]]; [discriminate E|discriminate E|by apply elem_of_nil in E].
  - vm_compute. discriminate.
Defined.

Definition image_request (r : str) : RequestView :=
  {| method := b!"GET"; target := b!"/img/a.png?v=1"; user_agent := []; referer := r;
     header_value := None |}.

Lemma hotlink_admits_exactly_witness :
  evaluate_hotlink sample_policy (image_request b!"https://a.cdn.example/page") = None <->
  (b!"https://a.cdn.example/page" = [] /\ allow_empty_referer (hotlink sample_policy_spec) = true) \/
  (b!"https://a.cdn.example/page" <> [] /\ exists h name pattern,
     referer_host b!"https://a.cdn.example/page" = Some h /\
     name ∈ [b!"site.example"] ++ allowed_hosts (hotlink sample_policy_spec) /\
     normalized_host_pattern name = Ok pattern /\ covers pattern h).
Proof.
  apply (hotlink_admits_exactly sample_policy_spec [b!"site.example"] sample_policy
           (image_request b!"https://a.cdn.example/page")).
  - exact sample_policy_accepted.
  - reflexivity.
  - apply (bool_decide_eq_true_1 (target_extension b!"/img/a.png?v=1" ∈ hotlink_extensions sample_policy)).
    by vm_compute.
Defined.

Example hotlink_examples :
  evaluate_hotlink sample_policy (image_request b!"https://a.cdn.example/page") = None /\
  evaluate_hotlink sample_policy (image_request b!"https://cdn.example/page") <> None.
Proof. by vm_compute. Qed.

Lemma redirect_keeps_destination_witness :
  exists d rule tail,
    evaluate_redirects (policy_redirects sample_policy) b!"/old/a" b!"q=1" b!"site.example" = Some d /\
    rule ∈ policy_redirects sample_policy /\
    redirect_matches rule b!"/old/a" b!"site.example" = true /\
    status d = red_status rule /\
    location d = strip_slash (destination rule) ++ tail /\ delimited tail.
Proof.
  exists (decision 301 [] b!"/a?q=1" 0).
  destruct (redirect_keeps_destination sample_policy_spec [b!"site.example"] sample_policy
              b!"/old/a" b!"q=1" b!"site.example" (decision 301 [] b!"/a?q=1" 0)
              sample_policy_accepted ltac:(by vm_compute)) as (rule & tail & Hr).
  exists rule, tail. split; [by vm_compute|exact Hr].
Defined.
