(* ===== verification/VirtualHostRouter.v ===== *)
(** * Virtual host router (src/src/routing/VirtualHostRouter.{hpp,cpp})

    The constructor validates the sites of one listener, builds their policies
    and authenticators and the table of exact and wildcard domains; [find] maps
    a normalized host to a site.  The shared [VirtualHost] objects are numbered
    in the order of the configuration, so that the identity of the object a
    lookup returns can be stated. *)

From stdpp Require Import sorting.
From S2P Require Import Prelude IpAddress HostNormalizer RateLimiter RequestPolicy UrlAuthenticator.

Inductive BackendProtocol := backend_http | backend_https.
#[export] Instance BackendProtocol_eq_dec : EqDecision BackendProtocol.
Proof. solve_decision. Defined.

Record BackendConfig := {
  be_address : str;
  be_port : Z;
  be_protocol : BackendProtocol;
  be_host : str;
  be_tls_sni : str;
  be_tls_verify_certificate : bool;
  be_connect_timeout_seconds : Z;
  be_response_timeout_seconds : Z;
  be_keep_alive : bool
}.

Record BackendOverloadConfig := {
  ov_site_id : Z;
  ov_site_name : str;
  ov_maximum_active_connections : Z;
  ov_maximum_queue : Z;
  ov_queue_timeout_seconds : Z
}.

Record VirtualHostConfig := {
  vc_name : str;
  vc_domains : list str;
  vc_backend : BackendConfig;
  vc_policy : SitePolicySpec;
  vc_overload : BackendOverloadConfig;
  vc_url_auth : UrlAuthSpec
}.

Record VirtualHost := {
  vh_name : str;
  vh_backend : BackendConfig;
  vh_request_policy : Policy;
  vh_overload : BackendOverloadConfig;
  vh_url_authenticator : UrlAuthSpec
}.

(** The router under construction: hosts so far, the two tables and the set of
    wildcard suffixes. *)
Record Router := {
  hosts : list VirtualHost;
  exact_hosts : gmap str nat;
  wildcard_hosts : list (str * nat);
  wildcard_suffixes : gset str
}.

Definition empty_router : Router :=
  {| hosts := []; exact_hosts := ∅; wildcard_hosts := []; wildcard_suffixes := ∅ |}.

Local Notation "'throwing' e" := (Throw (invalid_argument e)) (at level 10).

Section VirtualHostRouter.
Context `{AddressText} `{Regex}.

Definition timeout_out_of_range (t : Z) : bool := (t =? 0) || (86400 <? t).

(** The checks at the head of the constructor's loop, in order. *)
Definition check_config (config : VirtualHostConfig) : res unit :=
  let backend := vc_backend config in
  let overload := vc_overload config in
  if bool_decide (vc_name config = []) then throwing b!"virtual host name cannot be empty"
  else if bool_decide (vc_domains config = []) then
    throwing b!"virtual host must bind at least one domain"
  else if be_port backend =? 0 then throwing b!"backend port cannot be zero"
  else if timeout_out_of_range (be_connect_timeout_seconds backend) ||
          timeout_out_of_range (be_response_timeout_seconds backend) then
    throwing b!"backend timeouts must be between 1 and 86400 seconds"
  else if (ov_maximum_active_connections overload =? 0) ||
          (100000 <? ov_maximum_active_connections overload) then
    throwing b!"backend maximum active connections must be between 1 and 100000"
  else if 1000000 <? ov_maximum_queue overload then
    throwing b!"backend maximum queue cannot exceed 1000000"
  else if timeout_out_of_range (ov_queue_timeout_seconds overload) then
    throwing b!"backend queue timeout must be between 1 and 86400 seconds"
  else if bool_decide (make_address (be_address backend) = None) &&
          bool_decide (normalize_domain (be_address backend) = None) then
    throwing (b!"invalid backend address: " ++ be_address backend)
  else if negb (bool_decide (be_host backend = [])) &&
          bool_decide (normalize_authority (be_host backend) = None) then
    throwing (b!"invalid backend Host: " ++ be_host backend)
  else if negb (bool_decide (be_tls_sni backend = [])) &&
          bool_decide (normalize_domain (be_tls_sni backend) = None) then
    throwing (b!"invalid backend TLS SNI: " ++ be_tls_sni backend)
  else if bool_decide (be_protocol backend = backend_http) &&
          negb (bool_decide (be_tls_sni backend = [])) then
    throwing b!"backend TLS SNI requires HTTPS protocol"
  else Ok tt.

(** A domain pattern: wildcard flag and normalized domain. *)
Definition parse_pattern (domain_pattern : str) : option (bool * str) :=
  let wildcard := starts_with b!"*." domain_pattern in
  (fun domain => (wildcard, domain)) <$>
    normalize_domain (if wildcard then drop 2 domain_pattern else domain_pattern).

Definition add_domain (index : nat) (domain_pattern : str) (r : Router) : res Router :=
  match parse_pattern domain_pattern with
  | None => throwing (b!"invalid virtual host domain: " ++ domain_pattern)
  | Some (true, domain) =>
      if negb (contains_char "." domain) then
        throwing (b!"wildcard domain is too broad: " ++ domain_pattern)
      else if bool_decide (domain ∈ wildcard_suffixes r) then
        throwing (b!"duplicate virtual host domain: " ++ domain_pattern)
      else Ok {| hosts := hosts r; exact_hosts := exact_hosts r;
                 wildcard_hosts := wildcard_hosts r ++ [(domain, index)];
                 wildcard_suffixes := {[domain]} ∪ wildcard_suffixes r |}
  | Some (false, domain) =>
      match exact_hosts r !! domain with
      | Some _ => throwing (b!"duplicate virtual host domain: " ++ domain_pattern)
      | None => Ok {| hosts := hosts r; exact_hosts := <[domain := index]> (exact_hosts r);
                      wildcard_hosts := wildcard_hosts r; wildcard_suffixes := wildcard_suffixes r |}
      end
  end.

Definition add_host (host : VirtualHost) (r : Router) : Router :=
  {| hosts := hosts r ++ [host]; exact_hosts := exact_hosts r;
     wildcard_hosts := wildcard_hosts r; wildcard_suffixes := wildcard_suffixes r |}.

(** One iteration of the constructor's loop. *)
Definition add_config (config : VirtualHostConfig) (r : Router) : res Router :=
  match check_config config with
  | Throw e => Throw e
  | Ok _ =>
      match RequestPolicy (vc_policy config) (vc_domains config) with
      | Throw e => Throw e
      | Ok request_policy =>
          match UrlAuthenticator (vc_url_auth config) with
          | Throw e => Throw e
          | Ok url_authenticator =>
              let host := {| vh_name := vc_name config; vh_backend := vc_backend config;
                             vh_request_policy := request_policy; vh_overload := vc_overload config;
                             vh_url_authenticator := url_authenticator |} in
              res_fold (add_domain (length (hosts r))) (vc_domains config) (add_host host r)
          end
      end
  end.

(** The comparator of [std::sort], longest suffix first. *)
Definition longer (left right : str * nat) : Prop := (length right.1 <= length left.1)%nat.
#[local] Instance longer_dec : RelDecision longer.
Proof. intros x y. unfold longer. apply _. Defined.

Definition VirtualHostRouter (configs : list VirtualHostConfig) : res Router :=
  match res_fold add_config configs empty_router with
  | Throw e => Throw e
  | Ok r => Ok {| hosts := hosts r; exact_hosts := exact_hosts r;
                  wildcard_hosts := merge_sort longer (wildcard_hosts r);
                  wildcard_suffixes := wildcard_suffixes r |}
  end.

Definition suffix_matches (suffix normalized_host : str) : bool :=
  (length suffix <? length normalized_host)%nat && ends_with suffix normalized_host &&
  bool_decide (normalized_host !! (length normalized_host - length suffix - 1)%nat = Some "."%char).

Fixpoint find_wildcard (table : list (str * nat)) (normalized_host : str) : option nat :=
  match table with
  | [] => None
  | (suffix, host) :: table' =>
      if suffix_matches suffix normalized_host then Some host
      else find_wildcard table' normalized_host
  end.

Definition find (r : Router) (normalized_host : str) : option nat :=
  match exact_hosts r !! normalized_host with
  | Some host => Some host
  | None => find_wildcard (wildcard_hosts r) normalized_host
  end.

Definition exact_host_count (r : Router) : nat := size (exact_hosts r).
Definition wildcard_host_count (r : Router) : nat := length (wildcard_hosts r).

(** ** What the configuration says *)

(** Site [i] binds the domain [d] (as a wildcard suffix when [w]). *)
Definition binds (configs : list VirtualHostConfig) (w : bool) (d : str) (i : nat) : Prop :=
  exists c pattern, configs !! i = Some c /\ pattern ∈ vc_domains c /\ parse_pattern pattern = Some (w, d).

(** The tables hold exactly the bindings [B]. *)
Record tables (r : Router) (B : bool -> str -> nat -> Prop) : Prop := {
  tab_exact : forall d i, exact_hosts r !! d = Some i <-> B false d i;
  tab_wild : forall d i, (d, i) ∈ wildcard_hosts r <-> B true d i;
  tab_suffixes : forall d, d ∈ wildcard_suffixes r <-> d ∈ (wildcard_hosts r).*1;
  tab_nodup : NoDup (wildcard_hosts r).*1
}.

Lemma tables_ext r B B' : (forall w d i, B w d i <-> B' w d i) -> tables r B -> tables r B'.
Proof.
  intros HB [He Hw Hs Hn]. constructor; [intros; by rewrite <- HB|intros; by rewrite <- HB|done|done].
Qed.

Lemma add_domain_tables index pattern r r' B :
  tables r B -> add_domain index pattern r = Ok r' ->
  tables r' (fun w d i => B w d i \/ (parse_pattern pattern = Some (w, d) /\ i = index)) /\
  hosts r' = hosts r.
Proof.
  intros [He Hw Hs Hn]. unfold add_domain. destruct (parse_pattern pattern) as [[[|] dom]|]; [| |done].
  - destruct (negb (contains_char "." dom)); [done|]. case_bool_decide as Hdup; [done|].
    intros [= <-]. rewrite Hs in Hdup. split; [|done]. constructor; cbn.
    + intros d i. rewrite He. naive_solver.
    + intros d i. rewrite elem_of_app, Hw, list_elem_of_singleton. naive_solver.
    + intros d. rewrite fmap_app. cbn. set_solver.
    + rewrite fmap_app. cbn. apply NoDup_app. split_and!; [done|set_solver|apply NoDup_singleton].
  - destruct (exact_hosts r !! dom) as [j|] eqn:Ed; [done|]. intros [= <-]. split; [|done].
    constructor; cbn; [|intros d i; rewrite Hw; naive_solver|done|done].
    intros d i. destruct (decide (d = dom)) as [->|Hne].
    + rewrite lookup_insert_eq. rewrite <- He, Ed. naive_solver.
    + rewrite lookup_insert_ne by done. rewrite He. naive_solver.
Qed.

Lemma add_domains_tables index patterns r r' B :
  tables r B -> res_fold (add_domain index) patterns r = Ok r' ->
  tables r' (fun w d i => B w d i \/
    (exists pattern, pattern ∈ patterns /\ parse_pattern pattern = Some (w, d)) /\ i = index) /\
  hosts r' = hosts r.
Proof.
  revert r B. induction patterns as [|p ps IH]; intros r B HB; cbn.
  - intros [= <-]. split; [|done]. eapply tables_ext; [|done]. intros. split; [auto|].
    intros [?|[(? & ?%elem_of_nil & _) _]]; done.
  - destruct (add_domain index p r) as [r1|] eqn:E; [|done]. intros Hf.
    destruct (add_domain_tables _ _ _ _ _ HB E) as [H1 Hh1]. destruct (IH _ _ H1 Hf) as [H2 Hh2].
    split; [|congruence]. eapply tables_ext; [|exact H2]. intros w d i. cbn.
    setoid_rewrite elem_of_cons. naive_solver.
Qed.
Lemma binds_snoc configs c w d i :
  binds (configs ++ [c]) w d i <->
  binds configs w d i \/
  (exists pattern, pattern ∈ vc_domains c /\ parse_pattern pattern = Some (w, d)) /\ i = length configs.
Proof.
  unfold binds. setoid_rewrite lookup_snoc_Some. split.
  - intros (x & p & [[Hlt Hi]|[-> ->]] & Hp & Hpp); [left; eauto 6|right; eauto].
  - intros [(x & p & Hi & Hp & Hpp)|[(p & Hp & Hpp) ->]].
    + exists x, p. split; [left; split; [by eapply lookup_lt_Some|done]|done].
    + exists c, p. auto.
Qed.

(** A built host comes from its configuration. *)
Definition built (c : VirtualHostConfig) (h : VirtualHost) : Prop :=
  vh_name h = vc_name c /\ vh_backend h = vc_backend c /\ vh_overload h = vc_overload c /\
  RequestPolicy (vc_policy c) (vc_domains c) = Ok (vh_request_policy h) /\
  UrlAuthenticator (vc_url_auth c) = Ok (vh_url_authenticator h).

Lemma add_config_tables c r r' configs :
  tables r (binds configs) -> Forall2 built configs (hosts r) -> add_config c r = Ok r' ->
  tables r' (binds (configs ++ [c])) /\ Forall2 built (configs ++ [c]) (hosts r').
Proof.
  intros HB Hh. unfold add_config. destruct (check_config c); [|done].
  destruct (RequestPolicy (vc_policy c) (vc_domains c)) as [pol|] eqn:Ep; [|done].
  destruct (UrlAuthenticator (vc_url_auth c)) as [ua|] eqn:Eu; [|done]. intros Hf.
  apply Forall2_length in Hh as Hlen.
  set (h := {| vh_name := vc_name c; vh_backend := vc_backend c; vh_request_policy := pol;
               vh_overload := vc_overload c; vh_url_authenticator := ua |}) in Hf.
  assert (HB' : tables (add_host h r) (binds configs)) by (by destruct HB).
  destruct (add_domains_tables _ _ _ _ _ HB' Hf) as [H1 H2]. split.
  - eapply tables_ext; [|exact H1]. intros w d i. rewrite binds_snoc. by rewrite Hlen.
  - rewrite H2. cbn. apply Forall2_app; [done|]. constructor; [|constructor]. done.
Qed.

Lemma add_configs_tables configs configs' r r' :
  tables r (binds configs) -> Forall2 built configs (hosts r) ->
  res_fold add_config configs' r = Ok r' ->
  tables r' (binds (configs ++ configs')) /\ Forall2 built (configs ++ configs') (hosts r').
Proof.
  revert configs r. induction configs' as [|c cs IH]; intros configs r HB Hh; cbn.
  - intros [= <-]. by rewrite app_nil_r.
  - destruct (add_config c r) as [r1|] eqn:E; [|done]. intros Hf.
    destruct (add_config_tables _ _ _ _ HB Hh E) as [HB1 Hh1].
    destruct (IH _ _ HB1 Hh1 Hf) as [HB2 Hh2]. by rewrite <- app_assoc in HB2, Hh2.
Qed.

#[local] Instance longer_trans : Transitive longer.
Proof. intros x y z. unfold longer. lia. Qed.
#[local] Instance longer_total : Total longer.
Proof. intros x y. unfold longer. lia. Qed.

Lemma VirtualHostRouter_tables configs r :
  VirtualHostRouter configs = Ok r ->
  tables r (binds configs) /\ Forall2 built configs (hosts r) /\
  StronglySorted longer (wildcard_hosts r).
Proof.
  unfold VirtualHostRouter. destruct (res_fold add_config configs empty_router) as [r0|] eqn:E; [|done].
  intros [= <-]. assert (Hinit : tables empty_router (binds [])).
  { constructor; cbn; [|intros; split; [set_solver|by intros (? & ? & ? & _)]|set_solver|constructor].
    intros d i. rewrite lookup_empty. split; [done|]. by intros (? & ? & ? & _). }
  destruct (add_configs_tables [] configs _ _ Hinit ltac:(constructor) E) as [[He Hw Hs Hn] Hh].
  pose proof (merge_sort_Permutation longer (wildcard_hosts r0)) as Hperm. split_and!; [|done|].
  - constructor; cbn; [done|intros; by rewrite Hperm|intros; by rewrite Hperm|by rewrite Hperm].
  - cbn. apply StronglySorted_merge_sort; apply _.
Qed.

(** ** Lookup *)

(** [d] is a proper dotted suffix of [host]. *)
Definition subdomain (host d : str) : Prop := exists l, host = l ++ b!"." ++ d.

Lemma suffix_matches_spec d host : suffix_matches d host = true <-> subdomain host d.
Proof. apply (wildcard_host_matches_spec (b!"*." ++ d) host). Qed.

Lemma subdomain_unique host d d' :
  subdomain host d -> subdomain host d' -> length d = length d' -> d = d'.
Proof.
  intros [l ->] [l' E] Hlen. rewrite !app_assoc in E. by apply app_inj_2 in E as [_ ?].
Qed.

(** The first match of a table sorted by length is a longest match. *)
Lemma find_wildcard_spec table host :
  StronglySorted longer table ->
  match find_wildcard table host with
  | Some i => exists d, (d, i) ∈ table /\ subdomain host d /\
      forall d' j, (d', j) ∈ table -> subdomain host d' -> (length d' <= length d)%nat
  | None => forall d i, (d, i) ∈ table -> ~ subdomain host d
  end.
Proof.
  induction 1 as [|[d i] table Hs IH HF]; cbn; [set_solver|].
  destruct (suffix_matches d host) eqn:E.
  - apply suffix_matches_spec in E. exists d. split; [by left|]. split; [done|].
    intros d' j [[= -> ->]|Hin]%elem_of_cons Hd'; [done|].
    rewrite Forall_forall in HF. apply (HF _ Hin).
  - assert (Hd : ~ subdomain host d) by (intros Hd%suffix_matches_spec; congruence).
    destruct (find_wildcard table host) as [k|].
    + destruct IH as (d0 & Hin & Hsub & Hmax). exists d0. split; [by right|]. split; [done|].
      intros d' j [[= -> ->]|Hin']%elem_of_cons Hd'; [done|by eapply Hmax].
    + intros d' j [[= -> ->]|Hin']%elem_of_cons; [done|by eapply IH].
Qed.

Lemma nodup_fst_inj (table : list (str * nat)) d i j :
  NoDup table.*1 -> (d, i) ∈ table -> (d, j) ∈ table -> i = j.
Proof.
  induction table as [|[x k] table IH]; cbn; intros Hn Hi Hj; [set_solver|].
  apply NoDup_cons in Hn as [Hx Hn].
  assert (Hno : forall m, (x, m) ∈ table -> False).
  { intros m Hm. apply Hx. apply list_elem_of_fmap. by exists (x, m). }
  apply elem_of_cons in Hi as [Hi|Hi], Hj as [Hj|Hj]; [congruence| | |by apply IH].
  - injection Hi as -> ->. by apply Hno in Hj.
  - injection Hj as -> ->. by apply Hno in Hi.
Qed.

(** The site the configuration assigns to a host. *)
Definition routed (configs : list VirtualHostConfig) (host : str) (o : option nat) : Prop :=
  match o with
  | Some i =>
      binds configs false host i \/
      ((forall j, ~ binds configs false host j) /\
       exists d, binds configs true d i /\ subdomain host d /\
         forall d' j, binds configs true d' j -> subdomain host d' -> (length d' <= length d)%nat)
  | None =>
      (forall j, ~ binds configs false host j) /\
      (forall d j, binds configs true d j -> ~ subdomain host d)
  end.

Lemma routed_unique configs r host o o' :
  tables r (binds configs) -> routed configs host o -> routed configs host o' -> o = o'.
Proof.
  intros [He Hw _ Hn] Ho Ho'.
  assert (Hex : forall i j, binds configs false host i -> binds configs false host j -> i = j).
  { intros i j Hi%He Hj%He. congruence. }
  destruct o as [i|], o' as [j|]; cbn in *; [| | |done].
  - f_equal. destruct Ho as [Hi|[Hni (d & Hd & Hs & Hmax)]], Ho' as [Hj|[Hnj (d' & Hd' & Hs' & Hmax')]].
    + by apply Hex.
    + by destruct (Hnj i).
    + by destruct (Hni j).
    + assert (d = d') as <-.
      { eapply subdomain_unique; [exact Hs|exact Hs'|].
        specialize (Hmax _ _ Hd' Hs'). specialize (Hmax' _ _ Hd Hs). lia. }
      apply Hw in Hd, Hd'. by eapply nodup_fst_inj.
  - destruct Ho' as [Hne Hnw], Ho as [Hi|[_ (d & Hd & Hs & _)]]; [by destruct (Hne i)|by destruct (Hnw d i)].
  - destruct Ho as [Hne Hnw], Ho' as [Hi|[_ (d & Hd & Hs & _)]]; [by destruct (Hne j)|by destruct (Hnw d j)].
Qed.

Lemma lookup_routed configs r table host :
  tables r (binds configs) -> table ≡ₚ wildcard_hosts r -> StronglySorted longer table ->
  routed configs host
    (match exact_hosts r !! host with Some i => Some i | None => find_wildcard table host end).
Proof.
  intros [He Hw _ _] Hperm Hsort. destruct (exact_hosts r !! host) as [i|] eqn:E; [left; by apply He|].
  assert (Hne : forall j, ~ binds configs false host j) by (intros j Hj%He; congruence).
  pose proof (find_wildcard_spec table host Hsort) as Hf.
  destruct (find_wildcard table host) as [i|]; cbn.
  - right. split; [done|]. destruct Hf as (d & Hin & Hs & Hmax). exists d. setoid_rewrite <- Hw.
    rewrite <- Hperm. split; [done|]. split; [done|]. intros d' j Hin'. rewrite <- Hperm in Hin'. by eapply Hmax.
  - split; [done|]. intros d j Hd%Hw. rewrite <- Hperm in Hd. by eapply Hf.
Qed.

(** ** Main theorems *)

(** C33: Routing is exact-first, longest-wildcard.  For an accepted
    configuration a host is routed to site [i] iff the site binds exactly that
    domain, or no site does and it binds the longest wildcard suffix under which
    the host falls; hosts no site covers are not routed.  The answer does not
    depend on how the sort orders suffixes of equal length. *)
Theorem router_finds_longest_match configs r host :
  VirtualHostRouter configs = Ok r ->
  (forall o, find r host = o <-> routed configs host o) /\
  (forall table, table ≡ₚ wildcard_hosts r -> StronglySorted longer table ->
     find_wildcard table host = find_wildcard (wildcard_hosts r) host \/ is_Some (exact_hosts r !! host)).
Proof.
  intros (HB & _ & Hsort)%VirtualHostRouter_tables.
  pose proof (lookup_routed configs r _ host HB (reflexivity _) Hsort) as Hr. split.
  - intros o. split; [by intros <-|]. intros Ho. by eapply routed_unique.
  - intros table Hperm Hst. destruct (exact_hosts r !! host) as [i|] eqn:E; [eauto|]. left.
    pose proof (lookup_routed configs r table host HB Hperm Hst) as Ht. rewrite E in Ht.
    by eapply routed_unique.
Qed.

(** No domain is claimed twice.  In an accepted configuration a normalized
    domain (exact or wildcard) is bound by at most one site, every site of the
    configuration has its own host object, built from its own settings, and a
    lookup always returns one of these objects. *)
Theorem router_domains_unique configs r :
  VirtualHostRouter configs = Ok r ->
  (forall w d i j, binds configs w d i -> binds configs w d j -> i = j) /\
  Forall2 built configs (hosts r) /\
  (forall host i, find r host = Some i -> is_Some (hosts r !! i)).
Proof.
  intros Hr. destruct (VirtualHostRouter_tables _ _ Hr) as (HB & Hh & Hsort).
  pose proof HB as [He Hw _ Hn]. split_and!; [|done|].
  - intros [] d i j Hi Hj; [apply Hw in Hi, Hj; by eapply nodup_fst_inj|apply He in Hi, Hj; congruence].
  - intros host i Hi. pose proof (lookup_routed configs r _ host HB (reflexivity _) Hsort) as Hrt.
    unfold find in Hi. rewrite Hi in Hrt. apply lookup_lt_is_Some.
    rewrite <- (Forall2_length _ _ _ Hh). apply lookup_lt_is_Some.
    destruct Hrt as [(c & p & ? & _)|[_ (d & (c & p & ? & _) & _)]]; eauto.
Qed.

End VirtualHostRouter.

(** ** Defaults and a concrete configuration *)

Definition default_site_policy : SitePolicySpec :=
  {| force_https := false; https_port := 443; acl_rules := []; rate_limit := default_rate_limit;
     hotlink := {| hotlink_enabled := false; protected_extensions := []; allowed_hosts := [];
                   allow_empty_referer := true; hotlink_redirect_location := [] |};
     redirects := [] |}.

Definition plain_backend (address : str) (port : Z) : BackendConfig :=
  {| be_address := address; be_port := port; be_protocol := backend_http; be_host := [];
     be_tls_sni := []; be_tls_verify_certificate := true; be_connect_timeout_seconds := 5;
     be_response_timeout_seconds := 60; be_keep_alive := true |}.

Definition default_overload : BackendOverloadConfig :=
  {| ov_site_id := 0; ov_site_name := []; ov_maximum_active_connections := 200;
     ov_maximum_queue := 1000; ov_queue_timeout_seconds := 5 |}.

Definition default_virtual_hosts : list VirtualHostConfig :=
  [{| vc_name := b!"example.com"; vc_domains := [b!"example.com"; b!"www.example.com"];
      vc_backend := plain_backend b!"127.0.0.1" 8090; vc_policy := default_site_policy;
      vc_overload := default_overload; vc_url_auth := default_url_auth |}].

#[local] Instance loopback_only : AddressText :=
  {| make_address s := if bool_decide (s = b!"127.0.0.1") then Some (V4 2130706433) else None;
     address_to_string _ := b!"127.0.0.1" |}.
#[local] Instance no_regex : Regex :=
  {| re2_ok _ _ := true; re2_partial_match pattern _ text := contains_str pattern text |}.

Definition wildcard_site (name : str) (pattern : str) : VirtualHostConfig :=
  {| vc_name := name; vc_domains := [pattern]; vc_backend := plain_backend b!"127.0.0.1" 8091;
     vc_policy := default_site_policy; vc_overload := default_overload; vc_url_auth := default_url_auth |}.

Definition sample_configs : list VirtualHostConfig :=
  default_virtual_hosts ++ [wildcard_site b!"w" b!"*.Example.COM"; wildcard_site b!"v" b!"*.a.example.com"].

Definition sample_router : Router :=
  match VirtualHostRouter sample_configs with Ok r => r | Throw _ => empty_router end.

Lemma sample_router_accepted : VirtualHostRouter sample_configs = Ok sample_router.
Proof. by vm_compute. Qed.

Example sample_routes :
  (find sample_router b!"www.example.com", find sample_router b!"x.a.example.com",
   find sample_router b!"a.example.com", find sample_router b!"other.org")
  = (Some 0%nat, Some 2%nat, Some 1%nat, None).
Proof. by vm_compute. Qed.

Lemma router_finds_longest_match_witness :
  (forall o, find sample_router b!"x.a.example.com" = o <-> routed sample_configs b!"x.a.example.com" o) /\
  (forall table, table ≡ₚ wildcard_hosts sample_router -> StronglySorted longer table ->
     find_wildcard table b!"x.a.example.com" =
       find_wildcard (wildcard_hosts sample_router) b!"x.a.example.com" \/
     is_Some (exact_hosts sample_router !! b!"x.a.example.com")).
Proof.
  exact (router_finds_longest_match sample_configs sample_router b!"x.a.example.com" sample_router_accepted).
Defined.

Lemma router_domains_unique_witness :
  (forall w d i j, binds sample_configs w d i -> binds sample_configs w d j -> i = j) /\
  Forall2 built sample_configs (hosts sample_router) /\
  (forall host i, find sample_router host = Some i -> is_Some (hosts sample_router !! i)).
Proof. exact (router_domains_unique sample_configs sample_router sample_router_accepted). Defined.
