(* ===== verification/BackendProbe.v ===== *)
(** * Backend probe (src/src/proxy/BackendProbe.{hpp,cpp})

    A test connection: resolve, connect, for HTTPS a handshake, under one timer.  The
    state has the members of [ProbeState] (for a stream, how it was set up) and which
    of its operations are outstanding; a handler is one step.  Calls that can throw
    take their answer from [faults].  A moved-from [std::function] is empty.  The
    results of resolver, sockets and OpenSSL and the clock are inputs of a step; the
    texts of error codes are a parameter.

    The theorems: a started probe completes exactly once, after at most four
    completions and no later than its timer; what it reports is what happened on the
    network, under the name and verification the backend asks for; [probe_backend]
    always returns a result. *)

From S2P Require Import Prelude Binary64 IpAddress HostNormalizer RequestPolicy VirtualHostRouter.

(** ** Data *)

Record BackendProbeResult := {
  pr_success : bool;
  pr_protocol : str;
  pr_remote_address : str;
  pr_remote_port : Z;
  pr_latency_ms : double;
  pr_tls_verified : bool;
  pr_error : str
}.

Definition result_eta (r : BackendProbeResult) : BackendProbeResult := Build_BackendProbeResult (r.(pr_success)) (r.(pr_protocol))
  (r.(pr_remote_address)) (r.(pr_remote_port)) (r.(pr_latency_ms)) (r.(pr_tls_verified)) (r.(pr_error)).
Definition set_success (v : bool) (r : BackendProbeResult) : BackendProbeResult := ltac:(record_update result_eta pr_success r v).
Definition set_remote_address (v : str) (r : BackendProbeResult) : BackendProbeResult := ltac:(record_update result_eta pr_remote_address r v).
Definition set_remote_port (v : Z) (r : BackendProbeResult) : BackendProbeResult := ltac:(record_update result_eta pr_remote_port r v).
Definition set_latency (v : double) (r : BackendProbeResult) : BackendProbeResult := ltac:(record_update result_eta pr_latency_ms r v).
Definition set_tls_verified (v : bool) (r : BackendProbeResult) : BackendProbeResult := ltac:(record_update result_eta pr_tls_verified r v).
Definition set_error (v : str) (r : BackendProbeResult) : BackendProbeResult := ltac:(record_update result_eta pr_error r v).

(** The error codes the probe makes itself, and those it is told. *)
Inductive error_code := timed_out | operation_aborted | errc_invalid_argument | reported (number : Z).

Section Probe.
Context `{AddressText}.

Definition tls_name (backend : BackendConfig) : str :=
  if bool_decide (be_tls_sni backend <> []) then be_tls_sni backend
  else if bool_decide (be_host backend <> []) then default (be_address backend) (normalize_authority (be_host backend))
  else be_address backend.

(** How a TLS stream was set up: [SSL_set_tlsext_host_name], and the name of
    [host_name_verification] with [verify_peer], or [verify_none]. *)
Record TlsStream := { server_name : option str; verified_name : option str }.

Record Probe := {
  backend_ : BackendConfig;
  plain_stream_ : bool;
  tls_stream_ : option TlsStream;
  result_ : BackendProbeResult;
  completion_ : bool;
  started_ : Z;                          (* ns *)
  finished_ : bool;
  (* outstanding *)
  timer_pending : bool;
  timer_cancelled : bool;
  resolve_pending : bool;
  connect_pending : bool;
  handshake_pending : bool;
  (* observed *)
  completions : list BackendProbeResult;
  faults : list bool
}.

Definition probe_eta (p : Probe) : Probe := Build_Probe (p.(backend_)) (p.(plain_stream_)) (p.(tls_stream_)) (p.(result_))
  (p.(completion_)) (p.(started_)) (p.(finished_)) (p.(timer_pending)) (p.(timer_cancelled)) (p.(resolve_pending))
  (p.(connect_pending)) (p.(handshake_pending)) (p.(completions)) (p.(faults)).
Definition set_plain_stream (v : bool) (p : Probe) : Probe := ltac:(record_update probe_eta plain_stream_ p v).
Definition set_tls_stream (v : option TlsStream) (p : Probe) : Probe := ltac:(record_update probe_eta tls_stream_ p v).
Definition set_result (v : BackendProbeResult) (p : Probe) : Probe := ltac:(record_update probe_eta result_ p v).
Definition set_completion (v : bool) (p : Probe) : Probe := ltac:(record_update probe_eta completion_ p v).
Definition set_started (v : Z) (p : Probe) : Probe := ltac:(record_update probe_eta started_ p v).
Definition set_finished (v : bool) (p : Probe) : Probe := ltac:(record_update probe_eta finished_ p v).
Definition set_timer_pending (v : bool) (p : Probe) : Probe := ltac:(record_update probe_eta timer_pending p v).
Definition set_timer_cancelled (v : bool) (p : Probe) : Probe := ltac:(record_update probe_eta timer_cancelled p v).
Definition set_resolve_pending (v : bool) (p : Probe) : Probe := ltac:(record_update probe_eta resolve_pending p v).
Definition set_connect_pending (v : bool) (p : Probe) : Probe := ltac:(record_update probe_eta connect_pending p v).
Definition set_handshake_pending (v : bool) (p : Probe) : Probe := ltac:(record_update probe_eta handshake_pending p v).
Definition set_completions (v : list BackendProbeResult) (p : Probe) : Probe := ltac:(record_update probe_eta completions p v).
Definition set_faults (v : list bool) (p : Probe) : Probe := ltac:(record_update probe_eta faults p v).

Definition is_https (backend : BackendConfig) : bool := bool_decide (be_protocol backend = backend_https).
Definition protocol_name (backend : BackendConfig) : str := if is_https backend then b!"https" else b!"http".

Definition ProbeState (backend : BackendConfig) (throws : list bool) : Probe :=
  {| backend_ := backend; plain_stream_ := false; tls_stream_ := None;
     result_ := {| pr_success := false; pr_protocol := protocol_name backend; pr_remote_address := []; pr_remote_port := 0;
                   pr_latency_ms := dbl 0; pr_tls_verified := false; pr_error := [] |};
     completion_ := true; started_ := 0; finished_ := false; timer_pending := false; timer_cancelled := false;
     resolve_pending := false; connect_pending := false; handshake_pending := false; completions := []; faults := throws |}.

(** ** Exceptions *)

Inductive outcome := Done (p : Probe) | Threw (p : Probe).
Definition and_then (o : outcome) (k : Probe -> outcome) : outcome := match o with Done p => k p | Threw _ => o end.
Local Notation "p <~ o ;; k" := (and_then o (fun p => k)) (at level 100, o at next level, right associativity).

Definition call (p : Probe) : outcome :=
  match faults p with
  | true :: rest => Threw (set_faults rest p)
  | false :: rest => Done (set_faults rest p)
  | [] => Done p
  end.

(** [completion(std::move(result_))] of the function moved out of [completion_]. *)
Definition complete (p : Probe) : outcome :=
  if completion_ p then call (set_completions (completions p ++ [result_ p]) (set_completion false p)) else Done p.

Definition settled (o : outcome) : Probe := match o with Done p | Threw p => p end.

Definition cancel_timer (p : Probe) : outcome := p <~ call p;; Done (set_timer_cancelled true p).

Definition abort_noexcept (p : Probe) : Probe := settled (complete (settled (cancel_timer (set_finished true p)))).

(** [guarded_handler]. *)
Definition guard (o : outcome) : Probe := match o with Done p => p | Threw p => abort_noexcept p end.

(** ** Handlers *)

Variable message : error_code -> str.

(** [duration<double, std::milli>(now - started_).count()]. *)
Definition milliseconds (ns : Z) : double := ddiv (dbl ns) (dbl 1000000).

Definition finish (now : Z) (error : option error_code) (p : Probe) : outcome :=
  if finished_ p then Done p
  else
    p <~ cancel_timer (set_finished true p);;
    let p := set_result (set_success (bool_decide (error = None)) (result_ p)) p in
    p <~ (if error is Some _ then call p else Done p);;                        (* message() *)
    let text := match error with Some e => message e | None => [] end in
    let p := set_result (set_latency (milliseconds (now - started_ p)) (set_error text (result_ p))) p in
    complete p.

Definition on_timeout (now : Z) (error : bool) (p : Probe) : outcome :=
  if negb error && negb (finished_ p) then finish now (Some timed_out) p else Done p.

Definition cancel_on_executor (now : Z) (p : Probe) : outcome := finish now (Some operation_aborted) p.

Definition on_resolved (now : Z) (error : option error_code) (name_set : bool) (p : Probe) : outcome :=
  if finished_ p then Done p
  else match error with
  | Some e => finish now (Some e) p
  | None =>
      if is_https (backend_ p) then
        p <~ call p;;                                                (* emplace, tls_name *)
        let name := tls_name (backend_ p) in
        let numeric := bool_decide (is_Some (make_address name)) in
        let stream := {| server_name := if numeric then None else Some name; verified_name := None |} in
        let p := set_tls_stream (Some stream) p in
        if negb numeric && negb name_set then finish now (Some errc_invalid_argument) p
        else
          p <~ call p;;                                              (* set_verify_callback *)
          let checked := if be_tls_verify_certificate (backend_ p) then Some name else None in
          let p := set_tls_stream (Some {| server_name := server_name stream; verified_name := checked |}) p in
          p <~ call p;;                                              (* async_connect *)
          Done (set_connect_pending true p)
      else
        p <~ call (set_plain_stream true p);;                        (* async_connect *)
        Done (set_connect_pending true p)
  end.

Definition note_endpoint (address : str) (port : Z) (p : Probe) : outcome :=
  p <~ call p;;                                                      (* to_string *)
  Done (set_result (set_remote_port port (set_remote_address address (result_ p))) p).

Definition on_connected (now : Z) (error : option error_code) (address : str) (port : Z) (p : Probe) : outcome :=
  if finished_ p then Done p
  else match error with
  | Some e => finish now (Some e) p
  | None => p <~ note_endpoint address port p;; finish now None p
  end.

Definition on_tls_connected (now : Z) (error : option error_code) (address : str) (port : Z) (p : Probe) : outcome :=
  if finished_ p then Done p
  else match error with
  | Some e => finish now (Some e) p
  | None =>
      p <~ note_endpoint address port p;;
      p <~ call p;;                                                  (* async_handshake *)
      Done (set_handshake_pending true p)
  end.

Definition on_tls_handshake (now : Z) (error : option error_code) (p : Probe) : outcome :=
  let p := match error with
           | None => set_result (set_tls_verified (be_tls_verify_certificate (backend_ p)) (result_ p)) p
           | Some _ => p
           end in
  finish now error p.

(** An exception leaves the caller with the timer already armed or not. *)
Definition start (now : Z) (p : Probe) : outcome :=
  let p := set_started now p in
  p <~ call p;;                                                      (* expires_after, async_wait *)
  let p := set_timer_pending true p in
  p <~ call p;;                                                      (* async_resolve *)
  Done (set_resolve_pending true p).

(** ** Runs *)

Inductive event :=
| ETimer (error : bool)
| EResolved (error : option error_code) (name_set : bool)
| EConnected (error : option error_code) (address : str) (port : Z)
| EHandshake (error : option error_code)
| ECancel (dispatch_throws : bool).

(** The handler of a connect is the one of the stream it was started on. *)
Definition step (e : event) (now : Z) (throws : list bool) (p : Probe) : Probe :=
  let p := set_faults throws p in
  match e with
  | ETimer error => guard (on_timeout now error (set_timer_pending false p))
  | EResolved error name_set => guard (on_resolved now error name_set (set_resolve_pending false p))
  | EConnected error address port =>
      let p := set_connect_pending false p in
      guard (if tls_stream_ p is Some _ then on_tls_connected now error address port p else on_connected now error address port p)
  | EHandshake error => guard (on_tls_handshake now error (set_handshake_pending false p))
  | ECancel dispatch_throws => if dispatch_throws then abort_noexcept p else guard (cancel_on_executor now p)
  end.

(** Only an outstanding operation completes; a wait fails only when it was cancelled. *)
Definition enabled (e : event) (p : Probe) : bool :=
  match e with
  | ETimer error => timer_pending p && (negb error || timer_cancelled p)
  | EResolved _ _ => resolve_pending p
  | EConnected _ _ _ => connect_pending p
  | EHandshake _ => handshake_pending p
  | ECancel _ => true
  end.

(** The states after a start and events, with the events, the last first. *)
Inductive history (backend : BackendConfig) : list event -> Probe -> Prop :=
| history_start now throws p : start now (ProbeState backend throws) = Done p -> history backend [] p
| history_step e now throws trace p :
    history backend trace p -> enabled e p = true -> history backend (e :: trace) (step e now throws p).

(** ** The blocking probe *)

(** What the context runs next when the choice is not outstanding: some operation
    that is, if any. *)
Definition outstanding (p : Probe) : option event :=
  if timer_pending p then Some (ETimer false)
  else if resolve_pending p then Some (EResolved (Some operation_aborted) true)
  else if connect_pending p then Some (EConnected (Some operation_aborted) [] 0)
  else if handshake_pending p then Some (EHandshake (Some operation_aborted))
  else None.

(** The choices of the operating system: which handler is run, with what, when. *)
Definition schedule := nat -> event * Z * list bool.
Definition is_cancel (e : event) : bool := match e with ECancel _ => true | _ => false end.

(** [context.run()] returns when nothing is outstanding. *)
Fixpoint run_context (fuel : nat) (choose : schedule) (p : Probe) : Probe :=
  match outstanding p, fuel with
  | Some fallback, S fuel =>
      let '(e, now, throws) := choose fuel in
      run_context fuel choose (step (if enabled e p && negb (is_cancel e) then e else fallback) now throws p)
  | _, _ => p
  end.

(** Of one blocking probe: the clock when it starts, which calls of the start throw
    and what, and the run of the context. *)
Record ProbeInputs := { pi_started : Z; pi_throws : list bool; pi_thrown : exn; pi_choose : schedule }.

(** Four completions are the most there can be ([context_runs_dry]). *)
Definition probe_backend (inputs : ProbeInputs) (backend : BackendConfig) : res BackendProbeResult :=
  match start (pi_started inputs) (ProbeState backend (pi_throws inputs)) with
  | Threw _ => Throw (pi_thrown inputs)
  | Done p =>
      match last (completions (run_context 4 (pi_choose inputs) p)) with
      | None => Throw (runtime_error b!"backend probe completed without a result")
      | Some result => Ok result
      end
  end.

(** ** Invariant *)

Definition truthful (backend : BackendConfig) (trace : list event) (r : BackendProbeResult) : Prop :=
  pr_protocol r = protocol_name backend /\
  (pr_success r = true ->
     EConnected None (pr_remote_address r) (pr_remote_port r) ∈ trace /\
     (is_https backend = true -> EHandshake None ∈ trace /\ pr_tls_verified r = be_tls_verify_certificate backend)) /\
  (pr_tls_verified r = true -> is_https backend = true /\ be_tls_verify_certificate backend = true /\ EHandshake None ∈ trace).

(** The stream a connection is made and a handshake done on. *)
Definition prepared_stream (backend : BackendConfig) : option TlsStream :=
  if is_https backend then
    Some {| server_name := if bool_decide (is_Some (make_address (tls_name backend))) then None else Some (tls_name backend);
            verified_name := if be_tls_verify_certificate backend then Some (tls_name backend) else None |}
  else None.

(** Completions still to come, resolving taken as everything after it. *)
Definition weight (p : Probe) : nat :=
  (Nat.b2n (timer_pending p) + 3 * Nat.b2n (resolve_pending p) + 2 * Nat.b2n (connect_pending p) + Nat.b2n (handshake_pending p))%nat.
Definition busy (p : Probe) : nat :=
  (Nat.b2n (resolve_pending p) + Nat.b2n (connect_pending p) + Nat.b2n (handshake_pending p))%nat.
Definition completed_events (trace : list event) : nat := length (List.filter (fun e => negb (is_cancel e)) trace).

Section Invariant.
Variable backend : BackendConfig.

(** What holds also when a handler throws. *)
Record Weak (trace : list event) (p : Probe) : Prop := {
  wk_backend : backend_ p = backend;
  wk_result : completion_ p = true -> completions p = [] /\ truthful backend trace (result_ p);
  wk_completed : completion_ p = false -> exists r, completions p = [r] /\ truthful backend trace r;
  wk_busy : (busy p <= 1)%nat;
  wk_weight : (completed_events trace + weight p <= 4)%nat;
  wk_resolve : resolve_pending p = true -> tls_stream_ p = None;
  wk_stream : connect_pending p = true \/ handshake_pending p = true -> tls_stream_ p = prepared_stream backend;
  wk_handshake : handshake_pending p = true -> is_https backend = true
}.

(** The result while the probe goes on. *)
Definition blank (p : Probe) : Prop :=
  completion_ p = true /\ pr_success (result_ p) = false /\ pr_tls_verified (result_ p) = false.
Definition noted (trace : list event) (p : Probe) : Prop :=
  EConnected None (pr_remote_address (result_ p)) (pr_remote_port (result_ p)) ∈ trace.

Record Inv (trace : list event) (p : Probe) : Prop := {
  iv_weak : Weak trace p;
  iv_finished : finished_ p = negb (completion_ p);
  iv_live : finished_ p = false -> busy p = 1%nat /\ timer_pending p = true /\ timer_cancelled p = false;
  iv_blank : finished_ p = false -> blank p;
  iv_noted : finished_ p = false -> handshake_pending p = true -> noted trace p
}.

Definition good (trace : list event) (o : outcome) : Prop :=
  match o with Done p => Inv trace p | Threw p => Weak trace p end.

Lemma probe_call_cases p : exists rest, call p = Done (set_faults rest p) \/ call p = Threw (set_faults rest p).
Proof.
  unfold call. destruct (faults p) as [|[] rest] eqn:E; [exists []; left; rewrite <-E; by destruct p|exists rest; by right|exists rest; by left].
Qed.

Lemma weak_same trace p q : Weak trace p -> backend_ q = backend_ p -> completion_ q = completion_ p -> completions q = completions p ->
  result_ q = result_ p -> timer_pending q = timer_pending p -> resolve_pending q = resolve_pending p ->
  connect_pending q = connect_pending p -> handshake_pending q = handshake_pending p -> tls_stream_ q = tls_stream_ p -> Weak trace q.
Proof.
  intros [] E1 E2 E3 E4 E5 E6 E7 E8 E9. constructor; unfold busy, weight in *; rewrite ?E1, ?E2, ?E3, ?E4, ?E5, ?E6, ?E7, ?E8, ?E9; done.
Qed.
Local Ltac same := by (eapply weak_same; [eassumption|..]).

Lemma probe_call_then (P : Probe -> Prop) trace p k : (forall rest, P p -> P (set_faults rest p)) -> P p -> (P p -> Weak trace p) ->
  (forall rest, P (set_faults rest p) -> good trace (k (set_faults rest p))) -> good trace (and_then (call p) k).
Proof.
  intros Hf Hp Hw Hk. destruct (probe_call_cases p) as [rest [-> | ->]]; cbn [and_then good]; [by apply Hk, Hf|].
  apply Hw in Hp. same.
Qed.

Lemma weak_result trace p r : Weak trace p -> (completion_ p = true -> truthful backend trace r) -> Weak trace (set_result r p).
Proof. intros [] Hr. constructor; try done. cbn. intros Hc. destruct (wk_result0 Hc). auto. Qed.

(** [complete] uses the completion up. *)
Lemma complete_cases trace p : Weak trace p ->
  exists q, (complete p = Done q \/ complete p = Threw q) /\ Weak trace q /\ completion_ q = false /\ finished_ q = finished_ p.
Proof.
  intros Hw. unfold complete. destruct (completion_ p) eqn:Ec; [|by exists p; auto].
  set (q := set_completions _ _). destruct (probe_call_cases q) as [rest Hcall]. exists (set_faults rest q).
  split; [exact Hcall|]. split; [|done]. destruct Hw. destruct (wk_result0 Ec) as [E Ht].
  constructor; try done. cbn. intros _. exists (result_ p). by rewrite E.
Qed.

Lemma inv_finished trace p : Weak trace p -> completion_ p = false -> finished_ p = true -> Inv trace p.
Proof. intros Hw Hc Hf. constructor; rewrite ?Hf, ?Hc; try done. Qed.

Lemma abort_completes trace p : Weak trace p -> Inv trace (abort_noexcept p).
Proof.
  intros Hw. unfold abort_noexcept, cancel_timer.
  set (q := settled (and_then _ _)).
  assert (Hq : Weak trace q /\ finished_ q = true).
  { subst q. destruct (probe_call_cases (set_finished true p)) as [rest [-> | ->]]; (split; [same|done]). }
  destruct Hq as [Hq Hf]. destruct (complete_cases trace q Hq) as (q' & [-> | ->] & Hw' & Hc & Hf'); cbn [settled];
    apply inv_finished; congruence.
Qed.

Lemma probe_guard_inv trace o : good trace o -> Inv trace (guard o).
Proof. destruct o; cbn; [done|]. apply abort_completes. Qed.

Definition succeeded (trace : list event) (p : Probe) : Prop :=
  noted trace p /\ (is_https backend = true -> EHandshake None ∈ trace /\ pr_tls_verified (result_ p) = be_tls_verify_certificate backend).

Lemma probe_finish_completes now error trace p : Weak trace p -> finished_ p = negb (completion_ p) ->
  (finished_ p = false -> pr_success (result_ p) = false /\ (error = None -> succeeded trace p)) -> good trace (finish now error p).
Proof.
  intros Hw Hf Hs. unfold finish. destruct (finished_ p) eqn:Ef; [apply inv_finished; [done|by destruct (completion_ p)|done]|].
  destruct (Hs eq_refl) as [Hn Hok]. assert (Hc : completion_ p = true) by (by destruct (completion_ p)). clear Hs Hf.
  destruct (wk_result _ _ Hw Hc) as [_ Ht].
  unfold cancel_timer. destruct (probe_call_cases (set_finished true p)) as [r1 [-> | ->]]; cbn [and_then good]; [|same].
  set (p1 := set_result _ _).
  assert (Hr : truthful backend trace (result_ p1)).
  { destruct Ht as (Ht1 & Ht2 & Ht3). split; [done|]. split; [|done]. cbn. intros He%bool_decide_eq_true. apply (Hok He). }
  assert (Hw1 : Weak trace p1) by (apply weak_result; [same|done]).
  set (k := fun q : Probe => _).
  assert (Hk : forall rest, good trace (k (set_faults rest p1))).
  { intros rest. subst k. cbv beta zeta. set (p2 := set_result _ _).
    assert (Hw2 : Weak trace p2) by (apply weak_result; [same|done]).
    destruct (complete_cases trace p2 Hw2) as (q & [-> | ->] & Hq & Hcq & Hfq); cbn [good]; [by apply inv_finished|done]. }
  destruct error as [e|]; cbn [and_then].
  - by eapply (probe_call_then (Weak trace)); [intros; same|..].
  - replace p1 with (set_faults (faults p1) p1) by (by destruct p1). apply Hk.
Qed.

Lemma finish_fails now e trace p : Weak trace p -> finished_ p = negb (completion_ p) -> (finished_ p = false -> blank p) ->
  good trace (finish now (Some e) p).
Proof. intros Hw Hf Hb. apply probe_finish_completes; [done..|]. intros E. split; [by apply Hb|done]. Qed.

(** *** Steps *)

Lemma truthful_later e trace r : truthful backend trace r -> truthful backend (e :: trace) r.
Proof. unfold truthful. setoid_rewrite elem_of_cons. naive_solver. Qed.

(** The handler of [e] runs: its operation is no longer outstanding. *)
Lemma consumed e trace p q : Weak trace p -> backend_ q = backend_ p -> completion_ q = completion_ p -> completions q = completions p ->
  result_ q = result_ p -> tls_stream_ q = tls_stream_ p -> (busy q <= busy p)%nat ->
  (completed_events (e :: trace) + weight q <= completed_events trace + weight p)%nat ->
  (resolve_pending q = true -> resolve_pending p = true) -> (connect_pending q = true -> connect_pending p = true) ->
  (handshake_pending q = true -> handshake_pending p = true) -> Weak (e :: trace) q.
Proof.
  intros [] E1 E2 E3 E4 E5 Hb Hwt Hr Hc Hh. constructor; rewrite ?E1, ?E2, ?E3, ?E4, ?E5; try done; try lia.
  - intros H0. destruct (wk_result0 H0). auto using truthful_later.
  - intros H0. destruct (wk_completed0 H0) as (r & ? & ?). exists r. auto using truthful_later.
  - auto.
  - naive_solver.
  - auto.
Qed.

Lemma inv_consumed e trace p q : Inv trace p -> Weak (e :: trace) q -> finished_ q = finished_ p -> completion_ q = completion_ p ->
  finished_ q = negb (completion_ q).
Proof. intros [] _ -> ->. done. Qed.

Record Handling (trace : list event) (p : Probe) : Prop := {
  hd_weak : Weak trace p;
  hd_finished : finished_ p = negb (completion_ p);
  hd_blank : finished_ p = false -> blank p
}.

(** A handler of the chain runs while the timer goes on. *)
Record Chain (trace : list event) (p : Probe) : Prop := {
  ch_handling : Handling trace p;
  ch_idle : busy p = 0%nat;
  ch_timer : timer_pending p = true /\ timer_cancelled p = false;
  ch_open : finished_ p = false
}.
Lemma chain_faults rest trace p : Chain trace p -> Chain trace (set_faults rest p).
Proof. intros [[Hw Hf Hb] Hi Ht Ho]. constructor; [constructor|..]; try done. same. Qed.
Lemma chain_weak trace p : Chain trace p -> Weak trace p.
Proof. by intros [[]]. Qed.
Local Ltac call_chain := eapply (probe_call_then (Chain _)); [by intros; apply chain_faults|try done|by apply chain_weak|].

Lemma handling_done trace p : Handling trace p -> finished_ p = true -> Inv trace p.
Proof. intros [Hw Hf _] E. apply inv_finished; [done| |done]. rewrite E in Hf. by destruct (completion_ p). Qed.

Lemma finish_handling now e trace p : Handling trace p -> good trace (finish now (Some e) p).
Proof. intros []. by apply finish_fails. Qed.

Lemma chain_idle trace p : Chain trace p -> resolve_pending p = false /\ connect_pending p = false /\ handshake_pending p = false.
Proof. intros [_ Hi _ _]. unfold busy in Hi. destruct (resolve_pending p), (connect_pending p), (handshake_pending p); cbn in Hi; auto; lia. Qed.

(** The chain goes on with a connect. *)
Lemma connect_started trace p : Chain trace p -> (completed_events trace <= 1)%nat -> tls_stream_ p = prepared_stream backend ->
  good trace (Done (set_connect_pending true p)).
Proof.
  intros Hc Hn Hs. pose proof (chain_idle _ _ Hc) as (E1 & E2 & E3). destruct Hc as [[[] Hf Hb] Hi [Ht1 Ht2] Ho].
  cbn [good]. constructor; [constructor|..]; unfold busy, weight in *; cbn in *; rewrite ?E1, ?E2, ?E3, ?Ht1 in *; cbn in *; try done; try lia.
Qed.

Lemma chain_setup trace p stream : Chain trace p -> Chain trace (set_tls_stream stream p).
Proof.
  intros Hc. pose proof (chain_idle _ _ Hc) as (E1 & E2 & E3). destruct Hc as [[[] Hf Hb] Hi Ht Ho].
  constructor; [constructor|..]; try done. constructor; cbn; rewrite ?E1, ?E2, ?E3; try done. by intros [].
Qed.
Lemma chain_plain trace p : Chain trace p -> Chain trace (set_plain_stream true p).
Proof. intros [[Hw Hf Hb] Hi Ht Ho]. constructor; [constructor|..]; try done. same. Qed.
Lemma chain_backend trace p : Chain trace p -> backend_ p = backend.
Proof. intros Hc. apply (wk_backend _ _ (chain_weak _ _ Hc)). Qed.

Lemma on_resolved_chain now error name_set trace p : Chain trace p -> (completed_events trace <= 1)%nat -> tls_stream_ p = None ->
  good trace (on_resolved now error name_set p).
Proof.
  intros Hc Hn Hs. unfold on_resolved. rewrite (ch_open _ _ Hc). destruct error as [e|]; [by apply finish_handling, Hc|].
  rewrite (chain_backend _ _ Hc). destruct (is_https backend) eqn:Eh.
  - call_chain. intros r1 H1. cbv zeta. rewrite (chain_backend _ _ H1). destruct (_ && _); [by apply finish_handling, chain_setup|].
    call_chain; [by apply chain_setup|]. intros r2 H2. rewrite (chain_backend _ _ H2).
    call_chain; [by apply chain_setup|]. intros r3 H3.
    apply connect_started; [done..|]. cbn. unfold prepared_stream. by rewrite Eh.
  - call_chain; [by apply chain_plain|]. intros r1 H1. apply connect_started; [done..|]. unfold prepared_stream. by rewrite Eh.
Qed.

Lemma note_endpoint_then address port trace p k : Chain trace p -> EConnected None address port ∈ trace ->
  (forall q, Chain trace q -> noted trace q -> tls_stream_ q = tls_stream_ p -> good trace (k q)) -> good trace (and_then (note_endpoint address port p) k).
Proof.
  intros Hc Hin Hk. unfold note_endpoint. destruct (probe_call_cases p) as [rest [-> | ->]]; cbn [and_then good].
  - apply Hk; [|done..]. destruct Hc as [[Hw Hf Hb] Hi Ht Ho]. constructor; [constructor|..]; try done.
    destruct (Hb Ho) as (B1 & B2 & B3). destruct (wk_result _ _ Hw B1) as [_ (T1 & T2 & T3)].
    apply weak_result; [same|]. intros _. split; [done|]. cbn. rewrite B2, B3. by split.
  - apply chain_weak in Hc. same.
Qed.

Lemma on_connected_chain now error address port trace p : Chain trace p -> (error = None -> EConnected None address port ∈ trace) ->
  is_https backend = false -> good trace (on_connected now error address port p).
Proof.
  intros Hc Hin Hh. unfold on_connected. rewrite (ch_open _ _ Hc). destruct error as [e|]; [by apply finish_handling, Hc|].
  apply note_endpoint_then; [done|auto|]. intros q [[Hw Hf Hb] _ _ Ho] Hq _. apply probe_finish_completes; [done..|].
  intros _. split; [by apply Hb|]. split; [done|]. by rewrite Hh.
Qed.

Lemma on_tls_connected_chain now error address port trace p : Chain trace p -> (error = None -> EConnected None address port ∈ trace) ->
  is_https backend = true -> (completed_events trace <= 2)%nat -> tls_stream_ p = prepared_stream backend ->
  good trace (on_tls_connected now error address port p).
Proof.
  intros Hc Hin Hh Hn Hs. unfold on_tls_connected. rewrite (ch_open _ _ Hc). destruct error as [e|]; [by apply finish_handling, Hc|].
  apply note_endpoint_then; [done|auto|]. intros q Hq Hnoted Hsq.
  destruct (probe_call_cases q) as [rest [-> | ->]]; cbn [and_then good]; [|apply chain_weak in Hq; same].
  pose proof (chain_idle _ _ Hq) as (E1 & E2 & E3). destruct Hq as [[[] Hf Hb] Hi [Ht1 Ht2] Ho].
  constructor; [constructor|..]; unfold busy, weight in *; cbn in *; rewrite ?E1, ?E2, ?E3, ?Ht1 in *; cbn in *; try done; try lia.
  by rewrite Hsq.
Qed.

Lemma on_tls_handshake_chain now error trace p : Handling trace p -> (error = None -> EHandshake None ∈ trace) ->
  (finished_ p = false -> noted trace p) -> is_https backend = true -> good trace (on_tls_handshake now error p).
Proof.
  intros [Hw Hf Hb] Hin Hn Hh. unfold on_tls_handshake. destruct error as [e|]; [by apply finish_fails|]. cbv zeta.
  specialize (Hin eq_refl). rewrite (wk_backend _ _ Hw). set (q := set_result _ p).
  apply probe_finish_completes; [|done|].
  - apply weak_result; [done|]. intros Hc. destruct (wk_result _ _ Hw Hc) as [_ (T1 & T2 & T3)].
    split; [done|]. cbn. split; [|by intros ->]. rewrite Hc in Hf. cbn in Hf. destruct (Hb Hf) as (_ & -> & _). done.
  - cbn. intros Ho. split; [by apply Hb|]. intros _. split; [by apply Hn|]. done.
Qed.

Lemma inv_handling e trace p q : Inv trace p -> Weak (e :: trace) q -> finished_ q = finished_ p -> completion_ q = completion_ p ->
  result_ q = result_ p -> Handling (e :: trace) q.
Proof. intros [_ Hf _ Hb _] Hw E1 E2 E3. unfold blank in *. constructor; unfold blank; rewrite ?E1, ?E2, ?E3; done. Qed.

Lemma inv_chain e trace p q : Inv trace p -> Handling (e :: trace) q -> finished_ q = finished_ p -> timer_pending q = timer_pending p ->
  timer_cancelled q = timer_cancelled p -> busy q = 0%nat -> finished_ p = false -> Chain (e :: trace) q.
Proof. intros [_ _ Hl _ _] Hw E1 E2 E3 Hb Ho. destruct (Hl Ho) as (_ & ? & ?). constructor; [done|done|by rewrite E2, E3|congruence]. Qed.

(** The events of the chain: their handlers run with nothing else of the chain outstanding. *)
Lemma busy_one p : (busy p <= 1)%nat ->
  (resolve_pending p = true -> connect_pending p = false /\ handshake_pending p = false) /\
  (connect_pending p = true -> resolve_pending p = false /\ handshake_pending p = false) /\
  (handshake_pending p = true -> resolve_pending p = false /\ connect_pending p = false).
Proof. unfold busy. destruct (resolve_pending p), (connect_pending p), (handshake_pending p); cbn; intros; auto; try lia; naive_solver. Qed.

Lemma resolved_step now throws error name_set trace p : Inv trace p -> resolve_pending p = true ->
  Inv (EResolved error name_set :: trace) (step (EResolved error name_set) now throws p).
Proof.
  intros Hi He. cbn [step]. apply probe_guard_inv. set (q := set_resolve_pending false _).
  pose proof (iv_weak _ _ Hi) as Hw. destruct (busy_one p (wk_busy _ _ Hw)) as [Hone _]. destruct (Hone He) as [E2 E3].
  assert (Hn : (completed_events trace + weight p <= 4)%nat) by apply Hw. unfold weight in Hn. rewrite He, E2, E3 in Hn.
  assert (Hq : Weak (EResolved error name_set :: trace) q).
  { eapply consumed; [exact Hw|done..| | | | |]; try done; unfold busy, weight, completed_events; cbn; rewrite ?He; cbn; lia. }
  pose proof (inv_handling _ _ _ _ Hi Hq eq_refl eq_refl eq_refl) as Hh.
  destruct (finished_ p) eqn:Ef; [unfold on_resolved; cbn; rewrite Ef; by apply handling_done|].
  assert (Hc : Chain (EResolved error name_set :: trace) q).
  { eapply inv_chain; [exact Hi|exact Hh|done..| |done]. unfold busy. cbn. by rewrite E2, E3. }
  apply on_resolved_chain; [done| |by apply (wk_resolve _ _ Hw)].
  destruct (iv_live _ _ Hi Ef) as (_ & Ht & _). rewrite Ht in Hn. unfold completed_events in *. cbn in *. lia.
Qed.

Lemma connected_step now throws error address port trace p : Inv trace p -> connect_pending p = true ->
  Inv (EConnected error address port :: trace) (step (EConnected error address port) now throws p).
Proof.
  intros Hi He. cbn [step]. apply probe_guard_inv. set (q := set_connect_pending false _).
  pose proof (iv_weak _ _ Hi) as Hw. destruct (busy_one p (wk_busy _ _ Hw)) as [_ [Hone _]]. destruct (Hone He) as [E2 E3].
  assert (Hn : (completed_events trace + weight p <= 4)%nat) by apply Hw. unfold weight in Hn. rewrite He, E2, E3 in Hn.
  assert (Hq : Weak (EConnected error address port :: trace) q).
  { eapply consumed; [exact Hw|done..| | | | |]; try done; unfold busy, weight, completed_events; cbn; rewrite ?He; cbn; lia. }
  pose proof (inv_handling _ _ _ _ Hi Hq eq_refl eq_refl eq_refl) as Hh.
  destruct (finished_ p) eqn:Ef.
  { unfold on_tls_connected, on_connected. cbn. rewrite Ef. destruct (tls_stream_ p); by apply handling_done. }
  assert (Hc : Chain (EConnected error address port :: trace) q).
  { eapply inv_chain; [exact Hi|exact Hh|done..| |done]. unfold busy. cbn. by rewrite E2, E3. }
  assert (Hin : error = None -> EConnected None address port ∈ EConnected error address port :: trace) by (intros ->; apply elem_of_cons; by left).
  pose proof (wk_stream _ _ Hw (or_introl He)) as Hs. change (tls_stream_ q) with (tls_stream_ p).
  destruct (is_https backend) eqn:Eh; [|rewrite Hs; unfold prepared_stream; rewrite Eh; by apply on_connected_chain].
  rewrite Hs. unfold prepared_stream at 1. rewrite Eh. apply on_tls_connected_chain; [done..| |done].
  destruct (iv_live _ _ Hi Ef) as (_ & Ht & _). rewrite Ht in Hn. unfold completed_events in *. cbn in *. lia.
Qed.

Lemma handshake_step now throws error trace p : Inv trace p -> handshake_pending p = true ->
  Inv (EHandshake error :: trace) (step (EHandshake error) now throws p).
Proof.
  intros Hi He. cbn [step]. apply probe_guard_inv. set (q := set_handshake_pending false _).
  pose proof (iv_weak _ _ Hi) as Hw.
  assert (Hq : Weak (EHandshake error :: trace) q).
  { eapply consumed; [exact Hw|done..| | | | |]; try done; unfold busy, weight, completed_events; cbn; rewrite ?He; cbn; lia. }
  pose proof (inv_handling _ _ _ _ Hi Hq eq_refl eq_refl eq_refl) as Hh.
  apply on_tls_handshake_chain; [done| | |by apply (wk_handshake _ _ Hw)].
  - intros ->. apply elem_of_cons. by left.
  - intros Ef. apply elem_of_cons. right. by apply (iv_noted _ _ Hi).
Qed.

Lemma timer_step now throws error trace p : Inv trace p -> timer_pending p = true -> error = false \/ timer_cancelled p = true ->
  Inv (ETimer error :: trace) (step (ETimer error) now throws p).
Proof.
  intros Hi He Hx. cbn [step]. apply probe_guard_inv. set (q := set_timer_pending false _).
  pose proof (iv_weak _ _ Hi) as Hw.
  assert (Hq : Weak (ETimer error :: trace) q).
  { eapply consumed; [exact Hw|done..| | | | |]; try done; unfold busy, weight, completed_events; cbn; rewrite ?He; cbn; lia. }
  pose proof (inv_handling _ _ _ _ Hi Hq eq_refl eq_refl eq_refl) as Hh. unfold on_timeout.
  destruct (negb error && negb (finished_ q)) eqn:Eg; [by apply finish_handling|].
  apply handling_done; [done|]. cbn in *. destruct (finished_ p) eqn:Ef; [done|]. destruct (iv_live _ _ Hi Ef) as (_ & _ & Ht).
  rewrite andb_true_r in Eg. apply negb_false_iff in Eg. destruct Hx; congruence.
Qed.

Lemma cancel_step now throws dispatch_throws trace p : Inv trace p ->
  Inv (ECancel dispatch_throws :: trace) (step (ECancel dispatch_throws) now throws p).
Proof.
  intros Hi. cbn [step]. set (q := set_faults _ p). pose proof (iv_weak _ _ Hi) as Hw.
  assert (Hq : Weak (ECancel dispatch_throws :: trace) q) by (eapply consumed; [exact Hw|done..]).
  destruct dispatch_throws; [by apply abort_completes|]. apply probe_guard_inv, finish_handling.
  by apply (inv_handling _ _ _ _ Hi).
Qed.

Lemma probe_step_inv e now throws trace p : Inv trace p -> enabled e p = true -> Inv (e :: trace) (step e now throws p).
Proof.
  intros Hi He. destruct e; cbn [enabled] in He; auto using resolved_step, connected_step, handshake_step, cancel_step.
  apply andb_true_iff in He as [He Hx]. apply timer_step; [done..|]. destruct error; auto.
Qed.

Lemma probe_start_inv now throws p : start now (ProbeState backend throws) = Done p -> Inv [] p.
Proof.
  unfold start. cbv zeta. destruct (probe_call_cases (set_started now (ProbeState backend throws))) as [r1 [-> | ->]]; cbn [and_then]; [|done].
  destruct (probe_call_cases (set_timer_pending true (set_faults r1 (set_started now (ProbeState backend throws))))) as [r2 [-> | ->]]; cbn [and_then]; [|done].
  intros [= <-]. by constructor; [constructor|..]; cbn; try done; try lia; naive_solver.
Qed.

Lemma history_inv trace p : history backend trace p -> Inv trace p.
Proof. induction 1; [by eapply probe_start_inv|by apply probe_step_inv]. Qed.

(** Ending a probe starts no wait. *)
Lemma complete_timer p : timer_pending (settled (complete p)) = timer_pending p.
Proof. unfold complete. destruct (completion_ p); [|done]. match goal with |- context [call ?x] => by destruct (probe_call_cases x) as [? [-> | ->]] end. Qed.
Lemma cancel_timer_timer p : timer_pending (settled (cancel_timer p)) = timer_pending p.
Proof. unfold cancel_timer. by destruct (probe_call_cases p) as [? [-> | ->]]. Qed.
Lemma guard_timer o : timer_pending (guard o) = timer_pending (settled o).
Proof. destruct o as [p|p]; [done|]. cbn [guard settled]. unfold abort_noexcept. by rewrite complete_timer, cancel_timer_timer. Qed.
Lemma finish_timer now error p : timer_pending (settled (finish now error p)) = timer_pending p.
Proof.
  unfold finish. destruct (finished_ p); [done|]. pose proof (cancel_timer_timer (set_finished true p)) as Hc.
  destruct (cancel_timer _) as [q|q]; cbn [and_then settled] in *; [|done]. destruct error as [e|]; cbn [and_then]; [|by rewrite complete_timer].
  match goal with |- context [call ?x] => destruct (probe_call_cases x) as [? [-> | ->]] end; cbn [and_then]; [by rewrite complete_timer|done].
Qed.

Lemma timeout_finishes now throws trace p : Inv trace p -> timer_pending p = true -> finished_ (step (ETimer false) now throws p) = true.
Proof.
  intros Hi Ht. pose proof (timer_step now throws false trace p Hi Ht (or_introl eq_refl)) as Hi'.
  destruct (finished_ _) eqn:Ef; [done|]. destruct (iv_live _ _ Hi' Ef) as (_ & Ht' & _).
  cbn [step] in Ht'. rewrite guard_timer in Ht'. unfold on_timeout in Ht'. destruct (_ && _); [|done]. by rewrite finish_timer in Ht'.
Qed.

Lemma outstanding_enabled p e : outstanding p = Some e -> enabled e p = true.
Proof. unfold outstanding. intros Ho. repeat case_match; simplify_eq/=; by rewrite ?andb_true_r. Qed.

Lemma outstanding_completion p e : outstanding p = Some e -> is_cancel e = false.
Proof. unfold outstanding. intros Ho. by repeat case_match; simplify_eq/=. Qed.

Lemma outstanding_weight p : weight p = 0%nat -> outstanding p = None.
Proof.
  unfold weight, outstanding. destruct (timer_pending p), (resolve_pending p), (connect_pending p), (handshake_pending p); cbn; done || lia.
Qed.

(** Every completion uses one of the four up. *)
Lemma context_runs_dry fuel choose trace p : history backend trace p -> (4 <= completed_events trace + fuel)%nat ->
  exists trace', history backend trace' (run_context fuel choose p) /\ outstanding (run_context fuel choose p) = None.
Proof.
  revert trace p. induction fuel as [|fuel IH]; intros trace p Hh Hn.
  - exists trace. pose proof (wk_weight _ _ (iv_weak _ _ (history_inv _ _ Hh))) as Hw.
    assert (Ho : outstanding p = None) by (apply outstanding_weight; lia). cbn. by rewrite Ho.
  - cbn [run_context]. destruct (outstanding p) as [fallback|] eqn:Eo; [|by exists trace].
    destruct (choose fuel) as [[e now] throws]. set (e' := if enabled e p && negb (is_cancel e) then e else fallback).
    assert (He : enabled e' p = true /\ is_cancel e' = false).
    { subst e'. destruct (enabled e p) eqn:E1, (is_cancel e) eqn:E2; cbn; eauto using outstanding_enabled, outstanding_completion. }
    destruct He as [He Hc]. apply (IH (e' :: trace)); [by constructor|]. unfold completed_events in *. cbn [List.filter]. rewrite Hc. cbn. lia.
Qed.

Lemma quiescent_finished trace p : history backend trace p -> outstanding p = None -> exists r, completions p = [r] /\ truthful backend trace r.
Proof.
  intros Hi%history_inv Ho. apply (wk_completed _ _ (iv_weak _ _ Hi)). pose proof (iv_finished _ _ Hi) as Hf.
  destruct (finished_ p) eqn:Ef; [by destruct (completion_ p)|]. destruct (iv_live _ _ Hi Ef) as (_ & Ht & _).
  unfold outstanding in Ho. by rewrite Ht in Ho.
Qed.

End Invariant.
(** ** Theorems *)

(** C25: Whatever the resolver, the sockets, OpenSSL and the clock do, whatever throws
    and whenever it is cancelled, a started probe completes exactly once: it has told
    its caller if and only if it is finished, an unfinished probe has its timer armed
    and is finished by it, at most four handlers of its operations run in all, and
    when none is left the caller has a result. *)
Theorem probe_completes_once backend trace p : history backend trace p ->
  length (completions p) = Nat.b2n (finished_ p) /\
  (finished_ p = false -> enabled (ETimer false) p = true /\
     forall now throws, finished_ (step (ETimer false) now throws p) = true) /\
  (completed_events trace <= 4)%nat /\
  (outstanding p = None -> exists r, completions p = [r]).
Proof.
  intros Hh. pose proof (history_inv _ _ _ Hh) as Hi. pose proof (iv_weak _ _ _ Hi) as Hw. pose proof (iv_finished _ _ _ Hi) as Hf. repeat split.
  - destruct (completion_ p) eqn:Ec; rewrite Hf; [by destruct (wk_result _ _ _ Hw Ec) as [-> _]|by destruct (wk_completed _ _ _ Hw Ec) as (r & -> & _)].
  - destruct (iv_live _ _ _ Hi ltac:(done)) as (_ & Ht & _). cbn. by rewrite Ht.
  - destruct (iv_live _ _ _ Hi ltac:(done)) as (_ & Ht & _). intros now throws. by eapply timeout_finishes.
  - pose proof (wk_weight _ _ _ Hw). lia.
  - intros Ho. destruct (quiescent_finished _ _ _ Hh Ho) as (r & ? & _). by exists r.
Qed.

(** C35: A probe reports what happened: success only with the endpoint a connect
    reported and, over HTTPS, after a handshake; [tls_verified] only when verification
    was asked for and the handshake succeeded.  Connects and handshakes are made on a
    stream that sends the configured server name unless it is an address, and that
    verifies exactly that name when the backend asks for it. *)
Theorem probe_reports_truth backend trace p : history backend trace p ->
  Forall (truthful backend trace) (completions p) /\
  (connect_pending p || handshake_pending p = true -> tls_stream_ p = prepared_stream backend).
Proof.
  intros Hi%history_inv. pose proof (iv_weak _ _ _ Hi) as Hw. split.
  - destruct (completion_ p) eqn:Ec.
    + destruct (wk_result _ _ _ Hw Ec) as [-> _]. by apply Forall_nil.
    + destruct (wk_completed _ _ _ Hw Ec) as (r & -> & Ht). apply Forall_cons. split; [done|by apply Forall_nil].
  - intros [Hp|Hp]%orb_true_iff; apply (wk_stream _ _ _ Hw); auto.
Qed.

(** The blocking probe throws only what starting it throws; otherwise it returns a
    result, which is true of what happened. *)
Theorem probe_backend_returns inputs backend :
  match start (pi_started inputs) (ProbeState backend (pi_throws inputs)) with
  | Threw _ => probe_backend inputs backend = Throw (pi_thrown inputs)
  | Done _ => exists trace r, probe_backend inputs backend = Ok r /\ truthful backend trace r
  end.
Proof.
  unfold probe_backend. destruct (start _ _) as [p|p] eqn:Es; [|done].
  destruct (context_runs_dry backend 4 (pi_choose inputs) [] p) as (trace & Hh & Ho); [by econstructor|done|].
  destruct (quiescent_finished _ _ _ Hh Ho) as (r & E & Ht). exists trace, r. by rewrite E.
Qed.

(** When [async_resolve] throws in [start], the wait on the timer has begun: the
    caller, who was told by the exception, is told again when it expires. *)
Theorem failed_start_completes_later now later backend : exists p,
  start now (ProbeState backend [false; true]) = Threw p /\ enabled (ETimer false) p = true /\
  (fun r => (pr_success r, pr_error r)) <$> completions (step (ETimer false) later [] p) = [(false, message timed_out)].
Proof. eexists. split; [reflexivity|]. split; reflexivity. Qed.


End Probe.

(** ** Samples *)

Section Samples.
#[local] Instance names_only : AddressText := {| make_address _ := None; address_to_string _ := [] |}.

Definition sample_message (e : error_code) : str := b!"error".
Definition sample_backend : BackendConfig :=
  {| be_address := b!"10.0.0.5"; be_port := 8443; be_protocol := backend_https; be_host := b!"shop.example:8443"; be_tls_sni := [];
     be_tls_verify_certificate := true; be_connect_timeout_seconds := 5; be_response_timeout_seconds := 30; be_keep_alive := true |}.
Definition sample_started : Probe := settled (start 1000 (ProbeState sample_backend [])).
Definition sample_handshaking : Probe :=
  step sample_message (EConnected None b!"10.0.0.5" 8443) 2500000 [] (step sample_message (EResolved None true) 2000000 [] sample_started).
Definition sample_probe : Probe := step sample_message (EHandshake None) 4001000 [] sample_handshaking.

Example sample_result : completions sample_probe =
  [{| pr_success := true; pr_protocol := b!"https"; pr_remote_address := b!"10.0.0.5"; pr_remote_port := 8443;
      pr_latency_ms := dbl 4; pr_tls_verified := true; pr_error := [] |}].
Proof. vm_compute. reflexivity. Qed.
Example sample_stream : tls_stream_ sample_handshaking = Some {| server_name := Some b!"shop.example"; verified_name := Some b!"shop.example" |}.
Proof. vm_compute. reflexivity. Qed.
(** The verification of the certificate fails. *)
Example sample_refused : (fun r => (pr_success r, pr_tls_verified r)) <$>
  completions (step sample_message (EHandshake (Some (reported 1))) 4001000 [] sample_handshaking) = [(false, false)].
Proof. vm_compute. reflexivity. Qed.

Lemma probe_completes_once_witness : finished_ sample_handshaking = false /\
  finished_ (step sample_message (ETimer false) 5000001000 [] sample_handshaking) = true.
Proof.
  split; [vm_compute; reflexivity|].
  refine (proj2 (proj1 (proj2 (probe_completes_once sample_message sample_backend [EConnected None b!"10.0.0.5" 8443; EResolved None true] sample_handshaking _)) _) _ _).
  - apply history_step; [|vm_compute; reflexivity]. apply history_step; [|vm_compute; reflexivity].
    apply (history_start _ _ 1000 []). reflexivity.
  - vm_compute. reflexivity.
Defined.

Lemma probe_reports_truth_witness : tls_stream_ sample_handshaking = prepared_stream sample_backend.
Proof.
  refine (proj2 (probe_reports_truth sample_message sample_backend [EConnected None b!"10.0.0.5" 8443; EResolved None true] sample_handshaking _) _).
  - apply history_step; [|vm_compute; reflexivity]. apply history_step; [|vm_compute; reflexivity].
    apply (history_start _ _ 1000 []). reflexivity.
  - vm_compute. reflexivity.
Defined.
End Samples.
