(* ===== verification/TlsContextManager.v ===== *)
(** * TLS contexts and SNI (src/src/tls/TlsContextManager.{hpp,cpp})

    Certificates bound to domains, the table that maps a server name to a
    context, and the SNI callback.  OpenSSL (reading PEM data, checking dates,
    host names and keys, switching the context of a connection) is the interface
    [OpenSsl].  A context is the index of its certificate in [contexts]. *)

From stdpp Require Import sorting.
From S2P Require Import Prelude HostNormalizer.

Record TlsCertificateConfig := {
  tc_name : str;
  tc_domains : list str;
  tc_certificate_chain_file : str;
  tc_private_key_file : str;
  tc_is_default : bool;
  tc_certificate_chain_pem : str;
  tc_private_key_pem : str
}.

(** What the code uses of OpenSSL. *)
Class OpenSsl := {
  X509 : Type;
  bio_new_file : str -> bool;                    (* the file can be opened *)
  pem_read_file : str -> option X509;
  bio_new_mem_buf : str -> bool;
  pem_read_mem : str -> option X509;
  error_text : str;                              (* openssl_error_text() *)
  cmp_not_before : X509 -> Z;                    (* X509_cmp_current_time(notBefore) *)
  cmp_not_after : X509 -> Z;
  x509_check_host : X509 -> str -> Z;
  configure_context : TlsCertificateConfig -> option str   (* what() of a failed set-up *)
}.

(** [SslContextHolder]. *)
Record SslContextHolder := {
  ctx_name : str;
  exact_domains : list str;
  wildcard_domains : list str
}.

Record Manager := {
  contexts : list SslContextHolder;
  default_context : option nat;
  exact_contexts : gmap str nat;
  wildcard_contexts : list (str * nat);
  reject_unknown_sni : bool
}.

Local Notation "'throwing' e" := (Throw (invalid_argument e)) (at level 10).

Section TlsContextManager.
Context `{OpenSsl}.

(** ** Certificates *)

Definition load_leaf_certificate (path : str) : res X509 :=
  if negb (bio_new_file path) then
    throwing (b!"cannot open certificate file '" ++ path ++ b!"': " ++ error_text)
  else match pem_read_file path with
       | None => throwing (b!"cannot parse PEM certificate file '" ++ path ++ b!"': " ++ error_text)
       | Some certificate => Ok certificate
       end.

Definition load_leaf_certificate_pem (pem name : str) : res X509 :=
  if negb (bio_new_mem_buf pem) then
    Throw (runtime_error (b!"cannot allocate certificate parser for '" ++ name ++ b!"'"))
  else match pem_read_mem pem with
       | None => throwing (b!"cannot parse PEM certificate '" ++ name ++ b!"': " ++ error_text)
       | Some certificate => Ok certificate
       end.

Definition certificate_probe_name (configured_domain : str) : str :=
  if starts_with b!"*." configured_domain
  then b!"certificate-check." ++ drop 2 configured_domain
  else configured_domain.

Definition validate_certificate (certificate : X509) (certificate_name : str)
    (normalized_patterns : list str) : res unit :=
  if 0 <=? cmp_not_before certificate then
    throwing (b!"certificate '" ++ certificate_name ++ b!"' is not valid yet")
  else if cmp_not_after certificate <=? 0 then
    throwing (b!"certificate '" ++ certificate_name ++ b!"' has expired")
  else
    res_fold (fun domain _ =>
                if negb (x509_check_host certificate (certificate_probe_name domain) =? 1) then
                  throwing (b!"certificate '" ++ certificate_name ++ b!"' does not cover domain " ++ domain)
                else Ok tt) normalized_patterns tt.

(** The loop variables of [normalize_domains]: patterns, exact and wildcard
    domains (the set of unique patterns is the set of [patterns]). *)
Record Domains := { dom_patterns : list str; dom_exact : list str; dom_wildcard : list str }.

Definition normalize_pattern (certificate_name pattern : str) (d : Domains) : res Domains :=
  let wildcard := starts_with b!"*." pattern in
  match normalize_domain (if wildcard then drop 2 pattern else pattern) with
  | None => throwing (b!"invalid TLS certificate domain: " ++ pattern)
  | Some normalized =>
      if wildcard && negb (contains_char "." normalized) then
        throwing (b!"TLS wildcard domain is too broad: " ++ pattern)
      else
        let normalized_pattern := if wildcard then b!"*." ++ normalized else normalized in
        if bool_decide (normalized_pattern ∈ dom_patterns d) then
          throwing (b!"duplicate domain on TLS certificate '" ++ certificate_name ++ b!"': " ++ pattern)
        else Ok {| dom_patterns := dom_patterns d ++ [normalized_pattern];
                   dom_exact := if wildcard then dom_exact d else dom_exact d ++ [normalized];
                   dom_wildcard := if wildcard then dom_wildcard d ++ [normalized] else dom_wildcard d |}
  end.

Definition normalize_domains (config : TlsCertificateConfig) (certificate_name : str) : res Domains :=
  if bool_decide (tc_domains config = []) then
    throwing (b!"TLS certificate '" ++ certificate_name ++ b!"' must bind at least one domain")
  else res_fold (normalize_pattern certificate_name) (tc_domains config)
         {| dom_patterns := []; dom_exact := []; dom_wildcard := [] |}.

Definition make_holder (config : TlsCertificateConfig) : res SslContextHolder :=
  let name := tc_name config in
  let no_pem := bool_decide (tc_certificate_chain_pem config = []) in
  let no_key := bool_decide (tc_private_key_pem config = []) in
  let inline_pem := negb no_pem || negb no_key in
  if bool_decide (name = []) then throwing b!"TLS certificate name cannot be empty"
  else if inline_pem && (no_pem || no_key) then
    throwing (b!"TLS certificate '" ++ name ++ b!"' must provide both certificate PEM and private key PEM")
  else if negb inline_pem && (bool_decide (tc_certificate_chain_file config = []) ||
                              bool_decide (tc_private_key_file config = [])) then
    throwing (b!"TLS certificate and private-key paths cannot be empty for '" ++ name ++ b!"'")
  else
    domains ← normalize_domains config name;
    leaf ← (if inline_pem then load_leaf_certificate_pem (tc_certificate_chain_pem config) name
            else load_leaf_certificate (tc_certificate_chain_file config));
    _ ← validate_certificate leaf name (dom_patterns domains);
    match configure_context config with
    | Some what => throwing (b!"failed to create TLS context '" ++ name ++ b!"': " ++ what)
    | None => Ok {| ctx_name := name; exact_domains := dom_exact domains;
                    wildcard_domains := dom_wildcard domains |}
    end.

(** ** The manager *)

(** [suffix] with exactly one more label in front. *)
Definition one_label_under (suffix normalized_host : str) : bool :=
  (length suffix <? length normalized_host)%nat && ends_with suffix normalized_host &&
  bool_decide (normalized_host !! (length normalized_host - length suffix - 1)%nat = Some "."%char) &&
  negb (contains_char "." (take (length normalized_host - length suffix - 1) normalized_host)).

Definition matches_domain (holder : SslContextHolder) (normalized_host : str) : bool :=
  bool_decide (normalized_host ∈ exact_domains holder) ||
  existsb (fun suffix => one_label_under suffix normalized_host) (wildcard_domains holder).

(** The first loop: names are unique; how many certificates are the default. *)
Definition count_default (config : TlsCertificateConfig) (acc : gset str * nat) : res (gset str * nat) :=
  if bool_decide (tc_name config ∈ acc.1) then
    throwing (b!"duplicate TLS certificate name: " ++ tc_name config)
  else Ok ({[tc_name config]} ∪ acc.1, (acc.2 + if tc_is_default config then 1 else 0)%nat).

Definition add_exact (index : nat) (domain : str) (m : Manager) : res Manager :=
  match exact_contexts m !! domain with
  | Some _ => throwing (b!"duplicate TLS certificate domain: " ++ domain)
  | None => Ok {| contexts := contexts m; default_context := default_context m;
                  exact_contexts := <[domain := index]> (exact_contexts m);
                  wildcard_contexts := wildcard_contexts m; reject_unknown_sni := reject_unknown_sni m |}
  end.

Definition add_wildcard (index : nat) (suffix : str) (m : Manager) : res Manager :=
  if bool_decide (suffix ∈ (wildcard_contexts m).*1) then
    throwing (b!"duplicate TLS certificate domain: *." ++ suffix)
  else Ok {| contexts := contexts m; default_context := default_context m;
             exact_contexts := exact_contexts m;
             wildcard_contexts := wildcard_contexts m ++ [(suffix, index)];
             reject_unknown_sni := reject_unknown_sni m |}.

Definition add_certificate (default_count : nat) (config : TlsCertificateConfig) (m : Manager)
    : res Manager :=
  holder ← make_holder config;
  let index := length (contexts m) in
  let becomes_default := tc_is_default config ||
                         (bool_decide (default_context m = None) && (default_count =? 0)%nat) in
  m ← res_fold (add_exact index) (exact_domains holder)
        {| contexts := contexts m;
           default_context := if becomes_default then Some index else default_context m;
           exact_contexts := exact_contexts m; wildcard_contexts := wildcard_contexts m;
           reject_unknown_sni := reject_unknown_sni m |};
  m ← res_fold (add_wildcard index) (wildcard_domains holder) m;
  Ok {| contexts := contexts m ++ [holder]; default_context := default_context m;
        exact_contexts := exact_contexts m; wildcard_contexts := wildcard_contexts m;
        reject_unknown_sni := reject_unknown_sni m |}.

Definition longer_suffix (left right : str * nat) : Prop := (length right.1 <= length left.1)%nat.
#[local] Instance longer_suffix_dec : RelDecision longer_suffix.
Proof. intros x y. unfold longer_suffix. apply _. Defined.

Definition TlsContextManager (certificates : list TlsCertificateConfig) (reject_unknown : bool)
    : res Manager :=
  if bool_decide (certificates = []) then
    throwing b!"HTTPS listener requires at least one TLS certificate"
  else
    counted ← res_fold count_default certificates (∅, 0%nat);
    if (1 <? counted.2)%nat then throwing b!"only one TLS certificate can be the default"
    else
      m ← res_fold (add_certificate counted.2) certificates
            {| contexts := []; default_context := None; exact_contexts := ∅;
               wildcard_contexts := []; reject_unknown_sni := reject_unknown |};
      Ok {| contexts := contexts m; default_context := default_context m;
            exact_contexts := exact_contexts m;
            wildcard_contexts := merge_sort longer_suffix (wildcard_contexts m);
            reject_unknown_sni := reject_unknown_sni m |}.

Fixpoint find_wildcard (table : list (str * nat)) (normalized_host : str) : option nat :=
  match table with
  | [] => None
  | (suffix, context) :: table' =>
      if one_label_under suffix normalized_host then Some context
      else find_wildcard table' normalized_host
  end.

Definition find (m : Manager) (normalized_host : str) : option nat :=
  match exact_contexts m !! normalized_host with
  | Some context => Some context
  | None => find_wildcard (wildcard_contexts m) normalized_host
  end.

Definition can_serve_domain (m : Manager) (domain_pattern : str) : bool :=
  let wildcard := starts_with b!"*." domain_pattern in
  match normalize_domain (if wildcard then drop 2 domain_pattern else domain_pattern) with
  | None => false
  | Some normalized =>
      if wildcard then
        existsb (fun context => bool_decide (normalized ∈ wildcard_domains context)) (contexts m)
      else
        match find m normalized with
        | None => false
        | Some selected =>
            match contexts m !! selected with
            | Some context => matches_domain context normalized
            | None => false
            end
        end
  end.

(** ** The SNI callback *)

Record TlsConnectionState := { selected_context : option nat; sni_host : option str }.

Inductive sni_result := tlsext_ok | alert_unrecognized_name | alert_internal_error.
#[export] Instance sni_result_eq_dec : EqDecision sni_result.
Proof. solve_decision. Defined.

Definition initialize_connection (m : Manager) : TlsConnectionState :=
  {| selected_context := default_context m; sni_host := None |}.

(** [switch_ok] is the outcome of [SSL_set_SSL_CTX]. *)
Definition server_name_callback (m : Manager) (server_name : option str) (switch_ok : bool)
    (state : TlsConnectionState) : sni_result * TlsConnectionState :=
  match server_name with
  | None => (tlsext_ok, {| selected_context := default_context m; sni_host := None |})
  | Some name =>
      let normalized := normalize_domain name in
      match normalized ≫= find m with
      | None =>
          if reject_unknown_sni m then (alert_unrecognized_name, state)
          else (tlsext_ok, {| selected_context := default_context m; sni_host := normalized |})
      | Some selected =>
          if negb switch_ok then (alert_internal_error, state)
          else (tlsext_ok, {| selected_context := Some selected; sni_host := normalized |})
      end
  end.

(** ** What the manager's tables mean *)

(** [host] is [suffix] with one label, free of dots, in front. *)
Definition one_label (suffix host : str) : Prop :=
  exists label, "."%char ∉ label /\ host = label ++ b!"." ++ suffix.

Lemma one_label_under_spec suffix host : one_label_under suffix host = true <-> one_label suffix host.
Proof.
  unfold one_label_under, one_label.
  rewrite !andb_true_iff, Nat.ltb_lt, ends_with_spec, bool_decide_eq_true, negb_true_iff, contains_char_false.
  split.
  - intros [[[Hlen (t & ->)] Hdot] Hno]. rewrite length_app in *.
    replace (length t + length suffix - length suffix - 1)%nat with (pred (length t)) in * by lia.
    rewrite lookup_app_l in Hdot by lia. rewrite <- last_lookup in Hdot.
    apply last_Some in Hdot as [l ->]. exists l. split; [|by rewrite <- app_assoc].
    rewrite length_app in Hno. cbn in Hno. rewrite <- app_assoc in Hno.
    replace (pred (length l + 1)) with (length l) in Hno by lia. by rewrite take_app_length in Hno.
  - intros (l & Hl & ->). rewrite !length_app. cbn.
    replace (length l + S (length suffix) - length suffix - 1)%nat with (length l) by lia.
    split; [split; [split; [lia|]|]|].
    + exists (l ++ b!"."). by rewrite <- app_assoc.
    + by rewrite list_lookup_middle.
    + by rewrite take_app_length.
Qed.

Lemma matches_domain_spec holder host :
  matches_domain holder host = true <->
  host ∈ exact_domains holder \/ exists s, s ∈ wildcard_domains holder /\ one_label s host.
Proof.
  unfold matches_domain. rewrite orb_true_iff, bool_decide_eq_true, existsb_exists.
  setoid_rewrite one_label_under_spec. by setoid_rewrite <- list_elem_of_In.
Qed.

(** The tables agree with the domains of the contexts [holders]. *)
Record covering (holders : list SslContextHolder) (m : Manager) : Prop := {
  cov_exact : forall d i, exact_contexts m !! d = Some i <->
                exists h, holders !! i = Some h /\ d ∈ exact_domains h;
  cov_wild : forall s i, (s, i) ∈ wildcard_contexts m <->
               exists h, holders !! i = Some h /\ s ∈ wildcard_domains h;
  cov_nodup : NoDup (wildcard_contexts m).*1
}.

Definition same_but_tables (m m' : Manager) : Prop :=
  contexts m' = contexts m /\ default_context m' = default_context m /\
  reject_unknown_sni m' = reject_unknown_sni m.

Lemma add_exacts index ds m m' :
  res_fold (add_exact index) ds m = Ok m' ->
  (forall d i, exact_contexts m' !! d = Some i <->
     exact_contexts m !! d = Some i \/ (d ∈ ds /\ i = index)) /\
  wildcard_contexts m' = wildcard_contexts m /\ same_but_tables m m'.
Proof.
  revert m. induction ds as [|x ds IH]; cbn; intros m.
  - intros [= <-]. split; [|done]. intros d i. split; [auto|]. intros [?|[?%elem_of_nil _]]; done.
  - unfold add_exact at 1. destruct (exact_contexts m !! x) as [j|] eqn:E; [done|].
    intros Hf. destruct (IH _ Hf) as (He & Hw & Hs1 & Hs2 & Hs3). cbn in *. split; [|done].
    intros d i. rewrite He. destruct (decide (d = x)) as [->|Hne].
    + rewrite lookup_insert_eq, E. set_solver.
    + rewrite lookup_insert_ne by done. set_solver.
Qed.

Lemma add_wildcards index ss m m' :
  NoDup (wildcard_contexts m).*1 -> res_fold (add_wildcard index) ss m = Ok m' ->
  (forall s i, (s, i) ∈ wildcard_contexts m' <->
     (s, i) ∈ wildcard_contexts m \/ (s ∈ ss /\ i = index)) /\
  NoDup (wildcard_contexts m').*1 /\
  exact_contexts m' = exact_contexts m /\ same_but_tables m m'.
Proof.
  revert m. induction ss as [|x ss IH]; cbn; intros m Hnd.
  - intros [= <-]. split; [|done]. intros d i. split; [auto|]. intros [?|[?%elem_of_nil _]]; done.
  - unfold add_wildcard at 1. case_bool_decide as Hdup; [done|]. intros Hf.
    assert (Hnd' : NoDup (wildcard_contexts m ++ [(x, index)]).*1).
    { rewrite fmap_app. cbn. apply NoDup_app. split_and!; [done|set_solver|apply NoDup_singleton]. }
    eapply IH in Hf as (He & Hn & Hw & Hs1 & Hs2 & Hs3); [|exact Hnd']. cbn in *. split; [|done]. intros s i. rewrite He, elem_of_app, list_elem_of_singleton. set_solver.
Qed.

(** Each certificate adds its own domains under its own index. *)
Lemma add_certificate_covering dc config m m' :
  covering (contexts m) m -> add_certificate dc config m = Ok m' ->
  covering (contexts m') m' /\ reject_unknown_sni m' = reject_unknown_sni m /\
  length (contexts m') = S (length (contexts m)) /\
  default_context m' = (if tc_is_default config ||
                           (bool_decide (default_context m = None) && (dc =? 0)%nat)
                        then Some (length (contexts m)) else default_context m).
Proof.
  intros [He Hw Hn] Hadd. unfold add_certificate in Hadd. res_inv.
  match goal with Hx : res_fold (add_exact _) _ _ = Ok ?m1 |- _ =>
    destruct (add_exacts _ _ _ _ Hx) as (He1 & Hw1 & Hc1 & Hd1 & Hr1); clear Hx end.
  cbn in *. match goal with Hx : res_fold (add_wildcard _) _ ?m1 = Ok ?m2 |- _ =>
    destruct (add_wildcards _ _ m1 _ ltac:(by rewrite Hw1) Hx) as (Hw2 & Hn2 & He2 & Hc2 & Hd2 & Hr2); clear Hx end.
  rewrite Hw1 in Hw2. rewrite Hc2, Hc1, Hd2, Hd1, Hr2, Hr1. split_and!; [|done|by rewrite length_app, Nat.add_1_r|done].
  constructor; cbn; [| |done].
  - intros d i. rewrite He2, He1, He. setoid_rewrite lookup_snoc_Some. split.
    + intros [(h & Hi & Hd)|[Hd ->]]; [exists h; split; [left; split; [by eapply lookup_lt_Some|done]|done]|eauto].
    + intros (h & [[_ Hi]|[-> <-]] & Hd); [left; eauto|auto].
  - intros s i. rewrite Hw2, Hw. setoid_rewrite lookup_snoc_Some. split.
    + intros [(h & Hi & Hd)|[Hd ->]]; [exists h; split; [left; split; [by eapply lookup_lt_Some|done]|done]|eauto].
    + intros (h & [[_ Hi]|[-> <-]] & Hd); [left; eauto|auto].
Qed.

(** ** The constructor *)

Definition flagged (configs : list TlsCertificateConfig) : nat :=
  length (filter (fun c => tc_is_default c = true) configs).
Arguments flagged : simpl never.

Lemma flagged_cons c configs :
  flagged (c :: configs) = ((if tc_is_default c then 1 else 0) + flagged configs)%nat.
Proof. unfold flagged. rewrite filter_cons. destruct (tc_is_default c); case_decide; done. Qed.

Lemma count_default_spec configs acc acc' :
  res_fold count_default configs acc = Ok acc' -> acc'.2 = (acc.2 + flagged configs)%nat.
Proof.
  revert acc. induction configs as [|c configs IH]; cbn; intros acc; [intros [= <-]; change (flagged []) with 0%nat; lia|].
  unfold count_default at 1. case_bool_decide; [done|]. intros Hf. rewrite (IH _ Hf), flagged_cons. cbn. lia.
Qed.

(** After the certificates [done], the default is the flagged one, or the first
    when none is flagged. *)
Definition default_inv (dc : nat) (done : list TlsCertificateConfig) (m : Manager) : Prop :=
  length (contexts m) = length done /\
  match default_context m with
  | Some i => exists c, done !! i = Some c /\ (tc_is_default c = true \/ (i = 0%nat /\ dc = 0%nat))
  | None => done = [] \/ (dc <> 0%nat /\ flagged done = 0%nat)
  end.

Lemma flagged_snoc configs c :
  flagged (configs ++ [c]) = (flagged configs + if tc_is_default c then 1 else 0)%nat.
Proof.
  unfold flagged. rewrite filter_app, length_app. fold (flagged configs). fold (flagged [c]).
  rewrite flagged_cons. change (flagged []) with 0%nat. lia.
Qed.

Lemma add_certificate_default dc config m m' done :
  covering (contexts m) m -> default_inv dc done m -> add_certificate dc config m = Ok m' ->
  default_inv dc (done ++ [config]) m'.
Proof.
  intros Hcov [Hlen Hdef] Hadd.
  destruct (add_certificate_covering _ _ _ _ Hcov Hadd) as (_ & _ & Hlen' & Hd').
  split; [rewrite Hlen', length_app, Hlen; cbn; lia|]. rewrite Hd', Hlen.
  destruct (tc_is_default config) eqn:Ef; cbn [orb].
  - exists config. by rewrite list_lookup_middle; auto.
  - destruct (default_context m) as [i|]; cbn.
    + destruct Hdef as (c & Hc & Hwhy). exists c. split; [by apply lookup_app_l_Some|done].
    + destruct (Nat.eqb_spec dc 0) as [Hz|Hz]; cbn.
      * destruct Hdef as [->|[? _]]; [|done]. exists config. auto.
      * right. split; [done|]. rewrite flagged_snoc, Ef. destruct Hdef as [->|[_ ->]]; done.
Qed.

Lemma add_certificates_inv dc configs done m m' :
  covering (contexts m) m -> default_inv dc done m ->
  res_fold (add_certificate dc) configs m = Ok m' ->
  covering (contexts m') m' /\ default_inv dc (done ++ configs) m' /\
  reject_unknown_sni m' = reject_unknown_sni m.
Proof.
  revert done m. induction configs as [|c configs IH]; cbn; intros done m Hc Hd.
  - intros [= <-]. by rewrite app_nil_r.
  - destruct (add_certificate dc c m) as [m1|] eqn:E; [|done]. intros Hf.
    destruct (add_certificate_covering _ _ _ _ Hc E) as (Hc1 & Hr1 & _ & _).
    destruct (IH _ _ Hc1 (add_certificate_default _ _ _ _ _ Hc Hd E) Hf) as (? & Hd2 & Hr2).
    rewrite <- app_assoc in Hd2. split_and!; [done|done|congruence].
Qed.

Lemma no_certificates_covering reject :
  let m := {| contexts := []; default_context := None; exact_contexts := ∅;
              wildcard_contexts := []; reject_unknown_sni := reject |} in covering (contexts m) m.
Proof.
  constructor; cbn; [|intros; split; [set_solver|by intros (? & ? & _)]|constructor].
  intros d i. rewrite lookup_empty. split; [done|by intros (? & ? & _)].
Qed.

Lemma no_certificates_default dc reject :
  default_inv dc [] {| contexts := []; default_context := None; exact_contexts := ∅;
                       wildcard_contexts := []; reject_unknown_sni := reject |}.
Proof. split; [done|by left]. Qed.

Lemma manager_inv certificates reject m :
  TlsContextManager certificates reject = Ok m ->
  covering (contexts m) m /\ reject_unknown_sni m = reject /\
  exists i c, default_context m = Some i /\ certificates !! i = Some c /\
    (i < length (contexts m))%nat /\
    (tc_is_default c = true \/ (i = 0%nat /\ flagged certificates = 0%nat)).
Proof.
  unfold TlsContextManager. case_bool_decide as Hne; [done|]. intros Hm. res_inv.
  match goal with Hx : res_fold count_default _ _ = Ok ?a |- _ => destruct a as [names dc]; apply count_default_spec in Hx end.
  cbn in *. case_match; [done|]. res_inv.
  match goal with Hx : res_fold (add_certificate _) _ _ = Ok _ |- _ =>
    destruct (add_certificates_inv _ _ [] _ _ (no_certificates_covering reject) (no_certificates_default _ reject) Hx)
      as ([He Hw Hn] & [Hlen Hdef] & Hr) end.
  cbn in *. pose proof (merge_sort_Permutation longer_suffix (wildcard_contexts a)) as Hperm. split_and!.
  - constructor; cbn; [done|intros; by rewrite Hperm|by rewrite Hperm].
  - done.
  - destruct (default_context a) as [i|].
    + destruct Hdef as (c & Hc & Hwhy). exists i, c. split_and!; try done.
      rewrite Hlen. by eapply lookup_lt_Some.
    + destruct Hdef as [->|[? ?]]; [done|lia].
Qed.

Lemma find_wildcard_Some table host i :
  find_wildcard table host = Some i -> exists s, (s, i) ∈ table /\ one_label s host.
Proof.
  induction table as [|[s j] table IH]; cbn; [done|]. destruct (one_label_under s host) eqn:E.
  - intros [= ->]. exists s. split; [by left|by apply one_label_under_spec].
  - intros (x & Hx & Ho)%IH. exists x. split; [by right|done].
Qed.

Lemma find_wildcard_None table host s i :
  find_wildcard table host = None -> (s, i) ∈ table -> ~ one_label s host.
Proof.
  induction table as [|[x j] table IH]; cbn; [set_solver|]. destruct (one_label_under x host) eqn:E; [done|].
  intros Hf [[= -> ->]|Hin]%elem_of_cons Ho; [|by eapply IH].
  apply one_label_under_spec in Ho. congruence.
Qed.

(** Whatever [find] returns is a context whose certificate is for the host, and
    it misses no such context. *)
Lemma find_sound m host i :
  covering (contexts m) m -> find m host = Some i ->
  exists h, contexts m !! i = Some h /\ matches_domain h host = true.
Proof.
  intros [He Hw _]. unfold find. destruct (exact_contexts m !! host) as [j|] eqn:E.
  - intros [= ->]. apply He in E as (h & Hh & Hd). exists h. split; [done|]. apply matches_domain_spec. auto.
  - intros (s & Hs & Ho)%find_wildcard_Some. apply Hw in Hs as (h & Hh & Hd).
    exists h. split; [done|]. apply matches_domain_spec. eauto.
Qed.

Lemma find_complete m host i h :
  covering (contexts m) m -> contexts m !! i = Some h -> matches_domain h host = true ->
  is_Some (find m host).
Proof.
  intros [He Hw _] Hh Hm. apply matches_domain_spec in Hm as [Hd|(s & Hs & Ho)]; unfold find.
  - assert (exact_contexts m !! host = Some i) as -> by (apply He; eauto). by eexists.
  - destruct (exact_contexts m !! host); [by eexists|].
    destruct (find_wildcard (wildcard_contexts m) host) eqn:E; [by eexists|].
    exfalso. eapply find_wildcard_None; [exact E| |exact Ho]. apply Hw. eauto.
Qed.

(** The hosts a configured pattern announces to TLS clients: the domain itself,
    or one label under a wildcard. *)
Definition announced (domain_pattern host : str) : Prop :=
  if starts_with b!"*." domain_pattern
  then exists d, normalize_domain (drop 2 domain_pattern) = Some d /\ one_label d host
  else normalize_domain domain_pattern = Some host.

Lemma can_serve_find m domain_pattern host :
  covering (contexts m) m -> can_serve_domain m domain_pattern = true ->
  announced domain_pattern host ->
  exists i h, find m host = Some i /\ contexts m !! i = Some h /\ matches_domain h host = true.
Proof.
  intros Hcov Hserve Hann. cut (is_Some (find m host)).
  { intros [i Hi]. destruct (find_sound _ _ _ Hcov Hi) as (h & ? & ?). eauto. }
  unfold can_serve_domain, announced in *. destruct (starts_with b!"*." domain_pattern).
  - destruct Hann as (d & Hd & Ho). rewrite Hd in Hserve. apply existsb_exists in Hserve as (h & Hin & Hw).
    apply bool_decide_eq_true in Hw. apply list_elem_of_In, list_elem_of_lookup in Hin as [i Hi].
    eapply find_complete; [done|exact Hi|]. apply matches_domain_spec. eauto.
  - rewrite Hann in Hserve. by destruct (find m host).
Qed.

(** *** A context and the certificate it was built from *)

Lemma add_wildcards_contexts index l m m' : res_fold (add_wildcard index) l m = Ok m' -> contexts m' = contexts m.
Proof.
  intros E. apply (res_fold_keeps (fun x => contexts x = contexts m)) in E; [done| |done].
  intros x m1 m2 Hm. unfold add_wildcard. case_bool_decide; [done|]. by intros [= <-].
Qed.

Lemma add_certificate_holder dc config m m' : add_certificate dc config m = Ok m' ->
  exists h, make_holder config = Ok h /\ contexts m' = contexts m ++ [h].
Proof.
  intros Hadd. unfold add_certificate in Hadd. res_inv. eexists. split; [done|]. cbn. f_equal.
  match goal with E : res_fold (add_exact _) _ _ = Ok _, F : res_fold (add_wildcard _) _ _ = Ok _ |- _ =>
    rewrite (add_wildcards_contexts _ _ _ _ F); apply (add_exacts _ _ _ _) in E as (_ & _ & E & _); exact E end.
Qed.

Lemma contexts_configured certificates reject m : TlsContextManager certificates reject = Ok m ->
  Forall2 (fun c h => make_holder c = Ok h) certificates (contexts m).
Proof.
  assert (Hgo : forall dc configs done m m', Forall2 (fun c h => make_holder c = Ok h) done (contexts m) ->
    res_fold (add_certificate dc) configs m = Ok m' -> Forall2 (fun c h => make_holder c = Ok h) (done ++ configs) (contexts m')).
  { intros dc configs. induction configs as [|c configs IH]; intros done m0 m1 Hd; cbn [res_fold].
    - intros [= <-]. by rewrite app_nil_r.
    - destruct (add_certificate dc c m0) as [m2|] eqn:E; [|done]. intros Hf.
      apply add_certificate_holder in E as (h & Eh & Ec). rewrite (app_assoc done [c] configs : done ++ c :: configs = _).
      eapply IH; [|exact Hf]. rewrite Ec. apply Forall2_app; [done|]. by repeat constructor. }
  unfold TlsContextManager. case_bool_decide as Hne; [done|]. intros Hm. res_inv. cbn in *. case_match; [done|]. res_inv. cbn.
  match goal with Hx : res_fold (add_certificate _) _ _ = Ok _ |- _ => by apply (Hgo _ _ [] _ _) in Hx end.
Qed.

(** The domains of a context are those of its certificate. *)
Lemma normalized_patterns name patterns d d' : res_fold (normalize_pattern name) patterns d = Ok d' ->
  (forall x, x ∈ dom_exact d' -> x ∈ dom_exact d \/
     exists p, p ∈ patterns /\ starts_with b!"*." p = false /\ normalize_domain p = Some x) /\
  (forall x, x ∈ dom_wildcard d' -> x ∈ dom_wildcard d \/
     exists p, p ∈ patterns /\ starts_with b!"*." p = true /\ normalize_domain (drop 2 p) = Some x).
Proof.
  revert d. induction patterns as [|p patterns IH]; intros d; cbn [res_fold]; [intros [= <-]; auto|].
  destruct (normalize_pattern name p d) as [d1|] eqn:E; [|done]. intros [He Hw]%IH.
  assert (Hd1 : (forall x, x ∈ dom_exact d1 -> x ∈ dom_exact d \/ starts_with b!"*." p = false /\ normalize_domain p = Some x) /\
    (forall x, x ∈ dom_wildcard d1 -> x ∈ dom_wildcard d \/ starts_with b!"*." p = true /\ normalize_domain (drop 2 p) = Some x)).
  { unfold normalize_pattern in E. cbv zeta in E. destruct (starts_with b!"*." p).
    - destruct (normalize_domain (drop 2 p)) as [n|]; [|done]. destruct (_ && _); [done|]. case_bool_decide; [done|].
      injection E as <-. cbn. split; [by left|]. intros x. rewrite elem_of_app, list_elem_of_singleton. naive_solver.
    - destruct (normalize_domain p) as [n|]; [|done]. destruct (_ && _); [done|]. case_bool_decide; [done|].
      injection E as <-. cbn. split; [|by left]. intros x. rewrite elem_of_app, list_elem_of_singleton. naive_solver. }
  destruct Hd1 as [He1 Hw1]. split; intros x Hx.
  - destruct (He x Hx) as [[?|?]%He1|(q & ? & ?)]; [by left|right; exists p; split; [left|done]|right; exists q; split; [by right|done]].
  - destruct (Hw x Hx) as [[?|?]%Hw1|(q & ? & ?)]; [by left|right; exists p; split; [left|done]|right; exists q; split; [by right|done]].
Qed.

(** A domain configured for the certificate covers the host. *)
Definition covers (config : TlsCertificateConfig) (host : str) : Prop :=
  exists pattern, pattern ∈ tc_domains config /\ announced pattern host.

Lemma holder_covers config h host : make_holder config = Ok h -> matches_domain h host = true -> covers config host.
Proof.
  intros Hh Hm. unfold make_holder in Hh. cbv zeta in Hh. case_bool_decide; [done|]. destruct (_ && _); [done|].
  destruct (_ && _); [done|]. destruct (normalize_domains _ _) as [ds|] eqn:Ed; [|done]. cbn [mbind res_bind] in Hh.
  destruct (if negb _ || _ then _ else _); [|done]. cbn [mbind res_bind] in Hh.
  destruct (validate_certificate _ _ _); [|done]. cbn [mbind res_bind] in Hh.
  destruct (configure_context config); [done|]. injection Hh as <-.
  unfold normalize_domains in Ed. case_bool_decide; [done|]. apply normalized_patterns in Ed as [He Hw].
  apply matches_domain_spec in Hm as [Hin|(s & Hin & Ho)]; cbn in Hin.
  - destruct (He _ Hin) as [?%elem_of_nil|(p & Hp & Hs & Hn)]; [done|]. exists p. split; [done|]. unfold announced. by rewrite Hs.
  - destruct (Hw _ Hin) as [?%elem_of_nil|(p & Hp & Hs & Hn)]; [done|]. exists p. split; [done|]. unfold announced. rewrite Hs. eauto.
Qed.

(** ** Main theorems *)

(** The SNI callback never continues a handshake under a wrong certificate.
    With unknown names rejected, whenever it lets the handshake go on, either
    the client named no server and gets the default certificate, or the chosen
    certificate is bound to the normalized name (exactly, or as a wildcard with
    one label in front); a name no certificate is bound to ends in an
    unrecognized-name alert and leaves the connection state alone. *)
Theorem sni_selects_covering_certificate certificates m server_name switch_ok state :
  TlsContextManager certificates true = Ok m ->
  let '(result, state') := server_name_callback m server_name switch_ok state in
  match server_name with
  | None => result = tlsext_ok /\ selected_context state' = default_context m /\
            is_Some (default_context m)
  | Some name =>
      match normalize_domain name with
      | Some host =>
          (result = tlsext_ok /\ sni_host state' = Some host /\
           exists i h, selected_context state' = Some i /\ contexts m !! i = Some h /\
                       matches_domain h host = true) \/
          (result = alert_internal_error /\ switch_ok = false /\ state' = state) \/
          (result = alert_unrecognized_name /\ state' = state /\
           forall i h, contexts m !! i = Some h -> matches_domain h host = false)
      | None => result = alert_unrecognized_name /\ state' = state
      end
  end.
Proof.
  intros (Hcov & Hrej & i & c & Hdef & _)%manager_inv. unfold server_name_callback.
  destruct server_name as [name|]; [|rewrite Hdef; by cbn].
  destruct (normalize_domain name) as [host|]; cbn [mbind option_bind]; [|by rewrite Hrej].
  destruct (find m host) as [j|] eqn:Ef.
  - destruct switch_ok; cbn; [|auto]. left. destruct (find_sound _ _ _ Hcov Ef) as (h & ? & ?).
    split_and!; [done|done|]. by exists j, h.
  - rewrite Hrej. right; right. split_and!; try done. intros k h Hh.
    destruct (matches_domain h host) eqn:Em; [|done].
    destruct (find_complete _ _ _ _ Hcov Hh Em) as [? ?]. congruence.
Qed.

(** [can_serve_domain] keeps its promise: if it accepts a domain pattern,
    every host the pattern announces (the domain, or any single label under a
    wildcard) selects a certificate bound to that host. *)
Theorem can_serve_domain_sound certificates reject m domain_pattern host :
  TlsContextManager certificates reject = Ok m ->
  can_serve_domain m domain_pattern = true -> announced domain_pattern host ->
  exists i h, find m host = Some i /\ contexts m !! i = Some h /\ matches_domain h host = true.
Proof. intros (Hcov & _)%manager_inv. by apply can_serve_find. Qed.

End TlsContextManager.

(** ** A concrete manager *)

(** Certificates that are always readable, valid and cover every name. *)
#[local] Instance permissive_openssl : OpenSsl :=
  {| X509 := unit; bio_new_file _ := true; pem_read_file _ := Some tt; bio_new_mem_buf _ := true;
     pem_read_mem _ := Some tt; error_text := []; cmp_not_before _ := -1; cmp_not_after _ := 1;
     x509_check_host _ _ := 1; configure_context _ := None |}.

Definition certificate (name : str) (domains : list str) (is_default : bool) : TlsCertificateConfig :=
  {| tc_name := name; tc_domains := domains; tc_certificate_chain_file := b!"c.pem";
     tc_private_key_file := b!"k.pem"; tc_is_default := is_default;
     tc_certificate_chain_pem := []; tc_private_key_pem := [] |}.

Definition sample_certificates : list TlsCertificateConfig :=
  [certificate b!"a" [b!"Example.com"; b!"*.example.com"] false;
   certificate b!"b" [b!"*.api.example.com"] true].

Definition sample_manager : Manager :=
  match TlsContextManager sample_certificates true with
  | Ok m => m
  | Throw _ => {| contexts := []; default_context := None; exact_contexts := ∅;
                  wildcard_contexts := []; reject_unknown_sni := true |}
  end.

Lemma sample_manager_accepted : TlsContextManager sample_certificates true = Ok sample_manager.
Proof. by vm_compute. Qed.

Example sample_selection :
  (find sample_manager b!"example.com", find sample_manager b!"x.api.example.com",
   find sample_manager b!"x.y.example.com", default_context sample_manager)
  = (Some 0%nat, Some 1%nat, None, Some 1%nat).
Proof. by vm_compute. Qed.

Lemma sni_selects_covering_certificate_witness :
  let state := initialize_connection sample_manager in
  let '(result, state') := server_name_callback sample_manager (Some b!"WWW.example.com.") true state in
  match Some b!"WWW.example.com." with
  | None => result = tlsext_ok /\ selected_context state' = default_context sample_manager /\
            is_Some (default_context sample_manager)
  | Some name =>
      match normalize_domain name with
      | Some host =>
          (result = tlsext_ok /\ sni_host state' = Some host /\
           exists i h, selected_context state' = Some i /\ contexts sample_manager !! i = Some h /\
                       matches_domain h host = true) \/
          (result = alert_internal_error /\ true = false /\ state' = state) \/
          (result = alert_unrecognized_name /\ state' = state /\
           forall i h, contexts sample_manager !! i = Some h -> matches_domain h host = false)
      | None => result = alert_unrecognized_name /\ state' = state
      end
  end.
Proof.
  exact (sni_selects_covering_certificate sample_certificates sample_manager (Some b!"WWW.example.com.")
           true (initialize_connection sample_manager) sample_manager_accepted).
Defined.

Lemma can_serve_domain_sound_witness :
  exists i h, find sample_manager b!"x.api.example.com" = Some i /\
    contexts sample_manager !! i = Some h /\ matches_domain h b!"x.api.example.com" = true.
Proof.
  apply (can_serve_domain_sound sample_certificates true sample_manager b!"*.api.example.com").
  - exact sample_manager_accepted.
  - by vm_compute.
  - exists b!"api.example.com". split; [by vm_compute|]. exists b!"x". split; [|reflexivity].
    intros Hin. apply list_elem_of_singleton in Hin. discriminate Hin.
Defined.
