(* ===== verification/RuntimeConfig.v ===== *)
(** * Runtime configuration (src/src/config/RuntimeConfig.{hpp,cpp})

    The constructor turns a specification into the immutable configuration a
    server runs on: one router per protocol and port, the TLS contexts and the
    client address resolver.  The store holds the published configuration. *)

From stdpp Require Import sorting.
From S2P Require Import Prelude IpAddress ClientIpResolver UrlAuthenticator RateLimiter RequestPolicy.
From S2P Require Import VirtualHostRouter TlsContextManager.

Inductive ListenerProtocol := listen_http | listen_https.
#[export] Instance ListenerProtocol_eq_dec : EqDecision ListenerProtocol.
Proof. solve_decision. Defined.

Record RuntimeSiteConfig := {
  rs_virtual_host : VirtualHostConfig;
  rs_http_enabled : bool;
  rs_http_port : Z;
  rs_https_enabled : bool;
  rs_https_port : Z
}.

Record RuntimeSettings := {
  trusted_proxy_cidrs : list str;
  real_ip_headers : list str;
  max_upload_bytes : Z;
  backend_keep_alive : bool;
  backend_pool_size : Z;
  client_header_timeout_seconds : Z;
  client_body_timeout_seconds : Z;
  client_write_timeout_seconds : Z;
  backend_connect_timeout_seconds : Z;
  backend_response_timeout_seconds : Z;
  backend_idle_timeout_seconds : Z;
  backend_idle_connection_ttl_seconds : Z
}.

Definition default_settings : RuntimeSettings :=
  {| trusted_proxy_cidrs := [];
     real_ip_headers := [b!"EO-Connecting-IP"; b!"CF-Connecting-IP"; b!"True-Client-IP"; b!"X-Forwarded-For"];
     max_upload_bytes := 64 * 1024 * 1024; backend_keep_alive := true; backend_pool_size := 32;
     client_header_timeout_seconds := 15; client_body_timeout_seconds := 120;
     client_write_timeout_seconds := 60; backend_connect_timeout_seconds := 5;
     backend_response_timeout_seconds := 60; backend_idle_timeout_seconds := 60;
     backend_idle_connection_ttl_seconds := 60 |}.

Record RuntimeConfigSpec := {
  spec_revision : Z;
  spec_sites : list RuntimeSiteConfig;
  spec_tls_certificates : list TlsCertificateConfig;
  spec_reject_unknown_sni : bool;
  spec_settings : RuntimeSettings
}.

Record Config := {
  revision : Z;
  http_ports : list Z;
  https_ports : list Z;
  http_routers : gmap Z Router;
  https_routers : gmap Z Router;
  http_site_counts : gmap Z nat;
  https_site_counts : gmap Z nat;
  tls_contexts : option Manager;
  settings : RuntimeSettings;
  resolver_ranges : list Range
}.

Local Notation "'throwing' e" := (Throw (invalid_argument e)) (at level 10).
Notation RoutesByPort := (gmap Z (list VirtualHostConfig)).

Definition sorted_ports (routes : RoutesByPort) : list Z := merge_sort Z.le (map_to_list routes).*1.

(** [routes[port].push_back(host)]. *)
Definition push_route (port : Z) (host : VirtualHostConfig) (routes : RoutesByPort) : RoutesByPort :=
  <[port := default [] (routes !! port) ++ [host]]> routes.

Section RuntimeConfig.
Context `{AddressText} `{Regex} `{OpenSsl}.

Definition build_router (entry : Z * list VirtualHostConfig) (output : gmap Z Router)
    : res (gmap Z Router) :=
  r ← VirtualHostRouter entry.2; Ok (<[entry.1 := r]> output).

Definition build_routers (routes : RoutesByPort) : res (gmap Z Router) :=
  res_fold build_router (map_to_list routes) ∅.

Definition valid_timeout (value : Z) : bool := (1 <=? value) && (value <=? 86400).

Definition check_settings (s : RuntimeSettings) : res unit :=
  if (max_upload_bytes s =? 0) || (16 * 1024 * 1024 * 1024 <? max_upload_bytes s) then
    throwing b!"maximum upload size must be between 1 byte and 16 GiB"
  else if 1024 <? backend_pool_size s then
    throwing b!"backend connection pool size cannot exceed 1024"
  else if negb (valid_timeout (client_header_timeout_seconds s)) ||
          negb (valid_timeout (client_body_timeout_seconds s)) ||
          negb (valid_timeout (client_write_timeout_seconds s)) ||
          negb (valid_timeout (backend_connect_timeout_seconds s)) ||
          negb (valid_timeout (backend_response_timeout_seconds s)) ||
          negb (valid_timeout (backend_idle_timeout_seconds s)) ||
          negb (valid_timeout (backend_idle_connection_ttl_seconds s)) then
    throwing b!"timeouts must be between 1 and 86400 seconds"
  else Ok tt.

(** One iteration of the loop over the sites: HTTP and HTTPS routes. *)
Definition add_site (site : RuntimeSiteConfig) (routes : RoutesByPort * RoutesByPort)
    : res (RoutesByPort * RoutesByPort) :=
  if negb (rs_http_enabled site) && negb (rs_https_enabled site) then
    throwing (b!"runtime site must enable at least one listener: " ++ vc_name (rs_virtual_host site))
  else
    Ok (if rs_http_enabled site then push_route (rs_http_port site) (rs_virtual_host site) routes.1
        else routes.1,
        if rs_https_enabled site then push_route (rs_https_port site) (rs_virtual_host site) routes.2
        else routes.2).

Definition check_shared_port (https_routes : RoutesByPort) (port : Z) (_ : unit) : res unit :=
  if negb (port =? 0) && bool_decide (is_Some (https_routes !! port)) then
    throwing (b!"HTTP and HTTPS cannot share listener port " ++ to_string port)
  else Ok tt.

(** Every domain of an HTTPS site needs a certificate. *)
Definition check_domain (m : Manager) (domain : str) (_ : unit) : res unit :=
  if negb (can_serve_domain m domain) then
    throwing (b!"no TLS certificate covers HTTPS domain " ++ domain)
  else Ok tt.

Definition check_coverage (m : Manager) (site : RuntimeSiteConfig) (_ : unit) : res unit :=
  if negb (rs_https_enabled site) then Ok tt
  else res_fold (check_domain m) (vc_domains (rs_virtual_host site)) tt.

Definition build_tls (spec : RuntimeConfigSpec) (https_ports : list Z) : res (option Manager) :=
  if bool_decide (https_ports = []) then Ok None
  else
    m ← TlsContextManager (spec_tls_certificates spec) (spec_reject_unknown_sni spec);
    _ ← res_fold (check_coverage m) (spec_sites spec) tt;
    Ok (Some m).

Definition RuntimeConfig (spec : RuntimeConfigSpec) : res Config :=
  ranges ← parse_ranges (trusted_proxy_cidrs (spec_settings spec));
  _ ← throw_if (spec_revision spec =? 0)
        (invalid_argument b!"runtime configuration revision cannot be zero");
  _ ← check_settings (spec_settings spec);
  routes ← res_fold add_site (spec_sites spec) (∅, ∅);
  _ ← res_fold (check_shared_port routes.2) (map_to_list routes.1).*1 tt;
  http ← build_routers routes.1;
  https ← build_routers routes.2;
  tls ← build_tls spec (sorted_ports routes.2);
  Ok {| revision := spec_revision spec;
        http_ports := sorted_ports routes.1; https_ports := sorted_ports routes.2;
        http_routers := http; https_routers := https;
        http_site_counts := length <$> routes.1; https_site_counts := length <$> routes.2;
        tls_contexts := tls; settings := spec_settings spec; resolver_ranges := ranges |}.

Definition router (c : Config) (protocol : ListenerProtocol) (port : Z) : option Router :=
  match protocol with
  | listen_https => https_routers c !! port
  | listen_http => http_routers c !! port
  end.

Definition site_count (c : Config) (protocol : ListenerProtocol) (port : Z) : nat :=
  default 0%nat match protocol with
                | listen_https => https_site_counts c !! port
                | listen_http => http_site_counts c !! port
                end.

(** ** The store *)

Definition RuntimeConfigStore (initial : option Config) : res Config :=
  match initial with
  | None => throwing b!"initial runtime configuration cannot be null"
  | Some c => Ok c
  end.

(** [publish]: a null configuration is ignored. *)
Definition publish (next : option Config) (current : Config) : Config := default current next.

(** ** Routes *)

Definition enabled (protocol : ListenerProtocol) (site : RuntimeSiteConfig) : bool :=
  match protocol with listen_http => rs_http_enabled site | listen_https => rs_https_enabled site end.
Definition port_of (protocol : ListenerProtocol) (site : RuntimeSiteConfig) : Z :=
  match protocol with listen_http => rs_http_port site | listen_https => rs_https_port site end.

(** The sites a listener serves, in the order of the specification. *)
Definition served (protocol : ListenerProtocol) (port : Z) (sites : list RuntimeSiteConfig)
    : list VirtualHostConfig :=
  rs_virtual_host <$>
    filter (fun site => enabled protocol site = true /\ port_of protocol site = port) sites.
Arguments served : simpl never.

Definition routes_for (protocol : ListenerProtocol) (routes : RoutesByPort * RoutesByPort) : RoutesByPort :=
  match protocol with listen_http => routes.1 | listen_https => routes.2 end.

Lemma elem_of_served protocol port sites host :
  host ∈ served protocol port sites <->
  exists site, site ∈ sites /\ enabled protocol site = true /\ port_of protocol site = port /\
               host = rs_virtual_host site.
Proof.
  unfold served. rewrite list_elem_of_fmap. setoid_rewrite list_elem_of_filter. naive_solver.
Qed.

Lemma served_cons protocol port site sites :
  served protocol port (site :: sites) =
  (if decide (enabled protocol site = true /\ port_of protocol site = port)
   then [rs_virtual_host site] else []) ++ served protocol port sites.
Proof. unfold served. rewrite filter_cons. by case_decide. Qed.

Definition no_empty (routes : RoutesByPort) : Prop := forall p l, routes !! p = Some l -> l <> [].

Lemma push_route_spec port host routes :
  no_empty routes ->
  no_empty (push_route port host routes) /\
  forall p, default [] (push_route port host routes !! p) =
            default [] (routes !! p) ++ (if decide (port = p) then [host] else []).
Proof.
  intros Hne. unfold push_route. split.
  - intros p l. rewrite lookup_insert_Some. intros [[_ <-]|[_ Hp]]; [|by eapply Hne].
    by destruct (default [] (routes !! port)).
  - intros p. destruct (decide (port = p)) as [->|Hp].
    + by rewrite lookup_insert_eq.
    + rewrite lookup_insert_ne by done. by rewrite app_nil_r.
Qed.

Lemma add_sites_spec sites routes routes' :
  no_empty routes.1 -> no_empty routes.2 -> res_fold add_site sites routes = Ok routes' ->
  (no_empty routes'.1 /\ no_empty routes'.2) /\
  (forall protocol p, default [] (routes_for protocol routes' !! p) =
                      default [] (routes_for protocol routes !! p) ++ served protocol p sites) /\
  Forall (fun site => rs_http_enabled site = true \/ rs_https_enabled site = true) sites.
Proof.
  revert routes. induction sites as [|site sites IH]; cbn; intros routes N1 N2.
  - intros [= <-]. split_and!; try done. intros. unfold served. cbn. by rewrite app_nil_r.
  - destruct (add_site site routes) as [r1|] eqn:E; [|done]. intros Hf. unfold add_site in E.
    destruct (negb (rs_http_enabled site) && negb (rs_https_enabled site)) eqn:En; [done|]. injection E as <-.
    destruct (push_route_spec (rs_http_port site) (rs_virtual_host site) _ N1) as [P1 Q1].
    destruct (push_route_spec (rs_https_port site) (rs_virtual_host site) _ N2) as [P2 Q2].
    apply IH in Hf as (Hne & Hd & HF); cbn; [|by destruct (rs_http_enabled site)|by destruct (rs_https_enabled site)].
    split_and!; [apply Hne|apply Hne| |constructor; [|done]].
    + intros protocol p. rewrite Hd, served_cons, app_assoc. f_equal.
      destruct protocol; cbn.
      * destruct (rs_http_enabled site); [|rewrite decide_False by naive_solver; by rewrite app_nil_r].
        rewrite Q1. destruct (decide (rs_http_port site = p)); [by rewrite decide_True|by rewrite decide_False by naive_solver].
      * destruct (rs_https_enabled site); [|rewrite decide_False by naive_solver; by rewrite app_nil_r].
        rewrite Q2. destruct (decide (rs_https_port site = p)); [by rewrite decide_True|by rewrite decide_False by naive_solver].
    + destruct (rs_http_enabled site), (rs_https_enabled site); auto.
Qed.

(** The routes of a port are the sites enabled on it; a port without sites has
    no entry. *)
Lemma routes_served sites routes protocol p :
  res_fold add_site sites (∅, ∅) = Ok routes ->
  routes_for protocol routes !! p =
  (if decide (served protocol p sites = []) then None else Some (served protocol p sites)).
Proof.
  intros Hf. assert (Hempty : no_empty ∅) by (intros q l; by rewrite lookup_empty).
  destruct (add_sites_spec sites (∅, ∅) routes Hempty Hempty Hf) as ([N1 N2] & Hd & _).
  specialize (Hd protocol p).
  assert (Hz : default [] (routes_for protocol (∅, ∅) !! p) = []) by (destruct protocol; cbn; by rewrite lookup_empty).
  rewrite Hz in Hd. cbn in Hd.
  assert (Hne : no_empty (routes_for protocol routes)) by (by destruct protocol).
  destruct (routes_for protocol routes !! p) as [l|] eqn:E; cbn in Hd.
  - subst l. rewrite decide_False; [done|]. by eapply Hne.
  - by rewrite <- Hd, decide_True.
Qed.

Lemma build_routers_spec l acc out :
  NoDup l.*1 -> res_fold build_router l acc = Ok out ->
  forall p r, out !! p = Some r <->
    (exists hs, (p, hs) ∈ l /\ VirtualHostRouter hs = Ok r) \/ (p ∉ l.*1 /\ acc !! p = Some r).
Proof.
  revert acc. induction l as [|[q hs] l IH]; cbn; intros acc Hnd.
  - intros [= <-] p r. split; [intros; right; split; [set_solver|done]|].
    intros [(hs & ?%elem_of_nil & _)|[_ ?]]; done.
  - apply NoDup_cons in Hnd as [Hq Hnd]. unfold build_router at 1. cbn.
    destruct (VirtualHostRouter hs) as [rq|] eqn:Eq; cbn; [|done]. intros Hf p r.
    rewrite (IH _ Hnd Hf p r). destruct (decide (p = q)) as [->|Hne].
    + rewrite lookup_insert_eq. split.
      * intros [(hs' & Hin & _)|[_ [= <-]]].
        -- destruct Hq. apply list_elem_of_fmap. by exists (q, hs').
        -- left. exists hs. split; [by left|done].
      * intros [(hs' & [[= ->]|Hin]%elem_of_cons & Hr)|[Hni _]].
        -- right. split; [done|congruence].
        -- destruct Hq. apply list_elem_of_fmap. by exists (q, hs').
        -- set_solver.
    + rewrite lookup_insert_ne by done. set_solver.
Qed.

Lemma built_router_spec routes out p r :
  build_routers routes = Ok out ->
  out !! p = Some r <-> exists hs, routes !! p = Some hs /\ VirtualHostRouter hs = Ok r.
Proof.
  intros Hb. rewrite (build_routers_spec _ _ _ (NoDup_fst_map_to_list routes) Hb p r).
  setoid_rewrite elem_of_map_to_list. rewrite lookup_empty. naive_solver.
Qed.

(** ** What an accepted configuration provides *)

Lemma RuntimeConfig_parts spec c :
  RuntimeConfig spec = Ok c ->
  exists routes, res_fold add_site (spec_sites spec) (∅, ∅) = Ok routes /\
    (exists u, res_fold (check_shared_port routes.2) (map_to_list routes.1).*1 tt = Ok u) /\
    build_routers routes.1 = Ok (http_routers c) /\ build_routers routes.2 = Ok (https_routers c) /\
    build_tls spec (sorted_ports routes.2) = Ok (tls_contexts c) /\
    http_ports c = sorted_ports routes.1 /\ https_ports c = sorted_ports routes.2 /\
    http_site_counts c = length <$> routes.1 /\ https_site_counts c = length <$> routes.2.
Proof. unfold RuntimeConfig. intros Hc. res_inv. eexists. split_and!; try done. by eexists. Qed.

Lemma router_served spec c protocol port :
  RuntimeConfig spec = Ok c -> served protocol port (spec_sites spec) <> [] ->
  exists r, router c protocol port = Some r /\
    VirtualHostRouter (served protocol port (spec_sites spec)) = Ok r.
Proof.
  intros (routes & Hr & _ & Hh & Hs & _)%RuntimeConfig_parts Hne.
  pose proof (routes_served _ _ protocol port Hr) as Hp. rewrite decide_False in Hp by done.
  assert (Hout : exists out, build_routers (routes_for protocol routes) = Ok out /\
                             router c protocol port = out !! port) by (destruct protocol; eauto).
  destruct Hout as (out & Hb & ->).
  assert (Hall : forall l acc o, res_fold build_router l acc = Ok o -> forall e, e ∈ l ->
            exists r, VirtualHostRouter e.2 = Ok r).
  { clear. induction l as [|e l IH]; cbn; intros acc o Hf x Hx; [set_solver|].
    unfold build_router at 1 in Hf. destruct (VirtualHostRouter e.2) eqn:E; cbn in Hf; [|done].
    apply elem_of_cons in Hx as [->|Hx]; [eauto|by eapply IH]. }
  destruct (Hall _ _ _ Hb (port, served protocol port (spec_sites spec))
              ltac:(by apply elem_of_map_to_list)) as [r Hvr]. cbn in Hvr.
  exists r. split; [|done]. apply (built_router_spec _ _ _ _ Hb). eauto.
Qed.

Lemma sorted_ports_elem (routes : RoutesByPort) p : p ∈ sorted_ports routes <-> is_Some (routes !! p).
Proof.
  unfold sorted_ports. rewrite merge_sort_Permutation, list_elem_of_fmap. split.
  - intros ([q l] & -> & Hin%elem_of_map_to_list). eauto.
  - intros [l Hl]. exists (p, l). split; [done|by apply elem_of_map_to_list].
Qed.

Lemma res_fold_unit {B} (f : B -> unit -> res unit) l u :
  res_fold f l tt = Ok u -> forall x, x ∈ l -> f x tt = Ok tt.
Proof.
  induction l as [|y l IH]; cbn; intros Hf x Hx; [set_solver|].
  destruct (f y tt) as [[]|] eqn:E; [|done]. apply elem_of_cons in Hx as [->|Hx]; [done|by apply IH].
Qed.

Lemma coverage_of spec c site :
  RuntimeConfig spec = Ok c -> site ∈ spec_sites spec -> rs_https_enabled site = true ->
  exists m, tls_contexts c = Some m /\
    TlsContextManager (spec_tls_certificates spec) (spec_reject_unknown_sni spec) = Ok m /\
    forall pattern, pattern ∈ vc_domains (rs_virtual_host site) -> can_serve_domain m pattern = true.
Proof.
  intros (routes & Hr & _ & _ & _ & Ht & _)%RuntimeConfig_parts Hin Hen.
  assert (Hport : rs_https_port site ∈ sorted_ports routes.2).
  { apply sorted_ports_elem. change routes.2 with (routes_for listen_https routes).
    rewrite (routes_served _ _ listen_https (rs_https_port site) Hr).
    rewrite decide_False; [by eexists|]. intros Hnil.
    assert (Hs : rs_virtual_host site ∈ served listen_https (rs_https_port site) (spec_sites spec))
      by (apply elem_of_served; by exists site). rewrite Hnil in Hs. set_solver. }
  unfold build_tls in Ht. rewrite bool_decide_false in Ht by (intros Hn; rewrite Hn in Hport; set_solver).
  res_inv. match goal with Hm : Some ?m = tls_contexts c |- _ => exists m end.
  split_and!; try done. intros pattern Hp.
  match goal with Hf : res_fold (check_coverage _) _ _ = Ok _ |- _ =>
    pose proof (res_fold_unit _ _ _ Hf _ Hin) as Hc end.
  unfold check_coverage in Hc. rewrite Hen in Hc. cbn in Hc.
  pose proof (res_fold_unit _ _ _ Hc _ Hp) as Hd. unfold check_domain in Hd.
  by destruct (can_serve_domain _ pattern).
Qed.

(** The TLS contexts of a configuration are those of its certificates. *)
Lemma configured_manager spec c m : RuntimeConfig spec = Ok c -> tls_contexts c = Some m ->
  TlsContextManager (spec_tls_certificates spec) (spec_reject_unknown_sni spec) = Ok m.
Proof.
  intros (routes & _ & _ & _ & _ & Ht & _)%RuntimeConfig_parts Hm. rewrite Hm in Ht. unfold build_tls in Ht.
  destruct (bool_decide _); [done|]. by res_inv.
Qed.

(** ** Main theorems *)

(** Every enabled listener of every site is served by its own site.  In an
    accepted configuration the router of a site's port exists, and a host that
    is one of the site's exact domains is routed there to a host object built
    from that site's settings. *)
Theorem runtime_routes_every_site spec c site protocol pattern host :
  RuntimeConfig spec = Ok c -> site ∈ spec_sites spec -> enabled protocol site = true ->
  pattern ∈ vc_domains (rs_virtual_host site) -> parse_pattern pattern = Some (false, host) ->
  exists r i vh, router c protocol (port_of protocol site) = Some r /\
    VirtualHostRouter.find r host = Some i /\ hosts r !! i = Some vh /\ built (rs_virtual_host site) vh.
Proof.
  intros Hc Hin Hen Hpat Hparse.
  assert (Hs : rs_virtual_host site ∈ served protocol (port_of protocol site) (spec_sites spec))
    by (apply elem_of_served; by exists site).
  destruct (router_served _ _ protocol (port_of protocol site) Hc) as (r & Hr & Hvr); [by intros Hn; rewrite Hn in Hs; apply elem_of_nil in Hs|].
  destruct (VirtualHostRouter_tables _ _ Hvr) as (HB & Hb & _).
  apply list_elem_of_lookup in Hs as [i Hi].
  assert (He : exact_hosts r !! host = Some i) by (apply (tab_exact _ _ HB); by exists (rs_virtual_host site), pattern).
  destruct (Forall2_lookup_l _ _ _ _ _ Hb Hi) as (vh & Hvh & Hbuilt).
  exists r, i, vh. split_and!; try done. unfold VirtualHostRouter.find. by rewrite He.
Qed.

(** No HTTPS site without a certificate.  In an accepted configuration
    every host an HTTPS site announces (its exact domains, and any one label
    under its wildcards) selects, in the SNI table, a certificate bound to that
    host. *)
Theorem https_sites_have_certificates spec c site pattern host :
  RuntimeConfig spec = Ok c -> site ∈ spec_sites spec -> rs_https_enabled site = true ->
  pattern ∈ vc_domains (rs_virtual_host site) -> announced pattern host ->
  exists m i h, tls_contexts c = Some m /\ TlsContextManager.find m host = Some i /\
    contexts m !! i = Some h /\ matches_domain h host = true.
Proof.
  intros Hc Hin Hen Hpat Hann. destruct (coverage_of _ _ _ Hc Hin Hen) as (m & Hm & Hmgr & Hcov).
  destruct (manager_inv _ _ _ Hmgr) as (Hcm & _).
  destruct (can_serve_find m pattern host Hcm (Hcov _ Hpat) Hann) as (i & h & ?). by exists m, i, h.
Qed.


Lemma sorted_ports_sorted (routes : RoutesByPort) : StronglySorted Z.lt (sorted_ports routes).
Proof.
  assert (Hs : StronglySorted Z.le (sorted_ports routes)) by (apply StronglySorted_merge_sort; apply _).
  assert (Hn : NoDup (sorted_ports routes)).
  { unfold sorted_ports. rewrite merge_sort_Permutation. apply NoDup_fst_map_to_list. }
  induction Hs as [|x l Hs IH HF]; [constructor|]. apply NoDup_cons in Hn as [Hx Hn].
  constructor; [by apply IH|]. rewrite Forall_forall in *. intros y Hy. specialize (HF y Hy).
  assert (x <> y) by (by intros ->). lia.
Qed.

Lemma route_exists sites routes protocol p :
  res_fold add_site sites (∅, ∅) = Ok routes ->
  is_Some (routes_for protocol routes !! p) <->
  exists site, site ∈ sites /\ enabled protocol site = true /\ port_of protocol site = p.
Proof.
  intros Hr. rewrite (routes_served _ _ protocol p Hr). split.
  - case_decide as Hn; [by intros [? ?]|]. intros _.
    destruct (served protocol p sites) as [|h l] eqn:E; [done|].
    assert (Hh : h ∈ served protocol p sites) by (rewrite E; by left).
    apply elem_of_served in Hh as (site & ? & ? & ? & _). eauto.
  - intros (site & Hin & He & Hp). rewrite decide_False; [by eexists|]. intros Hn.
    assert (Hh : rs_virtual_host site ∈ served protocol p sites) by (apply elem_of_served; eauto).
    rewrite Hn in Hh. set_solver.
Qed.

Definition ports (c : Config) (protocol : ListenerProtocol) : list Z :=
  match protocol with listen_http => http_ports c | listen_https => https_ports c end.

(** The listener ports are exactly the configured ones, in ascending order
    and without repetition, each with its number of sites; HTTP and HTTPS share
    no port other than the ephemeral port 0. *)
Theorem runtime_ports_exact spec c :
  RuntimeConfig spec = Ok c ->
  (forall protocol p, p ∈ ports c protocol <->
     exists site, site ∈ spec_sites spec /\ enabled protocol site = true /\ port_of protocol site = p) /\
  (forall p, p ∈ ports c listen_http -> p ∈ ports c listen_https -> p = 0) /\
  (forall protocol, StronglySorted Z.lt (ports c protocol)) /\
  (forall protocol p, site_count c protocol p = length (served protocol p (spec_sites spec))).
Proof.
  intros (routes & Hr & [u Hshare] & _ & _ & _ & Hhp & Hsp & Hhc & Hsc)%RuntimeConfig_parts.
  assert (Hports : forall protocol, ports c protocol = sorted_ports (routes_for protocol routes))
    by (by intros []).
  split_and!.
  - intros protocol p. rewrite Hports, sorted_ports_elem. by apply route_exists.
  - intros p. rewrite !Hports, !sorted_ports_elem. intros [l Hl] Hs.
    assert (Hin : p ∈ (map_to_list routes.1).*1).
    { apply list_elem_of_fmap. exists (p, l). split; [done|by apply elem_of_map_to_list]. }
    pose proof (res_fold_unit _ _ _ Hshare _ Hin) as Hc. unfold check_shared_port in Hc.
    rewrite (bool_decide_true _ Hs), andb_true_r in Hc. destruct (Z.eqb_spec p 0); [done|done].
  - intros protocol. rewrite Hports. apply sorted_ports_sorted.
  - intros protocol p. pose proof (routes_served _ _ protocol p Hr) as Hp.
    assert (Hcount : site_count c protocol p = default 0%nat (length <$> routes_for protocol routes !! p)).
    { destruct protocol; cbn; rewrite ?Hhc, ?Hsc, lookup_fmap; done. }
    rewrite Hcount, Hp. by case_decide as Hn; [rewrite Hn|].
Qed.

End RuntimeConfig.

(** ** A concrete configuration *)

#[local] Existing Instance loopback_only.
#[local] Existing Instance no_regex.
#[local] Existing Instance permissive_openssl.

Definition sample_site : RuntimeSiteConfig :=
  {| rs_virtual_host := {| vc_name := b!"shop"; vc_domains := [b!"Example.com"; b!"*.example.com"];
                           vc_backend := plain_backend b!"127.0.0.1" 8090; vc_policy := default_site_policy;
                           vc_overload := default_overload; vc_url_auth := default_url_auth |};
     rs_http_enabled := true; rs_http_port := 80; rs_https_enabled := true; rs_https_port := 443 |}.

Definition sample_spec : RuntimeConfigSpec :=
  {| spec_revision := 1; spec_sites := [sample_site]; spec_tls_certificates := sample_certificates;
     spec_reject_unknown_sni := true; spec_settings := default_settings |}.

Definition sample_config : Config :=
  match RuntimeConfig sample_spec with
  | Ok c => c
  | Throw _ => {| revision := 0; http_ports := []; https_ports := []; http_routers := ∅;
                  https_routers := ∅; http_site_counts := ∅; https_site_counts := ∅;
                  tls_contexts := None; settings := default_settings; resolver_ranges := [] |}
  end.

Lemma sample_config_accepted : RuntimeConfig sample_spec = Ok sample_config.
Proof. by vm_compute. Qed.

Lemma runtime_routes_every_site_witness :
  exists r i vh, router sample_config listen_https 443 = Some r /\
    VirtualHostRouter.find r b!"example.com" = Some i /\ hosts r !! i = Some vh /\
    built (rs_virtual_host sample_site) vh.
Proof.
  apply (runtime_routes_every_site sample_spec sample_config sample_site listen_https b!"Example.com"
           b!"example.com").
  - exact sample_config_accepted.
  - by left.
  - reflexivity.
  - by left.
  - by vm_compute.
Defined.

Lemma https_sites_have_certificates_witness :
  exists m i h, tls_contexts sample_config = Some m /\
    TlsContextManager.find m b!"img.example.com" = Some i /\
    contexts m !! i = Some h /\ matches_domain h b!"img.example.com" = true.
Proof.
  apply (https_sites_have_certificates sample_spec sample_config sample_site b!"*.example.com").
  - exact sample_config_accepted.
  - by left.
  - reflexivity.
  - right. by left.
  - exists b!"example.com". split; [by vm_compute|]. exists b!"img". split; [|reflexivity].
    apply (bool_decide_eq_false_1 ("."%char ∈ b!"img")). by vm_compute.
Defined.

Lemma runtime_ports_exact_witness :
  (forall protocol p, p ∈ ports sample_config protocol <->
     exists site, site ∈ spec_sites sample_spec /\ enabled protocol site = true /\ port_of protocol site = p) /\
  (forall p, p ∈ ports sample_config listen_http -> p ∈ ports sample_config listen_https -> p = 0) /\
  (forall protocol, StronglySorted Z.lt (ports sample_config protocol)) /\
  (forall protocol p, site_count sample_config protocol p = length (served protocol p (spec_sites sample_spec))).
Proof. exact (runtime_ports_exact sample_spec sample_config sample_config_accepted). Defined.
