(* ===== verification/HttpSession.v ===== *)
(** * Client sessions (src/src/http/HttpSession.{hpp,cpp}, TlsHttpSession.{hpp,cpp})

    The two classes are one model with the flag [tls]: a TLS session starts with a
    handshake and ends with an asynchronous shutdown.  The state has the members of
    the class (for pointers and optionals, whether they are set), the operation that
    is outstanding and what the session did to the registries and to its listener.
    Handlers run one at a time on the strand of the socket, so a handler is one step.
    Calls that can throw take their answer from [faults].  A use of an empty optional
    is [Undefined].

    The dispatcher answers within [start()] (RequestDispatcher.v): it resolves a site
    or not, then answers or hands the request over.  A proxy transaction completes
    once (ProxyTransaction.v).

    The theorems: nothing undefined happens, and an open session always has exactly
    one operation outstanding; the listener is told once, and the registries hold
    what is open; a stopped session ends after at most two completions. *)

From S2P Require Import Prelude.

(** ** State *)

Record Session := {
  tls : bool;
  stopping_ : bool;                       (* the listener's flag *)
  parser_ : bool;
  body_done : bool;                       (* parser_->is_done() *)
  response_ : bool;
  dispatcher_ : bool;
  proxy_operation_ : bool;
  http_request_id_ : Z;
  closed_ : bool;
  closing_ : bool;                        (* TLS only *)
  handshake_complete_ : bool;             (* TLS only *)
  on_close_ : bool;
  (* outstanding *)
  handshake_pending : bool;
  read_pending : bool;
  write_pending : option bool;            (* with the bound keep_alive *)
  proxy_running : bool;
  shutdown_pending : bool;
  (* observed *)
  closes : nat;                           (* calls of the close handler *)
  registered : bool;                      (* the entry in the connection registry *)
  open_requests : list Z;                 (* this session's entries in the request registry *)
  faults : list bool
}.

Definition session_eta (l : Session) : Session := Build_Session (l.(tls)) (l.(stopping_)) (l.(parser_)) (l.(body_done))
  (l.(response_)) (l.(dispatcher_)) (l.(proxy_operation_)) (l.(http_request_id_)) (l.(closed_)) (l.(closing_))
  (l.(handshake_complete_)) (l.(on_close_)) (l.(handshake_pending)) (l.(read_pending)) (l.(write_pending))
  (l.(proxy_running)) (l.(shutdown_pending)) (l.(closes)) (l.(registered)) (l.(open_requests)) (l.(faults)).
Definition set_stopping (v : bool) (l : Session) : Session := ltac:(record_update session_eta stopping_ l v).
Definition set_parser (v : bool) (l : Session) : Session := ltac:(record_update session_eta parser_ l v).
Definition set_body_done (v : bool) (l : Session) : Session := ltac:(record_update session_eta body_done l v).
Definition set_response (v : bool) (l : Session) : Session := ltac:(record_update session_eta response_ l v).
Definition set_dispatcher (v : bool) (l : Session) : Session := ltac:(record_update session_eta dispatcher_ l v).
Definition set_proxy_operation (v : bool) (l : Session) : Session := ltac:(record_update session_eta proxy_operation_ l v).
Definition set_request_id (v : Z) (l : Session) : Session := ltac:(record_update session_eta http_request_id_ l v).
Definition set_closed (v : bool) (l : Session) : Session := ltac:(record_update session_eta closed_ l v).
Definition set_closing (v : bool) (l : Session) : Session := ltac:(record_update session_eta closing_ l v).
Definition set_handshake_complete (v : bool) (l : Session) : Session := ltac:(record_update session_eta handshake_complete_ l v).
Definition set_on_close (v : bool) (l : Session) : Session := ltac:(record_update session_eta on_close_ l v).
Definition set_handshake_pending (v : bool) (l : Session) : Session := ltac:(record_update session_eta handshake_pending l v).
Definition set_read_pending (v : bool) (l : Session) : Session := ltac:(record_update session_eta read_pending l v).
Definition set_write_pending (v : option bool) (l : Session) : Session := ltac:(record_update session_eta write_pending l v).
Definition set_proxy_running (v : bool) (l : Session) : Session := ltac:(record_update session_eta proxy_running l v).
Definition set_shutdown_pending (v : bool) (l : Session) : Session := ltac:(record_update session_eta shutdown_pending l v).
Definition set_closes (v : nat) (l : Session) : Session := ltac:(record_update session_eta closes l v).
Definition set_registered (v : bool) (l : Session) : Session := ltac:(record_update session_eta registered l v).
Definition set_open_requests (v : list Z) (l : Session) : Session := ltac:(record_update session_eta open_requests l v).
Definition set_faults (v : list bool) (l : Session) : Session := ltac:(record_update session_eta faults l v).

(** The constructor: the connection is registered. *)
Definition new_session (tls stopping : bool) : Session :=
  {| tls := tls; stopping_ := stopping; parser_ := false; body_done := false; response_ := false; dispatcher_ := false;
     proxy_operation_ := false; http_request_id_ := 0; closed_ := false; closing_ := false; handshake_complete_ := false;
     on_close_ := true; handshake_pending := false; read_pending := false; write_pending := None; proxy_running := false;
     shutdown_pending := false; closes := 0; registered := true; open_requests := []; faults := [] |}.

(** ** Exceptions *)

Inductive outcome := Done (l : Session) | Threw (l : Session) | Undefined.

Definition and_then (o : outcome) (k : Session -> outcome) : outcome :=
  match o with Done l => k l | _ => o end.
Local Notation "l <~ o ;; k" := (and_then o (fun l => k)) (at level 100, o at next level, right associativity).

(** A call that may throw. *)
Definition call (l : Session) : outcome :=
  match faults l with
  | true :: rest => Threw (set_faults rest l)
  | false :: rest => Done (set_faults rest l)
  | [] => Done l
  end.

(** [*parser_]. *)
Definition deref_parser (l : Session) : outcome := if parser_ l then Done l else Undefined.

(** ** Ending *)

(** Removing from the registries does not throw. *)
Definition clear_http_request (l : Session) : Session :=
  if http_request_id_ l =? 0 then l
  else set_request_id 0 (set_open_requests (filter (fun id => id <> http_request_id_ l) (open_requests l)) l).
Definition unregister (l : Session) : Session := set_registered false l.

Definition call_on_close (l : Session) : outcome :=
  if on_close_ l then call (set_closes (S (closes l)) (set_on_close false l)) else Done l.

Definition cancel_dispatcher (l : Session) : outcome :=
  if dispatcher_ l then call (set_dispatcher false l) else Done l.
Definition cancel_proxy (l : Session) : outcome :=
  if proxy_operation_ l then call (set_proxy_operation false l) else Done l.

(** TlsHttpSession only. *)
Definition close_socket (l : Session) : outcome :=
  if closed_ l then Done l
  else
    let l := unregister (clear_http_request (set_closing true (set_closed true l))) in
    l <~ call l;;                                          (* expires_never *)
    call_on_close l.

Definition close (l : Session) : outcome :=
  if tls l then
    if closed_ l || closing_ l then Done l
    else
      l <~ call (set_closing true l);;                     (* update_status *)
      l <~ cancel_dispatcher l;;
      l <~ cancel_proxy l;;
      if negb (handshake_complete_ l) then close_socket l
      else
        l <~ call l;;                                      (* expires_after, async_shutdown *)
        Done (set_shutdown_pending true l)
  else
    if closed_ l then Done l
    else
      let l := unregister (clear_http_request (set_closed true l)) in
      l <~ cancel_dispatcher l;;
      l <~ cancel_proxy l;;
      l <~ call l;;                                        (* expires_never *)
      call_on_close l.

(** What the handler does that called it last: [close()] or [close_socket()]. *)
Definition close_now (l : Session) : outcome := if tls l then close_socket l else close l.

(** The exceptions of its parts are caught one by one. *)
Definition mark_closed (l : Session) : Session := if tls l then set_closing true (set_closed true l) else set_closed true l.
Definition abort_noexcept (l : Session) : Session :=
  let l := mark_closed l in
  let l := unregister (clear_http_request l) in
  let l := set_proxy_operation false (set_dispatcher false l) in
  if on_close_ l then set_closes (S (closes l)) (set_on_close false l) else l.

(** [guarded_handler] and [invoke_guarded]. *)
Definition guard (o : outcome) : outcome := match o with Threw l => Done (abort_noexcept l) | _ => o end.

(** ** Reading and writing *)

Definition read_request (l : Session) : outcome :=
  let l := clear_http_request l in
  l <~ call l;;                                            (* update_request *)
  let l := set_body_done false (set_parser true l) in
  l <~ call l;;                                            (* the settings are copied *)
  l <~ call l;;                                            (* expires_after, async_read_header *)
  Done (set_read_pending true l).

Definition write_response (keep_alive : bool) (l : Session) : outcome :=
  l <~ call l;;                                            (* make_shared *)
  let l := set_response true l in
  l <~ call l;;                                            (* expires_after, async_write *)
  Done (set_write_pending (Some keep_alive) l).

Definition send_payload_too_large (l : Session) : outcome :=
  l <~ call l;;                                            (* the response *)
  l <~ (if parser_ l then call l else Done l);;            (* update_request *)
  write_response false l.

(** A status in the request registry, if the request is there. *)
Definition note_request (l : Session) : outcome := if http_request_id_ l =? 0 then Done l else call l.

(** [on_proxy_response], [on_dispatch_response]. *)
Definition on_proxy_response (keep_alive : bool) (l : Session) : outcome :=
  let l := set_dispatcher false l in
  if closed_ l || closing_ l then Done l
  else
    let keep_alive := keep_alive && negb (stopping_ l) && negb (parser_ l && negb (body_done l)) in
    l <~ call l;;                                          (* update_status *)
    l <~ note_request l;;
    write_response keep_alive l.

Definition start_proxy (l : Session) : outcome :=
  l <~ call l;;                                            (* update_status *)
  l <~ note_request l;;
  l <~ deref_parser l;;
  l <~ call l;;                                            (* make_shared *)
  let l := set_proxy_operation true l in
  l <~ call l;;                                            (* operation->start() *)
  Done (set_proxy_running true l).

(** What [dispatcher->start()] does with its handlers. *)
Inductive answer :=
| responds (keep_alive : bool)
| proxies
| throws.

(** Handlers that an abort has cancelled are not called. *)
Definition dispatch (site_resolved : bool) (a : answer) (l : Session) : outcome :=
  l <~ (if site_resolved then guard (note_request l) else Done l);;
  if closed_ l then Done l
  else match a with
       | responds keep_alive => guard (on_proxy_response keep_alive l)
       | proxies => guard (start_proxy l)
       | throws => Threw l
       end.

(** ** Handlers *)

Inductive read_result :=
| end_of_stream                           (* for TLS also stream_truncated *)
| body_limit
| read_error (aborted : bool)
| header (peer_known context_selected is_done : bool) (request_id : Z) (site_resolved : bool) (a : answer).

Definition on_header_read (result : read_result) (l : Session) : outcome :=
  match result with
  | end_of_stream => close l
  | body_limit => send_payload_too_large l
  | read_error aborted => l <~ (if aborted then Done l else call l);; close l      (* log_error *)
  | header peer_known context_selected is_done request_id site_resolved a =>
      if negb peer_known || (tls l && negb context_selected) then close l
      else
        l <~ deref_parser l;;
        l <~ call l;;                                      (* update_request, copies, resolve, add *)
        let l := set_body_done is_done (set_request_id request_id (set_open_requests (request_id :: open_requests l) l)) in
        l <~ call l;;                                      (* make_shared *)
        dispatch site_resolved a (set_dispatcher true l)
  end.

Definition on_handshake (error : bool) (l : Session) : outcome :=
  if error then l <~ call l;; close_socket l
  else read_request (set_handshake_complete true l).

Definition on_stream_complete (keep_alive : bool) (l : Session) : outcome :=
  let l := set_parser false (set_proxy_operation false l) in
  l <~ (if dispatcher_ l then call l else Done l);;        (* complete_stream *)
  let l := clear_http_request (set_dispatcher false l) in
  if closed_ l || closing_ l then Done l
  else if negb keep_alive || stopping_ l then close l else read_request l.

Definition on_write (keep_alive error : bool) (l : Session) : outcome :=
  if error then l <~ call l;; close l
  else
    let l := clear_http_request (set_parser false (set_response false l)) in
    if negb keep_alive || stopping_ l then close l else read_request l.

Definition on_shutdown (l : Session) : outcome := close_socket l.

Definition stop_on_executor (l : Session) : outcome :=
  if proxy_operation_ l then call l                        (* cancel() *)
  else
    l <~ (if dispatcher_ l then call l else Done l);;
    if negb (response_ l) then close_now l else Done l.

Definition start (l : Session) : outcome :=
  if tls l then
    l <~ call l;;                                          (* expires_after, async_handshake *)
    Done (set_handshake_pending true l)
  else read_request l.

(** ** Runs *)

Inductive event :=
| EHandshake (error : bool)
| ERead (result : read_result)
| EWrite (error : bool)
| EProxyDone (keep_alive : bool)
| EShutdown
| EFlag                                   (* the listener sets the flag *)
| EStop (dispatch_throws : bool).

Definition step (e : event) (throws : list bool) (l : Session) : outcome :=
  let l := set_faults throws l in
  match e with
  | EHandshake error => guard (on_handshake error (set_handshake_pending false l))
  | ERead result => guard (on_header_read result (set_read_pending false l))
  | EWrite error => guard (on_write (default false (write_pending l)) error (set_write_pending None l))
  | EProxyDone keep_alive => guard (on_stream_complete keep_alive (set_proxy_running false l))
  | EShutdown => guard (on_shutdown (set_shutdown_pending false l))
  | EFlag => Done (set_stopping true l)
  | EStop dispatch_throws => if dispatch_throws then Done (abort_noexcept l) else guard (stop_on_executor l)
  end.

(** Only an outstanding operation completes; a closed socket has no peer; ids of the
    registry are not 0; the flag is set before sessions are stopped. *)
Definition enabled (e : event) (l : Session) : bool :=
  match e with
  | EHandshake _ => handshake_pending l
  | ERead (header peer_known _ _ request_id _ _) =>
      read_pending l && (negb peer_known || negb (closed_ l)) && negb (request_id =? 0)
  | ERead _ => read_pending l
  | EWrite _ => bool_decide (is_Some (write_pending l))
  | EProxyDone _ => proxy_running l
  | EShutdown => shutdown_pending l
  | EFlag => true
  | EStop _ => stopping_ l
  end.

Inductive reachable : Session -> Prop :=
| reachable_start tls stopping throws l :
    start (set_faults throws (new_session tls stopping)) = Done l -> reachable l
| reachable_step e throws l l' :
    reachable l -> enabled e l = true -> step e throws l = Done l' -> reachable l'.

(** ** Invariant *)

Definition busy (l : Session) : nat :=
  (Nat.b2n (handshake_pending l) + Nat.b2n (read_pending l) + Nat.b2n (bool_decide (is_Some (write_pending l))) +
   Nat.b2n (proxy_running l) + Nat.b2n (shutdown_pending l))%nat.

(** What holds also when a handler throws. *)
Record Weak (l : Session) : Prop := {
  wk_busy : (busy l <= 1)%nat;
  wk_parser : read_pending l || proxy_running l = true -> parser_ l = true;
  wk_close : (closes l + Nat.b2n (on_close_ l) = 1)%nat;
  wk_open : open_requests l = if http_request_id_ l =? 0 then [] else [http_request_id_ l];
  wk_response : is_Some (write_pending l) -> response_ l = true;
  wk_keep : write_pending l = Some true -> body_done l = true;
  wk_plain : tls l = false -> closing_ l = false /\ handshake_pending l = false /\ shutdown_pending l = false
}.

(** Nobody is told, nothing is taken out of a registry, before the end. *)
Record Open (l : Session) : Prop := {
  op_closed : closed_ l = negb (on_close_ l);
  op_registered : registered l = negb (closed_ l);
  op_id : closed_ l = true -> http_request_id_ l = 0
}.

Record Inv (l : Session) : Prop := {
  iv_weak : Weak l;
  iv_open : Open l;
  iv_live : closed_ l = false -> busy l = 1%nat;
  iv_closing : closed_ l = false -> closing_ l = shutdown_pending l;
  iv_operation : proxy_operation_ l = true -> proxy_running l = true;
  iv_running : closed_ l = false -> proxy_running l = true -> proxy_operation_ l = true;
  iv_read : read_pending l = true -> http_request_id_ l = 0;
  iv_dispatcher : dispatcher_ l = true -> proxy_running l = true;
  iv_response : closed_ l = false -> closing_ l = false -> response_ l = bool_decide (is_Some (write_pending l));
  iv_handshake : tls l = true -> closed_ l = false -> handshake_complete_ l = negb (handshake_pending l)
}.

(** Inside a handler that has neither a dispatcher nor a transaction. *)
Record Quiet (l : Session) : Prop := {
  qt_weak : Weak l;
  qt_open : Open l;
  qt_operation : proxy_operation_ l = false;
  qt_dispatcher : dispatcher_ l = false
}.
Definition unclosing (l : Session) : Prop := closed_ l = false -> closing_ l = false.
Definition shaken (l : Session) : Prop := tls l = true -> closed_ l = false -> handshake_complete_ l = true.

Definition good (o : outcome) : Prop := match o with Done l => Inv l | Threw l => Weak l | Undefined => False end.

Lemma session_call_cases l : exists rest, call l = Done (set_faults rest l) \/ call l = Threw (set_faults rest l).
Proof.
  unfold call. destruct (faults l) as [|[] rest] eqn:E; [exists []; left; rewrite <-E; by destruct l|exists rest; by right|exists rest; by left].
Qed.
Lemma weak_faults l rest : Weak l -> Weak (set_faults rest l).
Proof. intros []. by constructor. Qed.
Lemma quiet_faults l rest : Quiet l -> Quiet (set_faults rest l).
Proof. intros [[] [] ? ?]. by constructor; [constructor|constructor|..]. Qed.
Lemma session_inv_faults l rest : Inv l -> Inv (set_faults rest l).
Proof. intros [[] [] ? ? ? ? ? ? ? ?]. by constructor; [constructor|constructor|..]. Qed.

(** A call keeps what the faults do not matter to. *)
Lemma call_then (P : Session -> Prop) l k : (forall rest, P l -> P (set_faults rest l)) -> P l -> (P l -> Weak l) ->
  (forall rest, P (set_faults rest l) -> good (k (set_faults rest l))) -> good (and_then (call l) k).
Proof.
  intros Hf Hp Hw Hk. destruct (session_call_cases l) as [rest [-> | ->]]; cbn [and_then good]; [by apply Hk, Hf|].
  apply weak_faults. auto.
Qed.

Lemma clear_weak l : Weak l -> Weak (clear_http_request l) /\ http_request_id_ (clear_http_request l) = 0.
Proof.
  intros Hw. unfold clear_http_request. destruct (http_request_id_ l =? 0) eqn:E; [split; [done|by apply Z.eqb_eq]|].
  destruct Hw. rewrite E in wk_open0. split; [|done]. constructor; cbn; try done. rewrite wk_open0, filter_cons_False by (intros Hn; by apply Hn). done.
Qed.
(** Clearing touches nothing else. *)
Lemma clear_rest l : exists id open, clear_http_request l = set_request_id id (set_open_requests open l).
Proof. unfold clear_http_request. destruct (_ =? 0); [exists (http_request_id_ l), (open_requests l); by destruct l|eauto]. Qed.

Lemma clear_quiet l : Quiet l -> Quiet (clear_http_request l).
Proof.
  intros [Hw [] ? ?]. apply clear_weak in Hw as [Hw Hid]. destruct (clear_rest l) as (id & open & E). rewrite E in *.
  constructor; try done.
Qed.

Lemma mark_weak l : Weak l -> Weak (mark_closed l) /\ closed_ (mark_closed l) = true.
Proof.
  intros []. unfold mark_closed. destruct (tls l) eqn:E; (split; [|done]); constructor; cbn; try done; rewrite E; naive_solver.
Qed.

Lemma abort_inv l : Weak l -> Inv (abort_noexcept l).
Proof.
  intros Hw. unfold abort_noexcept. cbv zeta. apply mark_weak in Hw as [Hw1 Hc]. set (l1 := mark_closed l) in *.
  apply clear_weak in Hw1 as [Hw1 Hid]. destruct (clear_rest l1) as (id & open & E). rewrite E in *. clear E.
  destruct Hw1. cbn in wk_close0. destruct (on_close_ _) eqn:Eo; cbn in Eo; cbn in wk_close0.
  all: constructor; [constructor|constructor|..]; cbn in *; rewrite ?Hc, ?Eo; try done; lia.
Qed.

Lemma abort_closed l : closed_ (abort_noexcept l) = true.
Proof.
  unfold abort_noexcept. cbv zeta. destruct (clear_rest (mark_closed l)) as (id & open & ->).
  assert (Hc : closed_ (mark_closed l) = true) by (unfold mark_closed; by destruct (tls l)). by destruct (on_close_ _).
Qed.

Lemma guard_good o : good o -> exists l, guard o = Done l /\ Inv l.
Proof. destruct o as [l|l|]; cbn; [eauto|eauto using abort_inv|done]. Qed.
Lemma guarded_ok o : good o -> good (guard o).
Proof. intros (l & -> & Hi)%guard_good. exact Hi. Qed.

(** *** Ending *)

Local Ltac fin :=
  cbn in *; try done; intros; try congruence; try lia;
  repeat match goal with
  | H : ?x = true |- context [?x] => rewrite H
  | H : ?x = false |- context [?x] => rewrite H
  end; cbn; try done; try congruence; try lia; auto.

Lemma call_on_close_good l : Weak l -> closed_ l = true -> registered l = false -> http_request_id_ l = 0 ->
  proxy_operation_ l = false -> dispatcher_ l = false -> good (call_on_close l).
Proof.
  intros [] Hc Hr Hid Hp Hd. unfold call_on_close. destruct (on_close_ l) eqn:Eo.
  - destruct (session_call_cases (set_closes (S (closes l)) (set_on_close false l))) as [rest [-> | ->]]; cbn [good].
    + constructor; [constructor|constructor|..]; fin.
    + constructor; fin.
  - cbn [good]. constructor; [constructor|constructor|..]; fin.
Qed.

(** The common tail of the two endings. *)
Lemma finish_good l : Weak l -> closed_ l = true -> registered l = false -> http_request_id_ l = 0 ->
  proxy_operation_ l = false -> dispatcher_ l = false -> good (l <~ call l;; call_on_close l).
Proof.
  intros Hw Hc Hr Hid Hp Hd. destruct (session_call_cases l) as [rest [-> | ->]]; cbn [and_then good]; [|by apply weak_faults].
  by apply call_on_close_good; [apply weak_faults|..].
Qed.

Lemma quiet_closed l : Quiet l -> closed_ l = true -> Inv l.
Proof. intros [Hw Ho Hp Hd] Hc. constructor; try done; fin. by apply Ho. Qed.

Lemma set_closed_weak l : Weak l -> Weak (set_closed true l).
Proof. intros []. by constructor. Qed.
Lemma set_closing_weak l : tls l = true -> Weak l -> Weak (set_closing true l).
Proof. intros Ht []. constructor; fin. Qed.

Lemma close_socket_good l : tls l = true -> Quiet l -> good (close_socket l).
Proof.
  intros Ht Hq. unfold close_socket. destruct (closed_ l) eqn:Ec; [by apply quiet_closed|]. cbv zeta.
  pose proof (clear_weak _ (set_closing_weak (set_closed true l) Ht (set_closed_weak _ (qt_weak _ Hq)))) as [Hw Hid].
  destruct (clear_rest (set_closing true (set_closed true l))) as (id & open & E). rewrite E in *.
  apply finish_good; try done; try apply Hq. by destruct Hw.
Qed.

Lemma close_plain_good l : tls l = false -> Quiet l -> good (close l).
Proof.
  intros Ht Hq. unfold close. rewrite Ht. destruct (closed_ l) eqn:Ec; [by apply quiet_closed|]. cbv zeta.
  pose proof (clear_weak _ (set_closed_weak _ (qt_weak _ Hq))) as [Hw Hid].
  destruct (clear_rest (set_closed true l)) as (id & open & E). rewrite E in *. destruct Hq as [_ _ Hp Hd].
  unfold cancel_dispatcher, cancel_proxy. cbn [dispatcher_ unregister set_registered set_request_id set_open_requests set_closed].
  rewrite Hd. cbn [and_then proxy_operation_ unregister set_registered set_request_id set_open_requests set_closed]. rewrite Hp. cbn [and_then].
  apply finish_good; try done. by destruct Hw.
Qed.

Lemma close_now_good l : Quiet l -> good (close_now l).
Proof. intros Hq. unfold close_now. destruct (tls l) eqn:Ht; [by apply close_socket_good|by apply close_plain_good]. Qed.

Lemma idle_all l : busy l = 0%nat -> handshake_pending l = false /\ read_pending l = false /\ write_pending l = None /\
  proxy_running l = false /\ shutdown_pending l = false.
Proof.
  unfold busy. destruct (handshake_pending l), (read_pending l), (write_pending l), (proxy_running l), (shutdown_pending l);
    cbn; try lia; by intros.
Qed.

Lemma close_good l : Quiet l -> unclosing l -> busy l = 0%nat -> good (close l).
Proof.
  intros Hq Hu Hb. destruct (tls l) eqn:Ht; [|by apply close_plain_good]. unfold close. rewrite Ht.
  destruct (closed_ l) eqn:Ec; [by apply quiet_closed|]. rewrite (Hu Ec). cbn [orb].
  assert (Hq1 : Quiet (set_closing true l)).
  { destruct Hq as [Hw [] ? ?]. constructor; try done. by apply set_closing_weak. }
  eapply (call_then Quiet); [by intros; apply quiet_faults|done|by intros []|]. intros r1 [Hw Ho Hp Hd].
  unfold cancel_dispatcher, cancel_proxy. rewrite Hd. cbn [and_then]. rewrite Hp. cbn [and_then].
  destruct (handshake_complete_ _) eqn:Eh; cbn [negb]; [|by apply close_socket_good].
  eapply (call_then Quiet); [by intros; apply quiet_faults|done|by intros []|]. intros r2 [[] [] _ _]. cbn [good].
  apply idle_all in Hb as (B1 & B2 & B3 & B4 & B5). constructor; [constructor|constructor|..]; unfold busy in *; cbn in *;
    rewrite ?B1, ?B2, ?B3, ?B4, ?B5 in *; fin.
Qed.

(** *** Reading and writing *)

Lemma clear_same l : tls (clear_http_request l) = tls l /\ closed_ (clear_http_request l) = closed_ l /\
  closing_ (clear_http_request l) = closing_ l /\ busy (clear_http_request l) = busy l /\
  response_ (clear_http_request l) = response_ l /\ handshake_complete_ (clear_http_request l) = handshake_complete_ l.
Proof. destruct (clear_rest l) as (id & open & ->). done. Qed.

Lemma clear_id l : http_request_id_ (clear_http_request l) = 0.
Proof. unfold clear_http_request. destruct (http_request_id_ l =? 0) eqn:E; [by apply Z.eqb_eq|done]. Qed.

Lemma read_request_good l : Quiet l -> unclosing l -> busy l = 0%nat -> shaken l -> (closed_ l = false -> response_ l = false) ->
  good (read_request l).
Proof.
  intros Hq Hu Hb Hs Hr. unfold read_request. cbv zeta. apply clear_quiet in Hq.
  pose proof (clear_same l) as (E1 & E2 & E3 & E4 & E5 & E6). pose proof (clear_id l) as Hid.
  set (l1 := clear_http_request l) in *. clearbody l1.
  rewrite <-E4 in Hb. unfold unclosing, shaken in *. rewrite <-E1, <-E2, <-E6 in Hs. rewrite <-E2, <-E3 in Hu. rewrite <-E2, <-E5 in Hr.
  apply idle_all in Hb as (B1 & B2 & B3 & B4 & B5).
  eapply (call_then Quiet); [by intros; apply quiet_faults|done|by intros []|]. intros r1 [[] [] Hp Hd].
  set (l2 := set_body_done false _).
  assert (Hq2 : Quiet l2) by (constructor; [constructor|constructor|..]; cbn in *; try done; by rewrite B3).
  eapply (call_then Quiet); [by intros; apply quiet_faults|done|by intros []|]. intros r2 Hq3.
  eapply (call_then Quiet); [by intros; apply quiet_faults|done|by intros []|]. intros r3 _. cbn [good]. clear Hq3.
  destruct Hq2 as [[] [] _ _]. constructor; [constructor|constructor|..]; unfold busy in *; cbn in *;
    rewrite ?B1, ?B2, ?B3, ?B4, ?B5 in *; fin.
Qed.

Lemma write_response_good ka l : Quiet l -> busy l = 0%nat -> shaken l -> closed_ l = false -> closing_ l = false ->
  (ka = true -> body_done l = true) -> good (write_response ka l).
Proof.
  intros Hq Hb Hs Hc Hcl Hka. apply idle_all in Hb as (B1 & B2 & B3 & B4 & B5). unfold write_response.
  eapply (call_then Quiet); [by intros; apply quiet_faults|done|by intros []|]. intros r1 [[] [] Hp Hd]. cbv zeta.
  assert (Hq2 : Quiet (set_response true (set_faults r1 l))) by (by constructor; [constructor|constructor|..]).
  eapply (call_then Quiet); [by intros; apply quiet_faults|done|by intros []|]. intros r2 _. cbn [good].
  constructor; [constructor|constructor|..]; unfold busy in *; cbn in *; rewrite ?B1, ?B2, ?B3, ?B4, ?B5 in *; fin.
  all: try (by destruct ka; fin). 
Qed.

(** A request is being handled: nothing is outstanding and the session is open. *)
Record Ready (l : Session) : Prop := {
  ry_weak : Weak l;
  ry_open : Open l;
  ry_operation : proxy_operation_ l = false;
  ry_busy : busy l = 0%nat;
  ry_shaken : shaken l;
  ry_closed : closed_ l = false;
  ry_closing : closing_ l = false;
  ry_parser : parser_ l = true;
  ry_response : response_ l = false
}.

Lemma ready_faults l rest : Ready l -> Ready (set_faults rest l).
Proof. intros [[] [] ? ? ? ? ? ?]. by constructor; [constructor|constructor|..]. Qed.

Local Ltac call_ready := eapply (call_then Ready); [by intros; apply ready_faults|done|by intros []|].
Lemma note_then l k : Ready l -> (forall rest, Ready (set_faults rest l) -> good (k (set_faults rest l))) ->
  good (and_then (note_request l) k).
Proof.
  intros Hr Hk. unfold note_request. destruct (_ =? 0).
  - cbn [and_then]. replace l with (set_faults (faults l) l) by (by destruct l). by apply Hk, ready_faults.
  - call_ready. exact Hk.
Qed.

Lemma ready_quiet l : Ready l -> Quiet (set_dispatcher false l).
Proof. intros [[] [] ? ? ? ? ? ?]. by constructor; [constructor|constructor|..]. Qed.

Lemma on_proxy_response_good ka l : Ready l -> good (on_proxy_response ka l).
Proof.
  intros Hr. unfold on_proxy_response. cbv zeta. pose proof (ready_quiet l Hr) as Hq.
  assert (Hr1 : Ready (set_dispatcher false l)) by (destruct Hr as [[] [] ? ? ? ? ? ? ?]; by constructor; [constructor|constructor|..]).
  set (l1 := set_dispatcher false l) in *. rewrite (ry_closed _ Hr1), (ry_closing _ Hr1). cbn [orb].
  set (keep := ka && _ && _). assert (Hk : keep = true -> body_done l1 = true).
  { unfold keep. rewrite (ry_parser _ Hr1). by destruct ka, (stopping_ l1), (body_done l1). }
  assert (Hd : dispatcher_ l1 = false) by done. clearbody l1 keep.
  call_ready. intros r1 Hr2. apply note_then; [done|]. intros r2 Hr3.
  destruct Hr3. apply write_response_good; try done.
Qed.

Lemma start_proxy_good l : Ready l -> good (start_proxy l).
Proof.
  intros Hr. unfold start_proxy. call_ready. intros r1 Hr1. apply note_then; [done|]. intros r2 Hr2.
  unfold deref_parser. rewrite (ry_parser _ Hr2). cbn [and_then]. call_ready. intros r3 [Hw Ho Hp Hb Hs Hc Hcl Hpa Hre].
  apply idle_all in Hb as (B1 & B2 & B3 & B4 & B5). destruct Hw, Ho. set (l3 := set_faults r3 _) in *. cbv zeta. clearbody l3.
  assert (Hw3 : Weak (set_proxy_operation true l3)) by (by constructor).
  destruct (session_call_cases (set_proxy_operation true l3)) as [r4 [-> | ->]]; cbn [and_then good]; [|by apply weak_faults].
  constructor; [constructor|constructor|..]; unfold busy in *; cbn in *; rewrite ?B1, ?B2, ?B3, ?B4, ?B5 in *; fin.
Qed.

Lemma dispatch_good resolved a l : Ready l -> good (dispatch resolved a l).
Proof.
  intros Hr. unfold dispatch.
  assert (Hend : forall l, Ready l -> good (match a with responds ka => guard (on_proxy_response ka l) | proxies => guard (start_proxy l)
    | throws => Threw l end)).
  { intros l1 Hr1. destruct a; [by apply guarded_ok, on_proxy_response_good|by apply guarded_ok, start_proxy_good|by apply Hr1]. }
  destruct resolved; cbn [and_then]; [|rewrite (ry_closed _ Hr); by apply Hend].
  unfold note_request. destruct (_ =? 0); [cbn [guard and_then]; rewrite (ry_closed _ Hr); by apply Hend|].
  destruct (session_call_cases l) as [rest [-> | ->]]; cbn [guard and_then].
  - apply (ready_faults _ rest) in Hr. rewrite (ry_closed _ Hr). by apply Hend.
  - assert (Hi : Inv (abort_noexcept (set_faults rest l))) by (apply abort_inv, weak_faults, Hr).
    replace (closed_ (abort_noexcept (set_faults rest l))) with true; [exact Hi|].
    pose proof (abort_closed (set_faults rest l)). done.
Qed.

(** *** Handlers *)

Lemma send_payload_too_large_good l : Quiet l -> busy l = 0%nat -> shaken l -> closed_ l = false -> closing_ l = false ->
  good (send_payload_too_large l).
Proof.
  intros Hq Hb Hs Hc Hcl. unfold send_payload_too_large.
  eapply (call_then Quiet); [by intros; apply quiet_faults|done|by intros []|]. intros r1 Hq1.
  destruct (parser_ _); [|by apply write_response_good].
  eapply (call_then Quiet); [by intros; apply quiet_faults|done|by intros []|]. intros r2 Hq2. by apply write_response_good.
Qed.

(** A closed session writes only to fail. *)
Lemma late_write_good l : Quiet l -> busy l = 0%nat -> closed_ l = true -> good (send_payload_too_large l).
Proof.
  intros Hq Hb Hc. unfold send_payload_too_large, write_response.
  assert (Hw : forall l, Quiet l -> busy l = 0%nat -> closed_ l = true ->
    good (l <~ call l;; let l := set_response true l in l <~ call l;; Done (set_write_pending (Some false) l))).
  { clear. intros l Hq Hb Hc. apply idle_all in Hb as (B1 & B2 & B3 & B4 & B5).
    eapply (call_then Quiet); [by intros; apply quiet_faults|done|by intros []|]. intros r1 [[] [] Hp Hd]. cbv zeta.
    assert (Hq2 : Quiet (set_response true (set_faults r1 l))) by (by constructor; [constructor|constructor|..]).
    eapply (call_then Quiet); [by intros; apply quiet_faults|done|by intros []|]. intros r2 _. cbn [good].
    constructor; [constructor|constructor|..]; unfold busy in *; cbn in *; rewrite ?B1, ?B2, ?B3, ?B4, ?B5 in *; fin. }
  eapply (call_then Quiet); [by intros; apply quiet_faults|done|by intros []|]. intros r1 Hq1.
  destruct (parser_ _); [|by apply Hw].
  eapply (call_then Quiet); [by intros; apply quiet_faults|done|by intros []|]. intros r2 Hq2. by apply Hw.
Qed.

Lemma on_header_read_good result l : Quiet l -> busy l = 0%nat -> unclosing l -> shaken l -> parser_ l = true ->
  (closed_ l = false -> response_ l = false) -> http_request_id_ l = 0 ->
  match result with header peer_known _ _ id _ _ => (peer_known = true -> closed_ l = false) /\ id <> 0 | _ => True end ->
  good (on_header_read result l).
Proof.
  intros Hq Hb Hu Hs Hp Hr Hid0 He. destruct result as [| |aborted|peer ctx done_ id resolved a]; cbn [on_header_read].
  - by apply close_good.
  - destruct (closed_ l) eqn:Ec; [by apply late_write_good|]. apply send_payload_too_large_good; auto.
  - destruct aborted; cbn [and_then]; [by apply close_good|].
    eapply (call_then Quiet); [by intros; apply quiet_faults|done|by intros []|]. intros r1 Hq1. by apply close_good.
  - destruct (negb peer || _) eqn:Ep; [by apply close_good|]. apply orb_false_iff in Ep as [Ep _]. destruct He as [Hc Hid].
    specialize (Hc ltac:(by destruct peer)). unfold deref_parser. rewrite Hp. cbn [and_then].
    assert (Hr0 : Ready l) by (destruct Hq; constructor; auto).
    call_ready. intros r1 [[] [] ? ? ? ? ? ? ?]. cbv zeta. cbn in *. rewrite Hid0 in wk_open0. cbn in wk_open0.
    assert (Eid : (id =? 0) = false) by (by apply Z.eqb_neq).
    set (l2 := set_body_done _ _).
    assert (Hr2 : Ready l2).
    { apply idle_all in Hb as (B1 & B2 & B3 & B4 & B5). constructor; [constructor|constructor|..]; cbn in *; try done.
      - by rewrite Eid, wk_open0.
      - by rewrite B3.
      - congruence. }
    call_ready. intros r2 [[] [] ? ? ? ? ? ? ?]. apply dispatch_good. by constructor; [constructor|constructor|..].
Qed.

Lemma on_write_good ka error l : Quiet l -> busy l = 0%nat -> unclosing l -> shaken l -> good (on_write ka error l).
Proof.
  intros Hq Hb Hu Hs. unfold on_write. destruct error.
  { eapply (call_then Quiet); [by intros; apply quiet_faults|done|by intros []|]. intros r1 Hq1. by apply close_good. }
  cbv zeta. set (l0 := set_parser false (set_response false l)).
  assert (Hq1 : Quiet (clear_http_request l0)).
  { apply clear_quiet. apply idle_all in Hb as (B1 & B2 & B3 & B4 & B5). destruct Hq as [[] [] ? ?].
    constructor; [constructor|constructor|..]; cbn; try done; rewrite ?B2, ?B3, ?B4; done. }
  pose proof (clear_same l0) as (E1 & E2 & E3 & E4 & E5 & E6). set (l1 := clear_http_request l0) in *.
  assert (Hb1 : busy l1 = 0%nat) by (rewrite E4; exact Hb).
  assert (Hu1 : unclosing l1) by (unfold unclosing; rewrite E2, E3; exact Hu).
  assert (Hs1 : shaken l1) by (unfold shaken; rewrite E1, E2, E6; exact Hs).
  destruct (negb ka || _); [by apply close_good|]. by apply read_request_good.
Qed.

Lemma on_stream_complete_good ka l : Weak l -> Open l -> busy l = 0%nat -> unclosing l -> shaken l ->
  (closed_ l = false -> response_ l = false) -> good (on_stream_complete ka l).
Proof.
  intros Hw Ho Hb Hu Hs Hr. unfold on_stream_complete. cbv zeta. set (l0 := set_parser false (set_proxy_operation false l)).
  assert (Hq0 : forall rest, Quiet (set_dispatcher false (set_faults rest l0))).
  { intros rest. apply idle_all in Hb as (B1 & B2 & B3 & B4 & B5). destruct Hw, Ho. constructor; [constructor|constructor|..]; cbn; try done.
    by rewrite B2, B4. }
  assert (Hend : forall rest, good (let l := clear_http_request (set_dispatcher false (set_faults rest l0)) in
    if closed_ l || closing_ l then Done l else if negb ka || stopping_ l then close l else read_request l)).
  { intros rest. pose proof (clear_quiet _ (Hq0 rest)) as Hq1. cbv zeta.
    pose proof (clear_same (set_dispatcher false (set_faults rest l0))) as (E1 & E2 & E3 & E4 & E5 & E6).
    set (l1 := clear_http_request _) in *.
    assert (Hb1 : busy l1 = 0%nat) by (rewrite E4; exact Hb).
    assert (Hu1 : unclosing l1) by (unfold unclosing; rewrite E2, E3; exact Hu).
    assert (Hs1 : shaken l1) by (unfold shaken; rewrite E1, E2, E6; exact Hs).
    assert (Hr1 : closed_ l1 = false -> response_ l1 = false) by (rewrite E5, E2; exact Hr).
    destruct (closed_ l1) eqn:Ec; [by apply quiet_closed|]. rewrite (Hu1 Ec). cbn [orb].
    destruct (negb ka || _); [by apply close_good|]. apply read_request_good; try done. by rewrite Ec. }
  destruct (dispatcher_ l0).
  - destruct (session_call_cases l0) as [rest [-> | ->]]; cbn [and_then good]; [exact (Hend rest)|].
    specialize (Hq0 rest). destruct Hq0 as [[] _ _ _]. by constructor.
  - cbn [and_then]. specialize (Hend (faults l0)). by replace (set_faults (faults l0) l0) with l0 in Hend by (by destruct l0).
Qed.

Lemma on_handshake_good error l : tls l = true -> Quiet l -> busy l = 0%nat -> unclosing l -> (closed_ l = false -> response_ l = false) ->
  good (on_handshake error l).
Proof.
  intros Ht Hq Hb Hu Hr. unfold on_handshake. destruct error.
  - eapply (call_then Quiet); [by intros; apply quiet_faults|done|by intros []|]. intros r1 Hq1. by apply close_socket_good.
  - apply read_request_good; try done. destruct Hq as [[] [] ? ?]. by constructor; [constructor|constructor|..].
Qed.

Lemma stop_on_executor_good l : Inv l -> good (stop_on_executor l).
Proof.
  intros Hi. unfold stop_on_executor. destruct (proxy_operation_ l) eqn:Ep.
  { destruct (session_call_cases l) as [rest [-> | ->]]; cbn [good]; [by apply session_inv_faults|by apply weak_faults, Hi]. }
  assert (Hend : forall l, Inv l -> proxy_operation_ l = false -> good (if negb (response_ l) then close_now l else Done l)).
  { clear. intros l Hi Ep. destruct (response_ l) eqn:Er; cbn [negb]; [exact Hi|]. destruct (closed_ l) eqn:Ec.
    - unfold close_now, close_socket, close. rewrite Ec. by destruct (tls l).
    - apply close_now_good. constructor; [apply Hi|apply Hi|done|]. destruct (dispatcher_ l) eqn:Ed; [|done].
      apply (iv_dispatcher _ Hi) in Ed. apply (iv_running _ Hi Ec) in Ed. congruence. }
  destruct (dispatcher_ l); [|by apply Hend].
  destruct (session_call_cases l) as [rest [-> | ->]]; cbn [and_then good]; [by apply Hend; [apply session_inv_faults|]|by apply weak_faults, Hi].
Qed.

(** *** Steps *)

Local Ltac one_pending Hw Hp :=
  let B := fresh "B" in
  pose proof (wk_busy _ Hw) as B; unfold busy in B; cbn in B; rewrite ?Hp in B; cbn in B;
  repeat match type of B with
  | context [handshake_pending ?l] => destruct (handshake_pending l) eqn:?; cbn in B; try lia
  | context [read_pending ?l] => destruct (read_pending l) eqn:?; cbn in B; try lia
  | context [write_pending ?l] => destruct (write_pending l) eqn:?; cbn in B; try lia
  | context [proxy_running ?l] => destruct (proxy_running l) eqn:?; cbn in B; try lia
  | context [shutdown_pending ?l] => destruct (shutdown_pending l) eqn:?; cbn in B; try lia
  end; clear B.

Local Ltac over Hi Hp :=
  let Hw := fresh "Hw" in
  pose proof (iv_weak _ Hi) as Hw; one_pending Hw Hp; destruct Hi as [_ Hop Hl Hc Ho Hr Hre Hd Hrs Hh];
  repeat match goal with
  | E : _ = true, H : _ |- _ => progress rewrite E in H
  | E : _ = false, H : _ |- _ => progress rewrite E in H
  | E : write_pending _ = _, H : _ |- _ => progress rewrite E in H
  end.

Lemma none_true (b : bool) : (b = true -> false = true) -> b = false.
Proof. destruct b; [|done]. intros Hb. by specialize (Hb eq_refl). Qed.

(** Dropping the operation that is over. *)
Definition calm (l : Session) : Prop :=
  handshake_pending l = false /\ read_pending l = false /\ write_pending l = None /\ proxy_running l = false /\ shutdown_pending l = false.
Lemma calm_busy l : calm l -> busy l = 0%nat.
Proof. intros (H1 & H2 & H3 & H4 & H5). unfold busy. by rewrite H1, H2, H3, H4, H5. Qed.
Lemma calm_weak l l' : Weak l -> calm l' -> closes l' = closes l -> on_close_ l' = on_close_ l -> open_requests l' = open_requests l ->
  http_request_id_ l' = http_request_id_ l -> tls l' = tls l -> closing_ l' = closing_ l -> Weak l'.
Proof.
  intros [] Hc E1 E2 E3 E4 E5 E6. pose proof (calm_busy _ Hc) as Hb. destruct Hc as (H1 & H2 & H3 & H4 & H5).
  constructor; rewrite ?H1, ?H2, ?H3, ?H4, ?H5, ?E1, ?E2, ?E3, ?E4, ?E5, ?E6; try done; try lia.
  intros Ht. by destruct (wk_plain0 Ht).
Qed.

Lemma read_over l : Inv l -> read_pending l = true -> let l' := set_read_pending false l in
  Quiet l' /\ busy l' = 0%nat /\ unclosing l' /\ shaken l' /\ parser_ l' = true /\ (closed_ l' = false -> response_ l' = false) /\
  http_request_id_ l' = 0.
Proof.
  intros Hi Hp. cbv zeta. over Hi Hp. apply none_true in Ho, Hd. assert (Hm : calm (set_read_pending false l)) by done.
  pose proof (calm_weak l _ Hw Hm eq_refl eq_refl eq_refl eq_refl eq_refl eq_refl) as Hw'. destruct Hop.
  split_and!; [by constructor; [|constructor|..]|by apply calm_busy|done|done| |naive_solver|auto].
  apply (wk_parser _ Hw). by rewrite Hp.
Qed.

Lemma write_over l : Inv l -> is_Some (write_pending l) -> let l' := set_write_pending None l in
  Quiet l' /\ busy l' = 0%nat /\ unclosing l' /\ shaken l'.
Proof.
  intros Hi [ka Hp]. cbv zeta. over Hi Hp. apply none_true in Ho, Hd. assert (Hm : calm (set_write_pending None l)) by done.
  pose proof (calm_weak l _ Hw Hm eq_refl eq_refl eq_refl eq_refl eq_refl eq_refl) as Hw'. destruct Hop.
  split_and!; [by constructor; [|constructor|..]|by apply calm_busy|done|done].
Qed.

Lemma proxy_over l : Inv l -> proxy_running l = true -> let l' := set_proxy_running false l in
  Weak l' /\ Open l' /\ busy l' = 0%nat /\ unclosing l' /\ shaken l' /\ (closed_ l' = false -> response_ l' = false).
Proof.
  intros Hi Hp. cbv zeta. over Hi Hp. assert (Hm : calm (set_proxy_running false l)) by done.
  pose proof (calm_weak l _ Hw Hm eq_refl eq_refl eq_refl eq_refl eq_refl eq_refl) as Hw'. destruct Hop.
  split_and!; [done|by constructor|by apply calm_busy|done|done|naive_solver].
Qed.

Lemma handshake_over l : Inv l -> handshake_pending l = true -> let l' := set_handshake_pending false l in
  tls l' = true /\ Quiet l' /\ busy l' = 0%nat /\ unclosing l' /\ (closed_ l' = false -> response_ l' = false).
Proof.
  intros Hi Hp. cbv zeta. over Hi Hp. apply none_true in Ho, Hd. assert (Hm : calm (set_handshake_pending false l)) by done.
  pose proof (calm_weak l _ Hw Hm eq_refl eq_refl eq_refl eq_refl eq_refl eq_refl) as Hw'. destruct Hop.
  split_and!; [|by constructor; [|constructor|..]|by apply calm_busy|done|naive_solver].
  cbn. destruct (tls l) eqn:Ht; [done|]. destruct (wk_plain _ Hw Ht) as (_ & Hn & _). congruence.
Qed.

Lemma shutdown_over l : Inv l -> shutdown_pending l = true -> let l' := set_shutdown_pending false l in tls l' = true /\ Quiet l'.
Proof.
  intros Hi Hp. cbv zeta. over Hi Hp. apply none_true in Ho, Hd. assert (Hm : calm (set_shutdown_pending false l)) by done.
  pose proof (calm_weak l _ Hw Hm eq_refl eq_refl eq_refl eq_refl eq_refl eq_refl) as Hw'. destruct Hop.
  split; [|by constructor; [|constructor|..]].
  cbn. destruct (tls l) eqn:Ht; [done|]. destruct (wk_plain _ Hw Ht) as (_ & _ & Hn). congruence.
Qed.

Lemma session_step_good e throws l : Inv l -> enabled e l = true -> exists l', step e throws l = Done l' /\ Inv l'.
Proof.
  intros Hi He. apply (session_inv_faults _ throws) in Hi. unfold step. cbv zeta.
  destruct e as [error|result|error|ka| | |dt].
  - apply guard_good. destruct (handshake_over _ Hi He) as (? & ? & ? & ? & ?). by apply on_handshake_good.
  - assert (Hp : read_pending l = true) by (destruct result; cbn in He; bool_to_prop; done).
    apply guard_good. destruct (read_over _ Hi Hp) as (? & ? & ? & ? & ? & ? & ?). apply on_header_read_good; try done.
    destruct result; try done. cbn in He. bool_to_prop. split; [|done].
    destruct peer_known, (closed_ l); naive_solver.
  - apply guard_good. cbn in He. apply bool_decide_eq_true in He. destruct (write_over _ Hi He) as (? & ? & ? & ?). by apply on_write_good.
  - apply guard_good. destruct (proxy_over _ Hi He) as (? & ? & ? & ? & ? & ?). by apply on_stream_complete_good.
  - apply guard_good. destruct (shutdown_over _ Hi He). by apply close_socket_good.
  - eexists. split; [done|]. destruct Hi as [[] [] ? ? ? ? ? ? ? ?]. by constructor; [constructor|constructor|..].
  - destruct dt; [eexists; split; [done|]; by apply abort_inv, Hi|]. by apply guard_good, stop_on_executor_good.
Qed.

Lemma new_quiet t stopping throws : Quiet (set_faults throws (new_session t stopping)).
Proof. constructor; [constructor|constructor|..]; cbn; try done; try lia; by intros []. Qed.

Lemma session_start_good t stopping throws : good (start (set_faults throws (new_session t stopping))).
Proof.
  pose proof (new_quiet t stopping throws) as Hq. unfold start. destruct (tls _) eqn:Ht.
  - eapply (call_then Quiet); [by intros; apply quiet_faults|done|by intros []|]. intros r [[] [] _ _].
    cbn in Ht. subst t. constructor; [constructor|constructor|..]; fin.
  - apply read_request_good; try done. intros Ht'. congruence.
Qed.

Lemma session_inv l : reachable l -> Inv l.
Proof.
  induction 1 as [t stopping throws l Hs|e throws l l' _ IH He Hst].
  - pose proof (session_start_good t stopping throws) as Hg. by rewrite Hs in Hg.
  - destruct (session_step_good e throws l IH He) as (l1 & E & Hi). congruence.
Qed.

(** ** Stopping *)

Definition is_io (e : event) : bool := match e with EFlag | EStop _ => false | _ => true end.

(** How many completions are left, once stopped. *)
Definition rank (l : Session) : nat :=
  if closed_ l then 0 else if closing_ l then 1 else if bool_decide (is_Some (write_pending l)) || proxy_running l then 2 else 3.

Definition ends (P : Session -> Prop) (o : outcome) : Prop := match o with Done l => P l | _ => True end.

Lemma call_ends (P : Session -> Prop) l k : (forall rest, ends P (k (set_faults rest l))) -> ends P (and_then (call l) k).
Proof. intros Hk. destruct (session_call_cases l) as [rest [-> | ->]]; [apply Hk|done]. Qed.
Lemma guard_ends (P : Session -> Prop) o l : (forall l, closed_ l = true -> P l) -> ends P o -> guard o = Done l -> P l.
Proof. intros Hc Ho. destruct o; cbn; intros [= <-]; [done|]. apply Hc, abort_closed. Qed.

Lemma call_on_close_closed l : closed_ l = true -> ends (fun l => closed_ l = true) (call_on_close l).
Proof.
  intros Hc. unfold call_on_close. destruct (on_close_ l); [|done].
  by destruct (session_call_cases (set_closes (S (closes l)) (set_on_close false l))) as [rest [-> | ->]].
Qed.
Lemma close_socket_closed l : ends (fun l => closed_ l = true) (close_socket l).
Proof.
  unfold close_socket. destruct (closed_ l) eqn:Ec; [done|]. cbv zeta. apply call_ends. intros rest. apply call_on_close_closed.
  by destruct (clear_rest (set_closing true (set_closed true l))) as (id & open & ->).
Qed.

Definition settled (l : Session) : Prop := closed_ l = true \/ closing_ l = true.

Lemma close_plain_closed l : tls l = false -> ends (fun l => closed_ l = true) (close l).
Proof.
  intros Ht. unfold close. rewrite Ht. destruct (closed_ l) eqn:Ec; [done|]. cbv zeta.
  destruct (clear_rest (set_closed true l)) as (id & open & ->). unfold cancel_dispatcher, cancel_proxy. cbn [dispatcher_ unregister set_registered
    set_request_id set_open_requests set_closed].
  assert (Hend : forall l, closed_ l = true -> ends (fun l => closed_ l = true)
    (l <~ (if proxy_operation_ l then call (set_proxy_operation false l) else Done l);; l <~ call l;; call_on_close l)).
  { clear. intros l Hc. destruct (proxy_operation_ l); [apply call_ends; intros rest|cbn [and_then]]; apply call_ends; intros rest';
      by apply call_on_close_closed. }
  destruct (dispatcher_ l); [apply call_ends; intros rest|cbn [and_then]]; by apply Hend.
Qed.

Lemma close_settles l : ends settled (close l).
Proof.
  assert (Himp : forall o, ends (fun l => closed_ l = true) o -> ends settled o) by (intros []; cbn; unfold settled; auto).
  destruct (tls l) eqn:Ht; [|by apply Himp, close_plain_closed]. unfold close. rewrite Ht.
  destruct (closed_ l || closing_ l) eqn:Ec; [by apply orb_true_iff in Ec|].
  apply call_ends. intros r1.
  assert (Hend : forall l, closing_ l = true -> ends settled
    (l <~ cancel_proxy l;; if negb (handshake_complete_ l) then close_socket l else l <~ call l;; Done (set_shutdown_pending true l))).
  { intros l1 Hc. assert (Htail : forall l, closing_ l = true ->
      ends settled (if negb (handshake_complete_ l) then close_socket l else l <~ call l;; Done (set_shutdown_pending true l))).
    { intros l2 Hc2. destruct (negb _); [apply Himp, close_socket_closed|]. apply call_ends. intros r2. by right. }
    unfold cancel_proxy. destruct (proxy_operation_ l1); [apply call_ends; intros r2|cbn [and_then]]; by apply Htail. }
  unfold cancel_dispatcher. destruct (dispatcher_ _); [apply call_ends; intros r2|cbn [and_then]]; by apply Hend.
Qed.

Lemma close_now_closed l : ends (fun l => closed_ l = true) (close_now l).
Proof. unfold close_now. destruct (tls l) eqn:Ht; [apply close_socket_closed|by apply close_plain_closed]. Qed.

Lemma settled_rank l : settled l -> (rank l <= 1)%nat.
Proof. unfold rank, settled. destruct (closed_ l), (closing_ l); naive_solver lia. Qed.

Lemma clear_stopping l : stopping_ (clear_http_request l) = stopping_ l.
Proof. by destruct (clear_rest l) as (id & open & ->). Qed.

(** With the flag set no further request is read. *)
Lemma on_write_settles ka error l : stopping_ l = true -> ends settled (on_write ka error l).
Proof.
  intros Hs. unfold on_write. destruct error; [apply call_ends; intros; apply close_settles|]. cbv zeta.
  rewrite clear_stopping. cbn [stopping_ set_parser set_response]. rewrite Hs, orb_true_r. apply close_settles.
Qed.
Lemma on_stream_settles ka l : stopping_ l = true -> ends settled (on_stream_complete ka l).
Proof.
  intros Hs. unfold on_stream_complete. cbv zeta.
  assert (Hend : forall l, stopping_ l = true -> ends settled (let l := clear_http_request (set_dispatcher false l) in
    if closed_ l || closing_ l then Done l else if negb ka || stopping_ l then close l else read_request l)).
  { clear. intros l Hs. cbv zeta. rewrite clear_stopping. cbn [stopping_ set_dispatcher]. rewrite Hs, orb_true_r.
    destruct (_ || _) eqn:E; [by apply orb_true_iff in E|apply close_settles]. }
  destruct (dispatcher_ _); [apply call_ends; intros rest|cbn [and_then]]; by apply Hend.
Qed.

Lemma stop_rank dt throws l l' : Inv l -> step (EStop dt) throws l = Done l' -> (rank l' <= 2)%nat.
Proof.
  intros Hi. apply (session_inv_faults _ throws) in Hi. unfold step. cbv zeta. set (l0 := set_faults throws l) in *.
  assert (Hc : forall l, closed_ l = true -> (rank l <= 2)%nat) by (intros x Ex; unfold rank; rewrite Ex; lia).
  destruct dt; [intros [= <-]; apply Hc, abort_closed|]. apply (guard_ends (fun l => (rank l <= 2)%nat)); [exact Hc|]. unfold stop_on_executor.
  assert (Hlow : forall l, Inv l -> proxy_operation_ l = true \/ response_ l = true -> (rank l <= 2)%nat).
  { clear. intros l Hi Hor. unfold rank. destruct (closed_ l) eqn:Ec; [lia|]. destruct (closing_ l) eqn:Ecl; [lia|].
    destruct Hor as [Hp|Hr]; [rewrite (iv_operation _ Hi Hp), orb_true_r; lia|].
    rewrite (iv_response _ Hi Ec Ecl) in Hr. rewrite Hr. cbn. lia. }
  destruct (proxy_operation_ l0) eqn:Ep.
  { destruct (session_call_cases l0) as [rest [-> | ->]]; cbn; [|done]. apply Hlow; [by apply session_inv_faults|by left]. }
  assert (Hend : forall l, Inv l -> ends (fun l => (rank l <= 2)%nat) (if negb (response_ l) then close_now l else Done l)).
  { intros x Hx. destruct (response_ x) eqn:Er; cbn [negb]; [apply Hlow; [done|by right]|].
    pose proof (close_now_closed x) as He. destruct (close_now x); cbn in *; auto. }
  destruct (dispatcher_ l0); [|by apply Hend]. apply call_ends. intros rest. by apply Hend, session_inv_faults.
Qed.

Lemma io_rank e throws l l' : Inv l -> stopping_ l = true -> (rank l <= 2)%nat -> closed_ l = false -> is_io e = true ->
  enabled e l = true -> step e throws l = Done l' -> (rank l' < rank l)%nat.
Proof.
  intros Hi Hs Hr Hc Hio He Hst. destruct (closing_ l) eqn:Ecl.
  - assert (Hsh : shutdown_pending l = true) by (rewrite <-(iv_closing _ Hi Hc); done).
    assert (E : rank l = 1%nat) by (unfold rank; by rewrite Hc, Ecl). rewrite E.
    pose proof (iv_weak _ Hi) as Hw. one_pending Hw Hsh.
    destruct e as [| | | | | |]; cbn in He, Hio; try congruence;
      [destruct result; cbn in He; bool_to_prop; congruence|rewrite Heqo in He; done|].
    unfold step, on_shutdown in Hst. eapply (guard_ends (fun l => (rank l < 1)%nat)) in Hst; [exact Hst| |].
    + intros x Ex. unfold rank. rewrite Ex. lia.
    + pose proof (close_socket_closed (set_shutdown_pending false (set_faults throws l))) as Hx.
      destruct (close_socket _); cbn in *; try done. unfold rank. rewrite Hx. lia.
  - assert (E : rank l = 2%nat /\ (is_Some (write_pending l) \/ proxy_running l = true)).
    { unfold rank in *. rewrite Hc, Ecl in *. destruct (bool_decide _ || _) eqn:Eb; [|lia]. split; [done|].
      apply orb_true_iff in Eb as [?%bool_decide_eq_true|?]; auto. }
    destruct E as [E Hor]. rewrite E. cut (settled l'); [intros Hx%settled_rank; lia|].
    pose proof (iv_weak _ Hi) as Hw. unfold step in Hst. cbv zeta in Hst.
    destruct Hor as [[ka Hp]|Hp]; one_pending Hw Hp.
    all: destruct e as [|result| | | | |]; cbn in He, Hio; try congruence;
      try (destruct result; cbn in He; bool_to_prop; congruence); try (rewrite Heqo in He; done).
    + eapply (guard_ends settled); [by left| |exact Hst]. by apply on_write_settles.
    + eapply (guard_ends settled); [by left| |exact Hst]. by apply on_stream_settles.
Qed.

(** ** Properties *)


(** What a session opens it closes once.  The close handler, which frees the
    listener's entry and the admission permit, has been called once if the session is
    closed and not before; the connection is in its registry exactly while the
    session is open, and the request registry holds at most the current request of
    the session, and nothing once it is closed. *)
Theorem session_releases_once l : reachable l ->
  closes l = (if closed_ l then 1 else 0)%nat /\ registered l = negb (closed_ l) /\
  open_requests l = (if http_request_id_ l =? 0 then [] else [http_request_id_ l]) /\
  (closed_ l = true -> open_requests l = []).
Proof.
  intros [Hw [Hc Hr Hid]]%session_inv. pose proof (wk_close _ Hw) as Hn. pose proof (wk_open _ Hw) as Ho. split_and!; try done.
  - rewrite Hc. destruct (on_close_ l); cbn in *; lia.
  - intros Ec. by rewrite Ho, (Hid Ec).
Qed.

(** Stopping ends.  Once the listener has set its flag and the session has been
    told to stop, the session is closed or is finishing a response, a transaction or
    a TLS shutdown, and every completion brings it nearer to its end: after at most
    two it is closed.  No other request is read. *)
Theorem stopped_session_ends l : reachable l -> stopping_ l = true ->
  (forall dispatch_throws throws l', step (EStop dispatch_throws) throws l = Done l' -> (rank l' <= 2)%nat) /\
  (forall e throws l', (rank l <= 2)%nat -> closed_ l = false -> is_io e = true -> enabled e l = true ->
     step e throws l = Done l' -> (rank l' < rank l)%nat).
Proof.
  intros Hi%session_inv Hs. split.
  - intros dt throws l' Hst. by eapply stop_rank.
  - intros e throws l' Hr Hc Hio He Hst. by eapply io_rank.
Qed.

(** A TLS session serves a request, then hands one over and is stopped meanwhile. *)
Definition run (es : list (event * list bool)) (l : Session) : outcome :=
  foldl (fun o et => l <~ o;; if enabled et.1 l then step et.1 et.2 l else Undefined) (Done l) es.

Definition request (a : answer) : event := ERead (header true true true 7 true a).
Definition two_requests : list (event * list bool) :=
  [(EHandshake false, []); (request (responds true), []); (EWrite false, []); (request proxies, []); (EFlag, [])].
Definition proxying : outcome := l <~ start (new_session true false);; run two_requests l.
Definition proxying_state : Session := match proxying with Done l => l | _ => new_session true false end.

Lemma run_reachable_from es l l' : reachable l -> run es l = Done l' -> reachable l'.
Proof.
  unfold run. revert l. induction es as [|[e throws] es IH]; intros l Hr Hrun; cbn in Hrun; [by injection Hrun as <-|].
  assert (Hbad : forall es o, (forall x, o <> Done x) -> foldl (fun o et => l0 <~ o;; if enabled et.1 l0 then step et.1 et.2 l0 else Undefined) o es <> Done l').
  { clear. induction es as [|et es IH]; intros o Ho; cbn; [done|]. apply IH. destruct o; [by destruct (Ho l)|done|done]. }
  destruct (enabled e l) eqn:He; [|by destruct (Hbad es Undefined)].
  destruct (step e throws l) as [l1|l1|] eqn:Es; [|by destruct (Hbad es (Threw l1))|by destruct (Hbad es Undefined)].
  apply (IH l1); [|done]. by eapply reachable_step.
Qed.

Lemma proxying_reachable : reachable proxying_state.
Proof.
  destruct (start (new_session true false)) as [l0| |] eqn:E0; [|discriminate E0..].
  apply (run_reachable_from two_requests l0); [by eapply (reachable_start true false [])|].
  vm_compute in E0. injection E0 as <-. vm_compute. reflexivity.
Qed.


(** The stream fails while the session is being closed: the exception does not lose the close. *)
Lemma session_releases_once_witness :
  exists l, step (EProxyDone false) [true] proxying_state = Done l /\ closed_ l = true /\ closes l = 1%nat /\ open_requests l = [].
Proof.
  destruct (step (EProxyDone false) [true] proxying_state) as [l| |] eqn:E; [|vm_compute in E; discriminate E..].
  exists l. split; [reflexivity|].
  assert (Hr : reachable l) by (eapply reachable_step; [exact proxying_reachable| |exact E]; vm_compute; reflexivity).
  destruct (session_releases_once l Hr) as (H1 & _ & _ & H4).
  assert (Hc : closed_ l = true) by (vm_compute in E; injection E as <-; reflexivity).
  split; [exact Hc|]. split; [rewrite H1, Hc; reflexivity|exact (H4 Hc)].
Defined.

(** Stopped while proxying: the transaction completes, then the TLS shutdown. *)
Lemma stopped_session_ends_witness :
  exists l, step (EProxyDone true) [] proxying_state = Done l /\ (rank l < rank proxying_state)%nat /\ rank proxying_state = 2%nat /\
    shutdown_pending l = true.
Proof.
  destruct (step (EProxyDone true) [] proxying_state) as [l| |] eqn:E; [|vm_compute in E; discriminate E..].
  exists l. split; [reflexivity|]. split; [|split; [vm_compute; reflexivity|vm_compute in E; injection E as <-; reflexivity]].
  destruct (stopped_session_ends proxying_state proxying_reachable ltac:(vm_compute; reflexivity)) as [_ H2].
  apply (H2 (EProxyDone true) [] l); [vm_compute; lia|vm_compute; reflexivity..|exact E].
Defined.
