(* ===== verification/AdminSession.v ===== *)
(** * Sessions of the administration interface (src/src/admin/AdminServer.cpp, AdminSession)

    The state has the members of the class (for pointers and optionals, whether they
    are set), which operation is outstanding, how many requests were read and how many
    responses were started.  Handlers run one at a time on the strand of the socket.
    Calls that can throw take their answer from [faults].  What [handle_async] does is
    an input: it answers at once, it returns a running backend probe, or it throws;
    if starting a probe throws after its timer was armed, it answers and the probe
    answers again (BackendProbe.v, [failed_start_completes_later]).

    [Undefined] is writing a response over one that is being written, emplacing the
    parser a read is using, or dereferencing an empty one.

    The theorem is about every run: the listener is told once and a stop closes; until
    that last kind of answer was given nothing undefined happens, an open session always
    waits for exactly one thing, and every request gets one response. *)

From S2P Require Import Prelude.

(** ** State *)

Record AdminSession := {
  stopping_ : bool;                       (* the listener's flag *)
  parser_ : bool;
  response_ : bool;
  async_operation_ : bool;
  closed_ : bool;
  on_close_ : bool;
  (* outstanding *)
  read_pending : bool;
  write_pending : option bool;            (* with the bound keep_alive *)
  probing : bool;                         (* a probe will call the completion *)
  (* observed *)
  requests : nat;
  responses : nat;
  closes : nat;                           (* calls of the close handler *)
  faults : list bool
}.

Definition session_eta (l : AdminSession) : AdminSession := Build_AdminSession (l.(stopping_)) (l.(parser_)) (l.(response_))
  (l.(async_operation_)) (l.(closed_)) (l.(on_close_)) (l.(read_pending)) (l.(write_pending)) (l.(probing)) (l.(requests))
  (l.(responses)) (l.(closes)) (l.(faults)).
Definition set_stopping (v : bool) (l : AdminSession) : AdminSession := ltac:(record_update session_eta stopping_ l v).
Definition set_parser (v : bool) (l : AdminSession) : AdminSession := ltac:(record_update session_eta parser_ l v).
Definition set_response (v : bool) (l : AdminSession) : AdminSession := ltac:(record_update session_eta response_ l v).
Definition set_async_operation (v : bool) (l : AdminSession) : AdminSession := ltac:(record_update session_eta async_operation_ l v).
Definition set_closed (v : bool) (l : AdminSession) : AdminSession := ltac:(record_update session_eta closed_ l v).
Definition set_on_close (v : bool) (l : AdminSession) : AdminSession := ltac:(record_update session_eta on_close_ l v).
Definition set_read_pending (v : bool) (l : AdminSession) : AdminSession := ltac:(record_update session_eta read_pending l v).
Definition set_write_pending (v : option bool) (l : AdminSession) : AdminSession := ltac:(record_update session_eta write_pending l v).
Definition set_probing (v : bool) (l : AdminSession) : AdminSession := ltac:(record_update session_eta probing l v).
Definition set_requests (v : nat) (l : AdminSession) : AdminSession := ltac:(record_update session_eta requests l v).
Definition set_responses (v : nat) (l : AdminSession) : AdminSession := ltac:(record_update session_eta responses l v).
Definition set_closes (v : nat) (l : AdminSession) : AdminSession := ltac:(record_update session_eta closes l v).
Definition set_faults (v : list bool) (l : AdminSession) : AdminSession := ltac:(record_update session_eta faults l v).

Definition new_session (stopping : bool) : AdminSession :=
  {| stopping_ := stopping; parser_ := false; response_ := false; async_operation_ := false; closed_ := false; on_close_ := true;
     read_pending := false; write_pending := None; probing := false; requests := 0; responses := 0; closes := 0; faults := [] |}.

(** ** Exceptions *)

Inductive outcome := Done (l : AdminSession) | Threw (l : AdminSession) | Undefined.
Definition and_then (o : outcome) (k : AdminSession -> outcome) : outcome := match o with Done l => k l | _ => o end.
Local Notation "l <~ o ;; k" := (and_then o (fun l => k)) (at level 100, o at next level, right associativity).

Definition call (l : AdminSession) : outcome :=
  match faults l with
  | true :: rest => Threw (set_faults rest l)
  | false :: rest => Done (set_faults rest l)
  | [] => Done l
  end.

(** ** Ending *)

(** Cancelling a probe does not throw, and makes it call the completion, at once or
    later: with [closed_] set, that does nothing ([complete]). *)
Definition close (l : AdminSession) : outcome :=
  if closed_ l then Done l
  else
    let l := set_async_operation false (set_closed true l) in
    l <~ call l;;                                            (* expires_never *)
    if on_close_ l then call (set_closes (S (closes l)) (set_on_close false l)) else Done l.

Definition abort_noexcept (l : AdminSession) : AdminSession :=
  let l := set_async_operation false (set_closed true l) in
  if on_close_ l then set_closes (S (closes l)) (set_on_close false l) else l.

(** [guarded_handler] and [invoke_guarded]. *)
Definition guard (o : outcome) : outcome := match o with Threw l => Done (abort_noexcept l) | _ => o end.

(** ** Reading and writing *)

Definition read_request (l : AdminSession) : outcome :=
  if read_pending l then Undefined
  else
    l <~ call (set_parser true l);;                          (* expires_after, async_read *)
    Done (set_read_pending true l).

Definition write_response (keep_alive : bool) (l : AdminSession) : outcome :=
  if bool_decide (is_Some (write_pending l)) then Undefined
  else
    l <~ call l;;                                            (* make_shared *)
    l <~ call (set_response true l);;                        (* expires_after, async_write *)
    Done (set_responses (S (responses l)) (set_write_pending (Some keep_alive) l)).

(** The completion given to [handle_async]. *)
Definition complete (keep_alive : bool) (l : AdminSession) : outcome :=
  guard (
    let l := set_async_operation false l in
    if closed_ l then Done l else write_response (keep_alive && negb (stopping_ l)) l).

(** ** Handlers *)

Inductive api_result :=
| api_answers (keep_alive : bool)
| api_probes
| api_answers_probe_left (keep_alive : bool)
| api_throws.

Inductive read_result :=
| end_of_stream
| read_error (aborted : bool)
| static_request (keep_alive throws : bool)
| api_request (loopback keep_alive : bool) (a : api_result).

Definition handle_api (a : api_result) (l : AdminSession) : outcome :=
  match a with
  | api_answers keep_alive => l <~ complete keep_alive l;; Done (set_async_operation false l)
  | api_probes => Done (set_async_operation true (set_probing true l))
  | api_answers_probe_left keep_alive => l <~ complete keep_alive (set_probing true l);; Done (set_async_operation false l)
  | api_throws => Threw l
  end.

Definition on_read (result : read_result) (l : AdminSession) : outcome :=
  match result with
  | end_of_stream => close l
  | read_error aborted => l <~ (if aborted then Done l else call l);; close l      (* log_error *)
  | static_request keep_alive throws =>
      if negb (parser_ l) then Undefined
      else
        let l := set_requests (S (requests l)) (set_parser false l) in
        if throws then Threw l else write_response (keep_alive && negb (stopping_ l)) l
  | api_request loopback keep_alive a =>
      if negb (parser_ l) then Undefined
      else
        let l := set_requests (S (requests l)) (set_parser false l) in
        if negb loopback then l <~ call l;; write_response keep_alive l            (* text_response *)
        else l <~ call l;; handle_api a l                                          (* to_string *)
  end.

Definition on_write (keep_alive error aborted : bool) (l : AdminSession) : outcome :=
  let l := set_response false l in
  l <~ (if error && negb aborted then call l else Done l);;                         (* log_error *)
  if error || negb keep_alive || stopping_ l then close l else read_request l.

Definition start (l : AdminSession) : outcome := read_request l.

(** ** Runs *)

Inductive event :=
| ERead (result : read_result)
| EWrite (error aborted : bool)
| EProbe (keep_alive : bool)              (* the probe completes *)
| EProbeFailure                           (* its response cannot be built *)
| EFlag                                   (* the listener sets the flag *)
| EStop (dispatch_throws : bool).

Definition step (e : event) (throws : list bool) (l : AdminSession) : outcome :=
  let l := set_faults throws l in
  match e with
  | ERead result => guard (on_read result (set_read_pending false l))
  | EWrite error aborted => guard (on_write (default false (write_pending l)) error aborted (set_write_pending None l))
  | EProbe keep_alive => complete keep_alive (set_probing false l)
  | EProbeFailure => Done (abort_noexcept (set_probing false l))
  | EFlag => Done (set_stopping true l)
  | EStop dispatch_throws => if dispatch_throws then Done (abort_noexcept l) else guard (close l)
  end.

(** Only an outstanding operation completes; a closed socket has no peer. *)
Definition enabled (e : event) (l : AdminSession) : bool :=
  match e with
  | ERead (api_request true _ _) => read_pending l && negb (closed_ l)
  | ERead _ => read_pending l
  | EWrite _ _ => bool_decide (is_Some (write_pending l))
  | EProbe _ | EProbeFailure => probing l
  | EFlag | EStop _ => true
  end.

(** [handle_async] answers once. *)
Definition answers_once (e : event) : bool :=
  match e with ERead (api_request _ _ (api_answers_probe_left _)) => false | _ => true end.

Inductive reachable : AdminSession -> Prop :=
| reachable_start stopping throws l : start (set_faults throws (new_session stopping)) = Done l -> reachable l
| reachable_step e throws l l' :
    reachable l -> enabled e l = true -> answers_once e = true -> step e throws l = Done l' -> reachable l'.

(** ** Invariant *)

Definition busy (l : AdminSession) : nat :=
  (Nat.b2n (read_pending l) + Nat.b2n (bool_decide (is_Some (write_pending l))) + Nat.b2n (probing l))%nat.

(** What holds also when a handler throws. *)
Record Weak (l : AdminSession) : Prop := {
  wk_busy : (busy l <= 1)%nat;
  wk_parser : read_pending l = true -> parser_ l = true;
  wk_close : (closes l + Nat.b2n (on_close_ l) = 1)%nat;
  wk_answers : (responses l <= requests l)%nat;
  wk_write : is_Some (write_pending l) -> response_ l = true
}.

Record Inv (l : AdminSession) : Prop := {
  iv_weak : Weak l;
  iv_closed : closed_ l = negb (on_close_ l);
  iv_live : closed_ l = false -> busy l = 1%nat;
  iv_answered : closed_ l = false -> requests l = (responses l + Nat.b2n (probing l))%nat;
  iv_operation : async_operation_ l = negb (closed_ l) && probing l
}.

(** While a handler runs: nothing is outstanding. *)
Record Idle (pending : nat) (l : AdminSession) : Prop := {
  id_weak : Weak l;
  id_busy : busy l = 0%nat;
  id_closed : closed_ l = negb (on_close_ l);
  id_answered : (responses l + pending <= requests l)%nat /\ (closed_ l = false -> requests l = (responses l + pending)%nat);
  id_operation : async_operation_ l = false
}.

Definition good (o : outcome) : Prop := match o with Done l => Inv l | Threw l => Weak l | Undefined => False end.

Lemma admin_call_cases l : exists rest, call l = Done (set_faults rest l) \/ call l = Threw (set_faults rest l).
Proof.
  unfold call. destruct (faults l) as [|[] rest] eqn:E; [exists []; left; rewrite <-E; by destruct l|exists rest; by right|exists rest; by left].
Qed.
Lemma admin_weak_faults l rest : Weak l -> Weak (set_faults rest l).
Proof. intros []. by constructor. Qed.
Lemma idle_faults n l rest : Idle n l -> Idle n (set_faults rest l).
Proof. intros [[] ? ? ? ?]. by constructor; [constructor|..]. Qed.

Lemma admin_abort_inv l : Weak l -> Inv (abort_noexcept l).
Proof.
  intros []. unfold abort_noexcept. cbv zeta. cbn [on_close_ set_async_operation set_closed].
  destruct (on_close_ l) eqn:Eo; cbn in wk_close0; (constructor; [constructor|..]); cbn; rewrite ?Eo; try done; lia.
Qed.

Lemma admin_guard_good o : good o -> good (guard o).
Proof. destruct o; cbn; [done| |done]. apply admin_abort_inv. Qed.
Lemma admin_guard_done o : good o -> exists l, guard o = Done l /\ Inv l.
Proof. destruct o as [l|l|]; cbn; [eauto|eauto using admin_abort_inv|done]. Qed.

Lemma call_idle n l k : Idle n l -> (forall l', Idle n l' -> l' = set_faults (faults l') l -> good (k l')) -> good (and_then (call l) k).
Proof.
  intros Hi Hk. destruct (admin_call_cases l) as [rest [-> | ->]]; cbn [and_then good]; [|apply admin_weak_faults, Hi].
  apply Hk; [by apply idle_faults|done].
Qed.

Lemma idle_none l : busy l = 0%nat -> read_pending l = false /\ write_pending l = None /\ probing l = false.
Proof. unfold busy. destruct (read_pending l), (write_pending l), (probing l); cbn; try lia; done. Qed.

Lemma close_idle n l : Idle n l -> good (close l).
Proof.
  intros Hi. unfold close. destruct (closed_ l) eqn:Ec.
  - destruct Hi as [Hw Hb Hc [Ha1 Ha2] Ho]. apply idle_none in Hb as (E1 & E2 & E3).
    constructor; rewrite ?Ec, ?Ho; try done. by rewrite <-Hc.
  - cbv zeta. destruct Hi as [[] Hb Hc Ha Ho]. set (l1 := set_async_operation false _).
    destruct (admin_call_cases l1) as [r1 [-> | ->]]; cbn [and_then good]; [|by constructor].
    assert (Eo : on_close_ l = true) by (rewrite Ec in Hc; by destruct (on_close_ l)).
    cbn [on_close_ set_faults l1 set_async_operation set_closed]. rewrite Eo in *. cbn in wk_close0.
    match goal with |- context [call ?x] => destruct (admin_call_cases x) as [r2 [-> | ->]] end; cbn [good].
    + constructor; [constructor|..]; cbn; try done; lia.
    + constructor; cbn; try done; lia.
Qed.

Lemma read_idle l : Idle 0 l -> good (read_request l).
Proof.
  intros Hi. pose proof (idle_none _ (id_busy _ _ Hi)) as (E1 & E2 & E3). unfold read_request. rewrite E1.
  assert (Hi1 : Idle 0 (set_parser true l)) by (destruct Hi as [[] ? ? ? ?]; by constructor; [constructor|..]).
  apply (call_idle 0); [done|]. intros l1 [[] Hb Hc [Ha1 Ha2] Ho] El. cbn [good].
  assert (E : write_pending l1 = None /\ probing l1 = false /\ parser_ l1 = true) by (rewrite El; done). destruct E as (E4 & E5 & E6).
  constructor; [constructor|..]; unfold busy in *; cbn; rewrite ?E4, ?E5, ?Ho, ?andb_false_r in *; cbn in *; try done; try lia.
Qed.

Lemma write_idle keep_alive l : Idle 1 l -> good (write_response keep_alive l).
Proof.
  intros Hi. pose proof (idle_none _ (id_busy _ _ Hi)) as (E1 & E2 & E3). unfold write_response.
  rewrite E2, bool_decide_eq_false_2 by (by intros [? ?]).
  apply (call_idle 1); [done|]. intros l1 Hi1 El.
  assert (Hi2 : Idle 1 (set_response true l1)) by (destruct Hi1 as [[] ? ? ? ?]; by constructor; [constructor|..]).
  apply (call_idle 1); [done|]. intros l2 [[] Hb Hc [Ha1 Ha2] Ho] El2. cbn [good].
  assert (E : read_pending l2 = false /\ probing l2 = false /\ response_ l2 = true) by (rewrite El2, El; done). destruct E as (E4 & E5 & E6).
  constructor; [constructor|..]; unfold busy in *; cbn; rewrite ?E4, ?E5, ?Ho, ?andb_false_r in *; cbn in *; try done; try lia.
  intros Hcl. rewrite Ha2 by done. lia.
Qed.

Lemma complete_idle keep_alive l : Idle 1 (set_async_operation false l) -> good (complete keep_alive l).
Proof.
  intros Hi. unfold complete. apply admin_guard_good. cbv zeta. destruct (closed_ _) eqn:Ec; [|by apply write_idle].
  destruct Hi as [Hw Hb Hc Ha Ho]. apply idle_none in Hb as (E1 & E2 & E3). constructor; rewrite ?Ec; try done; congruence.
Qed.

Lemma operation_dropped l : Inv l -> probing l = false -> set_async_operation false l = l.
Proof. intros Hi Ep. pose proof (iv_operation _ Hi) as Ho. rewrite Ep, andb_false_r in Ho. destruct l; cbn in *. by subst. Qed.

(** A response is being written or the session is closed: no probe runs. *)
Lemma complete_probing keep_alive l l' : complete keep_alive l = Done l' -> probing l' = probing l.
Proof.
  unfold complete, guard, write_response. cbv zeta. destruct (closed_ _); [by intros [= <-]|]. destruct (bool_decide _); [done|].
  destruct (admin_call_cases (set_async_operation false l)) as [r1 [-> | ->]]; cbn [and_then].
  - match goal with |- context [call ?x] => destruct (admin_call_cases x) as [r2 [-> | ->]] end; cbn [and_then]; intros [= <-]; [done|].
    unfold abort_noexcept. cbv zeta. by destruct (on_close_ _).
  - intros [= <-]. unfold abort_noexcept. cbv zeta. by destruct (on_close_ _).
Qed.

Lemma handle_api_good a l : Idle 1 l -> closed_ l = false -> (forall ka, a <> api_answers_probe_left ka) -> good (handle_api a l).
Proof.
  intros Hi Hc Ha. pose proof (idle_none _ (id_busy _ _ Hi)) as (E1 & E2 & E3).
  assert (Hi' : Idle 1 (set_async_operation false l)) by (destruct Hi as [[] ? ? ? ?]; by constructor; [constructor|..]).
  destruct a as [ka| |ka|]; cbn [handle_api]; [| |by destruct (Ha ka)|apply Hi].
  - pose proof (complete_idle ka l Hi') as Hg. destruct (complete ka l) as [l'|l'|] eqn:E; cbn [and_then good] in *; [|done..].
    apply complete_probing in E. rewrite operation_dropped; [done|done|congruence].
  - destruct Hi as [[] Hb Hcl [Ha1 Ha2] Ho]. cbn [good]. unfold busy in *. constructor; [constructor|..]; unfold busy; cbn; rewrite ?E1, ?E2, ?Hc; cbn; try done.
    + by rewrite <-Hcl, Hc.
    + intros _. by apply Ha2.
Qed.

(** A request was read. *)
Lemma requested l : Idle 0 l -> Idle 1 (set_requests (S (requests l)) (set_parser false l)).
Proof.
  intros Hi. pose proof (idle_none _ (id_busy _ _ Hi)) as (E1 & _ & _). destruct Hi as [[] ? ? [Ha1 Ha2] ?].
  constructor; [constructor|..]; cbn; try done; try lia; [by rewrite E1|]. split; [lia|]. intros Hc. rewrite Ha2 by done. lia.
Qed.

Lemma on_read_good result l : Idle 0 l -> parser_ l = true -> (forall ka a, result = api_request true ka a -> closed_ l = false) ->
  answers_once (ERead result) = true -> good (on_read result l).
Proof.
  intros Hi Hp Hl Ho. destruct result as [|aborted|ka throws|loopback ka a]; cbn [on_read].
  - by eapply close_idle.
  - destruct aborted; cbn [and_then]; [by eapply close_idle|]. apply (call_idle 0); [done|]. intros l1 Hi1 _. by eapply close_idle.
  - rewrite Hp. cbv zeta. apply requested in Hi. destruct throws; [apply Hi|by apply write_idle].
  - rewrite Hp. cbv zeta. apply requested in Hi. destruct loopback.
    + apply (call_idle 1); [done|]. intros l1 Hi1 E1. apply handle_api_good; [done|rewrite E1; by eapply Hl|].
      intros ka' ->. done.
    + apply (call_idle 1); [done|]. intros l1 Hi1 _. by apply write_idle.
Qed.

Lemma admin_on_write_good ka error aborted l : Idle 0 l -> good (on_write ka error aborted l).
Proof.
  intros Hi. unfold on_write. cbv zeta.
  assert (Hi' : Idle 0 (set_response false l)).
  { pose proof (idle_none _ (id_busy _ _ Hi)) as (_ & E2 & _). destruct Hi as [[] ? ? ? ?]. constructor; [constructor|..]; cbn; try done.
    rewrite E2. by intros [? ?]. }
  assert (Hk : forall l1, Idle 0 l1 -> good (if error || negb ka || stopping_ l1 then close l1 else read_request l1)).
  { intros l1 Hi1. destruct (_ || _); [by eapply close_idle|by apply read_idle]. }
  destruct (error && negb aborted); cbn [and_then]; [|by apply Hk]. apply (call_idle 0); [done|]. auto.
Qed.

(** The outstanding operation completes: its handler runs with nothing outstanding. *)
Lemma inv_idle l q n : Inv l -> busy q = 0%nat -> closes q = closes l -> on_close_ q = on_close_ l -> closed_ q = closed_ l ->
  requests q = requests l -> responses q = responses l -> async_operation_ q = false -> n = Nat.b2n (probing l) ->
  (responses l + n <= requests l)%nat -> Idle n q.
Proof.
  intros [[] Hc Hl Ha Ho] Hb E1 E2 E3 E4 E5 E6 -> Hn. pose proof (idle_none _ Hb) as (N1 & N2 & N3).
  constructor; [constructor|..]; rewrite ?E1, ?E2, ?E3, ?E4, ?E5, ?E6, ?N1, ?N2; try done; lia.
Qed.

Lemma admin_inv_faults l rest : Inv l -> Inv (set_faults rest l).
Proof. intros [[] ? ? ? ?]. by constructor; [constructor|..]. Qed.

Lemma admin_abort_closed q : closed_ (abort_noexcept q) = true.
Proof. unfold abort_noexcept. cbv zeta. by destruct (on_close_ _). Qed.

(** Stopping closes a session whatever it waits for. *)
Lemma close_inv l : Inv l -> good (close l) /\ forall l', guard (close l) = Done l' -> closed_ l' = true.
Proof.
  intros [[] Hc Hl Ha Ho]. unfold close. destruct (closed_ l) eqn:Ec.
  { split; [|by intros l' [= <-]]. constructor; [by constructor|..]; by rewrite ?Ec. }
  cbv zeta. set (l1 := set_async_operation false _).
  assert (Eo : on_close_ l = true) by (by destruct (on_close_ l)). rewrite Eo in *. cbn in wk_close0.
  destruct (admin_call_cases l1) as [r1 [-> | ->]]; cbn [and_then good guard].
  2: { split; [constructor; cbn; try rewrite Eo; done|]. intros l' [= <-]. apply admin_abort_closed. }
  cbn [on_close_ set_faults l1 set_async_operation set_closed]. rewrite Eo.
  match goal with |- context [call ?x] => destruct (admin_call_cases x) as [r2 [-> | ->]] end; cbn [good guard].
  - split; [|by intros l' [= <-]]. constructor; [constructor|..]; cbn; try done; lia.
  - split; [|intros l' [= <-]; apply admin_abort_closed]. constructor; cbn; try done; lia.
Qed.

(** Exactly one operation is outstanding: the one that completes. *)
Lemma only_one l : Inv l -> (read_pending l = true -> write_pending l = None /\ probing l = false) /\
  (is_Some (write_pending l) -> read_pending l = false /\ probing l = false) /\
  (probing l = true -> read_pending l = false /\ write_pending l = None).
Proof.
  intros [[Hb _ _ _ _] _ _ _ _]. unfold busy in Hb. destruct (read_pending l), (write_pending l), (probing l); cbn in Hb; try lia; split_and!; try done; by intros [? ?].
Qed.

Lemma admin_step_good e throws l : Inv l -> enabled e l = true -> answers_once e = true ->
  exists l', step e throws l = Done l' /\ Inv l'.
Proof.
  intros Hi He Ha. destruct (only_one l Hi) as (Or & Ow & Op). pose proof (wk_answers _ (iv_weak _ Hi)) as Hle.
  pose proof (iv_operation _ Hi) as Ho. destruct e as [result|error aborted|ka| | |dispatch_throws]; cbn [step].
  - assert (Hr : read_pending l = true) by (destruct result as [| | |[] ? ?]; cbn in He; bool_to_prop; done).
    destruct (Or Hr) as [E1 E2]. apply admin_guard_done, on_read_good; [|by apply (wk_parser _ (iv_weak _ Hi))| |done].
    + eapply inv_idle; [exact Hi|..|by rewrite E2|lia]; try done; [unfold busy; cbn; by rewrite E1, E2|cbn; by rewrite Ho, E2, andb_false_r].
    + intros ka a ->. cbn in He. by bool_to_prop.
  - apply bool_decide_eq_true in He. destruct (Ow He) as [E1 E2]. apply admin_guard_done, admin_on_write_good.
    eapply inv_idle; [exact Hi|..|by rewrite E2|lia]; try done; [unfold busy; cbn; by rewrite E1, E2|cbn; by rewrite Ho, E2, andb_false_r].
  - cbn [enabled] in He. destruct (Op He) as [E1 E2]. destruct (closed_ l) eqn:Ec.
    + unfold complete. cbn [closed_ set_async_operation set_probing set_faults]. rewrite Ec. cbn [guard]. eexists. split; [done|].
      destruct Hi as [[] Hc _ _ _]. constructor; [constructor|..]; unfold busy in *; cbn; rewrite ?E1, ?E2, ?Ec, ?andb_false_r; try done. all: cbn; try lia. by rewrite <-Hc.
    + unfold complete. apply admin_guard_done. cbv zeta. cbn [closed_ set_async_operation set_probing set_faults]. rewrite Ec.
      pose proof (iv_answered _ Hi Ec) as Hans. rewrite He in Hans. cbn in Hans. apply write_idle.
      eapply inv_idle; [exact Hi|..|by rewrite He|lia]; try done. unfold busy. cbn. by rewrite E1, E2.
  - cbn [enabled] in He. destruct (Op He) as [E1 E2]. eexists. split; [done|]. apply admin_abort_inv. destruct Hi as [[] _ _ _ _].
    constructor; unfold busy; cbn; rewrite ?E1, ?E2; done || (cbn; lia).
  - eexists. split; [done|]. destruct Hi as [[] ? ? ? ?]. by constructor; [constructor|..].
  - destruct dispatch_throws; [eexists; split; [done|]; by apply admin_abort_inv, admin_weak_faults, Hi|].
    apply admin_guard_done, close_inv. by apply admin_inv_faults.
Qed.

Lemma session_reachable_inv l : reachable l -> Inv l.
Proof.
  induction 1 as [stopping throws l E|e throws l l' _ IH He Ha E].
  - unfold start in E. assert (Hg : good (read_request (set_faults throws (new_session stopping)))) by (apply read_idle; by constructor; [constructor|..]; cbn; try done; lia).
    by rewrite E in Hg.
  - destruct (admin_step_good e throws l IH He Ha) as (q & E' & Hq). rewrite E in E'. by injection E' as ->.
Qed.

(** ** All runs

    A run with the events it is made of: any of them, a left probe included. *)

Inductive reached : list event -> AdminSession -> Prop :=
| reached_start stopping throws l : start (set_faults throws (new_session stopping)) = Done l -> reached [] l
| reached_step es e throws l l' :
    reached es l -> enabled e l = true -> step e throws l = Done l' -> reached (es ++ [e]) l'.

(** Starting a probe has failed after its timer was armed. *)
Definition left_probe (es : list event) : Prop := Exists (fun e => answers_once e = false) es.

#[local] Instance left_probe_dec es : Decision (left_probe es) := _.

Lemma reached_reachable es l : reached es l -> ~ left_probe es -> reachable l.
Proof.
  induction 1 as [stopping throws l E|es e throws l l' _ IH He E]; intros Hn; [by eapply reachable_start|].
  unfold left_probe in Hn. rewrite Exists_app, Exists_cons, Exists_nil in Hn.
  eapply reachable_step; [apply IH; tauto|exact He| |exact E]. apply not_false_iff_true. tauto.
Qed.

(** What also the runs with a left probe keep. *)
Definition told (l : AdminSession) : Prop := (closes l + Nat.b2n (on_close_ l) = 1)%nat.
Definition low (l : AdminSession) : Prop := told l /\ closed_ l = negb (on_close_ l).
Definition keeps (o : outcome) : Prop := match o with Done l => low l | Threw l => told l | Undefined => True end.

Lemma call_keeps l k : told l -> (forall rest, keeps (k (set_faults rest l))) -> keeps (and_then (call l) k).
Proof. intros Hl Hk. destruct (admin_call_cases l) as [rest [-> | ->]]; [apply Hk|exact Hl]. Qed.

Lemma abort_low l : told l -> low (abort_noexcept l).
Proof.
  unfold told, low, abort_noexcept. cbv zeta. cbn [on_close_ set_async_operation set_closed].
  intros Hl. destruct (on_close_ l) eqn:Eo; unfold told; cbn in *; rewrite ?Eo; cbn; split; done || lia.
Qed.

Lemma guard_keeps o : keeps o -> keeps (guard o).
Proof. destruct o; cbn; [done|apply abort_low|done]. Qed.

Lemma close_keeps l : low l -> keeps (close l).
Proof.
  intros [Ht Hc]. unfold close. destruct (closed_ l) eqn:Ec; [by split; [|rewrite Ec]|]. cbv zeta.
  apply call_keeps; [exact Ht|]. intros rest. cbn [on_close_ set_faults set_async_operation set_closed].
  assert (Eo : on_close_ l = true) by by destruct (on_close_ l). rewrite Eo. unfold told in Ht. rewrite Eo in Ht. cbn in Ht.
  match goal with |- context [call ?x] => destruct (admin_call_cases x) as [r2 [-> | ->]] end; cbn; unfold low, told; cbn; split || idtac; done || lia.
Qed.

Lemma read_keeps l : low l -> keeps (read_request l).
Proof. intros Hl. unfold read_request. destruct (read_pending l); [done|]. by apply call_keeps; [apply Hl|]. Qed.

Lemma write_keeps ka l : low l -> keeps (write_response ka l).
Proof.
  intros Hl. unfold write_response. destruct (bool_decide _); [done|].
  apply call_keeps; [apply Hl|]. intros rest. by apply call_keeps; [apply Hl|].
Qed.

Lemma complete_keeps ka l : low l -> keeps (complete ka l).
Proof. intros Hl. unfold complete. apply guard_keeps. cbv zeta. destruct (closed_ _); [done|by apply write_keeps]. Qed.

Lemma handle_api_keeps a l : low l -> keeps (handle_api a l).
Proof.
  intros Hl. destruct a as [ka| |ka|]; cbn [handle_api]; [|done| |apply Hl].
  - pose proof (complete_keeps ka l Hl) as Hk. by destruct (complete ka l).
  - pose proof (complete_keeps ka (set_probing true l) Hl) as Hk. by destruct (complete ka _).
Qed.

Lemma on_read_keeps result l : low l -> keeps (on_read result l).
Proof.
  intros Hl. destruct result as [|aborted|ka throws|loopback ka a]; cbn [on_read].
  - by apply close_keeps.
  - destruct aborted; cbn [and_then]; [by apply close_keeps|]. apply call_keeps; [apply Hl|]. intros rest. by apply close_keeps.
  - destruct (negb (parser_ l)); [done|]. cbv zeta. destruct throws; [apply Hl|by apply write_keeps].
  - destruct (negb (parser_ l)); [done|]. cbv zeta. destruct loopback; cbn [negb]; (apply call_keeps; [apply Hl|]); intros rest;
      [by apply handle_api_keeps|by apply write_keeps].
Qed.

Lemma on_write_keeps ka error aborted l : low l -> keeps (on_write ka error aborted l).
Proof.
  intros Hl. unfold on_write. cbv zeta.
  assert (Hk : forall l1, low l1 -> keeps (if error || negb ka || stopping_ l1 then close l1 else read_request l1))
    by (intros l1 H1; destruct (_ || _); [by apply close_keeps|by apply read_keeps]).
  destruct (error && negb aborted); cbn [and_then]; [|by apply Hk]. apply call_keeps; [apply Hl|]. intros rest. by apply Hk.
Qed.

Lemma step_keeps e throws l : low l -> keeps (step e throws l).
Proof.
  intros Hl. destruct e as [result|error aborted|ka| | |dispatch_throws]; cbn [step].
  - by apply guard_keeps, on_read_keeps.
  - by apply guard_keeps, on_write_keeps.
  - by apply complete_keeps.
  - by apply abort_low, Hl.
  - exact Hl.
  - destruct dispatch_throws; [by apply abort_low, Hl|by apply guard_keeps, close_keeps].
Qed.

Lemma reached_low es l : reached es l -> low l.
Proof.
  induction 1 as [stopping throws l E|es e throws l l' _ IH _ E].
  - assert (Hk : keeps (start (set_faults throws (new_session stopping)))) by by apply read_keeps. by rewrite E in Hk.
  - pose proof (step_keeps e throws l IH) as Hk. by rewrite E in Hk.
Qed.

(** No handler lets an exception out, and a stop closes from every state. *)
Lemma step_never_throws e throws l q : step e throws l <> Threw q.
Proof.
  assert (Hg : forall o, guard o <> Threw q) by by intros []. destruct e as [| | | | |[]]; cbn [step]; try apply Hg; done.
Qed.
Lemma stop_closes throws dispatch_throws l l' : step (EStop dispatch_throws) throws l = Done l' -> closed_ l' = true.
Proof.
  destruct dispatch_throws; cbn [step]; [intros [= <-]; apply admin_abort_closed|]. generalize (set_faults throws l). clear l throws. intros l.
  unfold close. destruct (closed_ l) eqn:Ec; [by intros [= <-]|]. cbv zeta.
  match goal with |- context [call ?x] => destruct (admin_call_cases x) as [r1 [-> | ->]] end; cbn [and_then guard]; [|intros [= <-]; apply admin_abort_closed].
  destruct (on_close_ _); [|by intros [= <-]].
  match goal with |- context [call ?x] => destruct (admin_call_cases x) as [r2 [-> | ->]] end; cbn [guard]; intros [= <-]; [done|apply admin_abort_closed].
Qed.

(** The answer of a failed start is written like any other; only what follows can go wrong. *)
Lemma left_step_defined e throws l : Inv l -> enabled e l = true -> answers_once e = false -> step e throws l <> Undefined.
Proof.
  intros Hi He Ha. destruct e as [[| | |loopback ka0 [| |ka|]]| | | | |]; try discriminate Ha. cbn [step].
  assert (Hr : read_pending l = true) by (destruct loopback; cbn in He; by bool_to_prop).
  destruct (proj1 (only_one l Hi) Hr) as [E1 E2]. pose proof (wk_parser _ (iv_weak _ Hi) Hr) as Hp.
  assert (Hw : forall k q, write_pending q = None -> guard (write_response k q) <> Undefined).
  { intros k q Eq. unfold write_response. rewrite Eq, bool_decide_eq_false_2 by (by intros [? ?]).
    do 2 (match goal with |- context [call ?x] => destruct (admin_call_cases x) as [? [-> | ->]] end; cbn [and_then guard]; [|done]). done. }
  unfold on_read. cbn [parser_ set_read_pending set_faults]. rewrite Hp. cbv zeta. cbn [negb].
  set (q := set_requests _ _). assert (Eq : write_pending q = None) by exact E1. clearbody q.
  destruct loopback; cbn [negb]; destruct (admin_call_cases q) as [r [-> | ->]]; cbn [and_then guard]; try done; [|by apply Hw].
  cbn [handle_api]. unfold complete. cbv zeta. destruct (closed_ _); [done|].
  specialize (Hw (ka && negb (stopping_ (set_async_operation false (set_probing true (set_faults r q))))) (set_async_operation false (set_probing true (set_faults r q))) Eq).
  by destruct (guard (write_response _ _)).
Qed.

(** ** Theorems *)


(** A probe that was reported as failed and still runs: its answer overwrites the
    response that is being written. *)
Definition probe_left : outcome :=
  l <~ start (new_session false);;
  l <~ step (ERead (api_request true true (api_answers_probe_left true))) [] l;;
  step (EProbe true) [] l.
Theorem left_probe_is_undefined : probe_left = Undefined.
Proof. vm_compute. reflexivity. Qed.
(** After that response was written, it emplaces the parser the next read is using. *)
Theorem left_probe_answers_unasked :
  (l <~ start (new_session false);;
   l <~ step (ERead (api_request true true (api_answers_probe_left true))) [] l;;
   l <~ step (EWrite false false) [] l;;
   l <~ step (EProbe true) [] l;;
   step (EWrite false false) [] l) = Undefined.
Proof. vm_compute. reflexivity. Qed.

Definition after (o : outcome) : AdminSession := match o with Done l | Threw l => l | Undefined => new_session false end.
Definition waiting_for_request : AdminSession := Eval vm_compute in after (start (new_session false)).
Definition waiting_for_probe : AdminSession :=
  Eval vm_compute in after (step (ERead (api_request true true api_probes)) [] waiting_for_request).
Definition stopped_while_probing : AdminSession := Eval vm_compute in after (step (EStop false) [true] waiting_for_probe).

(** One session waits for a probe and is stopped; another one has its answer written while the probe it
    left behind still runs, and is stopped then. *)
Definition left_probe_request : event := ERead (api_request true true (api_answers_probe_left true)).
Definition probe_left_running : AdminSession := Eval vm_compute in after (step left_probe_request [] waiting_for_request).
Definition stopped_with_probe_left : AdminSession := Eval vm_compute in after (step (EStop false) [] probe_left_running).

