(* ===== verification/Listener.v ===== *)
(** * Listeners (src/src/network/HttpListener.{hpp,cpp}, TlsListener.{hpp,cpp})

    The two classes differ in the session they create and in the TLS contexts the
    second one needs; [secure] tells them apart.  The state has the members of the
    class, which asynchronous operations are outstanding, and what the listener did:
    the sessions it served and the calls of the drained handler.  Handlers run one
    at a time on the listener's strand, so a handler is one step.  Every call that
    can throw (allocation, starting an operation, constructing a session) takes its
    answer from [faults].

    The theorems: a listener that is neither retired nor stopping always has an
    accept or a retry outstanding, whatever throws; it serves nobody before the
    configuration it was started for is published; and the drained handler is
    called once, when the last session is gone. *)

From S2P Require Import Prelude.

(** ** State *)

Record Listener := {
  secure : bool;                          (* TlsListener *)
  acceptor_open : bool;
  accept_pending : bool;                  (* an async_accept is outstanding *)
  retry_pending : bool;                   (* a wait on accept_retry_timer_ is outstanding *)
  accept_retry_delay_ : Z;                (* milliseconds *)
  stopping_ : bool;
  retired_ : bool;
  sessions_ : gset nat;
  on_drained_ : bool;                     (* the handler is set *)
  minimum_runtime_revision_ : Z;
  started : bool;                         (* start() returned *)
  served : list (nat * Z);                (* sessions created, with the revision published then *)
  drained : nat;                          (* calls of the drained handler *)
  told_to_stop : gset nat;                (* sessions whose stop() was called *)
  faults : list bool                      (* which of the next calls throw *)
}.

Definition listener_eta (l : Listener) : Listener := Build_Listener (l.(secure)) (l.(acceptor_open)) (l.(accept_pending))
  (l.(retry_pending)) (l.(accept_retry_delay_)) (l.(stopping_)) (l.(retired_)) (l.(sessions_)) (l.(on_drained_))
  (l.(minimum_runtime_revision_)) (l.(started)) (l.(served)) (l.(drained)) (l.(told_to_stop)) (l.(faults)).
Definition set_acceptor_open (v : bool) (l : Listener) : Listener := ltac:(record_update listener_eta acceptor_open l v).
Definition set_accept_pending (v : bool) (l : Listener) : Listener := ltac:(record_update listener_eta accept_pending l v).
Definition set_retry_pending (v : bool) (l : Listener) : Listener := ltac:(record_update listener_eta retry_pending l v).
Definition set_accept_retry_delay (v : Z) (l : Listener) : Listener := ltac:(record_update listener_eta accept_retry_delay_ l v).
Definition set_stopping (v : bool) (l : Listener) : Listener := ltac:(record_update listener_eta stopping_ l v).
Definition set_retired (v : bool) (l : Listener) : Listener := ltac:(record_update listener_eta retired_ l v).
Definition set_sessions (v : gset nat) (l : Listener) : Listener := ltac:(record_update listener_eta sessions_ l v).
Definition set_on_drained (v : bool) (l : Listener) : Listener := ltac:(record_update listener_eta on_drained_ l v).
Definition set_minimum_revision (v : Z) (l : Listener) : Listener := ltac:(record_update listener_eta minimum_runtime_revision_ l v).
Definition set_started (v : bool) (l : Listener) : Listener := ltac:(record_update listener_eta started l v).
Definition set_served (v : list (nat * Z)) (l : Listener) : Listener := ltac:(record_update listener_eta served l v).
Definition set_drained (v : nat) (l : Listener) : Listener := ltac:(record_update listener_eta drained l v).
Definition set_told_to_stop (v : gset nat) (l : Listener) : Listener := ltac:(record_update listener_eta told_to_stop l v).
Definition set_faults (v : list bool) (l : Listener) : Listener := ltac:(record_update listener_eta faults l v).

(** The constructor, after open, bind and listen succeeded. *)
Definition new_listener (secure : bool) : Listener :=
  {| secure := secure; acceptor_open := true; accept_pending := false; retry_pending := false; accept_retry_delay_ := 10;
     stopping_ := false; retired_ := false; sessions_ := ∅; on_drained_ := false; minimum_runtime_revision_ := 0;
     started := false; served := []; drained := 0; told_to_stop := ∅; faults := [] |}.

(** ** Exceptions *)

Inductive outcome := Done (l : Listener) | Threw (l : Listener).
Definition state_of (o : outcome) : Listener := match o with Done l | Threw l => l end.

Definition and_then (o : outcome) (k : Listener -> outcome) : outcome :=
  match o with Done l => k l | Threw l => Threw l end.
(** try { o } catch (...) { k } *)
Definition rescue (o : outcome) (k : Listener -> outcome) : outcome :=
  match o with Done l => Done l | Threw l => k l end.
Local Notation "l <~ o ;; k" := (and_then o (fun l => k)) (at level 100, o at next level, right associativity).

(** A call that may throw. *)
Definition call (l : Listener) : outcome :=
  match faults l with
  | true :: rest => Threw (set_faults rest l)
  | false :: rest => Done (set_faults rest l)
  | [] => Done l
  end.

(** ** Handlers *)

Definition notify_if_drained (l : Listener) : outcome :=
  if negb (retired_ l) || negb (bool_decide (sessions_ l = ∅)) || negb (on_drained_ l) then Done l
  else l <~ call (set_on_drained false l);; Done (set_drained (S (drained l)) l).

Definition not_accepting (l : Listener) : bool := retired_ l || stopping_ l || negb (acceptor_open l).

Definition accept_next (l : Listener) : outcome :=
  if not_accepting l then notify_if_drained l
  else l <~ call l;; Done (set_accept_pending true l).

Definition schedule_accept_retry (l : Listener) : outcome :=
  if not_accepting l then notify_if_drained l
  else
    l <~ call l;;                                          (* expires_after *)
    let l := set_accept_retry_delay (Z.min (accept_retry_delay_ l * 2) 1000) l in
    l <~ call l;;                                          (* async_wait *)
    Done (set_retry_pending true l).

(** What the handler of a completed accept sees. *)
Inductive accept_result :=
| accept_aborted                         (* operation_aborted *)
| accept_failed
| accepted (session : nat).

Record Surroundings := {
  published_revision : Z;                (* runtime_store_->load()->revision() *)
  admitted : bool;                       (* connection_admission_->try_acquire() *)
  contexts_present : bool                (* runtime->tls_contexts() *)
}.

(** Creating, registering and starting a session. *)
Definition serve_connection (session : nat) (revision : Z) (l : Listener) : outcome :=
  l <~ call l;;                                            (* make_shared *)
  l <~ call l;;                                            (* sessions_.emplace *)
  let l := set_sessions ({[session]} ∪ sessions_ l) l in
  rescue (l <~ call l;; Done (set_served (served l ++ [(session, revision)]) l))      (* session->start() *)
    (fun l => Threw (set_sessions (sessions_ l ∖ {[session]}) l)).

(** The rest of a successful accept, from try_acquire on. *)
Definition admit_connection (session : nat) (env : Surroundings) (l : Listener) : outcome :=
  match call l with                                        (* try_acquire *)
  | Threw l => schedule_accept_retry l
  | Done l =>
      if negb (admitted env) then rescue (schedule_accept_retry l) schedule_accept_retry
      else if secure l && negb (contexts_present env) then rescue (accept_next l) schedule_accept_retry
      else match serve_connection session (published_revision env) l with
           | Threw l => schedule_accept_retry l
           | Done l => rescue (accept_next l) schedule_accept_retry
           end
  end.

Definition on_accept (result : accept_result) (env : Surroundings) (l : Listener) : outcome :=
  match result with
  | accept_aborted => notify_if_drained l
  | accept_failed =>
      if acceptor_open l && negb (stopping_ l) then l <~ schedule_accept_retry l;; notify_if_drained l
      else notify_if_drained l
  | accepted session =>
      let l := set_accept_retry_delay 10 l in
      if stopping_ l || retired_ l then notify_if_drained l
      else if published_revision env <? minimum_runtime_revision_ l then schedule_accept_retry l
      else admit_connection session env l
  end.

Definition on_accept_retry (aborted : bool) (l : Listener) : outcome := if aborted then Done l else accept_next l.

Definition close_acceptor (l : Listener) : Listener := set_acceptor_open false l.

Definition retire_on_executor (l : Listener) : outcome :=
  notify_if_drained (close_acceptor (set_on_drained true (set_retired true l))).

(** The loop of [stop_on_executor] when no session is erased while it runs; otherwise
    see [stop_sessions]. *)
Definition stop_on_executor (l : Listener) : outcome :=
  let l := close_acceptor l in Done (set_told_to_stop (told_to_stop l ∪ sessions_ l) l).

(** With the sessions whose close handler runs inside their [stop()]: a dispatch to the
    strand of a session can run at once, and so can the dispatch back to this strand
    that erases the session. *)
Definition stop_sessions (closes_inside : nat -> bool) (l : Listener) : option Listener :=
  visited ← visit_all closes_inside (elements (sessions_ l));
  Some (set_told_to_stop (told_to_stop l ∪ list_to_set visited) (close_acceptor l)).

Definition emergency_close_noexcept (stopping : bool) (l : Listener) : Listener :=
  close_acceptor (if stopping then set_stopping true l else set_retired true l).

Definition recover_accept_noexcept (l : Listener) : Listener :=
  match schedule_accept_retry l with
  | Done l => l
  | Threw l => emergency_close_noexcept false l
  end.

(** [guarded_handler]: nothing escapes into the event loop. *)
Definition guarded (o : outcome) : Listener := match o with Done l => l | Threw l => recover_accept_noexcept l end.

(** ** Public operations *)

(** [start] is called once, by the thread that created the listener. *)
Definition start (minimum_runtime_revision : Z) (l : Listener) : outcome :=
  l <~ accept_next (set_minimum_revision minimum_runtime_revision l);; Done (set_started true l).

(** [retire]: the dispatch may throw, and so may the handler it runs. *)
Definition retire (l : Listener) : Listener :=
  state_of (rescue (l <~ call l;; retire_on_executor l) (fun l => Done (emergency_close_noexcept false l))).

(** [stop] sets the flag at once; the rest runs on the strand. *)
Definition request_stop (l : Listener) : Listener := set_stopping true l.
Definition stop (l : Listener) : Listener :=
  state_of (rescue (l <~ call l;; stop_on_executor l) (fun l => Done (emergency_close_noexcept true l))).

(** The callback of a closed session. *)
Definition session_closed (session : nat) (l : Listener) : outcome :=
  notify_if_drained (set_sessions (sessions_ l ∖ {[session]}) l).

(** ** Runs *)

Inductive event :=
| EAccept (result : accept_result) (env : Surroundings)
| ERetry (aborted : bool)
| EClosed (session : nat)
| ERetire
| ERequestStop
| EStop.

(** Only an outstanding operation completes, and it is aborted only by closing. *)
Definition enabled (e : event) (l : Listener) : bool :=
  match e with
  | EAccept accept_aborted _ => accept_pending l && negb (acceptor_open l)
  | EAccept accept_failed _ => accept_pending l
  | EAccept (accepted session) _ => accept_pending l && bool_decide (session ∉ sessions_ l)
  | ERetry aborted => retry_pending l && (negb aborted || negb (acceptor_open l))
  | EClosed session => bool_decide (session ∈ sessions_ l)
  | ERetire | ERequestStop => true
  | EStop => stopping_ l
  end.

Definition step (e : event) (throws : list bool) (l : Listener) : Listener :=
  let l := set_faults throws l in
  match e with
  | EAccept result env => guarded (on_accept result env (set_accept_pending false l))
  | ERetry aborted => guarded (on_accept_retry aborted (set_retry_pending false l))
  | EClosed session => state_of (session_closed session l)
  | ERetire => retire l
  | ERequestStop => request_stop l
  | EStop => stop l
  end.

Definition is_retire (e : event) : nat := match e with ERetire => 1 | _ => 0 end.

(** Started listeners, with the number of times [retire] was called. *)
Inductive reachable : nat -> Listener -> Prop :=
| reachable_start secure minimum throws l :
    start minimum (set_faults throws (new_listener secure)) = Done l -> reachable 0 l
| reachable_step n e throws l :
    reachable n l -> enabled e l = true -> reachable (n + is_retire e) (step e throws l).

(** ** Invariant *)

Record base (n : nat) (l : Listener) : Prop := {
  ba_delay : 10 <= accept_retry_delay_ l <= 1000;
  ba_retired : retired_ l = true -> acceptor_open l = false;
  ba_served : Forall (fun s => minimum_runtime_revision_ l <= s.2) (served l);
  ba_handler : (drained l + Nat.b2n (on_drained_ l) <= n)%nat;
  ba_drained_retired : on_drained_ l = true -> retired_ l = true;
  ba_drained : (0 < drained l)%nat -> retired_ l = true /\ sessions_ l = ∅
}.

Definition quiet (l : Listener) : Prop := accept_pending l = false /\ retry_pending l = false.
Definition exclusive (l : Listener) : Prop := ~ (accept_pending l = true /\ retry_pending l = true).
Definition settled (l : Listener) : Prop := on_drained_ l = true -> sessions_ l <> ∅.
Definition alive (l : Listener) : Prop :=
  acceptor_open l = true -> retired_ l = false -> stopping_ l = false -> accept_pending l = true \/ retry_pending l = true.

Record Inv (n : nat) (l : Listener) : Prop := {
  in_base : base n l;
  in_exclusive : exclusive l;
  in_settled : settled l;
  in_alive : alive l
}.

(** What a handler may return: a state with the invariant, or an exception with
    nothing outstanding. *)
Definition good (n : nat) (o : outcome) : Prop :=
  match o with Done l => Inv n l | Threw l => base n l /\ quiet l /\ settled l end.

Lemma call_cases l : exists rest, call l = Done (set_faults rest l) \/ call l = Threw (set_faults rest l).
Proof.
  unfold call. destruct (faults l) as [|[] rest] eqn:E; [exists []; left; rewrite <-E; by destruct l|exists rest; by right|exists rest; by left].
Qed.

Lemma base_faults n l rest : base n l -> base n (set_faults rest l).
Proof. intros []. by constructor. Qed.
Lemma inv_faults n l rest : Inv n l -> Inv n (set_faults rest l).
Proof. intros [[] ? ? ?]. by constructor; [constructor|..]. Qed.

Lemma quiet_exclusive l : quiet l -> exclusive l.
Proof. intros [E _] [E' _]. congruence. Qed.
Lemma not_retired_settled n l : base n l -> retired_ l = false -> settled l.
Proof. intros Hb Hr Ho. apply (ba_drained_retired _ _ Hb) in Ho. congruence. Qed.

(** Calling the drained handler. *)
Lemma notify_good n l : base n l -> quiet l -> not_accepting l = true -> good n (notify_if_drained l).
Proof.
  intros Hb Hq Hn. assert (Ha : alive l).
  { intros Ho Hr Hs. unfold not_accepting in Hn. by rewrite Ho, Hr, Hs in Hn. }
  unfold notify_if_drained. destruct (negb (retired_ l) || _ || _) eqn:E.
  - constructor; [done|by apply quiet_exclusive| |done]. intros Ho Hs. rewrite Ho, Hs in E.
    apply (ba_drained_retired _ _ Hb) in Ho. by rewrite Ho, bool_decide_eq_true_2 in E.
  - bool_to_prop. destruct (call_cases (set_on_drained false l)) as [rest [-> | ->]]; cbn; destruct Hb.
    + rewrite H0 in ba_handler0; cbn in ba_handler0. constructor; [constructor| | |]; cbn; try done; try lia. by apply quiet_exclusive.
    + rewrite H0 in ba_handler0; cbn in ba_handler0. split_and!; [constructor|done|done]; cbn; try done; lia.
Qed.

Lemma notify_settled l : settled l -> notify_if_drained l = Done l.
Proof.
  intros Hs. unfold notify_if_drained. destruct (_ || _) eqn:E; [done|]. bool_to_prop. by apply Hs in H0.
Qed.

(** Starting an operation. *)
Lemma accept_next_good n l : base n l -> quiet l -> good n (accept_next l).
Proof.
  intros Hb Hq. unfold accept_next. destruct (not_accepting l) eqn:E; [by apply notify_good|].
  unfold not_accepting in E. bool_to_prop.
  destruct (call_cases l) as [rest [-> | ->]]; cbn; (assert (settled l) by (by eapply not_retired_settled)); destruct Hb, Hq.
  - constructor; [constructor|..]; cbn; try done; [|by left]. intros [_ ?]. cbn in *. congruence.
  - split_and!; [constructor|split|]; cbn; done.
Qed.

Lemma schedule_good n l : base n l -> quiet l -> good n (schedule_accept_retry l).
Proof.
  intros Hb Hq. unfold schedule_accept_retry. destruct (not_accepting l) eqn:E; [by apply notify_good|].
  unfold not_accepting in E. bool_to_prop. assert (settled l) by (by eapply not_retired_settled). destruct Hb, Hq.
  destruct (call_cases l) as [rest [-> | ->]]; cbn [and_then].
  2: { split_and!; [constructor|split|]; cbn; done. }
  cbv zeta. match goal with |- context [call ?x] => destruct (call_cases x) as [rest' [-> | ->]] end; cbn.
  - constructor; [constructor|..]; cbn; try done; [lia| |by right]. intros [? _]. cbn in *. congruence.
  - split_and!; [constructor|split|]; cbn; try done. lia.
Qed.

Lemma rescue_good n o : good n o -> good n (rescue o schedule_accept_retry).
Proof. destruct o; cbn; [done|]. intros (Hb & Hq & _). by apply schedule_good. Qed.

Lemma serve_connection_good n session revision l :
  base n l -> quiet l -> retired_ l = false -> minimum_runtime_revision_ l <= revision ->
  let o := serve_connection session revision l in base n (state_of o) /\ quiet (state_of o).
Proof.
  intros Hb Hq Hr Hm. unfold serve_connection. destruct Hb.
  assert (drained l = 0%nat) as Hd. { destruct (drained l); [done|]. destruct ba_drained0; [lia|congruence]. }
  destruct (call_cases l) as [r1 [-> | ->]]; cbn [and_then]; [|split; [constructor|]; cbn; done].
  destruct (call_cases (set_faults r1 l)) as [r2 [-> | ->]]; cbn [and_then]; [|split; [constructor|]; cbn; done]. cbv zeta.
  match goal with |- context [call ?x] => destruct (call_cases x) as [r3 [-> | ->]] end; cbn; (split; [|exact Hq]).
  - constructor; cbn; try done; [|rewrite Hd; lia]. apply Forall_app. by split; [|constructor].
  - constructor; cbn; try done. rewrite Hd. lia.
Qed.

Lemma admit_good n session env l : base n l -> quiet l -> retired_ l = false ->
  minimum_runtime_revision_ l <= published_revision env -> good n (admit_connection session env l).
Proof.
  intros Hb Hq Hr Hm. unfold admit_connection.
  destruct (call_cases l) as [rest [-> | ->]]; apply (base_faults _ _ rest) in Hb; [|by apply schedule_good].
  destruct (negb (admitted env)); [by apply rescue_good, schedule_good|].
  destruct (secure _ && _); [by apply rescue_good, accept_next_good|].
  pose proof (serve_connection_good n session (published_revision env) _ Hb Hq Hr Hm) as [Hb' Hq'].
  destruct (serve_connection _ _ _); [by apply rescue_good, accept_next_good|by apply schedule_good].
Qed.

Lemma on_accept_good n result env l : base n l -> quiet l -> (result = accept_aborted -> acceptor_open l = false) ->
  good n (on_accept result env l).
Proof.
  intros Hb Hq Ha. destruct result as [| |session]; cbn [on_accept].
  - apply notify_good; try done. unfold not_accepting. by rewrite Ha, orb_true_r.
  - destruct (acceptor_open l && negb (stopping_ l)) eqn:E.
    + pose proof (schedule_good n l Hb Hq) as Hg. destruct (schedule_accept_retry l) as [l'|l']; [|exact Hg]. cbn [and_then].
      rewrite notify_settled; [exact Hg|apply Hg].
    + apply notify_good; try done. unfold not_accepting. apply andb_false_iff in E as [E|E%negb_false_iff]; rewrite E.
      * by rewrite orb_true_r.
      * by rewrite orb_true_r.
  - cbv zeta. assert (Hb' : base n (set_accept_retry_delay 10 l)) by (destruct Hb; constructor; cbn; try done; lia).
    destruct (stopping_ _ || retired_ _) eqn:E.
    + apply notify_good; try done. unfold not_accepting. rewrite (orb_comm (retired_ _)), E. done.
    + bool_to_prop. case_match; [by apply schedule_good|]. bool_to_prop. by apply admit_good.
Qed.

Lemma guarded_good n o : good n o -> Inv n (guarded o).
Proof.
  destruct o as [l|l]; cbn [guarded good]; [done|]. intros (Hb & Hq & Hs). unfold recover_accept_noexcept.
  pose proof (schedule_good n l Hb Hq) as Hg. destruct (schedule_accept_retry l) as [l'|l']; [exact Hg|].
  destruct Hg as ([] & Hq' & Hs'). constructor; [constructor|..]; cbn; try done; [naive_solver|by apply quiet_exclusive].
Qed.

(** *** The operations from outside *)

(** [notify_if_drained] with whatever is outstanding. *)
Lemma notify_inv n l : base n l -> exclusive l -> alive l -> Inv n (state_of (notify_if_drained l)).
Proof.
  intros Hb He Ha. unfold notify_if_drained. destruct (negb (retired_ l) || _ || _) eqn:E.
  - cbn [state_of]. constructor; try done. intros Ho Hs. rewrite Ho, Hs in E.
    apply (ba_drained_retired _ _ Hb) in Ho. by rewrite Ho, bool_decide_eq_true_2 in E.
  - bool_to_prop. destruct (call_cases (set_on_drained false l)) as [rest [-> | ->]]; cbn; destruct Hb;
      rewrite H0 in ba_handler0; cbn in ba_handler0; constructor; [constructor| | | |constructor| | |]; cbn; try done; lia.
Qed.

Lemma session_closed_inv n session l : Inv n l -> Inv n (state_of (session_closed session l)).
Proof.
  intros [[] He Hs Ha]. apply notify_inv; [|done|done]. constructor; cbn; try done.
  intros Hd. destruct (ba_drained0 Hd) as [? E]. split; [done|]. rewrite E. set_solver.
Qed.

Lemma emergency_inv n stopping l : base n l -> exclusive l -> settled l -> Inv n (emergency_close_noexcept stopping l).
Proof.
  intros [] He Hs. destruct stopping; constructor; try done; constructor; cbn; try done; naive_solver.
Qed.

Lemma retire_inv n l : Inv n l -> Inv (S n) (retire l).
Proof.
  intros [Hb He Hs Ha]. assert (Hb' : base (S n) l) by (destruct Hb; constructor; try done; lia).
  unfold retire. destruct (call_cases l) as [rest [-> | ->]]; cbn [and_then rescue].
  2: { apply emergency_inv; [by apply base_faults|done|done]. }
  set (l1 := close_acceptor (set_on_drained true (set_retired true (set_faults rest l)))).
  assert (Hb1 : base (S n) l1).
  { destruct Hb. constructor; cbn; try done; [|naive_solver]. destruct (on_drained_ l); cbn in *; lia. }
  assert (Hi : Inv (S n) (state_of (notify_if_drained l1))) by (by apply notify_inv).
  unfold retire_on_executor. fold l1. destruct (notify_if_drained l1) as [l'|l']; cbn in *; [exact Hi|].
  apply emergency_inv; apply Hi.
Qed.

Lemma stop_inv n l : Inv n l -> stopping_ l = true -> Inv n (stop l).
Proof.
  intros [Hb He Hs Ha] Hst. unfold stop. destruct (call_cases l) as [rest [-> | ->]]; cbn [and_then rescue].
  - cbn. destruct Hb. constructor; [constructor|..]; cbn; done.
  - apply emergency_inv; [by apply base_faults|done|done].
Qed.

Lemma listener_step_inv n e throws l : Inv n l -> enabled e l = true -> Inv (n + is_retire e) (step e throws l).
Proof.
  intros Hi He. apply (inv_faults _ _ throws) in Hi. unfold step. cbv zeta.
  destruct e as [result env|aborted|session| | |]; cbn [is_retire]; rewrite ?Nat.add_0_r, ?Nat.add_1_r.
  - assert (Hp : accept_pending l = true) by (by destruct result; bool_to_prop). destruct Hi as [Hb Hex Hs Ha].
    apply guarded_good, on_accept_good; [by destruct Hb; constructor| |].
    + split; [done|]. cbn. destruct (retry_pending l) eqn:E; [|done]. by destruct Hex.
    + intros ->. cbn in *. by bool_to_prop.
  - cbn in He. bool_to_prop. destruct Hi as [Hb Hex Hs Ha].
    assert (Hq : quiet (set_retry_pending false (set_faults throws l))).
    { split; [|done]. cbn. destruct (accept_pending l) eqn:E; [|done]. by destruct Hex. }
    apply guarded_good. destruct aborted; [|by apply accept_next_good; [destruct Hb; constructor|]]. cbn.
    constructor; [by destruct Hb; constructor|by apply quiet_exclusive|done|]. intros Ho. cbn in *. by destruct (acceptor_open l), H0.
  - by apply session_closed_inv.
  - by apply retire_inv.
  - destruct Hi as [[] Hex Hs Ha]. by constructor; [constructor|..].
  - by apply stop_inv.
Qed.

Lemma start_inv secure minimum throws l : start minimum (set_faults throws (new_listener secure)) = Done l -> Inv 0 l.
Proof.
  unfold start. assert (Hb : base 0 (set_minimum_revision minimum (set_faults throws (new_listener secure)))).
  { constructor; cbn; try done; lia. }
  pose proof (accept_next_good 0 _ Hb ltac:(done)) as Hg. destruct (accept_next _) as [l'|]; [|done]. cbn.
  intros [= <-]. destruct Hg as [[] ? ? ?]. by constructor; [constructor|..].
Qed.

Lemma listener_inv n l : reachable n l -> Inv n l.
Proof. induction 1; [by eapply start_inv|by apply listener_step_inv]. Qed.

(** ** What a handler leaves alone *)

Record kept (l l' : Listener) : Prop := {
  kp_secure : secure l' = secure l;
  kp_minimum : minimum_runtime_revision_ l' = minimum_runtime_revision_ l;
  kp_started : started l' = started l;
  kp_stopping : stopping_ l' = stopping_ l;
  kp_retired : retired_ l = true -> retired_ l' = true
}.
Definition untouched (l l' : Listener) : Prop := kept l l' /\ served l' = served l.

Lemma kept_trans l l' l'' : kept l l' -> kept l' l'' -> kept l l''.
Proof. intros [] []. constructor; [congruence..|auto]. Qed.
Lemma untouched_refl l : untouched l l.
Proof. split; [by constructor|done]. Qed.
Lemma untouched_trans l l' l'' : untouched l l' -> untouched l' l'' -> untouched l l''.
Proof. intros [? E] [? E']. split; [by eapply kept_trans|congruence]. Qed.

Lemma call_untouched l : untouched l (state_of (call l)).
Proof. destruct (call_cases l) as [rest [-> | ->]]; by split; [constructor|]. Qed.
Lemma then_untouched l o k : untouched l (state_of o) -> (forall l', untouched l' (state_of (k l'))) ->
  untouched l (state_of (and_then o k)).
Proof. intros Ho Hk. destruct o; [|done]. eapply untouched_trans; [done|apply Hk]. Qed.
Lemma rescue_untouched l o k : untouched l (state_of o) -> (forall l', untouched l' (state_of (k l'))) ->
  untouched l (state_of (rescue o k)).
Proof. intros Ho Hk. destruct o; [done|]. eapply untouched_trans; [done|apply Hk]. Qed.

Lemma notify_untouched l : untouched l (state_of (notify_if_drained l)).
Proof.
  unfold notify_if_drained. destruct (_ || _); [apply untouched_refl|].
  apply then_untouched; [|by split; [constructor|]]. eapply untouched_trans; [|apply call_untouched]. by split; [constructor|].
Qed.
Lemma accept_next_untouched l : untouched l (state_of (accept_next l)).
Proof.
  unfold accept_next. destruct (not_accepting l); [apply notify_untouched|].
  apply then_untouched; [apply call_untouched|]. by split; [constructor|].
Qed.
Lemma schedule_untouched l : untouched l (state_of (schedule_accept_retry l)).
Proof.
  unfold schedule_accept_retry. destruct (not_accepting l); [apply notify_untouched|].
  apply then_untouched; [apply call_untouched|]. intros l1. cbv zeta.
  apply then_untouched; [|by split; [constructor|]]. eapply untouched_trans; [|apply call_untouched]. by split; [constructor|].
Qed.
Lemma recover_untouched l : kept l (recover_accept_noexcept l) /\ served (recover_accept_noexcept l) = served l.
Proof.
  unfold recover_accept_noexcept. pose proof (schedule_untouched l) as [[] E]. destruct (schedule_accept_retry l); [by split|].
  cbn in *. split; [by constructor|done].
Qed.
Lemma guarded_kept l o : kept l (state_of o) -> kept l (guarded o).
Proof. destruct o as [l'|l']; cbn; [done|]. intros Hk. eapply kept_trans; [done|apply recover_untouched]. Qed.
Lemma guarded_untouched l o : untouched l (state_of o) -> untouched l (guarded o).
Proof. destruct o as [l'|l']; cbn; [done|]. intros Hk. eapply untouched_trans; [done|apply recover_untouched]. Qed.

Lemma serve_connection_kept session revision l : kept l (state_of (serve_connection session revision l)).
Proof.
  unfold serve_connection. destruct (call_cases l) as [r1 [-> | ->]]; cbn [and_then]; [|by constructor].
  destruct (call_cases (set_faults r1 l)) as [r2 [-> | ->]]; cbn [and_then]; [|by constructor]. cbv zeta.
  match goal with |- context [call ?x] => destruct (call_cases x) as [r3 [-> | ->]] end; by constructor.
Qed.

Lemma admit_connection_kept session env l : kept l (state_of (admit_connection session env l)).
Proof.
  assert (Hr : forall l1 o, kept l1 (state_of o) -> kept l1 (state_of (rescue o schedule_accept_retry))).
  { intros l1 o Ho. destruct o; [done|]. eapply kept_trans; [done|apply schedule_untouched]. }
  unfold admit_connection. pose proof (call_untouched l) as [Hc _]. destruct (call l) as [l1|l1]; cbn in Hc.
  2: { eapply kept_trans; [done|apply schedule_untouched]. }
  eapply kept_trans; [exact Hc|]. destruct (negb (admitted env)); [apply Hr, schedule_untouched|].
  destruct (secure l1 && _); [apply Hr, accept_next_untouched|].
  pose proof (serve_connection_kept session (published_revision env) l1) as Hs.
  destruct (serve_connection _ _ _) as [l2|l2]; (eapply kept_trans; [exact Hs|]); [apply Hr, accept_next_untouched|apply schedule_untouched].
Qed.

(** An accept serves somebody only past the flags and the gate. *)
Definition may_serve (result : accept_result) (env : Surroundings) (l : Listener) : Prop :=
  (exists session, result = accepted session) /\ stopping_ l = false /\ retired_ l = false /\
  minimum_runtime_revision_ l <= published_revision env.

Lemma on_accept_frame result env l :
  kept l (state_of (on_accept result env l)) /\
  (untouched l (state_of (on_accept result env l)) \/ may_serve result env l).
Proof.
  assert (Hu : forall o, untouched l (state_of o) -> kept l (state_of o) /\ (untouched l (state_of o) \/ may_serve result env l)).
  { intros o Ho. split; [apply Ho|by left]. }
  destruct result as [| |session]; cbn [on_accept].
  - apply Hu, notify_untouched.
  - apply Hu. destruct (_ && _); [|apply notify_untouched]. apply then_untouched; [apply schedule_untouched|apply notify_untouched].
  - cbv zeta. assert (Hd : untouched l (set_accept_retry_delay 10 l)) by (by split; [constructor|]).
    destruct (stopping_ _ || retired_ _) eqn:E; [apply Hu; eapply untouched_trans; [done|apply notify_untouched]|].
    destruct (_ <? _) eqn:Eg; [apply Hu; eapply untouched_trans; [done|apply schedule_untouched]|].
    split; [eapply kept_trans; [apply Hd|apply admit_connection_kept]|]. right. cbn in *. bool_to_prop. split_and!; eauto.
Qed.

(** One step: everything the server relies on. *)
Lemma step_frame e throws l : e <> ERequestStop -> e <> EStop ->
  kept l (step e throws l) /\
  (served (step e throws l) = served l \/ exists result env, e = EAccept result env /\ may_serve result env l).
Proof.
  intros H1 H2. unfold step. cbv zeta. destruct e as [result env|aborted|session| | |]; try done.
  - pose proof (on_accept_frame result env (set_accept_pending false (set_faults throws l))) as [Hk Ho]. split.
    + apply guarded_kept in Hk. destruct Hk. by constructor.
    + destruct Ho as [Ho|Ho]; [left; by apply guarded_untouched in Ho as [_ E]|right; eauto].
  - assert (Hu : untouched (set_retry_pending false (set_faults throws l))
      (guarded (on_accept_retry aborted (set_retry_pending false (set_faults throws l))))).
    { apply guarded_untouched. destruct aborted; [apply untouched_refl|apply accept_next_untouched]. }
    destruct Hu as [[] E]. split; [by constructor|by left].
  - pose proof (notify_untouched (set_sessions (sessions_ (set_faults throws l) ∖ {[session]}) (set_faults throws l))) as [[] E].
    split; [by constructor|by left].
  - unfold retire. destruct (call_cases (set_faults throws l)) as [rest [-> | ->]]; cbn [and_then rescue].
    2: { split; [by constructor|by left]. }
    unfold retire_on_executor. match goal with |- context [notify_if_drained ?x] => pose proof (notify_untouched x) as [[] E];
      destruct (notify_if_drained x) end; cbn in *; (split; [by constructor; cbn; auto|by left]).
Qed.

Lemma stop_keeps throws l : let l' := step EStop throws l in
  secure l' = secure l /\ minimum_runtime_revision_ l' = minimum_runtime_revision_ l /\ served l' = served l /\
  (stopping_ l = true -> stopping_ l' = true).
Proof. unfold step, stop. cbv zeta. by destruct (call_cases (set_faults throws l)) as [rest [-> | ->]]. Qed.

(** Starting sets the revision and nothing else the server relies on, also when it throws. *)
Lemma start_keeps minimum throws l0 :
  let l := state_of (start minimum (set_faults throws l0)) in
  secure l = secure l0 /\ minimum_runtime_revision_ l = minimum /\ stopping_ l = stopping_ l0 /\ served l = served l0.
Proof.
  unfold start. pose proof (accept_next_untouched (set_minimum_revision minimum (set_faults throws l0))) as [[] E].
  by destruct (accept_next _).
Qed.

(** ** Properties *)

(** C22: A listener never goes deaf.  Whatever fails (accepts, allocations, the
    construction of sessions, the timer) and in whatever order handlers run, a
    started listener whose acceptor is open and that was neither retired nor told to
    stop has exactly one operation outstanding that makes it accept again, an accept
    or a retry, and the retry comes after 10 to 1000 milliseconds. *)
Theorem listener_never_deaf n l : reachable n l ->
  acceptor_open l = true -> stopping_ l = false ->
  (accept_pending l = true \/ retry_pending l = true) /\ ~ (accept_pending l = true /\ retry_pending l = true) /\
  10 <= accept_retry_delay_ l <= 1000.
Proof.
  intros [[] He _ Ha]%listener_inv Ho Hs. split; [|done]. apply Ha; try done.
  destruct (retired_ l); [|done]. by rewrite ba_retired0 in Ho.
Qed.

(** The revision gate and draining.  Every session was created while the
    published revision was at least the one the listener was started for.  The
    drained handler is called at most once per retirement and only when the
    listener is retired and has no session left; while a retired listener still
    holds the handler some session is left, and closing the last one calls it. *)
Theorem listener_gate_and_drain n l : reachable n l ->
  Forall (fun s => minimum_runtime_revision_ l <= s.2) (served l) /\
  (drained l <= n)%nat /\
  ((0 < drained l)%nat -> retired_ l = true /\ sessions_ l = ∅) /\
  (on_drained_ l = true -> retired_ l = true /\ sessions_ l <> ∅ /\
     forall session, sessions_ l = {[session]} -> drained (step (EClosed session) [] l) = S (drained l)).
Proof.
  intros [[] _ Hs _]%listener_inv. split_and!; try done; [lia|]. intros Ho. split_and!; [auto|auto|].
  intros session E. unfold step, session_closed, notify_if_drained. cbn. rewrite (ba_drained_retired0 Ho), Ho, E.
  rewrite bool_decide_eq_true_2 by set_solver. done.
Qed.

Definition env_at (revision : Z) : Surroundings :=
  {| published_revision := revision; admitted := true; contexts_present := true |}.

(** Started for revision 5: a connection at revision 4 is closed, the second is
    served although the first attempt to start its session throws. *)
Definition gated : Listener :=
  state_of (start 5 (set_faults [] (new_listener true))).
Definition gated_run : Listener :=
  step (EAccept (accepted 1) (env_at 5)) [] (step (ERetry false) [] (step (EAccept (accepted 1) (env_at 5)) [false; false; false; true]
    (step (ERetry false) [] (step (EAccept (accepted 1) (env_at 4)) [] gated)))).

Lemma reachable_next n e throws l : is_retire e = 0%nat -> reachable n l -> enabled e l = true -> reachable n (step e throws l).
Proof. intros E Hr He. rewrite <-(Nat.add_0_r n), <-E. by apply reachable_step. Qed.

Lemma gated_run_reachable : reachable 0 gated_run.
Proof.
  unfold gated_run. repeat (apply reachable_next; [reflexivity| |vm_compute; reflexivity]).
  apply (reachable_start true 5 []). reflexivity.
Qed.

Lemma listener_never_deaf_witness :
  (accept_pending gated_run = true \/ retry_pending gated_run = true) /\
  ~ (accept_pending gated_run = true /\ retry_pending gated_run = true) /\ 10 <= accept_retry_delay_ gated_run <= 1000.
Proof.
  apply (listener_never_deaf 0 gated_run gated_run_reachable); vm_compute; reflexivity.
Defined.

Lemma listener_gate_and_drain_witness :
  let l := step ERetire [] gated_run in
  served l = [(1%nat, 5)] /\ on_drained_ l = true /\ drained (step (EClosed 1%nat) [] l) = S (drained l).
Proof.
  intros l. assert (Hr : reachable 1 l) by (apply (reachable_step 0 ERetire []); [exact gated_run_reachable|reflexivity]).
  pose proof (listener_gate_and_drain 1 l Hr) as (_ & _ & _ & Hd).
  assert (Ho : on_drained_ l = true) by (vm_compute; reflexivity).
  split; [vm_compute; reflexivity|]. split; [exact Ho|]. apply (Hd Ho).
  apply (bool_decide_unpack _). vm_compute. exact I.
Defined.
