(* ===== verification/ListenerStop.v ===== *)
(** * Stopping a listener with open sessions (HttpListener.cpp, TlsListener.cpp, stop_on_executor)

    The loop of [stop_on_executor] calls [stop()] of every session.  That dispatches to
    the strand of the session; when the strand is free the handler runs at once, on the
    stack of the loop.  If it closes the session, the close handler dispatches back to
    the strand of the listener, which this thread is running, so it runs at once too
    and erases the entry the loop stands on. *)

From S2P Require Import Prelude HttpSession Listener.

(** The close handler of a session runs inside its [stop()]: the strand is free and the
    handler closes the session. *)
Definition closes_inside (strand_free : nat -> bool) (sessions : nat -> Session) (session : nat) : bool :=
  strand_free session &&
  match HttpSession.step (HttpSession.EStop false) [] (sessions session) with
  | HttpSession.Done l => negb (closes l =? closes (sessions session))%nat
  | _ => false
  end.

(** The loop is defined exactly when no session closes inside, and then it does what
    [stop_on_executor] does. *)
Theorem stop_defined_iff inside l :
  (forall session, session ∈ sessions_ l -> inside session = false) <-> stop_sessions inside l = Some (state_of (stop_on_executor l)).
Proof.
  unfold stop_sessions, stop_on_executor. split.
  - intros Hf. rewrite visit_all_some by (apply Forall_forall; intros s Hs; apply Hf; by apply elem_of_elements in Hs). cbn.
    by rewrite list_to_set_elements_L.
  - intros E session Hin. destruct (inside session) eqn:Ei; [|done].
    by erewrite visit_all_none in E; [|by apply elem_of_elements|].
Qed.

Lemma idle_stop_closes l : HttpSession.Inv l -> closed_ l = false -> read_pending l = true ->
  match HttpSession.step (HttpSession.EStop false) [] l with
  | HttpSession.Done l' => closes l' = S (closes l)
  | _ => False
  end.
Proof.
  intros [[Hb _ Hc _ _ _ Hpl] [Ho _ _] Hl Hcl Hop _ Hid Hd Hre Hh] Ec Er. pose proof (Hl Ec) as Hbusy. unfold busy in Hbusy. rewrite Er in Hbusy.
  assert (E : proxy_running l = false /\ write_pending l = None /\ shutdown_pending l = false).
  { destruct (proxy_running l), (write_pending l), (shutdown_pending l); cbn in Hbusy; try lia; done. }
  destruct E as (E1 & E2 & E3). rewrite E3 in Hcl. specialize (Hcl Ec). specialize (Hre Ec Hcl). rewrite E2 in Hre. cbn in Hre.
  assert (Ep : proxy_operation_ l = false) by (destruct (proxy_operation_ l); [by rewrite Hop in E1|done]).
  assert (Ed : dispatcher_ l = false) by (destruct (dispatcher_ l); [by rewrite Hd in E1|done]).
  assert (Eo : on_close_ l = true) by (rewrite Ec in Ho; by destruct (on_close_ l)).
  assert (Ei : http_request_id_ l = 0) by auto.
  clear - Ec Er E1 E2 E3 Hcl Hre Ep Ed Eo Ei. destruct l. cbn in *. subst. destruct tls; vm_compute; reflexivity.
Qed.

(** A session that waits for a request, on a strand that is free, makes the stop undefined. *)
Theorem stop_with_idle_session_undefined strand_free sessions session l :
  session ∈ sessions_ l -> strand_free session = true -> HttpSession.reachable (sessions session) ->
  closed_ (sessions session) = false -> read_pending (sessions session) = true ->
  stop_sessions (closes_inside strand_free sessions) l = None.
Proof.
  intros Hin Hs Hr Hc Hp. unfold stop_sessions. erewrite visit_all_none; [done|by apply elem_of_elements|].
  unfold closes_inside. rewrite Hs. cbn [andb].
  pose proof (idle_stop_closes (sessions session) (session_inv _ Hr) Hc Hp) as Hi.
  destruct (HttpSession.step _ _ _); [rewrite Hi|done..].
  apply negb_true_iff, Nat.eqb_neq. lia.
Qed.
