(* ===== verification/ConnectionRegistry.v ===== *)
(** * Connection and request registries (src/src/core/ConnectionRegistry.{hpp,cpp})

    Two tables behind mutexes that the status pages read: open connections and
    requests in flight.  Clocks are inputs.  The iteration order of the hash
    table is not specified, so the snapshots are proved correct for every order
    of the entries. *)

From stdpp Require Import sorting.
From S2P Require Import Prelude.

Definition bounded (value : str) (maximum : nat) : str := take maximum value.
Arguments bounded : simpl never.

(** Truncated seconds between two steady-clock readings, as [uint64_t]. *)
Definition seconds_between (now connected_at : Z) : Z := u64 (Z.quot (now - connected_at) 1000000000).

(** ** Connections *)

Record ConnectionInfo := {
  ci_id : Z;
  ci_protocol : str;
  ci_source_address : str;
  ci_connected_at_unix_ms : Z;
  ci_connected_seconds : Z;
  ci_status : str;
  ci_method : str;
  ci_url : str;
  ci_referer : str
}.

Record ConnectionTable := {
  connections : gmap Z (ConnectionInfo * Z);   (* info, connected_at *)
  conn_next_id : Z
}.

Definition empty_connections : ConnectionTable := {| connections := ∅; conn_next_id := 1 |}.

Definition add_connection (protocol source_address status : str) (unix_ms steady : Z)
    (t : ConnectionTable) : Z * ConnectionTable :=
  let id := conn_next_id t in
  let info := {| ci_id := id; ci_protocol := bounded protocol 16;
                 ci_source_address := bounded source_address 128;
                 ci_connected_at_unix_ms := unix_ms; ci_connected_seconds := 0;
                 ci_status := bounded status 64; ci_method := []; ci_url := []; ci_referer := [] |} in
  (id, {| connections := match connections t !! id with      (* [emplace] keeps an entry *)
                         | None => <[id := (info, steady)]> (connections t)
                         | Some _ => connections t
                         end;
          conn_next_id := u64 (id + 1) |}).

Definition alter_connection (f : ConnectionInfo -> ConnectionInfo) (id : Z) (t : ConnectionTable)
    : ConnectionTable :=
  {| connections := alter (fun '(info, at_) => (f info, at_)) id (connections t);
     conn_next_id := conn_next_id t |}.

Definition update_request (id : Z) (method url referer status : str) : ConnectionTable -> ConnectionTable :=
  alter_connection (fun i =>
    {| ci_id := ci_id i; ci_protocol := ci_protocol i; ci_source_address := ci_source_address i;
       ci_connected_at_unix_ms := ci_connected_at_unix_ms i;
       ci_connected_seconds := ci_connected_seconds i; ci_status := bounded status 64;
       ci_method := bounded method 32; ci_url := bounded url 8192; ci_referer := bounded referer 4096 |}) id.

Definition update_connection_status (id : Z) (status : str) : ConnectionTable -> ConnectionTable :=
  alter_connection (fun i =>
    {| ci_id := ci_id i; ci_protocol := ci_protocol i; ci_source_address := ci_source_address i;
       ci_connected_at_unix_ms := ci_connected_at_unix_ms i;
       ci_connected_seconds := ci_connected_seconds i; ci_status := bounded status 64;
       ci_method := ci_method i; ci_url := ci_url i; ci_referer := ci_referer i |}) id.

Definition remove_connection (id : Z) (t : ConnectionTable) : ConnectionTable :=
  {| connections := delete id (connections t); conn_next_id := conn_next_id t |}.

Definition clear_connections (t : ConnectionTable) : ConnectionTable :=
  {| connections := ∅; conn_next_id := conn_next_id t |}.

Definition connection_age (now : Z) (e : ConnectionInfo * Z) : ConnectionInfo :=
  let '(i, at_) := e in
  {| ci_id := ci_id i; ci_protocol := ci_protocol i; ci_source_address := ci_source_address i;
     ci_connected_at_unix_ms := ci_connected_at_unix_ms i;
     ci_connected_seconds := seconds_between now at_; ci_status := ci_status i;
     ci_method := ci_method i; ci_url := ci_url i; ci_referer := ci_referer i |}.

(** The comparator of the sorts: time, then id. *)
Definition earlier (a b : Z * Z) : Prop := a.1 < b.1 \/ (a.1 = b.1 /\ a.2 <= b.2).
#[export] Instance earlier_dec : RelDecision earlier.
Proof. intros a b. unfold earlier. apply _. Defined.

Definition connection_before (a b : ConnectionInfo) : Prop :=
  earlier (ci_connected_at_unix_ms a, ci_id a) (ci_connected_at_unix_ms b, ci_id b).
#[export] Instance connection_before_dec : RelDecision connection_before.
Proof. intros a b. unfold connection_before. apply _. Defined.

(** [snapshot] for a given iteration order of the table. *)
Definition snapshot_connections_of (order : list (Z * (ConnectionInfo * Z))) (limit : nat) (now : Z)
    : list ConnectionInfo :=
  merge_sort connection_before (connection_age now <$> take limit order.*2).

Definition snapshot_connections (t : ConnectionTable) : nat -> Z -> list ConnectionInfo :=
  snapshot_connections_of (map_to_list (connections t)).

(** ** Requests *)

Record HttpRequestInfo := {
  ri_id : Z;
  ri_site_id : Z;
  ri_site_name : str;
  ri_host : str;
  ri_protocol : str;
  ri_client_ip : str;
  ri_connected_at_unix_ms : Z;
  ri_connected_seconds : Z;
  ri_status : str;
  ri_method : str;
  ri_url : str;
  ri_referer : str
}.

Record RequestTable := {
  requests : gmap Z (HttpRequestInfo * Z);
  req_next_id : Z
}.

Definition empty_requests : RequestTable := {| requests := ∅; req_next_id := 1 |}.

Definition add_request (protocol client_ip method url referer host status : str) (unix_ms steady : Z)
    (t : RequestTable) : Z * RequestTable :=
  let id := req_next_id t in
  let info := {| ri_id := id; ri_site_id := 0; ri_site_name := []; ri_host := bounded host 512;
                 ri_protocol := bounded protocol 16; ri_client_ip := bounded client_ip 128;
                 ri_connected_at_unix_ms := unix_ms; ri_connected_seconds := 0;
                 ri_status := bounded status 64; ri_method := bounded method 32;
                 ri_url := bounded url 8192; ri_referer := bounded referer 4096 |} in
  (id, {| requests := match requests t !! id with
                      | None => <[id := (info, steady)]> (requests t)
                      | Some _ => requests t
                      end;
          req_next_id := u64 (id + 1) |}).

Definition alter_request (f : HttpRequestInfo -> HttpRequestInfo) (id : Z) (t : RequestTable)
    : RequestTable :=
  {| requests := alter (fun '(info, at_) => (f info, at_)) id (requests t);
     req_next_id := req_next_id t |}.

Definition update_site (id site_id : Z) (site_name host status : str) : RequestTable -> RequestTable :=
  alter_request (fun i =>
    {| ri_id := ri_id i; ri_site_id := site_id; ri_site_name := bounded site_name 256;
       ri_host := bounded host 512; ri_protocol := ri_protocol i; ri_client_ip := ri_client_ip i;
       ri_connected_at_unix_ms := ri_connected_at_unix_ms i;
       ri_connected_seconds := ri_connected_seconds i; ri_status := bounded status 64;
       ri_method := ri_method i; ri_url := ri_url i; ri_referer := ri_referer i |}) id.

Definition update_request_status (id : Z) (status : str) : RequestTable -> RequestTable :=
  alter_request (fun i =>
    {| ri_id := ri_id i; ri_site_id := ri_site_id i; ri_site_name := ri_site_name i;
       ri_host := ri_host i; ri_protocol := ri_protocol i; ri_client_ip := ri_client_ip i;
       ri_connected_at_unix_ms := ri_connected_at_unix_ms i;
       ri_connected_seconds := ri_connected_seconds i; ri_status := bounded status 64;
       ri_method := ri_method i; ri_url := ri_url i; ri_referer := ri_referer i |}) id.

Definition remove_request (id : Z) (t : RequestTable) : RequestTable :=
  {| requests := delete id (requests t); req_next_id := req_next_id t |}.

Definition clear_requests (t : RequestTable) : RequestTable :=
  {| requests := ∅; req_next_id := req_next_id t |}.

Definition request_age (now : Z) (e : HttpRequestInfo * Z) : HttpRequestInfo :=
  let '(i, at_) := e in
  {| ri_id := ri_id i; ri_site_id := ri_site_id i; ri_site_name := ri_site_name i;
     ri_host := ri_host i; ri_protocol := ri_protocol i; ri_client_ip := ri_client_ip i;
     ri_connected_at_unix_ms := ri_connected_at_unix_ms i;
     ri_connected_seconds := seconds_between now at_; ri_status := ri_status i;
     ri_method := ri_method i; ri_url := ri_url i; ri_referer := ri_referer i |}.

Definition request_before (a b : HttpRequestInfo) : Prop :=
  earlier (ri_connected_at_unix_ms a, ri_id a) (ri_connected_at_unix_ms b, ri_id b).
#[export] Instance request_before_dec : RelDecision request_before.
Proof. intros a b. unfold request_before. apply _. Defined.

(** [!site_id || stored.info.site_id == *site_id]. *)
Definition of_site (site_id : option Z) (e : HttpRequestInfo * Z) : bool :=
  match site_id with None => true | Some s => ri_site_id e.1 =? s end.

Definition snapshot_requests_of (order : list (Z * (HttpRequestInfo * Z))) (site_id : option Z)
    (limit : nat) (now : Z) : list HttpRequestInfo :=
  merge_sort request_before
    (request_age now <$> take limit (filter (fun e => of_site site_id e = true) order.*2)).

Definition snapshot_requests (t : RequestTable) : option Z -> nat -> Z -> list HttpRequestInfo :=
  snapshot_requests_of (map_to_list (requests t)).

Definition request_count (t : RequestTable) (site_id : option Z) : nat :=
  match site_id with
  | None => size (requests t)
  | Some s => length (filter (fun e => of_site (Some s) e = true) (map_to_list (requests t)).*2)
  end.

Definition connection_count (t : ConnectionTable) : nat := size (connections t).

(** ** Histories

    Every operation holds the mutex of its table, so a history is a sequence
    of operations. *)

Inductive ConnectionOp :=
  | CAdd (protocol source_address status : str) (unix_ms steady : Z)
  | CUpdateRequest (id : Z) (method url referer status : str)
  | CUpdateStatus (id : Z) (status : str)
  | CRemove (id : Z)
  | CClear.

(** One operation; the id is the one [add] returns. *)
Definition connection_step (op : ConnectionOp) (t : ConnectionTable) : option Z * ConnectionTable :=
  match op with
  | CAdd p a s u c => let '(id, t') := add_connection p a s u c t in (Some id, t')
  | CUpdateRequest id m u r s => (None, update_request id m u r s t)
  | CUpdateStatus id s => (None, update_connection_status id s t)
  | CRemove id => (None, remove_connection id t)
  | CClear => (None, clear_connections t)
  end.

Fixpoint run_connections (ops : list ConnectionOp) (t : ConnectionTable) : list Z * ConnectionTable :=
  match ops with
  | [] => ([], t)
  | op :: rest =>
      let '(issued, t') := connection_step op t in
      let '(ids, t'') := run_connections rest t' in
      (option_list issued ++ ids, t'')
  end.

Definition is_add (op : ConnectionOp) : bool :=
  match op with CAdd _ _ _ _ _ => true | _ => false end.

Definition adds (ops : list ConnectionOp) : nat := length (filter (fun op => is_add op = true) ops).

(** The abstract registry: the ids in use and the number of ids issued. *)
Definition live_step (op : ConnectionOp) (s : gset Z * Z) : gset Z * Z :=
  match op with
  | CAdd _ _ _ _ _ => ({[s.2 + 1]} ∪ s.1, s.2 + 1)
  | CRemove id => (s.1 ∖ {[id]}, s.2)
  | CClear => (∅, s.2)
  | _ => s
  end.

Definition live_ids (ops : list ConnectionOp) : gset Z * Z := fold_left (fun s op => live_step op s) ops (∅, 0).

(** No client-supplied text is stored beyond the length of its column. *)
Definition info_bounded (i : ConnectionInfo) : Prop :=
  (length (ci_protocol i) <= 16 /\ length (ci_source_address i) <= 128 /\ length (ci_status i) <= 64 /\
   length (ci_method i) <= 32 /\ length (ci_url i) <= 8192 /\ length (ci_referer i) <= 4096)%nat.

Definition table_wf (t : ConnectionTable) : Prop :=
  map_Forall (fun id e => ci_id e.1 = id /\ 1 <= id < conn_next_id t /\ info_bounded e.1) (connections t).

Lemma bounded_length s n : (length (bounded s n) <= n)%nat.
Proof. unfold bounded. rewrite length_take. lia. Qed.

Lemma fresh_next t : table_wf t -> connections t !! conn_next_id t = None.
Proof.
  intros W. destruct (connections t !! conn_next_id t) eqn:E; [|done].
  destruct (W _ _ E) as (_ & ? & _). lia.
Qed.

Lemma alter_connection_wf f id t :
  (forall i, info_bounded i -> ci_id (f i) = ci_id i /\ info_bounded (f i)) ->
  table_wf t -> table_wf (alter_connection f id t).
Proof.
  intros Hf W k e. cbn. rewrite lookup_alter_Some.
  intros [(<- & [i a] & Hi & ->) | [_ Hk]]; [|by apply W].
  destruct (W _ _ Hi) as (Hid & Hr & Hb); cbn in *.
  destruct (Hf i Hb) as [-> ?]. auto.
Qed.

Ltac bounded_fields := unfold info_bounded in *; cbn in *; repeat split;
  try apply bounded_length; try lia; try tauto.

(** Room for the ids that [op] may issue before the 64-bit counter wraps. *)
Definition id_room (op : ConnectionOp) (t : ConnectionTable) : Prop :=
  1 <= conn_next_id t /\ conn_next_id t + (if is_add op then 1 else 0) < 2 ^ 64.

Lemma connection_step_wf op t :
  table_wf t -> id_room op t -> table_wf (connection_step op t).2.
Proof.
  intros W [Hn Hr]. destruct op; cbn [connection_step snd is_add] in *.
  - unfold add_connection. rewrite (fresh_next t W); cbn. intros k e. cbn.
    rewrite (u64_id (conn_next_id t + 1)) by lia.
    intros [[<- <-] | [Hk He]]%lookup_insert_Some.
    + cbn. split; [done|]. split; [lia|]. bounded_fields.
    + destruct (W _ _ He) as (? & ? & ?). (split; [done|split; [lia|done]]).
  - apply alter_connection_wf; [|done]. intros i Hi. bounded_fields.
  - apply alter_connection_wf; [|done]. intros i Hi. bounded_fields.
  - intros k e. cbn. intros [? He]%lookup_delete_Some. exact (W _ _ He).
  - intros k e. cbn. by rewrite lookup_empty.
Qed.

(** The simulation: the keys are the live ids, the counter is the issue count. *)
Definition live_rel (s : gset Z * Z) (t : ConnectionTable) : Prop :=
  dom (connections t) = s.1 /\ conn_next_id t = s.2 + 1.

Lemma connection_step_live op s t :
  table_wf t -> id_room op t -> live_rel s t ->
  live_rel (live_step op s) (connection_step op t).2.
Proof.
  intros W [Hn Hr] [Hd Hs]. unfold live_rel. destruct op; cbn [connection_step live_step snd fst is_add] in *.
  - unfold add_connection. rewrite (fresh_next t W); cbn. rewrite u64_id by lia.
    rewrite dom_insert_L, Hd, Hs. split; [done|lia].
  - cbn. by rewrite dom_alter_L.
  - cbn. by rewrite dom_alter_L.
  - cbn. by rewrite dom_delete_L, Hd.
  - cbn. by rewrite dom_empty_L.
Qed.

Lemma connection_step_next op t :
  id_room op t ->
  (connection_step op t).1 = (if is_add op then Some (conn_next_id t) else None) /\
  conn_next_id (connection_step op t).2 = conn_next_id t + (if is_add op then 1 else 0).
Proof.
  intros [Hn Hr]. destruct op; cbn [is_add] in *; try (cbn; split; [done|lia]).
  cbn. by rewrite u64_id by lia.
Qed.

Lemma adds_cons op ops : adds (op :: ops) = ((if is_add op then 1 else 0) + adds ops)%nat.
Proof. unfold adds. rewrite filter_cons. by destruct op. Qed.

Lemma run_connections_spec ops : forall s t ids t',
  table_wf t -> live_rel s t -> 1 <= conn_next_id t ->
  conn_next_id t + Z.of_nat (adds ops) < 2 ^ 64 ->
  run_connections ops t = (ids, t') ->
  ids = seqZ (conn_next_id t) (Z.of_nat (adds ops)) /\
  table_wf t' /\ live_rel (fold_left (fun s op => live_step op s) ops s) t'.
Proof.
  induction ops as [|op ops IH]; intros s t ids t' W L H1 H2 R.
  { cbn in R. by injection R as <- <-. }
  cbn [run_connections fold_left] in *. rewrite adds_cons in *.
  assert (Hroom : id_room op t) by (split; destruct (is_add op); lia).
  destruct (connection_step_next op t Hroom) as [Hi Hn].
  pose proof (connection_step_wf op t W Hroom) as W'.
  pose proof (connection_step_live op s t W Hroom L) as L'.
  destruct (connection_step op t) as [issued t1]; cbn in *. subst issued.
  destruct (run_connections ops t1) as [ids1 t2] eqn:R1. injection R as <- <-.
  destruct (IH _ _ _ _ W' L' ltac:(destruct (is_add op); lia) ltac:(destruct (is_add op); lia) R1)
    as (-> & ? & ?).
  split; [|done]. rewrite Hn. destruct (is_add op); cbn [option_list app].
  - rewrite (seqZ_cons (conn_next_id t)) by lia. do 2 f_equal; lia.
  - by rewrite Z.add_0_r.
Qed.

(** In every history of the connection registry that registers fewer than
    2^64 - 1 connections, the ids [add] returns are pairwise distinct (an id
    is never reused, also after [remove] and [clear]); the registry lists
    exactly the connections added and neither removed nor cleared since; and
    every entry carries its own key as id and text no longer than its column
    allows, whatever the client sent. *)
Theorem connection_ids_unique ops :
  Z.of_nat (adds ops) < 2 ^ 64 - 1 ->
  let '(ids, t) := run_connections ops empty_connections in
  NoDup ids /\ length ids = adds ops /\
  dom (connections t) = (live_ids ops).1 /\
  (forall id e, connections t !! id = Some e ->
     ci_id e.1 = id /\ In id ids /\ info_bounded e.1).
Proof.
  intros H. destruct (run_connections ops empty_connections) as [ids t] eqn:R.
  destruct (run_connections_spec ops (∅, 0) empty_connections ids t) as (-> & W & [Hd Hn]); auto.
  { intros k e. cbn. by rewrite lookup_empty. }
  { split; [|done]. cbn. by rewrite dom_empty_L. }
  { cbn. lia. }
  { cbn. lia. }
  cbn [conn_next_id empty_connections]. split; [apply NoDup_seqZ|].
  split; [rewrite length_seqZ; lia|]. split; [exact Hd|].
  intros id e He. destruct (W _ _ He) as (? & ? & ?). split; [done|]. split; [|done].
  apply list_elem_of_In, elem_of_seqZ.
  assert (Hlive : forall l s, (fold_left (fun s op => live_step op s) l s).2 = s.2 + Z.of_nat (adds l)).
  { clear. induction l as [|op l IH]; intros s; cbn [fold_left]; [unfold adds; cbn; lia|].
    rewrite IH, adds_cons. destruct op; cbn; lia. }
  rewrite Hlive in Hn. cbn in Hn. lia.
Qed.

Definition sample_ops : list ConnectionOp :=
  [CAdd (b! "HTTP") (b! "192.0.2.1") (b! "reading") 100 1; CAdd (b! "HTTPS") (b! "192.0.2.2") (b! "reading") 90 2;
   CUpdateRequest 2 (b! "GET") (b! "/") [] (b! "proxying"); CRemove 1; CUpdateStatus 1 (b! "late");
   CAdd (b! "HTTP") (b! "192.0.2.3") (b! "reading") 95 3].

Lemma connection_ids_unique_witness :
  NoDup (run_connections sample_ops empty_connections).1 /\
  dom (connections (run_connections sample_ops empty_connections).2) = {[2; 3]}.
Proof.
  pose proof (connection_ids_unique sample_ops ltac:(vm_compute; reflexivity)) as H.
  destruct (run_connections sample_ops empty_connections) as [ids t] eqn:R.
  destruct H as (Hn & _ & Hd & _). split; [exact Hn|]. cbn [snd]. rewrite Hd.
  vm_compute. reflexivity.
Defined.

(** ** Snapshots *)

#[export] Instance earlier_trans : Transitive earlier.
Proof. intros [a1 a2] [b1 b2] [c1 c2]. unfold earlier; cbn. lia. Qed.
#[export] Instance earlier_total : Total earlier.
Proof. intros [a1 a2] [b1 b2]. unfold earlier; cbn. lia. Qed.
#[export] Instance request_before_trans : Transitive request_before.
Proof. intros a b c. apply (transitivity (R := earlier)). Qed.
#[export] Instance request_before_total : Total request_before.
Proof. intros a b. apply (total earlier). Qed.

(** The entries of a table that a snapshot of [site_id] is about. *)
Definition listed (t : RequestTable) (site_id : option Z) (e : HttpRequestInfo * Z) : Prop :=
  (exists id, requests t !! id = Some e) /\ of_site site_id e = true.

Lemma order_elem t order site_id e :
  order ≡ₚ map_to_list (requests t) ->
  e ∈ filter (fun e => of_site site_id e = true) order.*2 <-> listed t site_id e.
Proof.
  intros Ho. rewrite list_elem_of_filter, list_elem_of_fmap. unfold listed. split.
  - intros [Hs ([id e'] & -> & Hin)]. rewrite Ho, elem_of_map_to_list in Hin. eauto.
  - intros [[id He] Hs]. split; [done|]. exists (id, e). split; [done|].
    by rewrite Ho, elem_of_map_to_list.
Qed.

Lemma order_count t order site_id :
  order ≡ₚ map_to_list (requests t) ->
  length (filter (fun e => of_site site_id e = true) order.*2) = request_count t site_id.
Proof.
  intros Ho. unfold request_count. rewrite Ho. destruct site_id as [s|]; [done|].
  rewrite <-(length_map_to_list (requests t)), <-(length_fmap snd (map_to_list (requests t))).
  f_equal. induction ((map_to_list (requests t)).*2) as [|x l IH]; [done|].
  rewrite filter_cons_True by done. cbn [length]. by rewrite IH.
Qed.

(** For every iteration order the hash table may have, a snapshot of the
    requests in flight is sorted by start time and id, has [limit] entries or
    all that match, lists only entries of the table that belong to the site
    asked for, with their age filled in, and lists every one of them when they
    fit the limit. *)
Theorem request_snapshot_exact t order site_id limit now :
  order ≡ₚ map_to_list (requests t) ->
  let snap := snapshot_requests_of order site_id limit now in
  StronglySorted request_before snap /\
  length snap = (limit `min` request_count t site_id)%nat /\
  (forall i, In i snap -> exists e, listed t site_id e /\ i = request_age now e) /\
  ((request_count t site_id <= limit)%nat ->
     forall e, listed t site_id e -> In (request_age now e) snap).
Proof.
  intros Ho snap. unfold snap, snapshot_requests_of.
  split; [apply (StronglySorted_merge_sort _)|].
  split; [by rewrite merge_sort_Permutation, length_fmap, length_take, (order_count t)|].
  split.
  - intros i. rewrite <-list_elem_of_In, merge_sort_Permutation, list_elem_of_fmap.
    intros (e & -> & Hin). exists e. split; [|done].
    apply (order_elem t order); [done|]. apply elem_of_take in Hin as (k & Hk & _).
    by apply list_elem_of_lookup_2 with k.
  - intros Hc e He. rewrite <-list_elem_of_In, merge_sort_Permutation, list_elem_of_fmap.
    exists e. split; [done|]. rewrite take_ge by (by rewrite (order_count t)).
    by apply (order_elem t).
Qed.

Definition sample_requests : RequestTable :=
  let add ip ms t := (add_request (b! "HTTP") ip (b! "GET") (b! "/") [] (b! "a.example") (b! "routing") ms 0 t).2 in
  update_site 2 7 (b! "site") (b! "a.example") (b! "proxying")
    (add (b! "192.0.2.2") 90 (add (b! "192.0.2.1") 100 empty_requests)).

Lemma request_snapshot_exact_witness :
  let order := reverse (map_to_list (requests sample_requests)) in
  length (snapshot_requests_of order None 5 3000000000) = 2%nat /\
  ri_id <$> snapshot_requests_of order None 5 3000000000 = [2; 1] /\
  ri_connected_seconds <$> snapshot_requests_of order (Some 7) 5 3000000000 = [3].
Proof.
  pose proof (request_snapshot_exact sample_requests (reverse (map_to_list (requests sample_requests)))
                None 5 3000000000 (reverse_Permutation _)) as (_ & Hl & _).
  split; [rewrite Hl|split]; vm_compute; reflexivity.
Defined.
