(* ===== verification/AuthService.v ===== *)
(** * Administrator authentication (src/src/admin/AuthService.{hpp,cpp})

    Account setup, login with a per-address failure window, and sessions with
    a sliding lifetime.  The account table is reached through the class
    [AdminUserStore]: the three statements of ConfigRepository.cpp on
    [admin_users] with what SQLite documents about them.  OpenSSL's PBKDF2 and
    random bytes are parameters, the steady clock is an input of each
    operation.  Every operation holds the mutex, so a run is a sequence of
    operations; a thrown exception keeps the changes made before it. *)

From S2P Require Import Prelude.

(** ** The account store *)

Record AdminUserRecord := {
  username : str;
  password_salt : str;
  password_hash : str;
  password_iterations_of : Z
}.

(** SQLite's NOCASE collation folds the ASCII letters. *)
Definition nocase_eq (a b : str) : bool := bool_decide (ascii_lower a = ascii_lower b).

Class AdminUserStore (DB : Type) := {
  admin_user_count : DB -> res Z;
  find_admin_user : DB -> str -> res AdminUserRecord;
  create_admin_user : DB -> AdminUserRecord -> res DB;
  (** an INSERT that completes adds one row *)
  create_count db u db' n m : create_admin_user db u = Ok db' -> admin_user_count db = Ok n ->
                              admin_user_count db' = Ok m -> m = n + 1;
  (** after the first INSERT the SELECT by name, in any letter case, reads it back *)
  find_created db u db' name : admin_user_count db = Ok 0 -> create_admin_user db u = Ok db' ->
    nocase_eq name (username u) = true -> find_admin_user db' name = Ok u
}.

(** ** State *)

Record AuthState (DB : Type) := {
  repository : DB;
  lifetime : Z;
  maximum_active_sessions : nat;
  sessions : gmap str Z;           (* token, expires_at *)
  failures : gmap str (Z * Z)      (* address, (failures, window_started) *)
}.
Arguments repository {_}. Arguments lifetime {_}. Arguments maximum_active_sessions {_}.
Arguments sessions {_}. Arguments failures {_}.
Arguments Build_AuthState {_}.

Definition password_iterations : Z := 310000.
Definition salt_bytes : nat := 16.
Definition hash_bytes : nat := 32.
Definition token_bytes : nat := 32.
Definition five_minutes : Z := 300 * 10 ^ 9.
Global Opaque five_minutes.

Definition to_hex (bytes : str) : str :=
  let alphabet := b!"0123456789abcdef" in
  let digit v := default "0"%char (alphabet !! Z.to_nat v) in
  mjoin ((fun b => [digit (Z.shiftr (byte_val b) 4); digit (Z.land (byte_val b) 15)]) <$> bytes).

Definition bad_username : exn :=
  invalid_argument b!"username must contain 3 to 64 letters, numbers, hyphens or underscores".
Definition bad_password : exn := invalid_argument b!"password must contain 12 to 256 characters".
Definition bad_login : exn := invalid_argument b!"invalid username or password".
Definition rng_failed : exn := runtime_error b!"cryptographic random generator failed".
Definition kdf_failed : exn := runtime_error b!"password derivation failed".
Definition too_many : exn := runtime_error b!"too many login attempts; retry later".
Definition already_set_up : exn := logic_error b!"administrator setup has already been completed".

Definition validate_credentials (name password : str) : res unit :=
  throw_if ((length name <? 3)%nat || (64 <? length name)%nat
            || negb (forallb (fun c => isalnum c || is_char c "_" || is_char c "-") name))
           bad_username ;;
  throw_if ((length password <? 12)%nat || (256 <? length password)%nat) bad_password.

Definition session_cookie (token : str) : str :=
  b!"ws_admin_session=" ++ token ++ b!"; Path=/; HttpOnly; SameSite=Strict; Max-Age=28800".
Definition expired_session_cookie : str :=
  b!"ws_admin_session=; Path=/; HttpOnly; SameSite=Strict; Max-Age=0".

(** The state and exception monad of the operations. *)
Definition M (S A : Type) : Type := S -> res A * S.
Definition ret {S A} (a : A) : M S A := fun s => (Ok a, s).
Definition bind {S A B} (m : M S A) (f : A -> M S B) : M S B := fun s =>
  match m s with
  | (Ok a, s') => f a s'
  | (Throw e, s') => (Throw e, s')
  end.
Definition lift {S A} (r : res A) : M S A := fun s => (r, s).
Definition get {S A} (f : S -> A) : M S A := fun s => (Ok (f s), s).
Definition modify {S} (f : S -> S) : M S unit := fun s => (Ok tt, f s).
(** [try m catch (const std::invalid_argument&) h] *)
Definition catch_invalid {S A} (m h : M S A) : M S A := fun s =>
  match m s with
  | (Throw (invalid_argument _), s') => h s'
  | r => r
  end.

Declare Scope auth_scope.
Delimit Scope auth_scope with auth.
Notation "x <~ m ; k" := (bind m (fun x => k))
  (at level 100, m at next level, k at level 200, right associativity) : auth_scope.
Notation "m ;~ k" := (bind m (fun _ => k))
  (at level 100, k at level 200, right associativity) : auth_scope.

Section Auth.
Context {DB : Type} `{AdminUserStore DB}.

(** [PKCS5_PBKDF2_HMAC] with SHA-256: password, salt, iterations, output size;
    [None] when OpenSSL reports an error. *)
Variable pbkdf2 : str -> str -> Z -> nat -> option str.

(** The iteration order of the session table. *)
Variable iteration : gmap str Z -> list (str * Z).

Local Open Scope auth_scope.
Local Notation State := (AuthState DB).

Definition set_sessions (f : gmap str Z -> gmap str Z) (s : State) : State :=
  Build_AuthState (repository s) (lifetime s) (maximum_active_sessions s) (f (sessions s)) (failures s).
Definition set_failures (f : gmap str (Z * Z) -> gmap str (Z * Z)) (s : State) : State :=
  Build_AuthState (repository s) (lifetime s) (maximum_active_sessions s) (sessions s) (f (failures s)).
Definition set_repository (db : DB) (s : State) : State :=
  Build_AuthState db (lifetime s) (maximum_active_sessions s) (sessions s) (failures s).

Definition AuthService (db : DB) (options_lifetime : Z) (maximum : nat) : res State :=
  throw_if (options_lifetime <=? 0) (invalid_argument b!"admin session lifetime must be positive") ;;
  throw_if (maximum =? 0)%nat (invalid_argument b!"maximum active admin sessions must be positive") ;;
  Ok (Build_AuthState db options_lifetime maximum ∅ ∅).

Definition random_bytes (generated : option str) : res str :=
  match generated with Some bytes => Ok bytes | None => Throw rng_failed end.

Definition derive_password (password salt : str) (iterations : Z) (output_size : nat) : res str :=
  match pbkdf2 password salt iterations output_size with
  | Some output => Ok output
  | None => Throw kdf_failed
  end.

Definition check_rate_limit (remote_ip : str) (now : Z) : M State unit := fun s =>
  match failures s !! remote_ip with
  | None => (Ok tt, s)
  | Some (count, window_started) =>
      if five_minutes <? now - window_started then (Ok tt, set_failures (delete remote_ip) s)
      else if 5 <=? count then (Throw too_many, s)
      else (Ok tt, s)
  end.

Definition record_failure (remote_ip : str) (now : Z) : State -> State :=
  set_failures (fun m =>
    let '(count, window_started) := default (0, 0) (m !! remote_ip) in   (* [failures_[ip]] *)
    <[remote_ip := if (count =? 0) || (five_minutes <? now - window_started) then (1, now)
                   else (u32 (count + 1), window_started)]> m).

Definition clear_failures (remote_ip : str) : State -> State := set_failures (delete remote_ip).

Definition purge_expired_sessions (now : Z) : State -> State :=
  set_sessions (filter (fun '(_, expires_at) => now < expires_at)).

(** [std::min_element] by [expires_at]: the first minimal entry. *)
Definition min_session (l : list (str * Z)) : option (str * Z) :=
  match l with
  | [] => None
  | x :: rest => Some (fold_left (fun best y => if y.2 <? best.2 then y else best) rest x)
  end.

Definition evict_oldest : State -> State := fun s =>
  if (maximum_active_sessions s <=? size (sessions s))%nat then
    match min_session (iteration (sessions s)) with
    | Some (oldest, _) => set_sessions (delete oldest) s
    | None => s
    end
  else s.

Definition issue_session (now : Z) (generated : option str) : M State str :=
  modify (purge_expired_sessions now) ;~
  modify evict_oldest ;~
  bytes <~ lift (random_bytes generated);
  let token := to_hex bytes in
  modify (fun s => set_sessions (insert token (now + lifetime s)) s) ;~
  ret token.

Definition setup_required (s : State) : res bool :=
  match admin_user_count (repository s) with Ok n => Ok (n =? 0) | Throw e => Throw e end.

Definition create_user (u : AdminUserRecord) : M State unit := fun s =>
  match create_admin_user (repository s) u with
  | Ok db => (Ok tt, set_repository db s)
  | Throw e => (Throw e, s)
  end.

Definition create_first_admin (name password remote_ip : str) (check_now issue_now : Z)
    (salt token : option str) : M State str :=
  lift (validate_credentials name password) ;~
  check_rate_limit remote_ip check_now ;~
  db <~ get repository;
  count <~ lift (admin_user_count db);
  lift (throw_if (negb (count =? 0)) already_set_up) ;~
  salt <~ lift (random_bytes salt);
  hash <~ lift (derive_password password salt password_iterations hash_bytes);
  create_user {| username := name; password_salt := salt; password_hash := hash;
                 password_iterations_of := password_iterations |} ;~
  modify (clear_failures remote_ip) ;~
  issue_session issue_now token.

(** The body of the [try] block of [login]. *)
Definition check_password (name password : str) : M State unit :=
  db <~ get repository;
  user <~ lift (find_admin_user db name);
  candidate <~ lift (derive_password password (password_salt user) (password_iterations_of user)
                       (length (password_hash user)));
  lift (throw_if (negb (length candidate =? length (password_hash user))%nat
                  || negb (bool_decide (candidate = password_hash user))) bad_login).

Definition login (name password remote_ip : str) (check_now later_now : Z) (token : option str)
    : M State str :=
  check_rate_limit remote_ip check_now ;~
  catch_invalid (check_password name password)
    (modify (record_failure remote_ip later_now) ;~ lift (Throw bad_login)) ;~
  modify (clear_failures remote_ip) ;~
  issue_session later_now token.

Definition authorize (token : str) (now : Z) : M State bool := fun s =>
  if bool_decide (token = []) then (Ok false, s)
  else
    let s' := purge_expired_sessions now s in
    match sessions s' !! token with
    | None => (Ok false, s')
    | Some _ => (Ok true, set_sessions (insert token (now + lifetime s')) s')
    end.

Definition logout (token : str) : M State unit := modify (set_sessions (delete token)).

(** ** Histories *)

Inductive AuthOp :=
  | OSetup (name password ip : str) (now later : Z) (salt token : option str)
  | OLogin (name password ip : str) (now later : Z) (token : option str)
  | OAuthorize (token : str) (now : Z)
  | OLogout (token : str).

Inductive AuthResult :=
  | RIssued (r : res str)
  | RAuthorized (r : res bool)
  | RDone.

Definition perform (op : AuthOp) (s : State) : AuthResult * State :=
  match op with
  | OSetup n p ip t l salt tok => let '(r, s') := create_first_admin n p ip t l salt tok s in (RIssued r, s')
  | OLogin n p ip t l tok => let '(r, s') := login n p ip t l tok s in (RIssued r, s')
  | OAuthorize tok t => let '(r, s') := authorize tok t s in (RAuthorized r, s')
  | OLogout tok => (RDone, (logout tok s).2)
  end.

Fixpoint run (ops : list AuthOp) (s : State) : list (AuthOp * AuthResult) * State :=
  match ops with
  | [] => ([], s)
  | op :: rest =>
      let '(r, s') := perform op s in
      let '(log, s'') := run rest s' in ((op, r) :: log, s'')
  end.

(** The clock readings of an operation and the order of a history in time. *)
Definition op_clock (op : AuthOp) (before : Z) : Z * Z :=
  match op with
  | OSetup _ _ _ t l _ _ | OLogin _ _ _ t l _ => (t, l)
  | OAuthorize _ t => (t, t)
  | OLogout _ => (before, before)
  end.

Fixpoint in_order (before : Z) (ops : list AuthOp) : Prop :=
  match ops with
  | [] => True
  | op :: rest => let '(t, l) := op_clock op before in before <= t <= l /\ in_order l rest
  end.

Definition end_time (start : Z) (ops : list AuthOp) : Z :=
  fold_left (fun t op => (op_clock op t).2) ops start.

(** ** The operations by cases *)

(** The state after a rate check that lets the attempt through. *)
Definition checked (ip : str) (now : Z) (s : State) : State := (check_rate_limit ip now s).2.

Lemma check_rate_limit_cases ip now s :
  (check_rate_limit ip now s = (Throw too_many, s) /\
   exists n ws, failures s !! ip = Some (n, ws) /\ now - ws <= five_minutes /\ 5 <= n) \/
  (check_rate_limit ip now s = (Ok tt, checked ip now s) /\
   sessions (checked ip now s) = sessions s /\ repository (checked ip now s) = repository s /\
   lifetime (checked ip now s) = lifetime s /\
   maximum_active_sessions (checked ip now s) = maximum_active_sessions s /\
   (forall a, a <> ip -> failures (checked ip now s) !! a = failures s !! a) /\
   match failures s !! ip with
   | Some (n, ws) =>
       if five_minutes <? now - ws then failures (checked ip now s) !! ip = None
       else n < 5 /\ failures (checked ip now s) !! ip = Some (n, ws)
   | None => failures (checked ip now s) !! ip = None
   end).
Proof.
  unfold checked, check_rate_limit. destruct (failures s !! ip) as [[n ws]|] eqn:E.
  2:{ right. cbn. rewrite E. auto 10. }
  destruct (five_minutes <? now - ws) eqn:E1.
  { right. cbn. rewrite lookup_delete_eq. split_and!; auto. intros a Ha. by apply lookup_delete_ne. }
  destruct (5 <=? n) eqn:E2.
  - left. split; [done|]. exists n, ws. bool_to_prop. auto.
  - right. cbn. rewrite E. bool_to_prop. auto 10.
Qed.

Lemma check_password_state name password s :
  (check_password name password s).2 = s.
Proof.
  unfold check_password, bind, get, lift. destruct (find_admin_user _ _); [|done].
  by destruct (derive_password _ _ _ _).
Qed.

Inductive login_outcome (name password ip : str) (now later : Z) (tok : option str) (s : State)
    : res str * State -> Prop :=
  | login_locked : check_rate_limit ip now s = (Throw too_many, s) ->
      login_outcome name password ip now later tok s (Throw too_many, s)
  | login_failed : check_rate_limit ip now s = (Ok tt, checked ip now s) ->
      login_outcome name password ip now later tok s
        (Throw bad_login, record_failure ip later (checked ip now s))
  | login_error e : check_rate_limit ip now s = (Ok tt, checked ip now s) ->
      e <> bad_login ->
      login_outcome name password ip now later tok s (Throw e, checked ip now s)
  | login_passed : check_rate_limit ip now s = (Ok tt, checked ip now s) ->
      (check_password name password (checked ip now s)).1 = Ok tt ->
      login_outcome name password ip now later tok s
        (issue_session later tok (clear_failures ip (checked ip now s))).

Lemma login_cases name password ip now later tok s :
  login_outcome name password ip now later tok s (login name password ip now later tok s).
Proof.
  unfold login, bind at 1.
  destruct (check_rate_limit_cases ip now s) as [[E _]|[E _]]; rewrite E; [by apply login_locked|].
  unfold bind at 1, catch_invalid.
  pose proof (check_password_state name password (checked ip now s)) as Hs.
  destruct (check_password name password (checked ip now s)) as [[[]|e] s'] eqn:Ec; cbn in Hs; subst s'.
  - apply login_passed; [done|]. by rewrite Ec.
  - destruct e; [by apply login_failed|by apply login_error..].
Qed.

Inductive setup_outcome (name password ip : str) (now later : Z) (salt tok : option str) (s : State)
    : res str * State -> Prop :=
  | setup_refused e s' : s' = s \/ check_rate_limit ip now s = (Ok tt, s') ->
      setup_outcome name password ip now later salt tok s (Throw e, s')
  | setup_done salt' hash db : check_rate_limit ip now s = (Ok tt, checked ip now s) ->
      admin_user_count (repository s) = Ok 0 -> salt = Some salt' ->
      pbkdf2 password salt' password_iterations hash_bytes = Some hash ->
      create_admin_user (repository s)
        {| username := name; password_salt := salt'; password_hash := hash;
           password_iterations_of := password_iterations |} = Ok db ->
      setup_outcome name password ip now later salt tok s
        (issue_session later tok (clear_failures ip (set_repository db (checked ip now s)))).

Lemma setup_cases name password ip now later salt tok s :
  setup_outcome name password ip now later salt tok s
    (create_first_admin name password ip now later salt tok s).
Proof.
  unfold create_first_admin. unfold bind at 1, lift at 1.
  destruct (validate_credentials name password); [|apply setup_refused; auto].
  unfold bind at 1. destruct (check_rate_limit_cases ip now s) as [[E _]|[E (_ & Hr & _)]]; rewrite E;
    [apply setup_refused; auto|].
  unfold bind at 1, get. unfold bind at 1, lift at 1. rewrite Hr.
  destruct (admin_user_count (repository s)) as [n|] eqn:En; [|apply setup_refused; auto].
  unfold bind at 1, lift at 1. destruct (n =? 0) eqn:E0; cbn [negb throw_if]; [|apply setup_refused; auto].
  unfold bind at 1, lift at 1. destruct salt as [salt|]; cbn [random_bytes]; [|apply setup_refused; auto].
  unfold bind at 1, lift at 1, derive_password.
  destruct (pbkdf2 password salt password_iterations hash_bytes) as [hash|] eqn:Eh; [|apply setup_refused; auto].
  unfold bind at 1, create_user. rewrite Hr.
  destruct (create_admin_user _ _) as [db|] eqn:Ec; [|apply setup_refused; auto].
  bool_to_prop. by apply setup_done with salt hash.
Qed.

Lemma issue_session_spec now tok s :
  let s1 := evict_oldest (purge_expired_sessions now s) in
  issue_session now tok s =
  match tok with
  | None => (Throw rng_failed, s1)
  | Some bytes => (Ok (to_hex bytes), set_sessions (insert (to_hex bytes) (now + lifetime s1)) s1)
  end.
Proof. by destruct tok. Qed.

Lemma evict_oldest_other s :
  failures (evict_oldest s) = failures s /\ lifetime (evict_oldest s) = lifetime s /\
  maximum_active_sessions (evict_oldest s) = maximum_active_sessions s /\
  repository (evict_oldest s) = repository s.
Proof.
  unfold evict_oldest. case_match; [|done]. by destruct (min_session _) as [[] |].
Qed.

(** [issue_session] changes the sessions only. *)
Lemma issue_session_other now tok s :
  let s' := (issue_session now tok s).2 in
  failures s' = failures s /\ lifetime s' = lifetime s /\
  maximum_active_sessions s' = maximum_active_sessions s /\ repository s' = repository s.
Proof.
  rewrite issue_session_spec. destruct (evict_oldest_other (purge_expired_sessions now s)) as (? & ? & ? & ?).
  by destruct tok.
Qed.

(** ** Guessing *)

Definition op_address (op : AuthOp) : option str :=
  match op with
  | OSetup _ _ ip _ _ _ _ | OLogin _ _ ip _ _ _ => Some ip
  | _ => None
  end.

(** The attempt got past the credential check: a session was issued, or only
    the random generator failed. *)
Definition entered (e : AuthOp * AuthResult) : bool :=
  match e.2 with
  | RIssued (Ok _) => true
  | RIssued (Throw x) => bool_decide (x = rng_failed)
  | _ => false
  end.

(** A rejected password guess from [ip]. *)
Definition guessed (ip : str) (e : AuthOp * AuthResult) : bool :=
  match e with
  | (OLogin _ _ a _ _ _, RIssued (Throw x)) => bool_decide (a = ip) && bool_decide (x = bad_login)
  | _ => false
  end.

Definition guesses (ip : str) (log : list (AuthOp * AuthResult)) : nat :=
  length (filter (fun e => guessed ip e = true) log).

(** The bucket of [ip] accounts for [count] guesses since [start]. *)
Definition accounted (ip : str) (start now count : Z) (bucket : option (Z * Z)) : Prop :=
  match bucket with
  | None => count <= 5 * ((now - start) / five_minutes)
  | Some (n, ws) => 1 <= n <= 5 /\ start <= ws <= now /\ count <= 5 * ((ws - start) / five_minutes) + n
  end.

Lemma five_minutes_pos : 0 < five_minutes.
Proof. by vm_compute. Qed.

Lemma windows_mono a b : a <= b -> a / five_minutes <= b / five_minutes.
Proof. apply Z.div_le_mono, five_minutes_pos. Qed.

Lemma windows_next a b : a + five_minutes <= b -> a / five_minutes + 1 <= b / five_minutes.
Proof.
  intros Hab. pose proof five_minutes_pos. rewrite <-(Z.div_add a 1 five_minutes) by lia.
  apply Z.div_le_mono; lia.
Qed.

Lemma accounted_later ip start now now' count b :
  now <= now' -> accounted ip start now count b -> accounted ip start now' count b.
Proof.
  intros Hn. unfold accounted. destruct b as [[n ws]|]; [intuition lia|].
  pose proof (windows_mono (now - start) (now' - start)). lia.
Qed.

Lemma accounted_expired ip start before now count n ws :
  five_minutes <= now - ws -> accounted ip start before count (Some (n, ws)) ->
  accounted ip start now count None.
Proof.
  intros He (? & ? & ?). cbn. pose proof (windows_next (ws - start) (now - start)). lia.
Qed.

Lemma accounted_checked ip start before now count s :
  before <= now -> accounted ip start before count (failures s !! ip) ->
  check_rate_limit ip now s = (Ok tt, checked ip now s) ->
  accounted ip start now count (failures (checked ip now s) !! ip) /\
  (forall n ws, failures (checked ip now s) !! ip = Some (n, ws) -> n < 5).
Proof.
  intros Hn Ha Hc. destruct (check_rate_limit_cases ip now s) as [[E _]|(_ & _ & _ & _ & _ & _ & Hb)]; [congruence|].
  destruct (failures s !! ip) as [[n ws]|].
  - destruct (five_minutes <? now - ws) eqn:E.
    + rewrite Hb. bool_to_prop. split; [|done]. by apply (accounted_expired ip start before now count n ws); [lia|].
    + destruct Hb as [? ->]. split; [by apply accounted_later with before|]. by intros ? ? [= <- <-].
  - rewrite Hb. split; [by apply accounted_later with before|done].
Qed.

Lemma record_failure_lookup ip later s a :
  failures (record_failure ip later s) !! a =
  if decide (a = ip) then
    Some (let '(n, ws) := default (0, 0) (failures s !! ip) in
          if (n =? 0) || (five_minutes <? later - ws) then (1, later) else (u32 (n + 1), ws))
  else failures s !! a.
Proof.
  unfold record_failure. cbn. destruct (default (0, 0) (failures s !! ip)) as [n ws].
  destruct (decide (a = ip)) as [->|]; [by rewrite lookup_insert_eq|by rewrite lookup_insert_ne].
Qed.

Lemma accounted_failure ip start now later count s :
  start <= now <= later -> accounted ip start now count (failures s !! ip) ->
  (forall n ws, failures s !! ip = Some (n, ws) -> n < 5) ->
  accounted ip start later (count + 1) (failures (record_failure ip later s) !! ip).
Proof.
  intros Hn Ha H5. rewrite record_failure_lookup, decide_True by done.
  destruct (failures s !! ip) as [[n ws]|] eqn:E; cbn [default from_option id].
  - pose proof (H5 n ws eq_refl). destruct Ha as (? & ? & ?).
    rewrite (proj2 (Z.eqb_neq n 0)) by lia. cbn [orb].
    destruct (five_minutes <? later - ws) eqn:E1; bool_to_prop; cbn.
    + pose proof (windows_next (ws - start) (later - start)). lia.
    + unfold u32, wrap_u. rewrite Z.mod_small by lia. lia.
  - cbn in Ha |- *. pose proof (windows_mono (now - start) (later - start)). lia.
Qed.


Lemma checked_other ip a now s : a <> ip -> failures (checked ip now s) !! a = failures s !! a.
Proof.
  intros Ha. destruct (check_rate_limit_cases ip now s) as [[E _]|(_ & _ & _ & _ & _ & Ho & _)]; [|auto].
  unfold checked. by rewrite E.
Qed.

Lemma clear_failures_other ip a s : a <> ip -> failures (clear_failures ip s) !! a = failures s !! a.
Proof. intros Ha. cbn. by apply lookup_delete_ne. Qed.

(** Attempts from other addresses leave the bucket of [a] alone. *)
Lemma perform_other op s a :
  op_address op <> Some a -> failures (perform op s).2 !! a = failures s !! a.
Proof.
  destruct op as [n p ip t l salt tok|n p ip t l tok|tok t|tok]; cbn [op_address]; intros Ha.
  - assert (Hne : a <> ip) by congruence. unfold perform.
    destruct (setup_cases n p ip t l salt tok s) as [e s' [->|Hs]|]; cbn [snd].
    + done.
    + replace s' with (checked ip t s) by (unfold checked; by rewrite Hs). by apply checked_other.
    + pose proof (issue_session_other l tok (clear_failures ip (set_repository db (checked ip t s)))) as (Hf & _).
      destruct (issue_session _ _ _); cbn [snd] in *. rewrite Hf, clear_failures_other by done.
      by apply checked_other.
  - assert (Hne : a <> ip) by congruence. unfold perform.
    destruct (login_cases n p ip t l tok s); cbn [snd].
    + done.
    + rewrite record_failure_lookup, decide_False by done. by apply checked_other.
    + by apply checked_other.
    + pose proof (issue_session_other l tok (clear_failures ip (checked ip t s))) as (Hf & _).
      destruct (issue_session _ _ _); cbn [snd] in *. rewrite Hf, clear_failures_other by done.
      by apply checked_other.
  - cbn. unfold authorize. destruct (bool_decide (tok = [])); [done|].
    by destruct (sessions (purge_expired_sessions t s) !! tok).
  - done.
Qed.

Lemma issue_entered op now tok s :
  entered (op, RIssued (issue_session now tok s).1) = true.
Proof. rewrite issue_session_spec. destruct tok; [done|]. by vm_compute. Qed.

Lemma perform_accounted ip start before op s count :
  start <= before -> before <= (op_clock op before).1 <= (op_clock op before).2 ->
  accounted ip start before count (failures s !! ip) ->
  (op_address op = Some ip -> entered (op, (perform op s).1) = false) ->
  accounted ip start (op_clock op before).2
    (count + (if guessed ip (op, (perform op s).1) then 1 else 0)) (failures (perform op s).2 !! ip).
Proof.
  intros Hb Hc Ha He. destruct (decide (op_address op = Some ip)) as [Hip|Hip].
  2:{ replace (guessed ip (op, (perform op s).1)) with false.
      - rewrite perform_other, Z.add_0_r by done. apply accounted_later with before; [lia|done].
      - destruct op; try done. cbn in *. destruct (login _ _ _ _ _ _ s) as [[|x] ?]; [done|].
        cbn. by rewrite bool_decide_eq_false_2 by congruence. }
  specialize (He Hip). revert He.
  destruct op as [n p a t l salt tok|n p a t l tok|tok t|tok]; try done; injection Hip as ->;
    cbn [op_clock fst snd] in *; unfold perform.
  - destruct (setup_cases n p ip t l salt tok s) as [e s' Hs|salt' hash db]; cbn [fst snd]; intros He.
    + cbn. rewrite Z.add_0_r. destruct Hs as [->|Hs]; [apply accounted_later with before; [lia|done]|].
      assert (s' = checked ip t s) as -> by (unfold checked; by rewrite Hs).
      apply accounted_later with t; [lia|]. by apply (accounted_checked ip start before t count s); [lia| |].
    + exfalso. pose proof (issue_entered (OSetup n p ip t l salt tok) l tok
        (clear_failures ip (set_repository db (checked ip t s)))) as Hi.
      destruct (issue_session _ _ _); cbn in *. congruence.
  - destruct (login_cases n p ip t l tok s) as [Hl|Hl|e Hl Hx|Hl Hp]; cbn [fst snd]; intros He.
    + cbn. rewrite bool_decide_eq_true_2 by done. cbn. rewrite bool_decide_eq_false_2 by done.
      rewrite Z.add_0_r. apply accounted_later with before; [lia|done].
    + cbn. rewrite !bool_decide_eq_true_2 by done. cbn.
      destruct (accounted_checked ip start before t count s) as [H1 H2]; [lia|done|done|].
      by apply accounted_failure with t; [lia| |].
    + cbn. rewrite (bool_decide_eq_false_2 (e = bad_login)), andb_false_r, Z.add_0_r by done.
      apply accounted_later with t; [lia|]. by apply (accounted_checked ip start before t count s); [lia| |].
    + exfalso. pose proof (issue_entered (OLogin n p ip t l tok) l tok (clear_failures ip (checked ip t s))) as Hi.
      destruct (issue_session _ _ _); cbn in *. congruence.
Qed.

Lemma run_accounted ip start ops : forall before s count,
  start <= before -> in_order before ops ->
  accounted ip start before count (failures s !! ip) ->
  Forall (fun e => op_address e.1 = Some ip -> entered e = false) (run ops s).1 ->
  accounted ip start (end_time before ops) (count + Z.of_nat (guesses ip (run ops s).1))
    (failures (run ops s).2 !! ip).
Proof.
  induction ops as [|op ops IH]; intros before s count Hb Ho Ha; cbn [run].
  { intros _. unfold guesses. cbn. by rewrite Z.add_0_r. }
  cbn [in_order] in Ho. destruct (op_clock op before) as [t l] eqn:Ec. destruct Ho as [Ht Ho].
  pose proof (perform_accounted ip start before op s count Hb) as Hp. rewrite Ec in Hp.
  destruct (perform op s) as [r s'] eqn:E. cbn [fst snd] in Hp.
  specialize (IH l s' (count + (if guessed ip (op, r) then 1 else 0)) ltac:(lia) Ho).
  destruct (run ops s') as [log s''] eqn:Er. cbn [fst snd] in *.
  intros [He HF]%Forall_cons. specialize (IH (Hp Ht Ha He) HF).
  unfold guesses in *. rewrite filter_cons.
  replace (end_time before (op :: ops)) with (end_time l ops) by (unfold end_time; cbn; by rewrite Ec).
  destruct (guessed ip (op, r)); cbn [decide] in *.
  - rewrite decide_True by done. cbn [length].
    by replace (count + Z.of_nat (S (length (filter (fun e => guessed ip e = true) log))))
      with (count + 1 + Z.of_nat (length (filter (fun e => guessed ip e = true) log))) by lia.
  - rewrite decide_False by done. by rewrite Z.add_0_r in IH.
Qed.

Lemma AuthService_ok db life maximum s0 :
  AuthService db life maximum = Ok s0 ->
  0 < life /\ maximum <> 0%nat /\ s0 = Build_AuthState db life maximum ∅ ∅.
Proof.
  unfold AuthService. destruct (life <=? 0) eqn:E1; [done|].
  destruct (maximum =? 0)%nat eqn:E2; [done|]. cbn. intros [= <-].
  apply Nat.eqb_neq in E2. bool_to_prop. auto with lia.
Qed.

(** C16: password guessing is throttled per address.  In every history of the
    service between two points in time, whatever other addresses do and
    whatever account names are tried, an address that never gets past the
    credential check has at most five rejected guesses, plus five for every
    five minutes that went by. *)
Theorem guess_rate_bounded db life maximum s0 ip start ops :
  AuthService db life maximum = Ok s0 ->
  in_order start ops ->
  Forall (fun e => op_address e.1 = Some ip -> entered e = false) (run ops s0).1 ->
  Z.of_nat (guesses ip (run ops s0).1) <= 5 * ((end_time start ops - start) / five_minutes) + 5.
Proof.
  intros Hs Ho HF. apply AuthService_ok in Hs as (_ & _ & Hs).
  assert (Hf : failures s0 = ∅) by (by rewrite Hs).
  pose proof (run_accounted ip start ops start s0 0 ltac:(lia) Ho) as Ha.
  rewrite Hf, lookup_empty in Ha. specialize (Ha ltac:(cbn; rewrite Z.sub_diag, Z.div_0_l; [lia|pose proof five_minutes_pos; lia]) HF).
  destruct (failures (run ops s0).2 !! ip) as [[n ws]|]; cbn in Ha; [|lia].
  pose proof (windows_mono (ws - start) (end_time start ops - start)). lia.
Qed.


(** ** Sessions *)

Hypothesis iteration_order : forall m, iteration m ≡ₚ map_to_list m.

(** The abstract sessions: what a log of operations grants.  A login or the
    setup grants its token for the lifetime, each successful use renews it and
    logout withdraws it. *)
Definition grant (life : Z) (m : gmap str Z) (e : AuthOp * AuthResult) : gmap str Z :=
  match e with
  | (OSetup _ _ _ _ l _ _, RIssued (Ok tok)) | (OLogin _ _ _ _ l _, RIssued (Ok tok)) => <[tok := l + life]> m
  | (OAuthorize tok t, RAuthorized (Ok true)) => <[tok := t + life]> m
  | (OLogout tok, _) => delete tok m
  | _ => m
  end.
Definition granted (life : Z) (log : list (AuthOp * AuthResult)) : gmap str Z := fold_left (grant life) log ∅.

Lemma min_session_elem l x : min_session l = Some x -> x ∈ l.
Proof.
  destruct l as [|z l]; cbn; [done|]. intros [= <-].
  set (f := fun best y : str * Z => if y.2 <? best.2 then y else best).
  assert (Hin : forall l best, fold_left f l best = best \/ fold_left f l best ∈ l).
  { clear l. induction l as [|y l IH]; intros best; cbn; [by left|].
    destruct (IH (f best y)) as [->|?]; [|right; by right].
    unfold f. case_match; [right; by left|by left]. }
  destruct (Hin l z) as [->|?]; [by left|by right].
Qed.

Lemma evict_oldest_sessions s :
  sessions (evict_oldest s) ⊆ sessions s /\
  ((size (sessions s) < maximum_active_sessions s)%nat -> evict_oldest s = s) /\
  (maximum_active_sessions s <> 0%nat -> (size (sessions s) <= maximum_active_sessions s)%nat ->
   (size (sessions (evict_oldest s)) < maximum_active_sessions s)%nat).
Proof.
  unfold evict_oldest. destruct (maximum_active_sessions s <=? size (sessions s))%nat eqn:E.
  2:{ apply Nat.leb_gt in E. split_and!; auto. }
  apply Nat.leb_le in E. destruct (min_session (iteration (sessions s))) as [[k v]|] eqn:Em.
  - apply min_session_elem in Em. rewrite iteration_order, elem_of_map_to_list in Em. cbn.
    split_and!; [apply delete_subseteq|lia|].
    intros Hm Hle. rewrite map_size_delete_Some by eauto. lia.
  - split_and!; [done|done|]. intros Hm _. destruct (iteration (sessions s)) eqn:Ei; [|done].
    pose proof (iteration_order (sessions s)) as Hp. rewrite Ei in Hp.
    apply Permutation_nil in Hp. rewrite <-length_map_to_list, Hp in E. cbn in E. lia.
Qed.

Lemma size_insert_le (k : str) (v : Z) (m : gmap str Z) : (size (<[k := v]> m) <= S (size m))%nat.
Proof. rewrite map_size_insert. destruct (m !! k); cbn; lia. Qed.

(** What [issue_session] does to the sessions. *)
Lemma issue_session_sessions now tok s :
  let s' := (issue_session now tok s).2 in
  maximum_active_sessions s <> 0%nat -> (size (sessions s) <= maximum_active_sessions s)%nat ->
  (size (sessions s') <= maximum_active_sessions s)%nat /\
  (size (sessions s') <= S (size (sessions s)))%nat /\
  exists m, m ⊆ sessions s /\
    ((size (sessions s) < maximum_active_sessions s)%nat ->
       m = filter (fun '(_, e) => now < e) (sessions s)) /\
    match (issue_session now tok s).1 with
    | Ok token => sessions s' = <[token := now + lifetime s]> m
    | Throw x => x = rng_failed /\ sessions s' = m
    end.
Proof.
  intros s' Hm Hle. set (p := purge_expired_sessions now s).
  assert (Hsub : sessions p ⊆ sessions s) by apply map_filter_subseteq.
  pose proof (map_subseteq_size _ _ Hsub) as Hsz.
  destruct (evict_oldest_sessions p) as (He & Hne & Hlt).
  destruct (evict_oldest_other p) as (_ & Hlife & _).
  pose proof (map_subseteq_size _ _ He) as Hsz'.
  specialize (Hlt Hm ltac:(change (maximum_active_sessions p) with (maximum_active_sessions s); lia)).
  change (maximum_active_sessions p) with (maximum_active_sessions s) in *.
  subst s'. rewrite issue_session_spec. fold p. cbn zeta.
  destruct tok as [bytes|]; cbn [fst snd].
  - cbn [set_sessions sessions].
    pose proof (size_insert_le (to_hex bytes) (now + lifetime (evict_oldest p)) (sessions (evict_oldest p))).
    split; [lia|]. split; [lia|]. exists (sessions (evict_oldest p)).
    split; [by etrans|]. split; [|by rewrite Hlife].
    intros Hs. by rewrite Hne by lia.
  - split; [lia|]. split; [lia|]. exists (sessions (evict_oldest p)).
    split; [by etrans|]. split; [|done]. intros Hs. by rewrite Hne by lia.
Qed.


(** The simulation between the session table and the abstract sessions [g],
    after [count] attempts that got past the credential check. *)
Record session_inv (life : Z) (maximum : nat) (now : Z) (g : gmap str Z) (count : nat) (s : State) : Prop := {
  inv_life : lifetime s = life;
  inv_max : maximum_active_sessions s = maximum;
  inv_pos : maximum <> 0%nat;
  inv_size : (size (sessions s) <= maximum)%nat;
  inv_count : (size (sessions s) <= count)%nat;
  inv_sound : sessions s ⊆ g;
  inv_complete : (count <= maximum)%nat -> forall tok e, g !! tok = Some e -> now < e -> sessions s !! tok = Some e
}.

Lemma session_inv_same life maximum now now' g count s s' :
  now <= now' -> sessions s' = sessions s -> lifetime s' = lifetime s ->
  maximum_active_sessions s' = maximum_active_sessions s ->
  session_inv life maximum now g count s -> session_inv life maximum now' g count s'.
Proof.
  intros Hn Hs Hl Hm [? ? ? ? ? ? Hc]. split; rewrite ?Hs, ?Hl, ?Hm; auto.
  intros Hcm tok e Hg He. apply Hc; [done|done|lia].
Qed.

Lemma checked_same ip now s :
  sessions (checked ip now s) = sessions s /\ lifetime (checked ip now s) = lifetime s /\
  maximum_active_sessions (checked ip now s) = maximum_active_sessions s /\
  repository (checked ip now s) = repository s.
Proof.
  destruct (check_rate_limit_cases ip now s) as [[E _]|(_ & ? & ? & ? & ? & _)]; [|done].
  unfold checked. by rewrite E.
Qed.

Lemma session_inv_issue life maximum now later tok g count s :
  now <= later -> session_inv life maximum now g count s ->
  session_inv life maximum later
    (match (issue_session later tok s).1 with Ok t => <[t := later + life]> g | Throw _ => g end)
    (S count) (issue_session later tok s).2.
Proof.
  intros Hn [Hl Hm Hpos Hsz Hct Hsub Hc].
  destruct (issue_session_sessions later tok s) as (H1 & H2 & m & Hms & Hmf & Hr); [congruence|lia|].
  destruct (issue_session_other later tok s) as (_ & Hl' & Hm' & _).
  assert (Hcm : (S count <= maximum)%nat -> forall t e, g !! t = Some e -> later < e -> m !! t = Some e).
  { intros Hle t e Hg He. rewrite Hmf by lia. apply map_lookup_filter_Some. split; [|done].
    apply Hc; [lia|done|lia]. }
  destruct (issue_session later tok s) as [r s']; cbn [fst snd] in *.
  split; try congruence; try lia.
  - destruct r; [|destruct Hr as [_ ->]]; [rewrite Hr, Hl; apply insert_mono|]; by etrans.
  - intros Hle t e. destruct r as [x|]; [|destruct Hr as [_ ->]; auto].
    rewrite Hr, Hl. destruct (decide (t = x)) as [->|]; [by rewrite !lookup_insert_eq|].
    rewrite !lookup_insert_ne by done. auto.
Qed.

Lemma session_inv_authorize life maximum now t tok g count s :
  now <= t -> session_inv life maximum now g count s ->
  session_inv life maximum t (grant life g (OAuthorize tok t, RAuthorized (authorize tok t s).1)) count
    (authorize tok t s).2.
Proof.
  intros Hn I. pose proof I as [Hl Hm Hpos Hsz Hct Hsub Hc]. unfold authorize.
  destruct (bool_decide (tok = [])); [by apply (session_inv_same _ _ now t _ _ s)|].
  set (p := purge_expired_sessions t s).
  assert (Hps : sessions p ⊆ sessions s) by apply map_filter_subseteq.
  pose proof (map_subseteq_size _ _ Hps) as Hpsz.
  assert (Hp : session_inv life maximum t g count p).
  { split; try done; try lia; [by etrans|]. intros Hle k e Hg He.
    apply map_lookup_filter_Some. split; [|done]. apply Hc; [done|done|lia]. }
  destruct Hp as [Hl' Hm' _ Hsz' Hct' Hsub' Hc'].
  destruct (sessions p !! tok) as [x|] eqn:E; cbn [fst snd grant]; [|by split].
  split; cbn [set_sessions lifetime maximum_active_sessions sessions]; try done.
  - rewrite map_size_insert, E. done.
  - rewrite map_size_insert, E. done.
  - rewrite Hl'. by apply insert_mono.
  - intros Hle k e. rewrite Hl'. destruct (decide (k = tok)) as [->|]; [by rewrite !lookup_insert_eq|].
    rewrite !lookup_insert_ne by done. auto.
Qed.

Lemma session_inv_count life maximum now g count count' s :
  (count <= count')%nat -> session_inv life maximum now g count s -> session_inv life maximum now g count' s.
Proof. intros Hle [? ? ? ? ? ? Hc]. split; try done; [lia|]. intros. apply Hc; auto. lia. Qed.

(** An attempt that stops before [issue_session] changes no session. *)
Lemma session_inv_stopped life maximum now later g count s s' :
  now <= later -> sessions s' = sessions s /\ lifetime s' = lifetime s /\
  maximum_active_sessions s' = maximum_active_sessions s /\ repository s' = repository s ->
  session_inv life maximum now g count s -> forall b : bool,
  session_inv life maximum later g (count + (if b then 1 else 0))%nat s'.
Proof.
  intros Hn (? & ? & ? & _) I b. apply session_inv_count with count; [lia|].
  by apply session_inv_same with now s.
Qed.

(** An attempt that reaches it. *)
Lemma session_inv_entered life maximum now later g count tok op s s' :
  now <= later -> sessions s' = sessions s /\ lifetime s' = lifetime s /\
  maximum_active_sessions s' = maximum_active_sessions s ->
  session_inv life maximum now g count s ->
  let r := (issue_session later tok s').1 in
  session_inv life maximum later (match r with Ok t => <[t := later + life]> g | Throw _ => g end)
    (count + (if entered (op, RIssued r) then 1 else 0))%nat (issue_session later tok s').2.
Proof.
  intros Hn (? & ? & ?) I r. subst r. rewrite issue_entered, Nat.add_1_r.
  apply session_inv_issue with later; [lia|]. by apply session_inv_same with now s.
Qed.

Lemma session_inv_perform life maximum now g count op s :
  now <= (op_clock op now).1 <= (op_clock op now).2 ->
  session_inv life maximum now g count s ->
  let e := (op, (perform op s).1) in
  session_inv life maximum (op_clock op now).2 (grant life g e)
    (count + (if entered e then 1 else 0))%nat (perform op s).2.
Proof.
  intros Ht I. destruct op as [n p ip t l salt tok|n p ip t l tok|tok t|tok]; unfold perform;
    cbn [op_clock fst snd] in *.
  - destruct (setup_cases n p ip t l salt tok s) as [e s' Hs|salt' hash db]; cbn [fst snd grant].
    + apply session_inv_stopped with now s; [lia| |done]. destruct Hs as [->|Hs]; [done|].
      assert (s' = checked ip t s) as -> by (unfold checked; by rewrite Hs). apply checked_same.
    + destruct (checked_same ip t s) as (? & ? & ? & _).
      pose proof (session_inv_entered life maximum now l g count tok (OSetup n p ip t l salt tok) s
        (clear_failures ip (set_repository db (checked ip t s))) ltac:(lia) ltac:(done) I) as I'.
      destruct (issue_session _ _ _) as [r s']; cbn [fst snd] in *. by destruct r.
  - destruct (checked_same ip t s) as (Cs & Cl & Cm & Cr).
    destruct (login_cases n p ip t l tok s) as [Hl|Hl|e Hl Hx|Hl Hp]; cbn [fst snd grant];
      try (apply session_inv_stopped with now s; [lia|done|done]).
    pose proof (session_inv_entered life maximum now l g count tok (OLogin n p ip t l tok) s
      (clear_failures ip (checked ip t s)) ltac:(lia) ltac:(done) I) as I'.
    destruct (issue_session _ _ _) as [r s']; cbn [fst snd] in *. by destruct r.
  - apply session_inv_authorize with (tok := tok) (t := t) in I; [|lia].
    destruct (authorize tok t s) as [r s']; cbn [fst snd] in *. by rewrite Nat.add_0_r.
  - destruct I as [? ? ? ? ? Hsub Hc]. rewrite Nat.add_0_r.
    assert (Hd : (size (delete tok (sessions s)) <= size (sessions s))%nat)
      by (apply map_subseteq_size, delete_subseteq).
    split; cbn; try done; try lia; [by apply delete_mono|].
    intros Hle k e [Hk Hg]%lookup_delete_Some He. rewrite lookup_delete_ne by done. auto.
Qed.

(** The attempts of a log that reached [issue_session]. *)
Definition entries (log : list (AuthOp * AuthResult)) : nat := length (filter (fun e => entered e = true) log).

Lemma session_inv_run life maximum ops : forall now g count s,
  in_order now ops -> session_inv life maximum now g count s ->
  session_inv life maximum (end_time now ops) (fold_left (grant life) (run ops s).1 g)
    (count + entries (run ops s).1)%nat (run ops s).2.
Proof.
  induction ops as [|op ops IH]; intros now g count s Ho I; cbn [run].
  { cbn. by rewrite Nat.add_0_r. }
  cbn [in_order] in Ho. pose proof (session_inv_perform life maximum now g count op s) as Hp.
  replace (end_time now (op :: ops)) with (end_time (op_clock op now).2 ops) by done.
  destruct (op_clock op now) as [t l]. destruct Ho as [Ht Ho]. cbn [fst snd] in Hp. specialize (Hp Ht I).
  destruct (perform op s) as [r s']. cbn [fst snd] in *. specialize (IH l _ _ _ Ho Hp).
  destruct (run ops s') as [log s'']. cbn [fst snd fold_left] in *.
  unfold entries in *. rewrite filter_cons.
  destruct (entered (op, r)); [rewrite decide_True by done|rewrite decide_False by done];
    cbn [length snd]; [by rewrite <-Nat.add_assoc in IH|by rewrite Nat.add_0_r in IH].
Qed.

(** C32: the sessions.  In every history of the service the number of open
    sessions stays within the configured maximum, and a token is accepted only
    if the history granted it: a successful login or the setup issued it, it
    was not logged out since, and its last use (or its issue) is less than the
    lifetime ago.  As long as no more logins got in than the maximum allows,
    so that nothing is evicted, every such token is accepted. *)
Theorem session_lifecycle db life maximum s0 start ops tok now :
  AuthService db life maximum = Ok s0 -> in_order start ops -> end_time start ops <= now ->
  let '(log, s) := run ops s0 in
  (size (sessions s) <= maximum)%nat /\
  ((authorize tok now s).1 = Ok true ->
     tok <> [] /\ exists e, granted life log !! tok = Some e /\ now < e) /\
  ((entries log <= maximum)%nat -> tok <> [] ->
     forall e, granted life log !! tok = Some e -> now < e -> (authorize tok now s).1 = Ok true).
Proof.
  intros Hs Ho Hn. apply AuthService_ok in Hs as (Hl & Hm & ->).
  assert (I0 : session_inv life maximum start ∅ 0 (Build_AuthState db life maximum ∅ ∅)).
  { split; cbn; rewrite ?map_size_empty; try done; lia. }
  pose proof (session_inv_run life maximum ops start ∅ 0 _ Ho I0) as I.
  destruct (run ops _) as [log s]. cbn [fst snd] in I. destruct I as [_ _ _ Hsz _ Hsub Hc].
  split; [done|]. unfold authorize, granted. cbn [sessions purge_expired_sessions set_sessions].
  destruct (sessions (purge_expired_sessions now s) !! tok) as [x|] eqn:E;
    cbn [sessions purge_expired_sessions set_sessions] in E; rewrite E.
  - apply map_lookup_filter_Some in E as [E Hx].
    split; [|intros; by rewrite bool_decide_eq_false_2].
    case_bool_decide; [done|]. intros _. split; [done|]. exists x. split; [|done].
    by apply (lookup_weaken (sessions s)).
  - split; [by case_bool_decide|]. intros Hle Ht e Hg He. exfalso.
    specialize (Hc Hle tok e Hg ltac:(lia)).
    apply map_lookup_filter_None in E as [E|E]; [congruence|by apply (E e)].
Qed.

(** ** Setup *)

Definition set_up (e : AuthOp * AuthResult) : bool :=
  match e with
  | (OSetup _ _ _ _ _ _ _, RIssued (Ok _)) => true
  | _ => false
  end.

Definition setups (log : list (AuthOp * AuthResult)) : nat := length (filter (fun e => set_up e = true) log).

(** The account table either keeps its rows or, on an empty table, gains one. *)
Lemma perform_repository op s :
  (repository (perform op s).2 = repository s /\ set_up (op, (perform op s).1) = false) \/
  (admin_user_count (repository s) = Ok 0 /\ admin_user_count (repository (perform op s).2) <> Ok 0).
Proof.
  destruct op as [n p ip t l salt tok|n p ip t l tok|tok t|tok]; unfold perform.
  - destruct (checked_same ip t s) as (_ & _ & _ & Cr).
    destruct (setup_cases n p ip t l salt tok s) as [e s' Hs|salt' hash db Hc H0 _ _ Hdb]; cbn [fst snd].
    + left. split; [|done]. destruct Hs as [->|Hs]; [done|].
      by assert (s' = checked ip t s) as -> by (unfold checked; by rewrite Hs).
    + right. split; [done|].
      destruct (issue_session_other l tok (clear_failures ip (set_repository db (checked ip t s)))) as (_ & _ & _ & Hr).
      destruct (issue_session _ _ _); cbn [snd] in *. rewrite Hr. cbn. intros Hz.
      pose proof (create_count _ _ _ _ _ Hdb H0 Hz). lia.
  - left. destruct (checked_same ip t s) as (_ & _ & _ & Cr). split.
    + destruct (login_cases n p ip t l tok s); cbn [snd]; try done.
      destruct (issue_session_other l tok (clear_failures ip (checked ip t s))) as (_ & _ & _ & Hr).
      destruct (issue_session _ _ _); cbn [snd] in *. by rewrite Hr.
    + by destruct (login n p ip t l tok s).
  - left. unfold authorize. destruct (bool_decide (tok = [])); [done|].
    by destruct (sessions (purge_expired_sessions t s) !! tok).
  - by left.
Qed.

Lemma setups_cons e log : setups (e :: log) = ((if set_up e then 1 else 0) + setups log)%nat.
Proof.
  unfold setups. rewrite filter_cons.
  destruct (set_up e); [by rewrite decide_True|by rewrite decide_False].
Qed.

Lemma run_setups ops : forall s,
  (setups (run ops s).1 <= 1)%nat /\
  (admin_user_count (repository s) <> Ok 0 -> setups (run ops s).1 = 0%nat).
Proof.
  induction ops as [|op ops IH]; intros s; cbn [run]; [unfold setups; cbn; auto with lia|].
  pose proof (perform_repository op s) as Hp. destruct (perform op s) as [r s'] eqn:E.
  destruct (IH s') as [H1 H0]. destruct (run ops s') as [log s'']. cbn [fst snd] in *.
  rewrite setups_cons. destruct Hp as [[Hr ->]|[Hz Hnz]].
  - rewrite <-Hr. auto.
  - rewrite (H0 Hnz). split; [destruct (set_up (op, r)); lia|done].
Qed.

(** The setup form creates an administrator at most once in every history,
    and never when the database already has one, whatever is submitted to it
    and in whatever order. *)
Theorem setup_completes_once db life maximum s0 ops :
  AuthService db life maximum = Ok s0 ->
  (setups (run ops s0).1 <= 1)%nat /\
  (admin_user_count db <> Ok 0 -> setups (run ops s0).1 = 0%nat).
Proof.
  intros (_ & _ & ->)%AuthService_ok. destruct (run_setups ops (Build_AuthState db life maximum ∅ ∅)). auto.
Qed.

(** What OpenSSL documents: the derived key has the requested length. *)
Hypothesis pbkdf2_length : forall pw salt n size out, pbkdf2 pw salt n size = Some out -> length out = size.

(** After the setup the same address logs in with the same password and
    the same name in any letter case, and is refused with any password that
    PBKDF2 maps to another key. *)
Theorem created_admin_can_login name password ip t1 l1 salt tok1 tok s s1
    name' password' t2 l2 bytes key :
  create_first_admin name password ip t1 l1 (Some salt) tok1 s = (Ok tok, s1) ->
  nocase_eq name' name = true ->
  pbkdf2 password' salt password_iterations hash_bytes = Some key ->
  (login name' password' ip t2 l2 (Some bytes) s1).1 =
  if bool_decide (pbkdf2 password salt password_iterations hash_bytes = Some key)
  then Ok (to_hex bytes) else Throw bad_login.
Proof.
  intros Hs Hn Hk. pose proof (setup_cases name password ip t1 l1 (Some salt) tok1 s) as Hc.
  rewrite Hs in Hc. inversion Hc as [|salt' hash db Hrl H0 [= <-] Hh Hdb Hi]. clear Hc.
  destruct (issue_session_other l1 tok1 (clear_failures ip (set_repository db (checked ip t1 s)))) as (Hf & _ & _ & Hr).
  rewrite Hi in Hf, Hr. cbn [snd] in Hf, Hr.
  assert (Hf0 : failures s1 !! ip = None) by (rewrite Hf; cbn; by rewrite lookup_delete_eq).
  assert (Hfind : find_admin_user (repository s1) name' = Ok
    {| username := name; password_salt := salt; password_hash := hash; password_iterations_of := password_iterations |}).
  { rewrite Hr. by eapply find_created. }
  pose proof (pbkdf2_length _ _ _ _ _ Hh) as L1. pose proof (pbkdf2_length _ _ _ _ _ Hk) as L2.
  unfold login. unfold bind at 1, check_rate_limit. rewrite Hf0.
  unfold bind at 1, catch_invalid, check_password, bind, get, lift, derive_password.
  rewrite Hfind. cbn [password_salt password_iterations_of password_hash].
  rewrite L1, Hk, Hh, L2, Nat.eqb_refl. cbn [negb orb].
  destruct (decide (key = hash)) as [->|Hne].
  - rewrite !bool_decide_eq_true_2 by done. done.
  - rewrite !bool_decide_eq_false_2 by congruence. done.
Qed.


End Auth.

(** ** A concrete store

    A table as a list of rows with the UNIQUE COLLATE NOCASE constraint, a toy
    key derivation and the order of [map_to_list]: an instance in which the
    assumptions above hold. *)

Definition find_row (rows : list AdminUserRecord) (name : str) : option AdminUserRecord :=
  snd <$> list_find (fun u => nocase_eq name (username u) = true) rows.

#[export, refine] Instance list_store : AdminUserStore (list AdminUserRecord) := {
  admin_user_count rows := Ok (Z.of_nat (length rows));
  find_admin_user rows name := match find_row rows name with Some u => Ok u | None => Throw bad_login end;
  create_admin_user rows u :=
    match find_row rows (username u) with
    | Some _ => Throw (runtime_error b!"cannot create administrator account")
    | None => Ok (rows ++ [u])
    end
}.
Proof.
  - intros rows u rows' n m. case_match; [done|]. intros [= <-] [= <-] [= <-]. rewrite length_app. cbn. lia.
  - intros [|] u rows' name; cbn; [|done]. intros _ [= <-] Hn. unfold find_row. cbn.
    by rewrite decide_True.
Defined.

Definition toy_pbkdf2 (password salt : str) (iterations : Z) (size : nat) : option str :=
  Some (take size (password ++ salt ++ replicate size "0"%char)).

Lemma toy_pbkdf2_length pw salt n size out : toy_pbkdf2 pw salt n size = Some out -> length out = size.
Proof. intros [= <-]. rewrite length_take, !length_app, length_replicate. lia. Qed.

Definition sample_service : AuthState (list AdminUserRecord) :=
  Build_AuthState [] (8 * 3600 * 10 ^ 9) 2 ∅ ∅.

Definition sample_run := run (DB := list AdminUserRecord) toy_pbkdf2 map_to_list.

Definition wrong_guess (at_ : Z) : AuthOp :=
  OLogin b!"root" b!"wrong password" b!"192.0.2.9" at_ at_ (Some b!"t").

Definition guess_ops : list AuthOp := wrong_guess <$> [1; 2; 3; 4; 5; 6; 7].

Lemma guess_rate_bounded_witness :
  (guesses b!"192.0.2.9" (sample_run guess_ops sample_service).1 <= 5)%nat.
Proof.
  pose proof (guess_rate_bounded toy_pbkdf2 map_to_list [] (8 * 3600 * 10 ^ 9) 2 sample_service
    b!"192.0.2.9" 1 guess_ops eq_refl) as Hg.
  assert (H1 : in_order 1 guess_ops) by (cbn; lia).
  assert (H2 : forallb (fun e => negb (entered e))
    (sample_run guess_ops sample_service).1 = true) by (vm_compute; reflexivity).
  specialize (Hg H1). replace ((end_time 1 guess_ops - 1) / five_minutes) with 0 in Hg
    by (vm_compute; reflexivity).
  unfold sample_run in *. apply Nat2Z.inj_le, Hg. apply Forall_forall. intros e He _.
  rewrite forallb_forall in H2. specialize (H2 e). rewrite <-list_elem_of_In, negb_true_iff in H2. auto.
Defined.

Definition setup_op (at_ : Z) : AuthOp :=
  OSetup b!"Admin" b!"correct horse" b!"192.0.2.1" at_ at_ (Some b!"saltsaltsaltsalt") (Some b!"s1").

Definition session_ops : list AuthOp :=
  [setup_op 10; OAuthorize (to_hex b!"s1") 20; setup_op 25;
   OLogin b!"ADMIN" b!"correct horse" b!"192.0.2.2" 30 31 (Some b!"s2"); OLogout (to_hex b!"s1")].

Lemma session_lifecycle_witness :
  (size (sessions (sample_run session_ops sample_service).2) <= 2)%nat /\
  (authorize (to_hex b!"s2") 40 (sample_run session_ops sample_service).2).1 = Ok true /\
  (authorize (to_hex b!"s1") 40 (sample_run session_ops sample_service).2).1 = Ok false.
Proof.
  assert (Ho : in_order 0 session_ops) by (cbn; lia).
  pose proof (session_lifecycle toy_pbkdf2 map_to_list ltac:(done) [] (8 * 3600 * 10 ^ 9) 2 sample_service
    0 session_ops (to_hex b!"s2") 40 eq_refl Ho ltac:(vm_compute; discriminate)) as Hl.
  unfold sample_run. destruct (run toy_pbkdf2 map_to_list session_ops sample_service) as [log s] eqn:E.
  assert (Hlog : log = (run toy_pbkdf2 map_to_list session_ops sample_service).1) by (by rewrite E).
  assert (Hst : s = (run toy_pbkdf2 map_to_list session_ops sample_service).2) by (by rewrite E).
  destruct Hl as (H1 & _ & H3). split; [exact H1|]. split.
  - apply (H3 ltac:(rewrite Hlog; vm_compute; lia) ltac:(by vm_compute) (31 + 8 * 3600 * 10 ^ 9)); [|done].
    rewrite Hlog. vm_compute. reflexivity.
  - rewrite Hst. vm_compute. reflexivity.
Defined.

Lemma setup_completes_once_witness :
  (setups (sample_run session_ops sample_service).1 <= 1)%nat /\
  setups (sample_run session_ops sample_service).1 = 1%nat.
Proof.
  split; [|vm_compute; reflexivity].
  exact (proj1 (setup_completes_once toy_pbkdf2 map_to_list [] (8 * 3600 * 10 ^ 9) 2 sample_service session_ops eq_refl)).
Defined.

Lemma created_admin_can_login_witness :
  (login toy_pbkdf2 map_to_list b!"aDmIn" b!"correct horse" b!"192.0.2.1" 50 51 (Some b!"s3")
     (perform toy_pbkdf2 map_to_list (setup_op 10) sample_service).2).1 = Ok (to_hex b!"s3").
Proof.
  rewrite (created_admin_can_login toy_pbkdf2 map_to_list toy_pbkdf2_length b!"Admin" b!"correct horse" b!"192.0.2.1"
    10 10 b!"saltsaltsaltsalt" (Some b!"s1") (to_hex b!"s1") sample_service
    (perform toy_pbkdf2 map_to_list (setup_op 10) sample_service).2 b!"aDmIn" b!"correct horse" 50 51 b!"s3"
    (take 32 (b!"correct horse" ++ b!"saltsaltsaltsalt" ++ replicate 32 "0"%char)));
    vm_compute; reflexivity.
Defined.
