(* ===== verification/ConfigRepository.v ===== *)
(** * Configuration repository (src/src/database/ConfigRepository.{hpp,cpp})

    [Store] is the database after [migrate()]: the rows of each table in the
    order of their keys.  A site's rows of [site_domains], in the order of their
    ids, are its member [s_domains]; the lists the code keeps as JSON text in a
    column are lists.  Every operation that changes the database runs in a
    [Transaction]: [transaction] returns the state the COMMIT leaves, or the
    unchanged state when a statement fails ([fault]: a full disk, a busy file), a
    constraint is violated or the code throws.  The statements' WHERE, UNIQUE and
    ORDER BY clauses are written out as list functions.

    The theorems say what the configuration service relies on: keys stay unique
    and increase, host names, certificate names and the default certificate stay
    unique, [next_site_id] foretells the key of the next site, and the store
    implements the interface the administrator accounts are verified against. *)

From Stdlib Require Import Sorted.
From S2P Require Import Prelude RuntimeConfig AuthService.

(** ** Records *)

Record SiteRecord := {
  s_id : Z;
  s_name : str;
  s_enabled : bool;
  s_domains : list str;
  s_backend_address : str;
  s_backend_port : Z;
  s_backend_protocol : str;
  s_backend_host : str;
  s_backend_tls_sni : str;
  s_backend_tls_verify_certificate : bool;
  s_backend_connect_timeout_seconds : Z;
  s_backend_response_timeout_seconds : Z;
  s_backend_keep_alive : bool;
  s_url_auth_json : str;
  s_http_enabled : bool;
  s_http_port : Z;
  s_https_enabled : bool;
  s_https_port : Z;
  s_force_https : bool;
  s_acl_rules_json : str;
  s_rate_limit_enabled : bool;
  s_rate_limit_window_seconds : Z;
  s_rate_limit_max_requests : Z;
  s_rate_limit_ban_seconds : Z;
  s_hotlink_enabled : bool;
  s_hotlink_extensions_json : str;
  s_hotlink_allowed_hosts_json : str;
  s_hotlink_allow_empty_referer : bool;
  s_hotlink_redirect_location : str;
  s_redirect_rules_json : str;
  s_backend_max_active_connections : Z;
  s_backend_max_queue : Z;
  s_backend_queue_timeout_seconds : Z
}.

Record CertificateRecord := {
  c_id : Z;
  c_name : str;
  c_enabled : bool;
  c_is_default : bool;
  c_domains : list str;
  c_certificate_pem : str;
  c_private_key_pem : str
}.

Definition site_eta (s : SiteRecord) : SiteRecord := Build_SiteRecord (s.(s_id)) (s.(s_name))
  (s.(s_enabled)) (s.(s_domains)) (s.(s_backend_address)) (s.(s_backend_port)) (s.(s_backend_protocol))
  (s.(s_backend_host)) (s.(s_backend_tls_sni)) (s.(s_backend_tls_verify_certificate))
  (s.(s_backend_connect_timeout_seconds)) (s.(s_backend_response_timeout_seconds))
  (s.(s_backend_keep_alive)) (s.(s_url_auth_json)) (s.(s_http_enabled)) (s.(s_http_port))
  (s.(s_https_enabled)) (s.(s_https_port)) (s.(s_force_https)) (s.(s_acl_rules_json))
  (s.(s_rate_limit_enabled)) (s.(s_rate_limit_window_seconds)) (s.(s_rate_limit_max_requests))
  (s.(s_rate_limit_ban_seconds)) (s.(s_hotlink_enabled)) (s.(s_hotlink_extensions_json))
  (s.(s_hotlink_allowed_hosts_json)) (s.(s_hotlink_allow_empty_referer)) (s.(s_hotlink_redirect_location))
  (s.(s_redirect_rules_json)) (s.(s_backend_max_active_connections)) (s.(s_backend_max_queue))
  (s.(s_backend_queue_timeout_seconds)).
Definition set_s_id (v : Z) (s : SiteRecord) : SiteRecord := ltac:(record_update site_eta s_id s v).
Definition set_s_domains (v : list str) (s : SiteRecord) : SiteRecord := ltac:(record_update site_eta s_domains s v).
Definition set_s_backend_address (v : str) (s : SiteRecord) : SiteRecord := ltac:(record_update site_eta s_backend_address s v).
Definition set_s_backend_protocol (v : str) (s : SiteRecord) : SiteRecord := ltac:(record_update site_eta s_backend_protocol s v).
Definition set_s_https_enabled (v : bool) (s : SiteRecord) : SiteRecord := ltac:(record_update site_eta s_https_enabled s v).
Definition set_s_backend_tls_sni (v : str) (s : SiteRecord) : SiteRecord := ltac:(record_update site_eta s_backend_tls_sni s v).
Definition set_s_url_auth_json (v : str) (s : SiteRecord) : SiteRecord := ltac:(record_update site_eta s_url_auth_json s v).
Definition set_s_acl_rules_json (v : str) (s : SiteRecord) : SiteRecord := ltac:(record_update site_eta s_acl_rules_json s v).
Definition set_s_hotlink_extensions_json (v : str) (s : SiteRecord) : SiteRecord := ltac:(record_update site_eta s_hotlink_extensions_json s v).
Definition set_s_hotlink_allowed_hosts_json (v : str) (s : SiteRecord) : SiteRecord := ltac:(record_update site_eta s_hotlink_allowed_hosts_json s v).
Definition set_s_redirect_rules_json (v : str) (s : SiteRecord) : SiteRecord := ltac:(record_update site_eta s_redirect_rules_json s v).

Definition set_s_backend_host (v : str) (s : SiteRecord) : SiteRecord := ltac:(record_update site_eta s_backend_host s v).
Definition set_s_backend_tls_verify_certificate (v : bool) (s : SiteRecord) : SiteRecord := ltac:(record_update site_eta s_backend_tls_verify_certificate s v).
Definition set_s_backend_connect_timeout_seconds (v : Z) (s : SiteRecord) : SiteRecord := ltac:(record_update site_eta s_backend_connect_timeout_seconds s v).
Definition set_s_backend_response_timeout_seconds (v : Z) (s : SiteRecord) : SiteRecord := ltac:(record_update site_eta s_backend_response_timeout_seconds s v).
Definition set_s_backend_keep_alive (v : bool) (s : SiteRecord) : SiteRecord := ltac:(record_update site_eta s_backend_keep_alive s v).
Definition set_s_rate_limit_enabled (v : bool) (s : SiteRecord) : SiteRecord := ltac:(record_update site_eta s_rate_limit_enabled s v).
Definition set_s_rate_limit_window_seconds (v : Z) (s : SiteRecord) : SiteRecord := ltac:(record_update site_eta s_rate_limit_window_seconds s v).
Definition set_s_rate_limit_max_requests (v : Z) (s : SiteRecord) : SiteRecord := ltac:(record_update site_eta s_rate_limit_max_requests s v).
Definition set_s_rate_limit_ban_seconds (v : Z) (s : SiteRecord) : SiteRecord := ltac:(record_update site_eta s_rate_limit_ban_seconds s v).
Definition set_s_hotlink_enabled (v : bool) (s : SiteRecord) : SiteRecord := ltac:(record_update site_eta s_hotlink_enabled s v).
Definition set_s_hotlink_allow_empty_referer (v : bool) (s : SiteRecord) : SiteRecord := ltac:(record_update site_eta s_hotlink_allow_empty_referer s v).
Definition set_s_hotlink_redirect_location (v : str) (s : SiteRecord) : SiteRecord := ltac:(record_update site_eta s_hotlink_redirect_location s v).
Definition set_s_backend_max_active_connections (v : Z) (s : SiteRecord) : SiteRecord := ltac:(record_update site_eta s_backend_max_active_connections s v).
Definition set_s_backend_max_queue (v : Z) (s : SiteRecord) : SiteRecord := ltac:(record_update site_eta s_backend_max_queue s v).
Definition set_s_backend_queue_timeout_seconds (v : Z) (s : SiteRecord) : SiteRecord := ltac:(record_update site_eta s_backend_queue_timeout_seconds s v).

(** A JSON literal of the source, with its double quotes written as single ones. *)
Definition json_literal (s : str) : str := (fun c => if is_char c "'" then "034"%char else c) <$> s.

Definition default_url_auth_text : str := json_literal
  b!"{'enabled':false,'scope':'all','primary_key':'','backup_key':'','validity_seconds':1800,'protected_uris':[]}".
Definition default_extensions_text : str := json_literal b!"['jpg','jpeg','png','gif','webp','mp4','zip']".

(** The default member initialisers of [SiteRecord], with the members every caller sets. *)
Definition default_site (name : str) (domains : list str) (address : str) (port : Z) : SiteRecord :=
  {| s_id := 0; s_name := name; s_enabled := true; s_domains := domains; s_backend_address := address;
     s_backend_port := port; s_backend_protocol := b!"http"; s_backend_host := []; s_backend_tls_sni := [];
     s_backend_tls_verify_certificate := true; s_backend_connect_timeout_seconds := 5;
     s_backend_response_timeout_seconds := 60; s_backend_keep_alive := true; s_url_auth_json := default_url_auth_text;
     s_http_enabled := true; s_http_port := 80; s_https_enabled := false; s_https_port := 443; s_force_https := false;
     s_acl_rules_json := b!"[]"; s_rate_limit_enabled := false; s_rate_limit_window_seconds := 10;
     s_rate_limit_max_requests := 100; s_rate_limit_ban_seconds := 60; s_hotlink_enabled := false;
     s_hotlink_extensions_json := default_extensions_text; s_hotlink_allowed_hosts_json := b!"[]";
     s_hotlink_allow_empty_referer := true; s_hotlink_redirect_location := []; s_redirect_rules_json := b!"[]";
     s_backend_max_active_connections := 200; s_backend_max_queue := 1000; s_backend_queue_timeout_seconds := 5 |}.

Definition set_c_id (v : Z) (c : CertificateRecord) : CertificateRecord :=
  {| c_id := v; c_name := c_name c; c_enabled := c_enabled c; c_is_default := c_is_default c; c_domains := c_domains c;
     c_certificate_pem := c_certificate_pem c; c_private_key_pem := c_private_key_pem c |}.
Definition set_c_is_default (v : bool) (c : CertificateRecord) : CertificateRecord :=
  {| c_id := c_id c; c_name := c_name c; c_enabled := c_enabled c; c_is_default := v; c_domains := c_domains c;
     c_certificate_pem := c_certificate_pem c; c_private_key_pem := c_private_key_pem c |}.
Definition set_c_domains (v : list str) (c : CertificateRecord) : CertificateRecord :=
  {| c_id := c_id c; c_name := c_name c; c_enabled := c_enabled c; c_is_default := c_is_default c; c_domains := v;
     c_certificate_pem := c_certificate_pem c; c_private_key_pem := c_private_key_pem c |}.

(** [RuntimeSettingsRecord] has the members of [RuntimeSettings] and its defaults. *)
Notation RuntimeSettingsRecord := RuntimeSettings.

(** ** The database *)

Record Store := {
  site_rows : list SiteRecord;
  site_sequence : option Z;              (* the row of sqlite_sequence *)
  certificate_rows : list CertificateRecord;
  certificate_sequence : option Z;
  settings_row : RuntimeSettingsRecord;
  revision_value : Z;
  default_site_seeded : bool;
  admin_rows : list AdminUserRecord
}.

(** [migrate()] on a new file: the tables with the defaults of the schema. *)
Definition migrate : Store :=
  {| site_rows := []; site_sequence := None; certificate_rows := []; certificate_sequence := None;
     settings_row := default_settings; revision_value := 1; default_site_seeded := false; admin_rows := [] |}.

Definition set_sites (rows : list SiteRecord) (seq : option Z) (db : Store) : Store :=
  {| site_rows := rows; site_sequence := seq; certificate_rows := certificate_rows db;
     certificate_sequence := certificate_sequence db; settings_row := settings_row db;
     revision_value := revision_value db; default_site_seeded := default_site_seeded db; admin_rows := admin_rows db |}.
Definition set_certificates (rows : list CertificateRecord) (seq : option Z) (db : Store) : Store :=
  {| site_rows := site_rows db; site_sequence := site_sequence db; certificate_rows := rows;
     certificate_sequence := seq; settings_row := settings_row db;
     revision_value := revision_value db; default_site_seeded := default_site_seeded db; admin_rows := admin_rows db |}.
Definition set_settings (s : RuntimeSettingsRecord) (db : Store) : Store :=
  {| site_rows := site_rows db; site_sequence := site_sequence db; certificate_rows := certificate_rows db;
     certificate_sequence := certificate_sequence db; settings_row := s;
     revision_value := revision_value db; default_site_seeded := default_site_seeded db; admin_rows := admin_rows db |}.
Definition increment_revision (db : Store) : Store :=
  {| site_rows := site_rows db; site_sequence := site_sequence db; certificate_rows := certificate_rows db;
     certificate_sequence := certificate_sequence db; settings_row := settings_row db;
     revision_value := revision_value db + 1; default_site_seeded := default_site_seeded db; admin_rows := admin_rows db |}.
Definition mark_seeded (db : Store) : Store :=
  {| site_rows := site_rows db; site_sequence := site_sequence db; certificate_rows := certificate_rows db;
     certificate_sequence := certificate_sequence db; settings_row := settings_row db;
     revision_value := revision_value db; default_site_seeded := true; admin_rows := admin_rows db |}.
Definition set_admins (rows : list AdminUserRecord) (db : Store) : Store :=
  {| site_rows := site_rows db; site_sequence := site_sequence db; certificate_rows := certificate_rows db;
     certificate_sequence := certificate_sequence db; settings_row := settings_row db;
     revision_value := revision_value db; default_site_seeded := default_site_seeded db; admin_rows := rows |}.

(** ** Schema versions

    A file written by an older program has the rows without the columns that came
    later; a migration gives these columns their defaults in every row, whatever
    the model's record holds there before. *)

Definition map_sites (f : SiteRecord -> SiteRecord) (db : Store) : Store := set_sites (f <$> site_rows db) (site_sequence db) db.

Definition policy_columns (s : SiteRecord) : SiteRecord :=
  set_s_redirect_rules_json b!"[]" (set_s_hotlink_redirect_location [] (set_s_hotlink_allow_empty_referer true
    (set_s_hotlink_allowed_hosts_json b!"[]" (set_s_hotlink_extensions_json default_extensions_text
      (set_s_hotlink_enabled false (set_s_rate_limit_ban_seconds 60 (set_s_rate_limit_max_requests 100
        (set_s_rate_limit_window_seconds 10 (set_s_rate_limit_enabled false (set_s_acl_rules_json b!"[]" s)))))))))).

Definition overload_columns (s : SiteRecord) : SiteRecord :=
  set_s_backend_queue_timeout_seconds 5 (set_s_backend_max_queue 1000 (set_s_backend_max_active_connections 200 s)).

(** The columns of a site's backend; the timeouts and keep-alive it had through
    the global settings. *)
Definition backend_columns (settings : RuntimeSettingsRecord) (s : SiteRecord) : SiteRecord :=
  set_s_backend_keep_alive (backend_keep_alive settings)
    (set_s_backend_response_timeout_seconds (backend_response_timeout_seconds settings)
      (set_s_backend_connect_timeout_seconds (backend_connect_timeout_seconds settings)
        (set_s_backend_tls_verify_certificate true (set_s_backend_tls_sni [] (set_s_backend_host []
          (set_s_backend_protocol b!"http" s)))))).

Definition timeout_columns (s : RuntimeSettingsRecord) : RuntimeSettingsRecord :=
  {| trusted_proxy_cidrs := trusted_proxy_cidrs s; real_ip_headers := real_ip_headers default_settings;
     max_upload_bytes := max_upload_bytes s; backend_keep_alive := backend_keep_alive s;
     backend_pool_size := backend_pool_size s; client_header_timeout_seconds := 15; client_body_timeout_seconds := 120;
     client_write_timeout_seconds := 60; backend_connect_timeout_seconds := 5; backend_response_timeout_seconds := 60;
     backend_idle_timeout_seconds := 60; backend_idle_connection_ttl_seconds := 60 |}.

(** What the transaction that ends in [schema_migrations(version)] does. *)
Definition migration (version : nat) (db : Store) : Store :=
  match version with
  | 2 => map_sites policy_columns db
  | 3 => set_settings default_settings (set_certificates [] None db)
  | 4 => set_settings (timeout_columns (settings_row db)) db
  | 5 => map_sites overload_columns db
  | 6 => map_sites (backend_columns (settings_row db)) db
  | 7 => map_sites (set_s_url_auth_json default_url_auth_text) db
  | _ => db
  end%nat.
Arguments migration : simpl never.

(** A database file: its schema version (0 for a new file) and its tables. *)
Record File := { schema_version : nat; tables : Store }.

(** One migration, unless it was applied before; [fault] is the version whose
    transaction fails. *)
Definition apply_migration (fault : option (nat * str)) (version : nat) (file : File) : res File :=
  if (version <=? schema_version file)%nat then Ok file
  else match fault with
       | Some (n, message) =>
           if (n =? version)%nat then Throw (runtime_error message)
           else Ok {| schema_version := version; tables := migration version (tables file) |}
       | None => Ok {| schema_version := version; tables := migration version (tables file) |}
       end.

(** [migrate()]: the state it leaves, and whether it threw on the way. *)
Fixpoint apply_migrations (fault : option (nat * str)) (versions : list nat) (file : File) : res unit * File :=
  match versions with
  | [] => (Ok tt, file)
  | version :: versions =>
      match apply_migration fault version file with
      | Throw e => (Throw e, file)
      | Ok file => apply_migrations fault versions file
      end
  end.
Definition migrate_file (fault : option (nat * str)) : File -> res unit * File :=
  apply_migrations fault [1; 2; 3; 4; 5; 6; 7]%nat.

(** [Transaction]: COMMIT, or ROLLBACK when anything throws. *)
Definition transaction {A} (fault : option str) (body : Store -> res (A * Store)) (db : Store) : res A * Store :=
  match fault with
  | Some message => (Throw (runtime_error message), db)
  | None => match body db with Ok (a, db') => (Ok a, db') | Throw e => (Throw e, db) end
  end.

(** INTEGER PRIMARY KEY AUTOINCREMENT: one more than every key ever used. *)
Definition largest (ids : list Z) : Z := fold_right Z.max 0 ids.
Definition next_key (seq : option Z) (ids : list Z) : Z := Z.max (default 0 seq) (largest ids) + 1.

(** [insert_domains]: hostname is UNIQUE over all sites. *)
Definition insert_domains (taken domains : list str) : res unit :=
  _ ← res_fold (fun domain taken =>
        if bool_decide (domain ∈ taken)
        then Throw (runtime_error b!"cannot insert site domain: UNIQUE constraint failed: site_domains.hostname")
        else Ok (domain :: taken)) domains taken;
  Ok tt.

Definition hostnames (rows : list SiteRecord) : list str := mjoin (s_domains <$> rows).
Arguments hostnames : simpl never.

(** ** Sites *)

Definition list_sites (db : Store) : list SiteRecord := site_rows db.

Definition next_site_id (db : Store) : Z :=
  match site_sequence db with Some seq => seq + 1 | None => largest (s_id <$> site_rows db) + 1 end.

(** The INSERT of a site and of its domains: the key and the rows. *)
Definition insert_site (site : SiteRecord) (db : Store) : res (Z * Store) :=
  let id := next_key (site_sequence db) (s_id <$> site_rows db) in
  _ ← insert_domains (hostnames (site_rows db)) (s_domains site);
  Ok (id, set_sites (site_rows db ++ [set_s_id id site]) (Some id) db).

Definition create_site (fault : option str) (site : SiteRecord) : Store -> res Z * Store :=
  transaction fault (fun db =>
    inserted ← insert_site site db;
    Ok (inserted.1, increment_revision inserted.2)).

Definition update_site (fault : option str) (site : SiteRecord) : Store -> res unit * Store :=
  transaction fault (fun db =>
    if negb (existsb (fun row => s_id row =? s_id site) (site_rows db))
    then Throw (invalid_argument b!"site does not exist") else
    _ ← insert_domains (hostnames (filter (fun row => s_id row <> s_id site) (site_rows db))) (s_domains site);
    Ok (tt, increment_revision (set_sites
      ((fun row => if s_id row =? s_id site then site else row) <$> site_rows db) (site_sequence db) db))).

Definition delete_site (fault : option str) (id : Z) : Store -> res unit * Store :=
  transaction fault (fun db =>
    if negb (existsb (fun row => s_id row =? id) (site_rows db))
    then Throw (invalid_argument b!"site does not exist") else
    Ok (tt, increment_revision (set_sites (filter (fun row => s_id row <> id) (site_rows db)) (site_sequence db) db))).

Definition seed_default_site (fault : option str) (db : Store) : res unit * Store :=
  if default_site_seeded db then (Ok tt, db)
  else
    let site := set_s_https_enabled true
      (default_site b!"Example site" [b!"example.com"; b!"www.example.com"] b!"127.0.0.1" 8090) in
    match (if bool_decide (site_rows db = []) then create_site fault site db else (Ok 0, db)) with
    | (Ok _, db) =>
        match fault with
        | Some message => (Throw (runtime_error message), db)
        | None => (Ok tt, mark_seeded db)
        end
    | (Throw e, db) => (Throw e, db)
    end.

(** ** Certificates *)

(** ORDER BY is_default DESC, id *)
Definition list_certificates (db : Store) : list CertificateRecord :=
  filter (fun c => c_is_default c = true) (certificate_rows db) ++
  filter (fun c => c_is_default c = false) (certificate_rows db).

Definition find_certificate (id : Z) (db : Store) : res CertificateRecord :=
  match list_find (fun c => c_id c = id) (list_certificates db) with
  | Some (_, c) => Ok c
  | None => Throw (invalid_argument b!"TLS certificate does not exist")
  end.

Definition clear_defaults (rows : list CertificateRecord) : list CertificateRecord := set_c_is_default false <$> rows.
Arguments clear_defaults : simpl never.

(** The INSERT: name is UNIQUE, and so is the default. *)
Definition insert_certificate (what : str) (certificate : CertificateRecord) (db : Store) : res (Z * Store) :=
  let id := next_key (certificate_sequence db) (c_id <$> certificate_rows db) in
  if bool_decide (c_name certificate ∈ (c_name <$> certificate_rows db))
  then Throw (runtime_error (what ++ b!": UNIQUE constraint failed: tls_certificates.name"))
  else if c_is_default certificate && existsb c_is_default (certificate_rows db)
  then Throw (runtime_error (what ++ b!": UNIQUE constraint failed: tls_certificates.is_default"))
  else Ok (id, set_certificates (certificate_rows db ++ [set_c_id id certificate]) (Some id) db).

Definition create_certificate (fault : option str) (certificate : CertificateRecord) : Store -> res Z * Store :=
  transaction fault (fun db =>
    let db := if c_is_default certificate
              then set_certificates (clear_defaults (certificate_rows db)) (certificate_sequence db) db else db in
    inserted ← insert_certificate b!"cannot create TLS certificate" certificate db;
    Ok (inserted.1, increment_revision inserted.2)).

Definition update_certificate (fault : option str) (certificate : CertificateRecord) : Store -> res unit * Store :=
  transaction fault (fun db =>
    let others := filter (fun c => c_id c <> c_id certificate) (certificate_rows db) in
    if negb (existsb (fun c => c_id c =? c_id certificate) (certificate_rows db))
    then Throw (invalid_argument b!"TLS certificate does not exist")
    else if bool_decide (c_name certificate ∈ (c_name <$> others))
    then Throw (runtime_error b!"cannot update TLS certificate: UNIQUE constraint failed: tls_certificates.name")
    else Ok (tt, increment_revision (set_certificates
      ((fun c => if c_id c =? c_id certificate then certificate
                 else if c_is_default certificate then set_c_is_default false c else c) <$> certificate_rows db)
      (certificate_sequence db) db))).

Definition delete_certificate (fault : option str) (id : Z) : Store -> res unit * Store :=
  transaction fault (fun db =>
    if negb (existsb (fun c => c_id c =? id) (certificate_rows db))
    then Throw (invalid_argument b!"TLS certificate does not exist") else
    Ok (tt, increment_revision (set_certificates (filter (fun c => c_id c <> id) (certificate_rows db))
      (certificate_sequence db) db))).

Definition certificate_count (db : Store) : nat := length (certificate_rows db).

(** ** Settings, revision and restore *)

Definition runtime_settings (db : Store) : RuntimeSettingsRecord := settings_row db.

Definition update_runtime_settings (fault : option str) (s : RuntimeSettingsRecord) : Store -> res unit * Store :=
  transaction fault (fun db => Ok (tt, increment_revision (set_settings s db))).

Definition config_revision (db : Store) : Z := u64 (revision_value db).

Definition replace_configuration (fault : option str) (sites : list SiteRecord) (certificates : list CertificateRecord)
    (s : RuntimeSettingsRecord) : Store -> res unit * Store :=
  transaction fault (fun db =>
    let db := set_certificates [] (certificate_sequence db) (set_sites [] (site_sequence db) db) in
    db ← res_fold (fun site db => inserted ← insert_site site db; Ok inserted.2) sites db;
    db ← res_fold (fun c db => inserted ← insert_certificate b!"cannot restore TLS certificate" c db; Ok inserted.2)
           certificates db;
    Ok (tt, increment_revision (set_settings s db))).

(** ** Administrator accounts *)

(** username is UNIQUE COLLATE NOCASE; the three statements are the store the
    accounts are verified against. *)
#[export, refine] Instance store_accounts : AdminUserStore Store := {
  admin_user_count db := admin_user_count (admin_rows db);
  find_admin_user db name := find_admin_user (admin_rows db) name;
  create_admin_user db u := rows ← create_admin_user (admin_rows db) u; Ok (set_admins rows db)
}.
Proof.
  - intros db u db' n m Hc. destruct (create_admin_user (admin_rows db) u) as [rows|] eqn:E; [|done].
    injection Hc as <-. by apply (create_count (admin_rows db) u rows).
  - intros db u db' name H0 Hc. destruct (create_admin_user (admin_rows db) u) as [rows|] eqn:E; [|done].
    injection Hc as <-. by apply (find_created (admin_rows db)).
Defined.

(** ** Invariant *)

Definition keys_ok (seq : option Z) (ids : list Z) : Prop :=
  StronglySorted Z.lt ids /\ Forall (fun id => 1 <= id <= default 0 seq) ids.

Definition count_defaults (rows : list CertificateRecord) : nat := length (filter (fun c => c_is_default c = true) rows).
Arguments count_defaults : simpl never.

Record store_wf (db : Store) : Prop := {
  sw_site_keys : keys_ok (site_sequence db) (s_id <$> site_rows db);
  sw_site_sequence : 0 <= default 0 (site_sequence db);
  sw_hostnames : NoDup (hostnames (site_rows db));
  sw_certificate_keys : keys_ok (certificate_sequence db) (c_id <$> certificate_rows db);
  sw_certificate_sequence : 0 <= default 0 (certificate_sequence db);
  sw_certificate_names : NoDup (c_name <$> certificate_rows db);
  sw_one_default : (count_defaults (certificate_rows db) <= 1)%nat
}.

Lemma largest_le n ids : 0 <= n -> Forall (fun id => 1 <= id <= n) ids -> largest ids <= n.
Proof. intros Hn. unfold largest. induction 1; cbn; lia. Qed.

(** A new key is one more than the sequence. *)
Lemma next_key_seq seq ids : keys_ok seq ids -> 0 <= default 0 seq -> next_key seq ids = default 0 seq + 1.
Proof.
  intros [_ Hall] H0. unfold next_key. pose proof (largest_le _ _ H0 Hall). lia.
Qed.

Lemma keys_ok_snoc seq ids : keys_ok seq ids -> 0 <= default 0 seq ->
  keys_ok (Some (default 0 seq + 1)) (ids ++ [default 0 seq + 1]).
Proof.
  intros [Hs Hall] H0. split; cbn.
  - clear H0. induction Hs as [|x l Hs IH Hx]; cbn; [by repeat constructor|]. inversion_clear Hall. constructor; [by apply IH|].
    apply Forall_app. split; [done|]. repeat constructor. lia.
  - apply Forall_app. split; [|repeat constructor; lia]. eapply Forall_impl; [done|]. cbn. lia.
Qed.

Lemma keys_ok_sublist seq ids ids' : sublist ids' ids -> keys_ok seq ids -> keys_ok seq ids'.
Proof.
  assert (Hf : forall (P : Z -> Prop) l l', sublist l' l -> Forall P l -> Forall P l').
  { intros P l l' Hsub Hall. apply Forall_forall. intros x Hx. rewrite Forall_forall in Hall.
    apply Hall. by eapply elem_of_sublist. }
  intros Hsub [Hs Hall]. split; [|by eapply Hf].
  clear Hall. induction Hsub as [|x l l' Hsub IH|x l l' Hsub IH]; [done|..]; inversion_clear Hs; auto.
  constructor; [auto|]. by eapply Hf.
Qed.

Lemma sublist_fmap {A B} (f : A -> B) l l' : sublist l' l -> sublist (f <$> l') (f <$> l).
Proof. induction 1; cbn; by constructor. Qed.

Lemma hostnames_sublist rows rows' : sublist rows' rows -> sublist (hostnames rows') (hostnames rows).
Proof.
  unfold hostnames. induction 1; cbn; [done|by apply sublist_app|by apply sublist_inserts_l].
Qed.

(** Replacing the row with a key: the other rows and the new one. *)
Lemma replace_absent {A} (key : A -> Z) (g : A -> A) (new : A) (rows : list A) :
  key new ∉ (key <$> rows) ->
  ((fun row => if key row =? key new then new else g row) <$> rows) =
    g <$> filter (fun row => key row <> key new) rows.
Proof.
  induction rows as [|row rows IH]; [done|]. rewrite fmap_cons, not_elem_of_cons. intros [Hne Hni].
  rewrite fmap_cons, filter_cons_True, fmap_cons by auto. f_equal; [|by apply IH].
  by rewrite (proj2 (Z.eqb_neq _ _)) by auto.
Qed.

Lemma replace_by_key {A} (key : A -> Z) (g : A -> A) (new : A) (rows : list A) :
  NoDup (key <$> rows) -> existsb (fun row => key row =? key new) rows = true ->
  ((fun row => if key row =? key new then new else g row) <$> rows) ≡ₚ
    new :: (g <$> filter (fun row => key row <> key new) rows).
Proof.
  induction rows as [|row rows IH]; [done|]. rewrite fmap_cons, NoDup_cons. intros [Hni Hnd] He. cbn in He. rewrite fmap_cons.
  destruct (key row =? key new) eqn:E.
  - apply Z.eqb_eq in E. rewrite filter_cons_False by auto. f_equiv. rewrite replace_absent by (by rewrite <-E). done.
  - rewrite filter_cons_True, fmap_cons by (by apply Z.eqb_neq). rewrite IH by done. apply Permutation_swap.
Qed.

Lemma replaced_keys {A} (key : A -> Z) (g : A -> A) (new : A) (rows : list A) :
  (forall row, key (g row) = key row) ->
  key <$> ((fun row => if key row =? key new then new else g row) <$> rows) = key <$> rows.
Proof.
  intros Hg. rewrite <-list_fmap_compose. apply list_fmap_ext. intros i row _. cbn.
  destruct (key row =? key new) eqn:E; [by apply Z.eqb_eq in E|apply Hg].
Qed.

Lemma sorted_keys_nodup seq ids : keys_ok seq ids -> NoDup ids.
Proof.
  intros [Hs _]. induction Hs as [|x l _ IH Hx]; constructor; [|done].
  intros Hin. rewrite Forall_forall in Hx. specialize (Hx x Hin). lia.
Qed.

Lemma hostnames_app rows rows' : hostnames (rows ++ rows') = hostnames rows ++ hostnames rows'.
Proof. unfold hostnames. by rewrite fmap_app, join_app. Qed.
Lemma hostnames_perm rows rows' : rows ≡ₚ rows' -> hostnames rows ≡ₚ hostnames rows'.
Proof. intros H. unfold hostnames. by rewrite H. Qed.

Lemma insert_domains_ok taken domains :
  insert_domains taken domains = Ok tt <-> NoDup domains /\ (forall d, d ∈ domains -> d ∉ taken).
Proof.
  unfold insert_domains. induction domains as [|d domains IH] in taken |- *; cbn.
  { split; [|done]. intros _. split; [constructor|]. intros d []%elem_of_nil. }
  case_bool_decide as Hd; cbn.
  - split; [done|]. intros [_ Hn]. exfalso. apply (Hn d); [left|done].
  - rewrite IH, NoDup_cons. split.
    + intros [Hnd Hn]. split; [split; [|done]|].
      * intros Hin. apply (Hn d); [done|left].
      * intros d' [->|Hin]%elem_of_cons; [done|]. intros Hx. apply (Hn d' Hin). by right.
    + intros [[Hnin Hnd] Hn]. split; [done|]. intros d' Hin [->|Hx]%elem_of_cons; [done|].
      apply (Hn d'); [by right|done].
Qed.

(** *** Every operation keeps it *)

Definition keeps {A} (op : Store -> res A * Store) : Prop := forall db, store_wf db -> store_wf (op db).2.

Lemma transaction_keeps {A} fault (body : Store -> res (A * Store)) :
  (forall db a db', store_wf db -> body db = Ok (a, db') -> store_wf db') -> keeps (transaction fault body).
Proof.
  intros Hb db Hwf. unfold transaction. destruct fault; [done|]. destruct (body db) as [[a db']|] eqn:E; [|done]. by eapply Hb.
Qed.

Lemma increment_wf db : store_wf db -> store_wf (increment_revision db).
Proof. intros []. by constructor. Qed.

Lemma insert_site_wf site db id db' : store_wf db -> insert_site site db = Ok (id, db') ->
  store_wf db' /\ id = default 0 (site_sequence db) + 1 /\
  db' = set_sites (site_rows db ++ [set_s_id id site]) (Some id) db.
Proof.
  intros Hwf E. unfold insert_site in E. rewrite next_key_seq in E by apply Hwf. cbv zeta in E.
  destruct (insert_domains _ _) as [[]|] eqn:Ed; [|done]. injection E as <- <-. split; [|done].
  apply insert_domains_ok in Ed as [Hnd Hdis]. destruct Hwf. constructor; cbn; try done; [| |].
  - rewrite fmap_app. by apply keys_ok_snoc.
  - lia.
  - rewrite hostnames_app. apply NoDup_app. split_and!; [done| |].
    + intros d Hd Hin. unfold hostnames in Hin. cbn in Hin. rewrite app_nil_r in Hin. by apply (Hdis d).
    + unfold hostnames. cbn. by rewrite app_nil_r.
Qed.

Lemma create_site_keeps fault site : keeps (create_site fault site).
Proof.
  apply transaction_keeps. intros db id db' Hwf E. destruct (insert_site site db) as [[i db1]|] eqn:Ei; [|done].
  injection E as <- <-. by eapply increment_wf, insert_site_wf.
Qed.

Lemma update_site_keeps fault site : keeps (update_site fault site).
Proof.
  apply transaction_keeps. intros db [] db' Hwf E. cbv beta in E. case_match eqn:He; [done|]. apply negb_false_iff in He.
  destruct (insert_domains _ _) as [[]|] eqn:Ed; [|done]. injection E as <-. apply increment_wf.
  apply insert_domains_ok in Ed as [Hnd Hdis]. destruct Hwf. constructor; cbn; try done.
  - by rewrite (replaced_keys s_id (fun row => row)).
  - rewrite (hostnames_perm _ _ (replace_by_key s_id (fun row => row) site (site_rows db)
      (sorted_keys_nodup _ _ sw_site_keys0) He)).
    rewrite list_fmap_id. apply (NoDup_app (s_domains site)). split_and!; [done|exact Hdis|].
    eapply sublist_NoDup; [exact sw_hostnames0|]. apply hostnames_sublist, sublist_filter.
Qed.

Lemma delete_site_keeps fault id : keeps (delete_site fault id).
Proof.
  apply transaction_keeps. intros db [] db' Hwf E. cbv beta in E. case_match eqn:He; [done|]. injection E as <-.
  apply increment_wf. destruct Hwf. constructor; cbn; try done.
  - eapply keys_ok_sublist; [|done]. apply sublist_fmap, sublist_filter.
  - eapply sublist_NoDup; [exact sw_hostnames0|]. apply hostnames_sublist, sublist_filter.
Qed.

(** *** Certificates *)

Lemma clear_defaults_keys rows : c_id <$> clear_defaults rows = c_id <$> rows.
Proof. unfold clear_defaults. by rewrite <-list_fmap_compose. Qed.
Lemma clear_defaults_names rows : c_name <$> clear_defaults rows = c_name <$> rows.
Proof. unfold clear_defaults. by rewrite <-list_fmap_compose. Qed.
Lemma clear_defaults_none rows : existsb c_is_default (clear_defaults rows) = false.
Proof. by induction rows. Qed.
Lemma no_defaults rows : existsb c_is_default rows = false <-> count_defaults rows = 0%nat.
Proof.
  unfold count_defaults. induction rows as [|c rows IH]; [done|]. rewrite filter_cons. cbn.
  destruct (c_is_default c); cbn; [done|]. by rewrite IH.
Qed.
Lemma count_defaults_app rows rows' : count_defaults (rows ++ rows') = (count_defaults rows + count_defaults rows')%nat.
Proof. unfold count_defaults. by rewrite filter_app, length_app. Qed.
Lemma count_defaults_sublist rows rows' : sublist rows' rows -> (count_defaults rows' <= count_defaults rows)%nat.
Proof.
  unfold count_defaults. induction 1 as [|c l l' _ IH|c l l' _ IH]; [done|..]; rewrite !filter_cons; destruct (decide _); cbn; lia.
Qed.
Lemma singleton_defaults c : (count_defaults [c] <= 1)%nat.
Proof. unfold count_defaults. rewrite filter_cons. destruct (decide _); cbn; lia. Qed.
Lemma count_defaults_perm rows rows' : rows ≡ₚ rows' -> count_defaults rows = count_defaults rows'.
Proof. intros H. unfold count_defaults. by rewrite H. Qed.

Lemma clear_defaults_wf db : store_wf db ->
  store_wf (set_certificates (clear_defaults (certificate_rows db)) (certificate_sequence db) db).
Proof.
  intros []. constructor; cbn; rewrite ?clear_defaults_keys, ?clear_defaults_names; try done.
  rewrite (proj1 (no_defaults _) (clear_defaults_none _)). lia.
Qed.

Lemma insert_certificate_wf what c db id db' : store_wf db -> insert_certificate what c db = Ok (id, db') ->
  store_wf db' /\ id = default 0 (certificate_sequence db) + 1 /\
  db' = set_certificates (certificate_rows db ++ [set_c_id id c]) (Some id) db.
Proof.
  intros Hwf E. unfold insert_certificate in E. rewrite next_key_seq in E by apply Hwf. cbv zeta in E.
  case_bool_decide as Hname; [done|]. destruct (c_is_default c && _) eqn:Hd; [done|]. injection E as <- <-. split; [|done].
  destruct Hwf. constructor; cbn; try done.
  - rewrite fmap_app. by apply keys_ok_snoc.
  - lia.
  - rewrite fmap_app. apply NoDup_app. split_and!; [done| |apply NoDup_singleton].
    by intros n Hn ->%list_elem_of_singleton.
  - rewrite count_defaults_app. apply andb_false_iff in Hd as [Hd|Hd%no_defaults].
    + rewrite (proj1 (no_defaults [set_c_id _ c])) by (cbn; by rewrite Hd). lia.
    + rewrite Hd. apply singleton_defaults.
Qed.

Lemma create_certificate_keeps fault c : keeps (create_certificate fault c).
Proof.
  apply transaction_keeps. intros db id db' Hwf E. cbv beta zeta in E.
  destruct (insert_certificate _ _ _) as [[i db1]|] eqn:Ei; [|done]. injection E as <- <-. apply increment_wf.
  destruct (c_is_default c); [apply clear_defaults_wf in Hwf|]; by eapply insert_certificate_wf.
Qed.

Lemma update_certificate_keeps fault c : keeps (update_certificate fault c).
Proof.
  apply transaction_keeps. intros db [] db' Hwf E. cbv beta zeta in E. case_match eqn:He; [done|]. apply negb_false_iff in He.
  case_bool_decide as Hname; [done|]. injection E as <-. apply increment_wf. destruct Hwf.
  set (g := fun c' => if c_is_default c then set_c_is_default false c' else c').
  assert (Hg : forall c', c_id (g c') = c_id c') by (intros c'; unfold g; by destruct (c_is_default c)).
  assert (Hn : forall c', c_name (g c') = c_name c') by (intros c'; unfold g; by destruct (c_is_default c)).
  pose proof (replace_by_key c_id g c _ (sorted_keys_nodup _ _ sw_certificate_keys0) He) as Hp.
  pose proof (replaced_keys c_id g c (certificate_rows db) Hg) as Hk. rewrite <-Hk in sw_certificate_keys0.
  match goal with |- store_wf (set_certificates ?r _ _) =>
    change r with ((fun row => if c_id row =? c_id c then c else g row) <$> certificate_rows db) end.
  generalize dependent ((fun row => if c_id row =? c_id c then c else g row) <$> certificate_rows db). intros rows Hkeys Hp _.
  constructor; cbn; try done.
  - rewrite Hp, fmap_cons. apply NoDup_cons. rewrite <-list_fmap_compose.
    rewrite (list_fmap_ext (c_name ∘ g) c_name) by (intros; cbn; apply Hn). split; [done|].
    eapply sublist_NoDup; [exact sw_certificate_names0|]. apply sublist_fmap, sublist_filter.
  - rewrite (count_defaults_perm _ _ Hp). unfold g.
    pose proof (count_defaults_sublist _ _ (sublist_filter (fun row => c_id row <> c_id c) (certificate_rows db))) as Hc.
    change (c :: ?l) with ([c] ++ l). rewrite count_defaults_app. destruct (c_is_default c) eqn:Hd.
    + rewrite (proj1 (no_defaults _) (clear_defaults_none _)). pose proof (singleton_defaults c). lia.
    + rewrite list_fmap_id, (proj1 (no_defaults [c])) by (cbn; by rewrite Hd). lia.
Qed.

Lemma delete_certificate_keeps fault id : keeps (delete_certificate fault id).
Proof.
  apply transaction_keeps. intros db [] db' Hwf E. cbv beta in E. case_match eqn:He; [done|]. injection E as <-.
  apply increment_wf. destruct Hwf. constructor; cbn; try done.
  - eapply keys_ok_sublist; [|done]. apply sublist_fmap, sublist_filter.
  - eapply sublist_NoDup; [exact sw_certificate_names0|]. apply sublist_fmap, sublist_filter.
  - etrans; [|done]. apply count_defaults_sublist, sublist_filter.
Qed.

(** *** Settings, restore, seeding, accounts *)

Lemma update_settings_keeps fault s : keeps (update_runtime_settings fault s).
Proof. apply transaction_keeps. intros db [] db' Hwf [= <-]. apply increment_wf. destruct Hwf. by constructor. Qed.

Lemma cleared_wf db : store_wf db ->
  store_wf (set_certificates [] (certificate_sequence db) (set_sites [] (site_sequence db) db)).
Proof.
  intros []. constructor; cbn; try done; try (split; constructor); try constructor. unfold count_defaults. cbn. lia.
Qed.

Lemma replace_configuration_keeps fault sites certificates s : keeps (replace_configuration fault sites certificates s).
Proof.
  apply transaction_keeps. intros db [] db' Hwf E. cbv beta zeta in E.
  destruct (res_fold _ sites _) as [db1|] eqn:E1; [|done]. cbn [mbind res_bind] in E. destruct (res_fold _ certificates _) as [db2|] eqn:E2; [|done].
  injection E as <-. apply increment_wf.
  assert (store_wf db2) as []; [|by constructor]. eapply res_fold_keeps; [|eapply res_fold_keeps; [..|exact E1]|exact E2].
  - intros c d d' Hd Ei. cbv beta in Ei. destruct (insert_certificate _ _ _) as [[i d1]|] eqn:Ec; [|done].
    injection Ei as <-. by eapply insert_certificate_wf.
  - intros c d d' Hd Ei. cbv beta in Ei. destruct (insert_site _ _) as [[i d1]|] eqn:Ec; [|done].
    injection Ei as <-. by eapply insert_site_wf.
  - by apply cleared_wf.
Qed.

Lemma mark_seeded_wf db : store_wf db -> store_wf (mark_seeded db).
Proof. intros []. by constructor. Qed.

Lemma seed_default_site_keeps fault : keeps (seed_default_site fault).
Proof.
  intros db Hwf. unfold seed_default_site. destruct (default_site_seeded db); [done|].
  case_bool_decide; [|destruct fault; [done|by apply mark_seeded_wf]].
  match goal with |- context [create_site fault ?site db] => pose proof (create_site_keeps fault site db Hwf) as Hc;
    destruct (create_site fault site db) as [[id|e] db'] end; [|done].
  destruct fault; [done|by apply mark_seeded_wf].
Qed.

(** ** Histories of the database *)

Inductive store_op :=
| OpCreateSite (site : SiteRecord)
| OpUpdateSite (site : SiteRecord)
| OpDeleteSite (id : Z)
| OpCreateCertificate (certificate : CertificateRecord)
| OpUpdateCertificate (certificate : CertificateRecord)
| OpDeleteCertificate (id : Z)
| OpUpdateSettings (s : RuntimeSettingsRecord)
| OpReplaceConfiguration (sites : list SiteRecord) (certificates : list CertificateRecord) (s : RuntimeSettingsRecord)
| OpSeedDefaultSite
| OpCreateAdmin (u : AdminUserRecord).

Definition forget {A} (r : res A * Store) : res unit * Store := (_ ← r.1; Ok tt, r.2).

(** One operation on the database, with the fault its statements meet if any. *)
Definition perform (fault : option str) (op : store_op) (db : Store) : res unit * Store :=
  match op with
  | OpCreateSite site => forget (create_site fault site db)
  | OpUpdateSite site => update_site fault site db
  | OpDeleteSite id => delete_site fault id db
  | OpCreateCertificate c => forget (create_certificate fault c db)
  | OpUpdateCertificate c => update_certificate fault c db
  | OpDeleteCertificate id => delete_certificate fault id db
  | OpUpdateSettings s => update_runtime_settings fault s db
  | OpReplaceConfiguration sites certificates s => replace_configuration fault sites certificates s db
  | OpSeedDefaultSite => seed_default_site fault db
  | OpCreateAdmin u =>
      match fault with
      | Some message => (Throw (runtime_error message), db)
      | None => match AuthService.create_admin_user db u with
                | Ok db' => (Ok tt, db') | Throw e => (Throw e, db) end
      end
  end.

Definition history (ops : list (option str * store_op)) : Store :=
  foldl (fun db op => (perform op.1 op.2 db).2) migrate ops.

Lemma perform_keeps fault op : keeps (perform fault op).
Proof.
  intros db Hwf. destruct op; cbn [perform forget snd];
    first [by apply create_site_keeps | by apply update_site_keeps | by apply delete_site_keeps
          | by apply create_certificate_keeps | by apply update_certificate_keeps | by apply delete_certificate_keeps
          | by apply update_settings_keeps | by apply replace_configuration_keeps | by apply seed_default_site_keeps
          | idtac].
  destruct fault; [done|]. cbn. destruct (find_row (admin_rows db) (username u)); [done|]. destruct Hwf. by constructor.
Qed.

Lemma migrate_wf : store_wf migrate.
Proof. constructor; cbn; try done; try (split; constructor); try constructor. unfold count_defaults. cbn. lia. Qed.

Lemma history_wf ops : store_wf (history ops).
Proof.
  unfold history. generalize migrate_wf. generalize migrate. induction ops as [|[fault op] ops IH]; intros db Hwf; [done|].
  cbn. apply IH. by apply perform_keeps.
Qed.

(** A statement that changes the configuration takes the store to the next
    revision, or fails and changes nothing. *)
Definition configuration_op (op : store_op) : bool :=
  match op with OpSeedDefaultSite | OpCreateAdmin _ => false | _ => true end.

Definition next_revision {A} (op : Store -> res A * Store) : Prop := forall db,
  (exists e, op db = (Throw e, db)) \/ (exists a db', op db = (Ok a, db') /\ revision_value db' = revision_value db + 1).

Lemma transaction_next_revision {A} fault (body : Store -> res (A * Store)) :
  (forall db a db', body db = Ok (a, db') -> revision_value db' = revision_value db + 1) ->
  next_revision (transaction fault body).
Proof.
  intros Hb db. unfold transaction. destruct fault; [left; eauto|]. destruct (body db) as [[a db']|e] eqn:E; [|left; eauto].
  right. eauto.
Qed.

Lemma insert_site_revision site db id db' : insert_site site db = Ok (id, db') -> revision_value db' = revision_value db.
Proof. unfold insert_site. destruct (insert_domains _ _); [|done]. by intros [= <- <-]. Qed.
Lemma insert_certificate_revision what c db id db' :
  insert_certificate what c db = Ok (id, db') -> revision_value db' = revision_value db.
Proof. unfold insert_certificate. case_bool_decide; [done|]. case_match; [done|]. by intros [= <- <-]. Qed.

Lemma replace_configuration_revision fault sites certificates s :
  next_revision (replace_configuration fault sites certificates s).
Proof.
  apply transaction_next_revision. intros db [] db' E. cbv beta zeta in E.
  destruct (res_fold _ sites _) as [db1|] eqn:E1; [|done]. cbn [mbind res_bind] in E.
  destruct (res_fold _ certificates _) as [db2|] eqn:E2; [|done]. injection E as <-. cbn. f_equal.
  eapply (res_fold_keeps (fun d => revision_value d = revision_value db)); [| |exact E2].
  - intros c d d' Hd Ei. cbv beta in Ei. destruct (insert_certificate _ _ _) as [[i d1]|] eqn:Ec; [|done].
    injection Ei as <-. by rewrite <-Hd, <-(insert_certificate_revision _ _ _ _ _ Ec).
  - eapply (res_fold_keeps (fun d => revision_value d = revision_value db)); [| |exact E1]; [|done].
    intros c d d' Hd Ei. cbv beta in Ei. destruct (insert_site _ _) as [[i d1]|] eqn:Ec; [|done].
    injection Ei as <-. by rewrite <-Hd, <-(insert_site_revision _ _ _ _ Ec).
Qed.

Lemma perform_next_revision fault op : configuration_op op = true -> next_revision (perform fault op).
Proof.
  assert (Hforget : forall A (f : Store -> res A * Store), next_revision f -> next_revision (fun db => forget (f db))).
  { intros A f Hf db. destruct (Hf db) as [[e E]|(a & db' & E & Hr)]; rewrite E; [left|right]; eexists; cbn; eauto. }
  intros Hop. destruct op; try done; cbn [perform]; first [apply replace_configuration_revision | try apply Hforget;
    apply transaction_next_revision; intros db a db' E; cbv beta zeta in E].
  - destruct (insert_site _ _) as [[i d]|] eqn:Ei; [|done]. injection E as <- <-. cbn. by erewrite insert_site_revision.
  - repeat case_match; try done. destruct (insert_domains _ _); [|done]. by injection E as <- <-.
  - repeat case_match; try done. by injection E as <- <-.
  - destruct (insert_certificate _ _ _) as [[i d]|] eqn:Ei; [|done]. injection E as <- <-. cbn.
    erewrite insert_certificate_revision by done. by destruct (c_is_default certificate).
  - repeat case_match; try done; by injection E as <- <-.
  - repeat case_match; try done. by injection E as <- <-.
  - by injection E as <- <-.
Qed.

(** ** What the configuration service relies on *)

Lemma transaction_ok {A} fault (body : Store -> res (A * Store)) db a db' :
  transaction fault body db = (Ok a, db') -> body db = Ok (a, db').
Proof.
  unfold transaction. destruct fault; [done|]. destruct (body db) as [[x y]|]; [|done]. by intros [= -> ->].
Qed.

Lemma next_site_id_seq db : store_wf db -> next_site_id db = default 0 (site_sequence db) + 1.
Proof.
  intros Hwf. unfold next_site_id. destruct (site_sequence db) as [seq|] eqn:Es; [done|].
  pose proof (sw_site_keys _ Hwf) as [_ Hall]. rewrite Es in *. cbn in *.
  destruct (s_id <$> site_rows db) as [|x l]; [done|]. inversion_clear Hall. lia.
Qed.

(** A created site is the last row, and its key is the one [next_site_id] gave. *)
Lemma create_site_ok fault site db id db' : store_wf db -> create_site fault site db = (Ok id, db') ->
  id = next_site_id db /\ list_sites db' = list_sites db ++ [set_s_id id site] /\
  certificate_rows db' = certificate_rows db /\ runtime_settings db' = runtime_settings db.
Proof.
  intros Hwf E%transaction_ok. destruct (insert_site site db) as [[i db1]|] eqn:Ei; [|done].
  injection E as <- <-. apply insert_site_wf in Ei as (_ & Hi & ->); [|done]. by rewrite next_site_id_seq.
Qed.

Lemma update_site_ok fault site db db' : update_site fault site db = (Ok tt, db') ->
  list_sites db' = ((fun row => if s_id row =? s_id site then site else row) <$> list_sites db) /\
  certificate_rows db' = certificate_rows db /\ runtime_settings db' = runtime_settings db.
Proof.
  intros E%transaction_ok. cbv beta in E. case_match; [done|]. destruct (insert_domains _ _); [|done]. by injection E as <-.
Qed.

Lemma delete_site_ok fault id db db' : delete_site fault id db = (Ok tt, db') ->
  list_sites db' = filter (fun row => s_id row <> id) (list_sites db) /\
  certificate_rows db' = certificate_rows db /\ runtime_settings db' = runtime_settings db.
Proof. intros E%transaction_ok. cbv beta in E. case_match; [done|]. by injection E as <-. Qed.

Lemma insert_certificate_ok what c db id db' : insert_certificate what c db = Ok (id, db') ->
  certificate_rows db' = certificate_rows db ++ [set_c_id id c] /\ list_sites db' = list_sites db /\
  runtime_settings db' = runtime_settings db.
Proof. unfold insert_certificate. case_bool_decide; [done|]. case_match; [done|]. by intros [= <- <-]. Qed.

Lemma create_certificate_ok fault c db id db' : create_certificate fault c db = (Ok id, db') ->
  certificate_rows db' = (if c_is_default c then clear_defaults (certificate_rows db) else certificate_rows db)
                         ++ [set_c_id id c] /\
  list_sites db' = list_sites db /\ runtime_settings db' = runtime_settings db.
Proof.
  intros E%transaction_ok. cbv beta zeta in E. destruct (insert_certificate _ _ _) as [[i db1]|] eqn:Ei; [|done].
  injection E as <- <-. apply insert_certificate_ok in Ei as (Hr & Hs & Hset). cbn. rewrite Hr. by destruct (c_is_default c).
Qed.

Lemma update_certificate_ok fault c db db' : update_certificate fault c db = (Ok tt, db') ->
  certificate_rows db' = ((fun row => if c_id row =? c_id c then c
                                      else if c_is_default c then set_c_is_default false row else row)
                            <$> certificate_rows db) /\
  list_sites db' = list_sites db /\ runtime_settings db' = runtime_settings db.
Proof.
  intros E%transaction_ok. cbv beta zeta in E. case_match; [done|]. case_bool_decide; [done|]. by injection E as <-.
Qed.

Lemma delete_certificate_ok fault id db db' : delete_certificate fault id db = (Ok tt, db') ->
  certificate_rows db' = filter (fun row => c_id row <> id) (certificate_rows db) /\
  list_sites db' = list_sites db /\ runtime_settings db' = runtime_settings db.
Proof. intros E%transaction_ok. cbv beta in E. case_match; [done|]. by injection E as <-. Qed.

Lemma update_settings_ok fault s db db' : update_runtime_settings fault s db = (Ok tt, db') ->
  certificate_rows db' = certificate_rows db /\ list_sites db' = list_sites db /\ runtime_settings db' = s.
Proof. intros E%transaction_ok. by injection E as <-. Qed.

(** [for (auto& site : sites) site.id = next_site_id++]: the keys of restored sites. *)
Definition number_sites (next : Z) (sites : list SiteRecord) : list SiteRecord :=
  imap (fun i site => set_s_id (next + Z.of_nat i) site) sites.
Arguments number_sites : simpl never.

Lemma number_sites_cons next site sites :
  number_sites next (site :: sites) = set_s_id next site :: number_sites (next + 1) sites.
Proof.
  unfold number_sites. cbn. f_equal; [f_equal; lia|]. apply imap_ext. intros i x _. cbn. f_equal. lia.
Qed.

Lemma insert_sites_ok sites db db' : store_wf db ->
  res_fold (fun site db => inserted ← insert_site site db; Ok inserted.2) sites db = Ok db' ->
  list_sites db' = list_sites db ++ number_sites (default 0 (site_sequence db) + 1) sites /\
  certificate_rows db' = certificate_rows db /\ runtime_settings db' = runtime_settings db.
Proof.
  induction sites as [|site sites IH] in db |- *; cbn; intros Hwf E.
  { injection E as <-. split; [|done]. unfold number_sites. cbn. by rewrite app_nil_r. }
  destruct (insert_site site db) as [[id db1]|] eqn:Ei; [|done]. cbn in E.
  apply insert_site_wf in Ei as (Hwf1 & Hid & ->); [|done]. apply IH in E as (-> & -> & ->); [|done]. split; [|done].
  rewrite number_sites_cons. cbn. by rewrite <-app_assoc, Hid.
Qed.

Lemma insert_certificates_ok what cs db db' :
  res_fold (fun c db => inserted ← insert_certificate what c db; Ok inserted.2) cs db = Ok db' ->
  (exists ids, certificate_rows db' = certificate_rows db ++ zip_with set_c_id ids cs /\ length ids = length cs) /\
  list_sites db' = list_sites db /\ runtime_settings db' = runtime_settings db.
Proof.
  induction cs as [|c cs IH] in db |- *; cbn; intros E.
  { injection E as <-. split; [exists []; by rewrite app_nil_r|done]. }
  destruct (insert_certificate what c db) as [[id db1]|] eqn:Ei; [|done]. cbn in E.
  apply insert_certificate_ok in Ei as (Hr & Hs & Hset). apply IH in E as ((ids & Hr' & Hlen) & -> & ->). split; [|done].
  exists (id :: ids). split; [|cbn; by f_equal]. by rewrite Hr', Hr, <-app_assoc.
Qed.

Lemma replace_configuration_ok fault sites cs s db db' : store_wf db ->
  replace_configuration fault sites cs s db = (Ok tt, db') ->
  list_sites db' = number_sites (next_site_id db) sites /\
  (exists ids, certificate_rows db' = zip_with set_c_id ids cs /\ length ids = length cs) /\ runtime_settings db' = s.
Proof.
  intros Hwf E%transaction_ok. rewrite next_site_id_seq by done. cbv beta zeta in E.
  destruct (res_fold _ sites _) as [db1|] eqn:E1; [|done]. cbn [mbind res_bind] in E.
  destruct (res_fold _ cs _) as [db2|] eqn:E2; [|done]. injection E as <-.
  apply insert_sites_ok in E1 as (Hs & Hc & _); [|by apply cleared_wf].
  apply insert_certificates_ok in E2 as ((ids & Hr & Hlen) & Hs' & _). split; [|split; [|done]].
  - change (list_sites db2 = number_sites (default 0 (site_sequence db) + 1) sites). by rewrite Hs', Hs.
  - exists ids. split; [|done]. cbn. by rewrite Hr, Hc.
Qed.

(** The order of [list_certificates] is all it changes. *)
Lemma list_certificates_perm db : list_certificates db ≡ₚ certificate_rows db.
Proof.
  unfold list_certificates. induction (certificate_rows db) as [|c l IH]; [done|]. destruct (c_is_default c) eqn:E.
  - rewrite filter_cons_True, filter_cons_False by congruence. rewrite <-app_comm_cons. by f_equiv.
  - rewrite filter_cons_False, filter_cons_True by congruence. rewrite <-Permutation_middle. by f_equiv.
Qed.

(** C30: The tables stay consistent over every history of operations, failed
    statements included: site and certificate keys are unique, increase and never
    exceed the sequence; no two sites claim the same host name; certificate names
    are unique and at most one certificate is the default. *)
Theorem repository_invariant ops : store_wf (history ops).
Proof. apply history_wf. Qed.

(** Every operation that changes the configuration is atomic and versioned: it
    throws and leaves the database as it was, or it succeeds and the stored
    revision is one more than before. *)
Theorem configuration_change_versioned fault op db : configuration_op op = true ->
  (exists e, perform fault op db = (Throw e, db)) \/
  (exists db', perform fault op db = (Ok tt, db') /\ revision_value db' = revision_value db + 1).
Proof.
  intros Hop. destruct (perform_next_revision fault op Hop db) as [H|([] & db' & H)]; eauto.
Qed.

Lemma configuration_change_versioned_witness :
  let site := default_site b!"a" [b!"a.test"] b!"127.0.0.1" 80 in
  let db := (perform None (OpCreateSite site) migrate).2 in
  ((exists e, perform None (OpCreateSite site) db = (Throw e, db)) \/
   (exists db', perform None (OpCreateSite site) db = (Ok tt, db') /\ revision_value db' = revision_value db + 1)) /\
  exists e, perform None (OpCreateSite site) db = (Throw e, db).
Proof.
  intros site db. split; [by apply (configuration_change_versioned None (OpCreateSite site) db)|].
  eexists. vm_compute. reflexivity.
Defined.

(** ** Upgrading a file *)

(** What no migration touches. *)
Definition site_core (s : SiteRecord) :=
  (s_id s, s_name s, s_enabled s, s_domains s, s_backend_address s, s_backend_port s,
   (s_http_enabled s, s_http_port s, s_https_enabled s, s_https_port s, s_force_https s)).
Definition core (db : Store) :=
  (site_core <$> site_rows db, site_sequence db, revision_value db, default_site_seeded db, admin_rows db).

Lemma map_sites_core f db : (forall s, site_core (f s) = site_core s) -> core (map_sites f db) = core db.
Proof. intros Hf. unfold core. cbn. do 4 f_equal. rewrite <-list_fmap_compose. apply list_fmap_ext. intros i s _. apply Hf. Qed.

Lemma migration_core version db : core (migration version db) = core db.
Proof. do 8 (destruct version as [|version]; [first [done|by apply map_sites_core]|]). done. Qed.

Lemma map_sites_wf f db : (forall s, site_core (f s) = site_core s) -> store_wf db -> store_wf (map_sites f db).
Proof.
  intros Hf []. assert (E : forall s, s_id (f s) = s_id s /\ s_domains (f s) = s_domains s)
    by (intros s; specialize (Hf s); unfold site_core in Hf; by simplify_eq).
  constructor; cbn; try done.
  - rewrite <-list_fmap_compose. rewrite (list_fmap_ext (s_id ∘ f) s_id) by (intros; apply E). done.
  - unfold hostnames. rewrite <-list_fmap_compose. by rewrite (list_fmap_ext (s_domains ∘ f) s_domains) by (intros; apply E).
Qed.

Lemma migration_wf version db : store_wf db -> store_wf (migration version db).
Proof.
  intros Hwf. destruct version as [|[|[|[|[|[|[|[|version]]]]]]]]; try done; try (by apply map_sites_wf).
  - unfold migration. destruct Hwf. constructor; cbn; try done; try (split; constructor); try constructor.
    unfold count_defaults. cbn. lia.
  - destruct Hwf. by constructor.
Qed.

(** Every file between two migrations satisfies what the migrations keep. *)
Lemma apply_migrations_keep (P : Store -> Prop) fault versions file :
  (forall version db, P db -> P (migration version db)) -> P (tables file) ->
  P (tables (apply_migrations fault versions file).2).
Proof.
  intros HP. induction versions as [|v versions IH] in file |- *; cbn; intros Hf; [done|]. unfold apply_migration.
  destruct (v <=? schema_version file)%nat; [by apply IH|]. destruct fault as [[n message]|]; [|by apply IH, HP].
  destruct (n =? v)%nat; [done|by apply IH, HP].
Qed.

Lemma migrate_new_file : migrate_file None {| schema_version := 0; tables := migrate |} = (Ok tt, {| schema_version := 7; tables := migrate |}).
Proof. by vm_compute. Qed.

(** Upgrading a database keeps its data and can be resumed.  Whatever schema
    version a file has and whichever migration fails, the sites with their keys,
    names, domains and ports, the revision and the administrators are kept and the
    tables stay consistent; running [migrate] again after a failure leaves exactly
    what an undisturbed run leaves, and a file of the current version is not
    touched. *)
Theorem migration_keeps_data_and_resumes fault file : store_wf (tables file) ->
  let '(r, file') := migrate_file fault file in
  core (tables file') = core (tables file) /\ store_wf (tables file') /\
  (schema_version file <= schema_version file')%nat /\
  migrate_file None file' = migrate_file None file /\
  ((7 <= schema_version file)%nat -> file' = file /\ r = Ok tt).
Proof.
  intros Hwf. pose proof (apply_migrations_keep (fun db => core db = core (tables file)) fault [1; 2; 3; 4; 5; 6; 7]%nat file) as Hc.
  pose proof (apply_migrations_keep store_wf fault [1; 2; 3; 4; 5; 6; 7]%nat file migration_wf Hwf) as Hw.
  specialize (Hc ltac:(intros v db <-; apply migration_core) eq_refl). unfold migrate_file in *.
  destruct (apply_migrations fault _ file) as [r file'] eqn:E. cbn [snd] in Hc, Hw. split; [done|]. split; [done|].
  destruct file as [version db]. cbn [schema_version].
  clear Hc Hw Hwf. destruct fault as [[n message]|].
  - do 7 (destruct version as [|version]; [do 8 (destruct n as [|n]; [cbn in E; simplify_eq; cbn; split_and!; [lia|done|intros ?; exfalso; lia]|]); cbn in E; simplify_eq; cbn; split_and!; [lia|done|intros ?; exfalso; lia]|]).
    cbn in E. simplify_eq. cbn. split_and!; [lia|done|done].
  - do 7 (destruct version as [|version]; [cbn in E; simplify_eq; cbn; split_and!; [lia|done|intros ?; exfalso; lia]|]).
    cbn in E. simplify_eq. cbn. split_and!; [lia|done|done].
Qed.

Lemma migration_keeps_data_and_resumes_witness :
  let file := {| schema_version := 3; tables := (perform None (OpCreateSite (default_site b!"a" [b!"a.test"] b!"127.0.0.1" 80)) migrate).2 |} in
  let '(r, file') := migrate_file (Some (6%nat, b!"disk full")) file in
  r = Throw (runtime_error b!"disk full") /\ schema_version file' = 5%nat /\
  core (tables file') = core (tables file) /\ migrate_file None file' = migrate_file None file.
Proof.
  intros file. pose proof (migration_keeps_data_and_resumes (Some (6%nat, b!"disk full")) file) as Hm.
  specialize (Hm ltac:(apply perform_keeps, migrate_wf)).
  destruct (migrate_file (Some (6%nat, b!"disk full")) file) as [r file'] eqn:E. destruct Hm as (Hc & _ & _ & Hr & _).
  split_and!; [vm_compute in E; injection E as <- _; reflexivity|vm_compute in E; injection E as _ <-; reflexivity|exact Hc|exact Hr].
Defined.
