(* ===== verification/ConfigService.v ===== *)
(** * Configuration service (src/src/config/ConfigService.{hpp,cpp})

    The service checks what an administrator submits, builds the runtime
    specification it would lead to, has the server prepare it, writes the
    database and commits the preparation.  [Service] holds the members
    [repository_], [active_revision_] and [reload_handler_] and, behind the
    handler, the server: the class [ReloadTarget] names the two halves of a
    reload, preparing and committing, and states what the service relies on.
    Every operation runs under [mutex_], so a call is one step. *)

From S2P Require Import Prelude IpAddress HostNormalizer ClientIpResolver UrlAuthenticator Json RateLimiter.
From S2P Require Import RequestPolicy VirtualHostRouter TlsContextManager RuntimeConfig AuthService ConfigRepository.

Local Notation "'throwing' e" := (Throw (invalid_argument e)) (at level 10).

Definition maximum_configuration_backup_bytes : Z := 16 * 1024 * 1024.

Definition size (s : str) : Z := Z.of_nat (length s).

(** ** Reading the JSON columns *)

Definition checked_u32 (value minimum maximum : Z) (name : str) : res Z :=
  if (value <? minimum) || (maximum <? value)
  then throwing (name ++ b!" must be between " ++ to_string minimum ++ b!" and " ++ to_string maximum)
  else Ok value.

Definition runtime_backend (site : SiteRecord) : BackendConfig :=
  {| be_address := s_backend_address site; be_port := s_backend_port site;
     be_protocol := if bool_decide (s_backend_protocol site = b!"https") then backend_https else backend_http;
     be_host := s_backend_host site; be_tls_sni := s_backend_tls_sni site;
     be_tls_verify_certificate := s_backend_tls_verify_certificate site;
     be_connect_timeout_seconds := s_backend_connect_timeout_seconds site;
     be_response_timeout_seconds := s_backend_response_timeout_seconds site;
     be_keep_alive := s_backend_keep_alive site |}.

Definition parse_acl_field (value : str) : res AclField :=
  if bool_decide (value = b!"ip") then Ok field_ip
  else if bool_decide (value = b!"uri") then Ok field_uri
  else if bool_decide (value = b!"host") then Ok field_host
  else if bool_decide (value = b!"method") then Ok field_method
  else if bool_decide (value = b!"user_agent") then Ok field_user_agent
  else if bool_decide (value = b!"referer") then Ok field_referer
  else if bool_decide (value = b!"header") then Ok field_header
  else throwing (b!"unsupported ACL field: " ++ value).

Definition parse_match_operator (value : str) : res MatchOperator :=
  if bool_decide (value = b!"equal") then Ok op_equal
  else if bool_decide (value = b!"not_equal") then Ok op_not_equal
  else if bool_decide (value = b!"contains") then Ok op_contains
  else if bool_decide (value = b!"not_contains") then Ok op_not_contains
  else if bool_decide (value = b!"starts_with") then Ok op_starts_with
  else if bool_decide (value = b!"ends_with") then Ok op_ends_with
  else if bool_decide (value = b!"regex") then Ok op_regex
  else if bool_decide (value = b!"in_cidr") then Ok op_in_cidr
  else if bool_decide (value = b!"not_in_cidr") then Ok op_not_in_cidr
  else throwing (b!"unsupported ACL operator: " ++ value).

Definition parse_acl_action (value : str) : res AclAction :=
  if bool_decide (value = b!"allow") then Ok acl_allow
  else if bool_decide (value = b!"deny") then Ok acl_deny
  else if bool_decide (value = b!"redirect") then Ok acl_redirect
  else if bool_decide (value = b!"return") then Ok acl_return_status
  else throwing (b!"unsupported ACL action: " ++ value).

(** [source.at(key).get<T>()]. *)
Definition at_get {A} (get : json -> res A) (key : str) (source : json) : res A := v ← j_at key source; get v.

Definition parse_acl_condition (source : json) : res AclConditionSpec :=
  field ← at_get get_string b!"field" source;
  field ← parse_acl_field field;
  operation ← at_get get_string b!"operator" source;
  operation ← parse_match_operator operation;
  value ← at_get get_string b!"value" source;
  header_name ← j_value get_string b!"header_name" [] source;
  case_sensitive ← j_value get_bool b!"case_sensitive" false source;
  Ok {| cond_field := field; cond_operation := operation; cond_value := value;
        cond_header_name := header_name; cond_case_sensitive := case_sensitive |}.

Definition parse_acl_rule (item : json) : res AclRuleSpec :=
  name ← at_get get_string b!"name" item;
  enabled ← j_value get_bool b!"enabled" true item;
  conditions ← (if j_contains b!"conditions" item
                then conditions ← j_at b!"conditions" item; res_map parse_acl_condition (elements conditions)
                else condition ← parse_acl_condition item; Ok [condition]);
  action ← j_value get_string b!"action" b!"deny" item;
  action ← parse_acl_action action;
  status ← j_value get_u32 b!"status" (if bool_decide (action = acl_redirect) then 302 else 403) item;
  redirect_location ← j_value get_string b!"redirect_location" [] item;
  Ok {| rule_name := name; rule_enabled := enabled; rule_conditions := conditions; rule_action := action;
        rule_status := status; rule_redirect_location := redirect_location |}.

Definition parse_redirect_rule (item : json) : res RedirectRuleSpec :=
  name ← at_get get_string b!"name" item;
  enabled ← j_value get_bool b!"enabled" true item;
  source_host ← j_value get_string b!"source_host" [] item;
  source_path ← j_value get_string b!"source_path" b!"/" item;
  text ← j_value get_string b!"match" b!"exact" item;
  kind ← (if bool_decide (text = b!"exact") then Ok redirect_exact
          else if bool_decide (text = b!"prefix") then Ok redirect_prefix
          else throwing b!"redirect match must be exact or prefix");
  destination ← at_get get_string b!"destination" item;
  status ← j_value get_u32 b!"status" 301 item;
  preserve_path ← j_value get_bool b!"preserve_path" false item;
  preserve_query ← j_value get_bool b!"preserve_query" true item;
  Ok {| red_name := name; red_enabled := enabled; source_host := source_host; source_path := source_path;
        red_match := kind; destination := destination; red_status := status;
        preserve_path := preserve_path; preserve_query := preserve_query |}.

Definition parse_protected_uri (item : json) : res UrlAuthUriSpec :=
  path ← at_get get_string b!"path" item;
  text ← j_value get_string b!"match" b!"exact" item;
  kind ← (if bool_decide (text = b!"exact") then Ok auth_exact
          else if bool_decide (text = b!"prefix") then Ok auth_prefix
          else throwing b!"URL authentication URI match must be exact or prefix");
  Ok {| uri_path := path; uri_match := kind |}.

(** What the parsers do with the value the text stands for. *)
Definition read_acl_rules (source : json) : res (list AclRuleSpec) :=
  if negb (is_array source) then throwing b!"ACL rules must be a JSON array"
  else res_map parse_acl_rule (elements source).

Definition read_redirect_rules (source : json) : res (list RedirectRuleSpec) :=
  if negb (is_array source) then throwing b!"redirect rules must be a JSON array"
  else res_map parse_redirect_rule (elements source).

Definition read_url_auth (source : json) : res UrlAuthSpec :=
  if negb (is_object source) then throwing b!"URL authentication configuration must be a JSON object" else
  enabled ← j_value get_bool b!"enabled" false source;
  text ← j_value get_string b!"scope" b!"all" source;
  scope ← (if bool_decide (text = b!"all") then Ok scope_all
           else if bool_decide (text = b!"specified") then Ok scope_specified
           else throwing b!"URL authentication scope must be all or specified");
  primary_key ← j_value get_string b!"primary_key" [] source;
  backup_key ← j_value get_string b!"backup_key" [] source;
  validity ← j_value get_i64 b!"validity_seconds" 1800 source;
  _ ← throw_if ((validity <? 0) || (2 ^ 32 - 1 <? validity))
        (invalid_argument b!"URL authentication validity is out of range");
  protected_uris ← j_value get_json b!"protected_uris" (JArray []) source;
  _ ← throw_if (negb (is_array protected_uris))
        (invalid_argument b!"URL authentication protected URIs must be an array");
  _ ← throw_if (200 <? length (elements protected_uris))%nat
        (invalid_argument b!"URL authentication cannot contain more than 200 protected URI rules");
  rules ← res_map parse_protected_uri (elements protected_uris);
  Ok {| ua_enabled := enabled; ua_scope := scope; primary_key := primary_key; backup_key := backup_key;
        validity_seconds := validity; protected_uris := rules |}.

Definition read_string_array (name : str) (maximum : nat) (source : json) : res (list str) :=
  if negb (is_array source) || (maximum <? length (elements source))%nat
  then throwing (name ++ b!" must be a JSON array with at most " ++ to_string (Z.of_nat maximum) ++ b!" entries")
  else get_strings source.

Section Validation.
Context `{JsonText} `{AddressText} `{Regex} `{OpenSsl}.

Definition parse_acl_rules (encoded : str) : res (list AclRuleSpec) := source ← parse encoded; read_acl_rules source.
Definition parse_redirect_rules (encoded : str) : res (list RedirectRuleSpec) :=
  source ← parse encoded; read_redirect_rules source.
Definition parse_url_auth (encoded : str) : res UrlAuthSpec := source ← parse encoded; read_url_auth source.
Definition parse_string_array (encoded name : str) (maximum : nat) : res (list str) :=
  source ← parse encoded; read_string_array name maximum source.

Definition canonicalize_json (site : SiteRecord) : res SiteRecord :=
  acl ← parse (s_acl_rules_json site);
  redirects ← parse (s_redirect_rules_json site);
  extensions ← parse (s_hotlink_extensions_json site);
  allowed_hosts ← parse (s_hotlink_allowed_hosts_json site);
  url_auth ← parse (s_url_auth_json site);
  if negb (is_array acl) || negb (is_array redirects) || negb (is_array extensions) ||
     negb (is_array allowed_hosts) || negb (is_object url_auth)
  then throwing b!"site policy JSON values have invalid types" else
  acl ← dump acl;
  redirects ← dump redirects;
  extensions ← dump extensions;
  allowed_hosts ← dump allowed_hosts;
  url_auth ← dump url_auth;
  Ok (set_s_url_auth_json url_auth (set_s_hotlink_allowed_hosts_json allowed_hosts
       (set_s_hotlink_extensions_json extensions (set_s_redirect_rules_json redirects
         (set_s_acl_rules_json acl site))))).

(** ** Sites *)

Definition runtime_policy (site : SiteRecord) : res SitePolicySpec :=
  acl_rules ← parse_acl_rules (s_acl_rules_json site);
  window_seconds ← checked_u32 (s_rate_limit_window_seconds site) 1 3600 b!"rate limit window";
  max_requests ← checked_u32 (s_rate_limit_max_requests site) 1 1000000 b!"rate limit maximum";
  ban_seconds ← checked_u32 (s_rate_limit_ban_seconds site) 0 86400 b!"rate limit ban";
  extensions ← parse_string_array (s_hotlink_extensions_json site) b!"hotlink extensions" 50;
  allowed ← parse_string_array (s_hotlink_allowed_hosts_json site) b!"hotlink allowed hosts" 100;
  redirects ← parse_redirect_rules (s_redirect_rules_json site);
  Ok {| force_https := s_force_https site; https_port := s_https_port site; acl_rules := acl_rules;
        rate_limit := {| rl_enabled := s_rate_limit_enabled site; window_seconds := window_seconds;
                         max_requests := max_requests; ban_seconds := ban_seconds |};
        hotlink := {| hotlink_enabled := s_hotlink_enabled site; protected_extensions := extensions;
                      allowed_hosts := allowed; allow_empty_referer := s_hotlink_allow_empty_referer site;
                      hotlink_redirect_location := s_hotlink_redirect_location site |};
        redirects := redirects |}.

Definition runtime_url_auth (site : SiteRecord) : res UrlAuthSpec := parse_url_auth (s_url_auth_json site).

(** One domain of a site: [normalized_domains] so far and the next pattern. *)
Definition normalize_site_domain (pattern : str) (normalized_domains : list str) : res (list str) :=
  let wildcard := starts_with b!"*." pattern in
  match normalize_domain (if wildcard then drop 2 pattern else pattern) with
  | None => throwing (b!"invalid site domain: " ++ pattern)
  | Some domain =>
      if wildcard && negb (contains_char "." domain)
      then throwing (b!"wildcard domain is too broad: " ++ pattern)
      else
        let normalized := if wildcard then b!"*." ++ domain else domain in
        if bool_decide (normalized ∈ normalized_domains)
        then throwing (b!"duplicate site domain: " ++ normalized)
        else Ok (normalized_domains ++ [normalized])
  end.

(** The checks on the site's own members. *)
Definition check_members (site : SiteRecord) : res unit :=
  _ ← throw_if (bool_decide (s_name site = []) || (128 <? size (s_name site)))
        (invalid_argument b!"site name must contain 1 to 128 characters");
  _ ← throw_if (bool_decide (s_domains site = []) || (50 <? length (s_domains site))%nat)
        (invalid_argument b!"site must contain 1 to 50 domains");
  _ ← throw_if (s_backend_port site =? 0) (invalid_argument b!"backend port must be between 1 and 65535");
  _ ← throw_if (s_http_enabled site && (s_http_port site =? 0))
        (invalid_argument b!"HTTP port must be between 1 and 65535");
  _ ← throw_if (s_https_enabled site && (s_https_port site =? 0))
        (invalid_argument b!"HTTPS port must be between 1 and 65535");
  _ ← throw_if (negb (s_http_enabled site) && negb (s_https_enabled site))
        (invalid_argument b!"at least one listener must be enabled");
  _ ← throw_if (s_force_https site && negb (s_https_enabled site))
        (invalid_argument b!"HTTPS must be enabled before forcing HTTPS");
  _ ← checked_u32 (s_backend_max_active_connections site) 1 100000 b!"backend maximum active connections";
  _ ← checked_u32 (s_backend_max_queue site) 0 1000000 b!"backend maximum queue";
  _ ← checked_u32 (s_backend_queue_timeout_seconds site) 1 86400 b!"backend queue timeout";
  _ ← checked_u32 (s_backend_connect_timeout_seconds site) 1 86400 b!"backend connect timeout";
  _ ← checked_u32 (s_backend_response_timeout_seconds site) 1 86400 b!"backend response timeout";
  Ok tt.

(** The backend's protocol, address, Host and SNI. *)
Definition normalize_protocol (site : SiteRecord) : res SiteRecord :=
  let site := set_s_backend_protocol (ascii_lower (s_backend_protocol site)) site in
  if negb (bool_decide (s_backend_protocol site = b!"http")) && negb (bool_decide (s_backend_protocol site = b!"https"))
  then throwing b!"backend protocol must be http or https"
  else Ok site.

Definition normalize_address (site : SiteRecord) : res SiteRecord :=
  match make_address (s_backend_address site) with
  | Some _ => Ok site
  | None =>
      match normalize_domain (s_backend_address site) with
      | None => throwing b!"backend address must be an IP address or DNS hostname"
      | Some normalized => Ok (set_s_backend_address normalized site)
      end
  end.

Definition check_backend_host (site : SiteRecord) : res unit :=
  throw_if (negb (bool_decide (s_backend_host site = [])) &&
            bool_decide (normalize_authority (s_backend_host site) = None))
    (invalid_argument b!"invalid backend Host").

Definition normalize_sni (site : SiteRecord) : res SiteRecord :=
  site ← (if bool_decide (s_backend_tls_sni site = []) then Ok site
          else match normalize_domain (s_backend_tls_sni site) with
               | None => throwing b!"invalid backend TLS SNI"
               | Some normalized => Ok (set_s_backend_tls_sni normalized site)
               end);
  _ ← throw_if (bool_decide (s_backend_protocol site = b!"http") && negb (bool_decide (s_backend_tls_sni site = [])))
        (invalid_argument b!"backend TLS SNI requires HTTPS protocol");
  Ok site.

(** The policy, inside the try block. *)
Definition check_policy (site : SiteRecord) : res SiteRecord :=
  site ← canonicalize_json site;
  parsed_policy ← runtime_policy site;
  _ ← RequestPolicy parsed_policy (s_domains site);
  url_auth ← runtime_url_auth site;
  _ ← UrlAuthenticator url_auth;
  Ok site.

Definition catch_json {A} (r : res A) : res A :=
  match r with Throw json_exception => throwing b!"site policy contains invalid JSON" | _ => r end.

Definition validate_and_normalize (site : SiteRecord) : res SiteRecord :=
  _ ← check_members site;
  site ← normalize_protocol site;
  site ← normalize_address site;
  _ ← check_backend_host site;
  site ← normalize_sni site;
  domains ← res_fold normalize_site_domain (s_domains site) [];
  catch_json (check_policy (set_s_domains domains site)).

(** ** Certificates and settings *)

Definition normalize_certificate_domain (pattern : str) (normalized_domains : list str) : res (list str) :=
  let wildcard := starts_with b!"*." pattern in
  match normalize_domain (if wildcard then drop 2 pattern else pattern) with
  | None => throwing (b!"invalid TLS certificate domain: " ++ pattern)
  | Some domain =>
      let normalized := if wildcard then b!"*." ++ domain else domain in
      if bool_decide (normalized ∈ normalized_domains)
      then throwing (b!"duplicate TLS certificate domain: " ++ normalized)
      else Ok (normalized_domains ++ [normalized])
  end.

Definition tls_config (is_default : bool) (certificate : CertificateRecord) : TlsCertificateConfig :=
  {| tc_name := c_name certificate; tc_domains := c_domains certificate; tc_certificate_chain_file := [];
     tc_private_key_file := []; tc_is_default := is_default;
     tc_certificate_chain_pem := c_certificate_pem certificate;
     tc_private_key_pem := c_private_key_pem certificate |}.

Definition validate_and_normalize_certificate (certificate : CertificateRecord) : res CertificateRecord :=
  _ ← throw_if (bool_decide (c_name certificate = []) || (128 <? size (c_name certificate)))
        (invalid_argument b!"TLS certificate name must contain 1 to 128 characters");
  _ ← throw_if ((1024 * 1024 <? size (c_certificate_pem certificate)) ||
                (1024 * 1024 <? size (c_private_key_pem certificate)))
        (invalid_argument b!"TLS certificate and private key must each be at most 1 MiB");
  domains ← res_fold normalize_certificate_domain (c_domains certificate) [];
  let certificate := set_c_domains domains certificate in
  _ ← TlsContextManager [tls_config true certificate] true;
  Ok certificate.

Definition header_name_ok (name : str) : bool :=
  negb (bool_decide (name = [])) && (size name <=? 128) &&
  forallb (fun c => isalnum c || is_char c "-" || is_char c "_") name.

Definition check_header_name (name : str) (header_names : gset str) : res (gset str) :=
  if negb (header_name_ok name) then throwing (b!"invalid real IP header name: " ++ name)
  else if bool_decide (ascii_lower name ∈ header_names)
  then throwing (b!"duplicate real IP header name: " ++ name)
  else Ok ({[ascii_lower name]} ∪ header_names).

Definition validate_timeout (value : Z) (name : str) : res unit :=
  throw_if ((value <? 1) || (86400 <? value)) (invalid_argument (name ++ b!" must be between 1 and 86400 seconds")).

Definition validate_runtime_settings (s : RuntimeSettingsRecord) : res unit :=
  _ ← throw_if (512 <? length (trusted_proxy_cidrs s))%nat
        (invalid_argument b!"at most 512 trusted proxy CIDRs are allowed");
  _ ← parse_ranges (trusted_proxy_cidrs s);
  _ ← throw_if ((max_upload_bytes s =? 0) || (16 * 1024 * 1024 * 1024 <? max_upload_bytes s))
        (invalid_argument b!"maximum upload size must be between 1 byte and 16 GiB");
  _ ← throw_if (1024 <? backend_pool_size s)
        (invalid_argument b!"backend connection pool size cannot exceed 1024");
  _ ← throw_if (bool_decide (real_ip_headers s = []) || (32 <? length (real_ip_headers s))%nat)
        (invalid_argument b!"real IP header priority must contain 1 to 32 entries");
  _ ← res_fold check_header_name (real_ip_headers s) ∅;
  _ ← validate_timeout (client_header_timeout_seconds s) b!"client header timeout";
  _ ← validate_timeout (client_body_timeout_seconds s) b!"client body timeout";
  _ ← validate_timeout (client_write_timeout_seconds s) b!"client write timeout";
  _ ← validate_timeout (backend_connect_timeout_seconds s) b!"backend connect timeout";
  _ ← validate_timeout (backend_response_timeout_seconds s) b!"backend response timeout";
  _ ← validate_timeout (backend_idle_timeout_seconds s) b!"backend idle timeout";
  validate_timeout (backend_idle_connection_ttl_seconds s) b!"backend idle connection TTL".

(** ** The runtime specification *)

(** The runtime form of a site that was validated. *)
Definition runtime_site (site : SiteRecord) : res RuntimeSiteConfig :=
  policy ← runtime_policy site;
  url_auth ← runtime_url_auth site;
  Ok {| rs_virtual_host :=
          {| vc_name := s_name site; vc_domains := s_domains site; vc_backend := runtime_backend site;
             vc_policy := policy;
             vc_overload := {| ov_site_id := s_id site; ov_site_name := s_name site;
                               ov_maximum_active_connections := s_backend_max_active_connections site;
                               ov_maximum_queue := s_backend_max_queue site;
                               ov_queue_timeout_seconds := s_backend_queue_timeout_seconds site |};
             vc_url_auth := url_auth |};
        rs_http_enabled := s_http_enabled site; rs_http_port := s_http_port site;
        rs_https_enabled := s_https_enabled site; rs_https_port := s_https_port site |}.

(** One iteration of the loops of [build_runtime_spec] and
    [load_runtime_site_configs_locked]. *)
Definition load_site (site : SiteRecord) (runtime_sites : list RuntimeSiteConfig) : res (list RuntimeSiteConfig) :=
  site ← validate_and_normalize site;
  if negb (s_enabled site) then Ok runtime_sites
  else runtime ← runtime_site site; Ok (runtime_sites ++ [runtime]).

Definition load_runtime_site_configs_locked (db : Store) : res (list RuntimeSiteConfig) :=
  res_fold load_site (list_sites db) [].

(** The settings are copied member by member into a record of the same members. *)
Definition build_runtime_spec (sites : list SiteRecord) (certificates : list CertificateRecord)
    (stored_settings : RuntimeSettingsRecord) (revision : Z) : res RuntimeConfigSpec :=
  sites ← res_fold load_site sites [];
  let certificates := filter (fun c => c_enabled c = true) certificates in
  _ ← validate_runtime_settings stored_settings;
  Ok {| spec_revision := revision; spec_sites := sites;
        spec_tls_certificates := (fun c => tls_config (c_is_default c) c) <$> certificates;
        spec_reject_unknown_sni := true; spec_settings := stored_settings |}.

Definition build_runtime_spec_locked (db : Store) (revision : Z) : res RuntimeConfigSpec :=
  build_runtime_spec (list_sites db) (list_certificates db) (runtime_settings db) revision.

End Validation.

(** ** Backups *)

(** [json{{key, value}, ...}]. *)
Definition j_object (members : list (str * json)) : json := JObject (list_to_map members).
Definition j_strings (l : list str) : json := JArray (JString <$> l).

Section Backup.
Context `{JsonText} `{AddressText} `{Regex} `{OpenSsl}.

Definition export_site (site : SiteRecord) : res json :=
  url_auth ← parse (s_url_auth_json site);
  acl_rules ← parse (s_acl_rules_json site);
  hotlink_extensions ← parse (s_hotlink_extensions_json site);
  hotlink_allowed_hosts ← parse (s_hotlink_allowed_hosts_json site);
  redirect_rules ← parse (s_redirect_rules_json site);
  Ok (j_object [
    (b!"name", JString (s_name site));
    (b!"enabled", JBool (s_enabled site));
    (b!"domains", j_strings (s_domains site));
    (b!"backend_address", JString (s_backend_address site));
    (b!"backend_port", JInt (s_backend_port site));
    (b!"backend_protocol", JString (s_backend_protocol site));
    (b!"backend_host", JString (s_backend_host site));
    (b!"backend_tls_sni", JString (s_backend_tls_sni site));
    (b!"backend_tls_verify_certificate", JBool (s_backend_tls_verify_certificate site));
    (b!"backend_connect_timeout_seconds", JInt (s_backend_connect_timeout_seconds site));
    (b!"backend_response_timeout_seconds", JInt (s_backend_response_timeout_seconds site));
    (b!"backend_keep_alive", JBool (s_backend_keep_alive site));
    (b!"url_auth", url_auth);
    (b!"http_enabled", JBool (s_http_enabled site));
    (b!"http_port", JInt (s_http_port site));
    (b!"https_enabled", JBool (s_https_enabled site));
    (b!"https_port", JInt (s_https_port site));
    (b!"force_https", JBool (s_force_https site));
    (b!"acl_rules", acl_rules);
    (b!"rate_limit_enabled", JBool (s_rate_limit_enabled site));
    (b!"rate_limit_window_seconds", JInt (s_rate_limit_window_seconds site));
    (b!"rate_limit_max_requests", JInt (s_rate_limit_max_requests site));
    (b!"rate_limit_ban_seconds", JInt (s_rate_limit_ban_seconds site));
    (b!"hotlink_enabled", JBool (s_hotlink_enabled site));
    (b!"hotlink_extensions", hotlink_extensions);
    (b!"hotlink_allowed_hosts", hotlink_allowed_hosts);
    (b!"hotlink_allow_empty_referer", JBool (s_hotlink_allow_empty_referer site));
    (b!"hotlink_redirect_location", JString (s_hotlink_redirect_location site));
    (b!"redirect_rules", redirect_rules);
    (b!"backend_max_active_connections", JInt (s_backend_max_active_connections site));
    (b!"backend_max_queue", JInt (s_backend_max_queue site));
    (b!"backend_queue_timeout_seconds", JInt (s_backend_queue_timeout_seconds site))]).

Definition export_certificate (certificate : CertificateRecord) : json :=
  j_object [
    (b!"name", JString (c_name certificate));
    (b!"enabled", JBool (c_enabled certificate));
    (b!"is_default", JBool (c_is_default certificate));
    (b!"domains", j_strings (c_domains certificate));
    (b!"certificate_pem", JString (c_certificate_pem certificate));
    (b!"private_key_pem", JString (c_private_key_pem certificate))].

Definition export_settings (s : RuntimeSettingsRecord) : json :=
  j_object [
    (b!"trusted_proxy_cidrs", j_strings (trusted_proxy_cidrs s));
    (b!"real_ip_headers", j_strings (real_ip_headers s));
    (b!"max_upload_bytes", JInt (max_upload_bytes s));
    (b!"backend_keep_alive", JBool (backend_keep_alive s));
    (b!"backend_pool_size", JInt (backend_pool_size s));
    (b!"client_header_timeout_seconds", JInt (client_header_timeout_seconds s));
    (b!"client_body_timeout_seconds", JInt (client_body_timeout_seconds s));
    (b!"client_write_timeout_seconds", JInt (client_write_timeout_seconds s));
    (b!"backend_connect_timeout_seconds", JInt (backend_connect_timeout_seconds s));
    (b!"backend_response_timeout_seconds", JInt (backend_response_timeout_seconds s));
    (b!"backend_idle_timeout_seconds", JInt (backend_idle_timeout_seconds s));
    (b!"backend_idle_connection_ttl_seconds", JInt (backend_idle_connection_ttl_seconds s))].

Definition export_document (exported_at : Z) (db : Store) : res json :=
  site_items ← res_map export_site (list_sites db);
  Ok (j_object [
    (b!"format", JString b!"webserver-config-backup");
    (b!"version", JInt 1);
    (b!"exported_at_unix", JInt exported_at);
    (b!"config_revision", JInt (config_revision db));
    (b!"sites", JArray site_items);
    (b!"certificates", JArray (export_certificate <$> list_certificates db));
    (b!"settings", export_settings (runtime_settings db))]).

Definition export_configuration (exported_at : Z) (db : Store) : res str :=
  document ← export_document exported_at db;
  encoded ← dump2 document;
  _ ← throw_if (maximum_configuration_backup_bytes <? size encoded)
        (runtime_error b!"configuration backup exceeds the 16 MiB import limit");
  Ok encoded.

Definition backup_u32 (item : json) (key : str) (fallback : Z) : res Z :=
  if negb (j_contains key item) then Ok fallback else
  value ← at_get get_i64 key item;
  _ ← throw_if ((value <? 0) || (2 ^ 32 - 1 <? value))
        (invalid_argument (b!"configuration backup numeric value is out of range: " ++ key));
  Ok value.

Definition backup_port (item : json) (key : str) (fallback : Z) : res Z :=
  value ← backup_u32 item key fallback;
  _ ← throw_if ((value =? 0) || (2 ^ 16 - 1 <? value))
        (invalid_argument (b!"configuration backup port is out of range: " ++ key));
  Ok value.

(** [item.value(key, fallback).dump()]. *)
Definition value_dump (item : json) (key : str) (fallback : json) : res str := v ← j_value get_json key fallback item; dump v.

Definition default_url_auth_json : json := j_object [
  (b!"enabled", JBool false); (b!"scope", JString b!"all"); (b!"primary_key", JString []); (b!"backup_key", JString []);
  (b!"validity_seconds", JInt 1800); (b!"protected_uris", JArray [])].
Definition default_extensions_json : json :=
  j_strings [b!"jpg"; b!"jpeg"; b!"png"; b!"gif"; b!"webp"; b!"mp4"; b!"zip"].

Definition read_site (item : json) : res SiteRecord :=
  if negb (is_object item) then throwing b!"configuration backup site entries must be objects" else
  name ← at_get get_string b!"name" item;
  enabled ← j_value get_bool b!"enabled" true item;
  domains ← at_get get_strings b!"domains" item;
  backend_address ← at_get get_string b!"backend_address" item;
  backend_port ← backup_port item b!"backend_port" 0;
  backend_protocol ← j_value get_string b!"backend_protocol" b!"http" item;
  backend_host ← j_value get_string b!"backend_host" [] item;
  backend_tls_sni ← j_value get_string b!"backend_tls_sni" [] item;
  verify ← j_value get_bool b!"backend_tls_verify_certificate" true item;
  connect_timeout ← backup_u32 item b!"backend_connect_timeout_seconds" 5;
  response_timeout ← backup_u32 item b!"backend_response_timeout_seconds" 60;
  keep_alive ← j_value get_bool b!"backend_keep_alive" true item;
  url_auth ← value_dump item b!"url_auth" default_url_auth_json;
  http_enabled ← j_value get_bool b!"http_enabled" true item;
  http_port ← backup_port item b!"http_port" 80;
  https_enabled ← j_value get_bool b!"https_enabled" false item;
  https_port ← backup_port item b!"https_port" 443;
  force ← j_value get_bool b!"force_https" false item;
  acl ← value_dump item b!"acl_rules" (JArray []);
  rate_enabled ← j_value get_bool b!"rate_limit_enabled" false item;
  rate_window ← backup_u32 item b!"rate_limit_window_seconds" 10;
  rate_max ← backup_u32 item b!"rate_limit_max_requests" 100;
  rate_ban ← backup_u32 item b!"rate_limit_ban_seconds" 60;
  hot_enabled ← j_value get_bool b!"hotlink_enabled" false item;
  hot_extensions ← value_dump item b!"hotlink_extensions" default_extensions_json;
  hot_hosts ← value_dump item b!"hotlink_allowed_hosts" (JArray []);
  hot_empty ← j_value get_bool b!"hotlink_allow_empty_referer" true item;
  hot_location ← j_value get_string b!"hotlink_redirect_location" [] item;
  redirect_rules ← value_dump item b!"redirect_rules" (JArray []);
  max_active ← backup_u32 item b!"backend_max_active_connections" 200;
  max_queue ← backup_u32 item b!"backend_max_queue" 1000;
  queue_timeout ← backup_u32 item b!"backend_queue_timeout_seconds" 5;
  Ok {| s_id := 0; s_name := name; s_enabled := enabled; s_domains := domains; s_backend_address := backend_address;
        s_backend_port := backend_port; s_backend_protocol := backend_protocol; s_backend_host := backend_host;
        s_backend_tls_sni := backend_tls_sni; s_backend_tls_verify_certificate := verify;
        s_backend_connect_timeout_seconds := connect_timeout; s_backend_response_timeout_seconds := response_timeout;
        s_backend_keep_alive := keep_alive; s_url_auth_json := url_auth; s_http_enabled := http_enabled;
        s_http_port := http_port; s_https_enabled := https_enabled; s_https_port := https_port; s_force_https := force;
        s_acl_rules_json := acl; s_rate_limit_enabled := rate_enabled; s_rate_limit_window_seconds := rate_window;
        s_rate_limit_max_requests := rate_max; s_rate_limit_ban_seconds := rate_ban; s_hotlink_enabled := hot_enabled;
        s_hotlink_extensions_json := hot_extensions; s_hotlink_allowed_hosts_json := hot_hosts;
        s_hotlink_allow_empty_referer := hot_empty; s_hotlink_redirect_location := hot_location;
        s_redirect_rules_json := redirect_rules; s_backend_max_active_connections := max_active;
        s_backend_max_queue := max_queue; s_backend_queue_timeout_seconds := queue_timeout |}.

(** One site of the backup: the sites and [global_domains] so far. *)
Definition import_site (item : json) (acc : list SiteRecord * list str) : res (list SiteRecord * list str) :=
  site ← read_site item;
  site ← validate_and_normalize site;
  global_domains ← res_fold (fun domain global_domains =>
    if bool_decide (domain ∈ global_domains)
    then throwing (b!"duplicate site domain in configuration backup: " ++ domain)
    else Ok (global_domains ++ [domain])) (s_domains site) acc.2;
  Ok (acc.1 ++ [site], global_domains).

(** One certificate: the certificates so far, their names and how many are the
    default. *)
Definition import_certificate (item : json) (acc : list CertificateRecord * nat) : res (list CertificateRecord * nat) :=
  if negb (is_object item) then throwing b!"configuration backup certificate entries must be objects" else
  name ← at_get get_string b!"name" item;
  enabled ← j_value get_bool b!"enabled" true item;
  is_default ← j_value get_bool b!"is_default" false item;
  let default_certificate_count := (acc.2 + Nat.b2n is_default)%nat in
  _ ← throw_if (is_default && (1 <? default_certificate_count)%nat)
        (invalid_argument b!"configuration backup contains multiple default TLS certificates");
  domains ← at_get get_strings b!"domains" item;
  certificate_pem ← at_get get_string b!"certificate_pem" item;
  private_key_pem ← at_get get_string b!"private_key_pem" item;
  certificate ← validate_and_normalize_certificate
    {| c_id := 0; c_name := name; c_enabled := enabled; c_is_default := is_default; c_domains := domains;
       c_certificate_pem := certificate_pem; c_private_key_pem := private_key_pem |};
  _ ← throw_if (bool_decide (c_name certificate ∈ (c_name <$> acc.1)))
        (invalid_argument (b!"duplicate TLS certificate name: " ++ c_name certificate));
  Ok (acc.1 ++ [certificate], default_certificate_count).

Definition import_settings (item : json) : res RuntimeSettingsRecord :=
  if negb (is_object item) then throwing b!"configuration backup settings must be an object" else
  cidrs ← j_value get_strings b!"trusted_proxy_cidrs" [] item;
  headers ← j_value get_strings b!"real_ip_headers"
    [b!"EO-Connecting-IP"; b!"CF-Connecting-IP"; b!"True-Client-IP"; b!"X-Forwarded-For"] item;
  upload ← j_value get_u64 b!"max_upload_bytes" (64 * 1024 * 1024) item;
  keep_alive ← j_value get_bool b!"backend_keep_alive" true item;
  pool_size ← backup_u32 item b!"backend_pool_size" 32;
  header_timeout ← backup_u32 item b!"client_header_timeout_seconds" 15;
  body_timeout ← backup_u32 item b!"client_body_timeout_seconds" 120;
  write_timeout ← backup_u32 item b!"client_write_timeout_seconds" 60;
  connect_timeout ← backup_u32 item b!"backend_connect_timeout_seconds" 5;
  response_timeout ← backup_u32 item b!"backend_response_timeout_seconds" 60;
  idle_timeout ← backup_u32 item b!"backend_idle_timeout_seconds" 60;
  idle_ttl ← backup_u32 item b!"backend_idle_connection_ttl_seconds" 60;
  let settings :=
    {| trusted_proxy_cidrs := cidrs; real_ip_headers := headers; max_upload_bytes := upload;
       backend_keep_alive := keep_alive; backend_pool_size := pool_size;
       client_header_timeout_seconds := header_timeout; client_body_timeout_seconds := body_timeout;
       client_write_timeout_seconds := write_timeout; backend_connect_timeout_seconds := connect_timeout;
       backend_response_timeout_seconds := response_timeout; backend_idle_timeout_seconds := idle_timeout;
       backend_idle_connection_ttl_seconds := idle_ttl |} in
  _ ← validate_runtime_settings settings;
  Ok settings.

(** [import_configuration] up to the lock: the sites, certificates and settings. *)
Definition decode_document (source : json) : res (list SiteRecord * list CertificateRecord * RuntimeSettingsRecord) :=
  let unsupported := invalid_argument b!"unsupported configuration backup format or version" in
  _ ← throw_if (negb (is_object source)) unsupported;
  format ← j_value get_string b!"format" [] source;
  _ ← throw_if (negb (bool_decide (format = b!"webserver-config-backup"))) unsupported;
  version ← j_value get_i32 b!"version" 0 source;
  _ ← throw_if (negb (version =? 1)) unsupported;
  _ ← throw_if (negb (j_contains b!"sites" source) || negb (j_contains b!"certificates" source) ||
                negb (j_contains b!"settings" source))
        (invalid_argument b!"configuration backup is missing required sections");
  site_items ← j_at b!"sites" source;
  certificate_items ← j_at b!"certificates" source;
  _ ← throw_if (negb (is_array site_items) || (10000 <? Z.of_nat (length (elements site_items))))
        (invalid_argument b!"configuration backup cannot contain more than 10000 sites");
  _ ← throw_if (negb (is_array certificate_items) || (1000 <? Z.of_nat (length (elements certificate_items))))
        (invalid_argument b!"configuration backup cannot contain more than 1000 certificates");
  sites ← res_fold import_site (elements site_items) ([], []);
  certificates ← res_fold import_certificate (elements certificate_items) ([], 0%nat);
  settings_item ← j_at b!"settings" source;
  settings ← import_settings settings_item;
  Ok (sites.1, certificates.1, settings).

Definition decode_backup (encoded : str) : res (list SiteRecord * list CertificateRecord * RuntimeSettingsRecord) :=
  _ ← throw_if (bool_decide (encoded = []) || (maximum_configuration_backup_bytes <? size encoded))
        (invalid_argument b!"configuration backup must be between 1 byte and 16 MiB");
  source ← parse encoded;
  decode_document source.

End Backup.

(** ** The server behind the reload handler *)

(** A reload in two halves.  [prepare_reload] builds the next configuration and
    acquires what it needs; what it returns is committed after the database is
    written ([commit_reload]) or given up ([discard_reload], the destructor of the
    activation).  None stands for an empty activation. *)
Class ReloadTarget `{AddressText} `{Regex} `{OpenSsl} (R : Type) := {
  prepared : Type;
  prepare_reload : RuntimeConfigSpec -> R -> res (option prepared) * R;
  commit_reload : prepared -> R -> R;
  discard_reload : prepared -> R -> R;
  published : R -> Config;
  prepare_keeps spec r : published (prepare_reload spec r).2 = published r;
  discard_keeps p r : published (discard_reload p r) = published r;
  commit_publishes spec r p r' : prepare_reload spec r = (Ok (Some p), r') ->
    RuntimeConfig spec = Ok (published (commit_reload p r'))
}.

(** ** State *)

Record Service (R : Type) := {
  repository_ : Store;
  active_revision_ : Z;
  reload_handler_ : bool;        (* the handler is set *)
  runtime : R                    (* what the handler refers to *)
}.
Arguments repository_ {R}.
Arguments active_revision_ {R}.
Arguments reload_handler_ {R}.
Arguments runtime {R}.
Arguments Build_Service {R}.

Definition set_repository {R} (db : Store) (s : Service R) : Service R :=
  {| repository_ := db; active_revision_ := active_revision_ s; reload_handler_ := reload_handler_ s; runtime := runtime s |}.
Definition set_active_revision {R} (revision : Z) (s : Service R) : Service R :=
  {| repository_ := repository_ s; active_revision_ := revision; reload_handler_ := reload_handler_ s; runtime := runtime s |}.
Definition set_handler {R} (present : bool) (s : Service R) : Service R :=
  {| repository_ := repository_ s; active_revision_ := active_revision_ s; reload_handler_ := present; runtime := runtime s |}.
Definition set_runtime {R} (r : R) (s : Service R) : Service R :=
  {| repository_ := repository_ s; active_revision_ := active_revision_ s; reload_handler_ := reload_handler_ s; runtime := r |}.

(** A database statement can fail, one that reads before the preparation or the
    one that writes after it. *)
Inductive fault := no_fault | read_fails (what : str) | write_fails (what : str).

Definition write_fault (f : fault) : option str := match f with write_fails what => Some what | _ => None end.

(** The locked part of an operation, from its first statement on. *)
Definition locked {S A} (f : fault) (body : S -> res A * S) (s : S) : res A * S :=
  match f with read_fails what => (Throw (runtime_error what), s) | _ => body s end.

(** Work on a value that may be an exception, keeping the state. *)
Definition checked {S A B} (r : res A) (body : A -> S -> res B * S) (s : S) : res B * S :=
  match r with Throw e => (Throw e, s) | Ok a => body a s end.

Section Service.
Context `{JsonText} `{AddressText} `{Regex} `{OpenSsl} {R : Type} `{!ReloadTarget R}.
Local Notation Service := (Service R).

(** ** Preparing, committing *)

Definition prepare_candidate_locked (candidate : RuntimeConfigSpec) (s : Service) : res (option prepared) * Service :=
  match RuntimeConfig candidate with
  | Throw e => (Throw e, s)
  | Ok _ =>
      if negb (reload_handler_ s) then (Ok None, s)
      else match prepare_reload candidate (runtime s) with
           | (Throw e, r) => (Throw e, set_runtime r s)
           | (Ok None, r) => (Throw (logic_error b!"runtime reload handler returned no activation"), set_runtime r s)
           | (Ok (Some p), r) => (Ok (Some p), set_runtime r s)
           end
  end.

Definition commit_candidate_locked (activation : option prepared) (revision : Z) (s : Service) : Service :=
  match activation with
  | None => s
  | Some p => set_active_revision revision (set_runtime (commit_reload p (runtime s)) s)
  end.

(** The activation goes out of scope without having been called. *)
Definition drop_activation (activation : option prepared) (s : Service) : Service :=
  match activation with None => s | Some p => set_runtime (discard_reload p (runtime s)) s end.

(** [config_revision() + 1]. *)
Definition following_revision (s : Service) : Z := u64 (config_revision (repository_ s) + 1).

(** Prepare a candidate, write the database, commit: the common end of the
    operations. *)
Definition submit {A} (f : fault) (candidate : res RuntimeConfigSpec) (write : option str -> Store -> res A * Store)
    (commit : option prepared -> Service -> Service) : Service -> res A * Service :=
  checked candidate (fun candidate s =>
    match prepare_candidate_locked candidate s with
    | (Throw e, s) => (Throw e, s)
    | (Ok activation, s) =>
        match write (write_fault f) (repository_ s) with
        | (Throw e, db) => (Throw e, drop_activation activation (set_repository db s))
        | (Ok a, db) => (Ok a, commit activation (set_repository db s))
        end
    end).

(** ** Life cycle *)

Definition initialize (f : fault) (s : Service) : res unit * Service :=
  match seed_default_site (write_fault f) (repository_ s) with
  | (Throw e, db) => (Throw e, set_repository db s)
  | (Ok _, db) => (Ok tt, set_active_revision (config_revision db) (set_repository db s))
  end.

Definition set_reload_handler (handler : bool) (s : Service) : res unit * Service :=
  if negb handler then (throwing b!"runtime reload handler cannot be empty", s)
  else (Ok tt, set_handler true s).

Definition mark_runtime_unavailable (s : Service) : Service := set_handler false (set_active_revision 0 s).

Definition activate_latest_locked (s : Service) : res unit * Service :=
  if negb (reload_handler_ s) then (Ok tt, s)
  else
    let revision := config_revision (repository_ s) in
    checked (build_runtime_spec_locked (repository_ s) revision) (fun candidate s =>
      match prepare_candidate_locked candidate s with
      | (Throw e, s) => (Throw e, s)
      | (Ok activation, s) => (Ok tt, commit_candidate_locked activation revision s)
      end) s.

Definition reload_runtime (f : fault) (s : Service) : res unit * Service :=
  if negb (reload_handler_ s) then (Throw (logic_error b!"runtime hot reload is not configured"), s)
  else locked f activate_latest_locked s.

Definition load_runtime_config (s : Service) : res RuntimeConfigSpec :=
  build_runtime_spec_locked (repository_ s) (config_revision (repository_ s)).
Definition load_runtime_sites (s : Service) : res (list VirtualHostConfig) :=
  match load_runtime_site_configs_locked (repository_ s) with
  | Ok sites => Ok (rs_virtual_host <$> sites)
  | Throw e => Throw e
  end.

Definition active_revision (s : Service) : Z := active_revision_ s.
Definition stored_revision (s : Service) : Z := config_revision (repository_ s).
Definition restart_required (s : Service) : bool := negb (stored_revision s =? active_revision_ s).
Definition hot_reload_enabled (s : Service) : bool := reload_handler_ s.

(** ** Sites *)

Definition create_site (f : fault) (site : SiteRecord) : Service -> res SiteRecord * Service :=
  checked (validate_and_normalize site) (fun site => locked f (fun s =>
    let db := repository_ s in
    let revision := following_revision s in
    let site := set_s_id (next_site_id db) site in
    match submit f (build_runtime_spec (list_sites db ++ [site]) (list_certificates db) (runtime_settings db) revision)
            (fun w => ConfigRepository.create_site w site) (fun a => commit_candidate_locked a revision) s with
    | (Throw e, s) => (Throw e, s)
    | (Ok id, s) => (Ok (set_s_id id site), s)
    end)).

(** [find_if] and the assignment through the iterator. *)
Definition replace_site (site : SiteRecord) (sites : list SiteRecord) : res (list SiteRecord) :=
  match list_find (fun item => s_id item = s_id site) sites with
  | None => throwing b!"site does not exist"
  | Some (i, _) => Ok (<[i := site]> sites)
  end.

Definition update_site (f : fault) (site : SiteRecord) : Service -> res SiteRecord * Service :=
  if s_id site <=? 0 then (fun s => (throwing b!"site id must be positive", s)) else
  checked (validate_and_normalize site) (fun site => locked f (fun s =>
    let db := repository_ s in
    let revision := following_revision s in
    checked (replace_site site (list_sites db)) (fun sites s =>
      match submit f (build_runtime_spec sites (list_certificates db) (runtime_settings db) revision)
              (fun w => ConfigRepository.update_site w site) (fun a => commit_candidate_locked a revision) s with
      | (Throw e, s) => (Throw e, s)
      | (Ok _, s) => (Ok site, s)
      end) s)).

Definition delete_site (f : fault) (id : Z) : Service -> res unit * Service :=
  if id <=? 0 then (fun s => (throwing b!"site id must be positive", s)) else
  locked f (fun s =>
    let db := repository_ s in
    let revision := following_revision s in
    let sites := filter (fun site => s_id site <> id) (list_sites db) in
    if (length sites =? length (list_sites db))%nat then (throwing b!"site does not exist", s) else
    submit f (build_runtime_spec sites (list_certificates db) (runtime_settings db) revision)
      (fun w => ConfigRepository.delete_site w id) (fun a => commit_candidate_locked a revision) s).

(** ** Certificates *)

(** Startup seeding: without a handler the new revision counts as active. *)
Definition seed_default_certificate (f : fault) (name : str) (domains : list str) (certificate_pem private_key_pem : str)
    : Service -> res unit * Service :=
  locked f (fun s =>
    let db := repository_ s in
    if negb (certificate_count db =? 0)%nat then (Ok tt, s) else
    checked (validate_and_normalize_certificate
               {| c_id := 0; c_name := name; c_enabled := true; c_is_default := true; c_domains := domains;
                  c_certificate_pem := certificate_pem; c_private_key_pem := private_key_pem |})
      (fun certificate s =>
        let revision := following_revision s in
        match submit f (build_runtime_spec (list_sites db) [certificate] (runtime_settings db) revision)
                (fun w => ConfigRepository.create_certificate w certificate)
                (fun activation s => match activation with
                                     | Some _ => commit_candidate_locked activation revision s
                                     | None => set_active_revision revision s
                                     end) s with
        | (Throw e, s) => (Throw e, s)
        | (Ok _, s) => (Ok tt, s)
        end) s).

Definition create_certificate (f : fault) (certificate : CertificateRecord) : Service -> res CertificateRecord * Service :=
  checked (validate_and_normalize_certificate certificate) (fun certificate => locked f (fun s =>
    let db := repository_ s in
    let revision := following_revision s in
    let certificates := if c_is_default certificate then clear_defaults (list_certificates db) else list_certificates db in
    match submit f (build_runtime_spec (list_sites db) (certificates ++ [certificate]) (runtime_settings db) revision)
            (fun w => ConfigRepository.create_certificate w certificate)
            (fun a => commit_candidate_locked a revision) s with
    | (Throw e, s) => (Throw e, s)
    | (Ok id, s) => (Ok (set_c_id id certificate), s)
    end)).

(** The loop over [records]. *)
Definition replace_certificate (certificate : CertificateRecord) (records : list CertificateRecord)
    : list CertificateRecord :=
  (fun c => if c_id c =? c_id certificate then certificate
            else if c_is_default certificate then set_c_is_default false c else c) <$> records.

Definition update_certificate (f : fault) (certificate : CertificateRecord) : Service -> res CertificateRecord * Service :=
  if c_id certificate <=? 0 then (fun s => (throwing b!"TLS certificate id must be positive", s)) else
  checked (validate_and_normalize_certificate certificate) (fun certificate => locked f (fun s =>
    let db := repository_ s in
    let records := list_certificates db in
    if negb (existsb (fun c => c_id c =? c_id certificate) records)
    then (throwing b!"TLS certificate does not exist", s) else
    let revision := following_revision s in
    match submit f (build_runtime_spec (list_sites db) (replace_certificate certificate records) (runtime_settings db) revision)
            (fun w => ConfigRepository.update_certificate w certificate)
            (fun a => commit_candidate_locked a revision) s with
    | (Throw e, s) => (Throw e, s)
    | (Ok _, s) => (Ok certificate, s)
    end)).

Definition delete_certificate (f : fault) (id : Z) : Service -> res unit * Service :=
  if id <=? 0 then (fun s => (throwing b!"TLS certificate id must be positive", s)) else
  locked f (fun s =>
    let db := repository_ s in
    let certificates := filter (fun c => c_id c <> id) (list_certificates db) in
    if (length certificates =? length (list_certificates db))%nat
    then (throwing b!"TLS certificate does not exist", s) else
    let revision := following_revision s in
    submit f (build_runtime_spec (list_sites db) certificates (runtime_settings db) revision)
      (fun w => ConfigRepository.delete_certificate w id) (fun a => commit_candidate_locked a revision) s).

(** ** Settings *)

Definition update_runtime_settings (f : fault) (settings : RuntimeSettingsRecord)
    : Service -> res RuntimeSettingsRecord * Service :=
  checked (validate_runtime_settings settings) (fun _ => locked f (fun s =>
    let db := repository_ s in
    let revision := following_revision s in
    match submit f (build_runtime_spec (list_sites db) (list_certificates db) settings revision)
            (fun w => ConfigRepository.update_runtime_settings w settings)
            (fun a => commit_candidate_locked a revision) s with
    | (Throw e, s) => (Throw e, s)
    | (Ok _, s) => (Ok settings, s)
    end)).

(** ** Backups *)

Definition import_configuration (f : fault) (encoded : str) : Service -> res unit * Service :=
  checked (decode_backup encoded) (fun backup => locked f (fun s =>
    let '(sites, certificates, settings) := backup in
    let db := repository_ s in
    let sites := number_sites (next_site_id db) sites in
    let revision := following_revision s in
    submit f (build_runtime_spec sites certificates settings revision)
      (fun w => replace_configuration w sites certificates settings)
      (fun a => commit_candidate_locked a revision) s)).

End Service.
