(* ===== verification/ConfigServiceSpec.v ===== *)
(** * Correctness of the configuration service (src/src/config/ConfigService.cpp)

    The service is a transaction over two stores, the database and the running
    server.  The theorems say that an operation either changes both or neither,
    that the running configuration is always the one the database holds, that
    what it stores is a fixed point of validation, and that a backup reads back
    as the configuration it was taken from. *)

From S2P Require Import Prelude IpAddress HostNormalizer ClientIpResolver UrlAuthenticator Json RateLimiter.
From S2P Require Import RequestPolicy VirtualHostRouter TlsContextManager RuntimeConfig AuthService ConfigRepository.
From S2P Require Import ConfigService.

(** ** Operations as data *)

Inductive service_op :=
| SCreateSite (site : SiteRecord)
| SUpdateSite (site : SiteRecord)
| SDeleteSite (id : Z)
| SSeedCertificate (name : str) (domains : list str) (certificate_pem private_key_pem : str)
| SCreateCertificate (certificate : CertificateRecord)
| SUpdateCertificate (certificate : CertificateRecord)
| SDeleteCertificate (id : Z)
| SUpdateSettings (settings : RuntimeSettingsRecord)
| SImport (encoded : str)
| SReload.

Definition done_with {S A} (r : res A * S) : res unit * S := (_ ← r.1; Ok tt, r.2).

(** ** Validation is idempotent *)

Section Canonical.
Context `{JsonText} `{AddressText} `{Regex} `{OpenSsl}.

Lemma renormalized a n n' : normalize_domain a = Some n -> normalize_domain n = Some n' -> n' = n.
Proof.
  intros Ha Hn. apply normalize_normalized in Ha as [[Hd Hl]|[Hv Hl]].
  - assert (normalize_domain n = Some n) as E; [|congruence]. apply normalize_spec. exists n. split; [|done].
    rewrite <-(app_nil_r n) at 1. apply (form_dns _ n [] []); [done|by left|constructor].
  - apply normalize_spec in Hn as (h & Hf & ->). exfalso.
    inversion Hf as [h' dot suffix Hd Hdot Hsuf|h' suffix Hv' Hsuf]; subst.
    + apply ipv6_literal_colon in Hv. inversion Hsuf; subst; [|done]. rewrite app_nil_r in Hv.
      by apply (colon_notin_name h dot Hd Hdot).
    + assert (ipv6_char "[" = true) as Hc by (apply (ipv6_literal_chars _ "[" Hv); left). by vm_compute in Hc.
Qed.

(** What a pattern is normalised to. *)
Definition normal_pattern (pattern : str) : Prop :=
  if starts_with b!"*." pattern then exists a, normalize_domain a = Some (drop 2 pattern)
  else exists a, normalize_domain a = Some pattern.

(** A JSON column written by the library. *)
Definition canonical_text (ok : json -> bool) (t : str) : Prop :=
  exists j, parse t = Ok j /\ dump j = Ok t /\ ok j = true.

Record canonical (site : SiteRecord) : Prop := {
  cn_protocol : ascii_lower (s_backend_protocol site) = s_backend_protocol site;
  cn_address : is_Some (make_address (s_backend_address site)) \/
               exists a, normalize_domain a = Some (s_backend_address site);
  cn_sni : s_backend_tls_sni site = [] \/ exists a, normalize_domain a = Some (s_backend_tls_sni site);
  cn_domains : Forall normal_pattern (s_domains site);
  cn_acl : canonical_text is_array (s_acl_rules_json site);
  cn_redirects : canonical_text is_array (s_redirect_rules_json site);
  cn_extensions : canonical_text is_array (s_hotlink_extensions_json site);
  cn_hosts : canonical_text is_array (s_hotlink_allowed_hosts_json site);
  cn_url_auth : canonical_text is_object (s_url_auth_json site)
}.

Lemma canonical_id site id : canonical site -> canonical (set_s_id id site).
Proof. intros []. by constructor. Qed.

Lemma catch_json_ok {A} (r : res A) a : catch_json r = Ok a -> r = Ok a.
Proof. unfold catch_json. destruct r as [|[]]; by try intros [= ->]. Qed.

(** The steps of validation, seen from the result. *)
Lemma normal_domain_star domain a : normalize_domain a = Some domain -> starts_with b!"*." domain = false.
Proof.
  intros Ha%normalize_normalized. destruct (starts_with b!"*." domain) eqn:E; [|done].
  apply starts_with_spec in E as [t ->]. by apply (normalized_host_char _ "*") in Ha; [|left].
Qed.

Lemma site_domain_normal pattern acc acc' : normalize_site_domain pattern acc = Ok acc' ->
  exists normalized, acc' = acc ++ [normalized] /\ normal_pattern normalized /\ (normal_pattern pattern -> normalized = pattern).
Proof.
  unfold normalize_site_domain. destruct (starts_with b!"*." pattern) eqn:Ew; cbv zeta.
  - destruct (normalize_domain (drop 2 pattern)) as [d|] eqn:Ed; [|done]. cbn [andb]. case_match; [done|].
    case_bool_decide; [done|]. intros [= <-]. exists (b!"*." ++ d). split; [done|]. split.
    + unfold normal_pattern. rewrite starts_with_app. by exists (drop 2 pattern).
    + unfold normal_pattern. rewrite Ew. intros [a Ha]. rewrite (renormalized _ _ _ Ha Ed).
      by apply starts_with_spec in Ew as [t ->].
  - destruct (normalize_domain pattern) as [d|] eqn:Ed; [|done]. cbn [andb]. case_bool_decide; [done|]. intros [= <-].
    exists d. split; [done|]. unfold normal_pattern. rewrite Ew, (normal_domain_star _ _ Ed). split; [by exists pattern|].
    intros [a Ha]. by eapply renormalized.
Qed.

Lemma site_domains_normal patterns acc acc' : res_fold normalize_site_domain patterns acc = Ok acc' ->
  exists normalized, acc' = acc ++ normalized /\ Forall normal_pattern normalized /\
                     (Forall normal_pattern patterns -> normalized = patterns).
Proof.
  induction patterns as [|p patterns IH] in acc |- *; cbn [res_fold].
  { intros [= <-]. exists []. by rewrite app_nil_r. }
  destruct (normalize_site_domain p acc) as [acc1|] eqn:E; [|done].
  apply site_domain_normal in E as (n & -> & Hn & Heq). intros (l & -> & Hl & Heql)%IH. exists (n :: l).
  split; [by rewrite <-app_assoc|]. split; [by constructor|]. intros [Hp Hps]%Forall_cons. by rewrite Heq, Heql.
Qed.

Lemma canonicalize_spec site site' : canonicalize_json site = Ok site' ->
  exists acl redirects extensions allowed auth,
    canonical_text is_array acl /\ canonical_text is_array redirects /\ canonical_text is_array extensions /\
    canonical_text is_array allowed /\ canonical_text is_object auth /\
    site' = set_s_url_auth_json auth (set_s_hotlink_allowed_hosts_json allowed (set_s_hotlink_extensions_json extensions
              (set_s_redirect_rules_json redirects (set_s_acl_rules_json acl site)))).
Proof.
  intros E. unfold canonicalize_json in E.
  destruct (parse (s_acl_rules_json site)) as [j1|] eqn:P1; [|done]. cbn [mbind res_bind] in E.
  destruct (parse (s_redirect_rules_json site)) as [j2|] eqn:P2; [|done]. cbn [mbind res_bind] in E.
  destruct (parse (s_hotlink_extensions_json site)) as [j3|] eqn:P3; [|done]. cbn [mbind res_bind] in E.
  destruct (parse (s_hotlink_allowed_hosts_json site)) as [j4|] eqn:P4; [|done]. cbn [mbind res_bind] in E.
  destruct (parse (s_url_auth_json site)) as [j5|] eqn:P5; [|done]. cbn [mbind res_bind] in E.
  destruct (_ || _) eqn:Ht; [done|]. bool_to_prop.
  apply dump_canonical in P1 as (t1 & D1 & P1), P2 as (t2 & D2 & P2), P3 as (t3 & D3 & P3), P4 as (t4 & D4 & P4),
    P5 as (t5 & D5 & P5). rewrite D1, D2, D3, D4, D5 in E. injection E as <-.
  exists t1, t2, t3, t4, t5. unfold canonical_text. split_and!; try done; eauto.
Qed.

Lemma set_same_json site acl redirects extensions allowed auth :
  acl = s_acl_rules_json site -> redirects = s_redirect_rules_json site -> extensions = s_hotlink_extensions_json site ->
  allowed = s_hotlink_allowed_hosts_json site -> auth = s_url_auth_json site ->
  set_s_url_auth_json auth (set_s_hotlink_allowed_hosts_json allowed (set_s_hotlink_extensions_json extensions
    (set_s_redirect_rules_json redirects (set_s_acl_rules_json acl site)))) = site.
Proof. intros -> -> -> -> ->. by destruct site. Qed.

Lemma canonicalize_canonical site : canonical site -> canonicalize_json site = Ok site.
Proof.
  intros [_ _ _ _ (j1 & P1 & D1 & T1) (j2 & P2 & D2 & T2) (j3 & P3 & D3 & T3) (j4 & P4 & D4 & T4) (j5 & P5 & D5 & T5)].
  unfold canonicalize_json. rewrite P1, P2, P3, P4, P5. cbn [mbind res_bind]. rewrite T1, T2, T3, T4, T5. cbn [negb orb].
  rewrite D1, D2, D3, D4, D5. cbn [mbind res_bind]. f_equal. by apply set_same_json.
Qed.

Lemma check_policy_spec site site' : check_policy site = Ok site' -> canonicalize_json site = Ok site'.
Proof. unfold check_policy. intros E. res_inv. done. Qed.

(** The steps on the backend: what they write, and that they keep what is normal. *)
Lemma normalize_protocol_spec site site' : normalize_protocol site = Ok site' ->
  site' = set_s_backend_protocol (ascii_lower (s_backend_protocol site)) site.
Proof. unfold normalize_protocol. cbv zeta. case_match; [done|]. by intros [= <-]. Qed.

Definition normal_address (a : str) : Prop := is_Some (make_address a) \/ exists t, normalize_domain t = Some a.
Definition normal_sni (n : str) : Prop := n = [] \/ exists t, normalize_domain t = Some n.

Lemma normalize_address_spec site site' : normalize_address site = Ok site' ->
  exists a, site' = set_s_backend_address a site /\ normal_address a /\
            (normal_address (s_backend_address site) -> a = s_backend_address site).
Proof.
  unfold normalize_address. destruct (make_address (s_backend_address site)) as [x|] eqn:Em.
  - intros [= <-]. exists (s_backend_address site). split; [by destruct site|]. split; [left; eauto|done].
  - destruct (normalize_domain _) as [n|] eqn:En; [|done]. intros [= <-]. exists n. split; [done|]. split; [right; eauto|].
    intros [[x Hx]|[t Ht]]; [congruence|]. by eapply renormalized.
Qed.

Lemma normalize_sni_spec site site' : normalize_sni site = Ok site' ->
  exists n, site' = set_s_backend_tls_sni n site /\ normal_sni n /\
            (normal_sni (s_backend_tls_sni site) -> n = s_backend_tls_sni site).
Proof.
  unfold normalize_sni. intros E. res_inv. case_bool_decide as Hs.
  - injection Eb as <-. exists []. split; [rewrite <-Hs at 1; by destruct site|]. split; [by left|done].
  - destruct (normalize_domain _) as [n|] eqn:En; [|done]. injection Eb as <-. exists n. split; [done|].
    split; [right; eauto|]. intros [Hn|[t Ht]]; [done|]. by eapply renormalized.
Qed.

(** What validation accepts is in canonical form. *)
Lemma validated_canonical site site' : validate_and_normalize site = Ok site' -> canonical site'.
Proof.
  intros E. unfold validate_and_normalize in E. res_inv. apply catch_json_ok, check_policy_spec in E.
  apply site_domains_normal in Eb4 as (domains & -> & Hd & _). cbn [app] in *.
  apply canonicalize_spec in E as (acl & redirects & extensions & allowed & auth & ? & ? & ? & ? & ? & ->).
  apply normalize_sni_spec in Eb3 as (n & -> & Hn & _). apply normalize_address_spec in Eb1 as (x & -> & Hx & _).
  apply normalize_protocol_spec in Eb0 as ->. constructor; cbn; try done. apply ascii_lower_idemp.
Qed.

(** Validating it again changes nothing. *)
Lemma validate_again site site' : canonical site -> validate_and_normalize site = Ok site' -> site' = site.
Proof.
  intros Hc E. unfold validate_and_normalize in E. res_inv. apply catch_json_ok, check_policy_spec in E.
  assert (a0 = site) as ->.
  { apply normalize_protocol_spec in Eb0 as ->. rewrite (cn_protocol _ Hc). by destruct site. }
  assert (a1 = site) as ->.
  { apply normalize_address_spec in Eb1 as (x & -> & _ & Hx). rewrite (Hx (cn_address _ Hc)). by destruct site. }
  assert (a3 = site) as ->.
  { apply normalize_sni_spec in Eb3 as (n & -> & _ & Hn). rewrite (Hn (cn_sni _ Hc)). by destruct site. }
  apply site_domains_normal in Eb4 as (domains & -> & _ & Hd). rewrite (Hd (cn_domains _ Hc)) in E. cbn [app] in E.
  assert (set_s_domains (s_domains site) site = site) as Hsite by (by destruct site). rewrite Hsite in E.
  rewrite canonicalize_canonical in E by done. by injection E.
Qed.

End Canonical.

Section Service.
Context `{JsonText} `{AddressText} `{Regex} `{OpenSsl} {R : Type} `{!ReloadTarget R}.
Local Notation Service := (Service R).

Definition serve (f : fault) (op : service_op) (s : Service) : res unit * Service :=
  match op with
  | SCreateSite site => done_with (create_site f site s)
  | SUpdateSite site => done_with (update_site f site s)
  | SDeleteSite id => delete_site f id s
  | SSeedCertificate name domains pem key => seed_default_certificate f name domains pem key s
  | SCreateCertificate c => done_with (create_certificate f c s)
  | SUpdateCertificate c => done_with (update_certificate f c s)
  | SDeleteCertificate id => delete_certificate f id s
  | SUpdateSettings settings => done_with (update_runtime_settings f settings s)
  | SImport encoded => import_configuration f encoded s
  | SReload => reload_runtime f s
  end.

(** ** What an operation can do *)

(** Nothing that lasts has changed. *)
Record unchanged (s s' : Service) : Prop := {
  un_repository : repository_ s' = repository_ s;
  un_revision : active_revision_ s' = active_revision_ s;
  un_handler : reload_handler_ s' = reload_handler_ s;
  un_published : published (runtime s') = published (runtime s)
}.

Lemma unchanged_refl s : unchanged s s.
Proof. by constructor. Qed.
Lemma unchanged_trans s s' s'' : unchanged s s' -> unchanged s' s'' -> unchanged s s''.
Proof. intros [] []. constructor; congruence. Qed.

(** The two stores moved together: the database to [db], the server, if there is
    one, to the configuration of [spec]. *)
Record moved (spec : RuntimeConfigSpec) (revision : Z) (db : Store) (s s' : Service) : Prop := {
  mv_repository : repository_ s' = db;
  mv_handler : reload_handler_ s' = reload_handler_ s;
  mv_live : if reload_handler_ s
            then active_revision_ s' = revision /\ RuntimeConfig spec = Ok (published (runtime s'))
            else published (runtime s') = published (runtime s)
}.

Lemma prepare_outcome spec s r s' : prepare_candidate_locked spec s = (r, s') ->
  unchanged s s' /\
  (forall activation, r = Ok activation ->
    if reload_handler_ s
    then exists p, activation = Some p /\ RuntimeConfig spec = Ok (published (commit_reload p (runtime s')))
    else activation = None).
Proof.
  unfold prepare_candidate_locked. destruct (RuntimeConfig spec) as [c|] eqn:Ec.
  2: { intros [= <- <-]. by split; [apply unchanged_refl|]. }
  destruct (reload_handler_ s) eqn:Eh; cbn [negb].
  2: { intros [= <- <-]. split; [apply unchanged_refl|]. by intros a [= <-]. }
  pose proof (prepare_keeps spec (runtime s)) as Hk.
  destruct (prepare_reload spec (runtime s)) as [[[p|]|] r'] eqn:Ep; intros [= <- <-]; (split; [by constructor|]); try done.
  intros a [= <-]. exists p. split; [done|]. rewrite <-Ec. by eapply commit_publishes.
Qed.

Lemma drop_outcome activation s : unchanged s (drop_activation activation s).
Proof. destruct activation; [|apply unchanged_refl]. constructor; try done. cbn. apply discard_keeps. Qed.

(** Committing as the operations do, or as seeding does. *)
Definition commits (revision : Z) (commit : option prepared -> Service -> Service) : Prop :=
  forall activation s,
    repository_ (commit activation s) = repository_ s /\ reload_handler_ (commit activation s) = reload_handler_ s /\
    match activation with
    | Some p => active_revision_ (commit activation s) = revision /\
                published (runtime (commit activation s)) = published (commit_reload p (runtime s))
    | None => published (runtime (commit activation s)) = published (runtime s)
    end.

Lemma commit_candidate_commits revision : commits revision (fun a => commit_candidate_locked a revision).
Proof. by intros [p|] s. Qed.
Lemma seeding_commits revision : commits revision (fun activation s =>
  match activation with Some _ => commit_candidate_locked activation revision s | None => set_active_revision revision s end).
Proof. by intros [p|] s. Qed.

Definition atomic {A} (write : option str -> Store -> res A * Store) : Prop :=
  forall w db e db', write w db = (Throw e, db') -> db' = db.

Lemma submit_outcome {A} f candidate (write : option str -> Store -> res A * Store) revision commit s r s' :
  atomic write -> commits revision commit -> submit f candidate write commit s = (r, s') ->
  match r with
  | Throw _ => unchanged s s'
  | Ok a => exists spec db, candidate = Ok spec /\ write (write_fault f) (repository_ s) = (Ok a, db) /\
                            moved spec revision db s s'
  end.
Proof.
  intros Hw Hc. unfold submit, checked. destruct candidate as [spec|]; [|intros [= <- <-]; apply unchanged_refl].
  destruct (prepare_candidate_locked spec s) as [[activation|] s1] eqn:Ep; apply prepare_outcome in Ep as [Hu Ha].
  2: { by intros [= <- <-]. }
  specialize (Ha activation eq_refl). destruct Hu as [Hrep Hrev Hhan Hpub]. rewrite Hrep.
  destruct (write (write_fault f) (repository_ s)) as [[a|e] db] eqn:Ew; intros [= <- <-].
  - exists spec, db. do 2 (split; [done|]). destruct (Hc activation (set_repository db s1)) as (Hr & Hh & Hl).
    constructor; [done|cbn in Hh; congruence|]. destruct (reload_handler_ s).
    + destruct Ha as (p & -> & Hconf). destruct Hl as [? Hl]. split; [done|]. by rewrite Hl.
    + subst activation. by rewrite Hl.
  - apply Hw in Ew as ->. eapply unchanged_trans; [|apply drop_outcome]. by constructor.
Qed.

(** [checked] and [locked] stop without a trace. *)
Lemma checked_outcome {A B} (r : res A) (body : A -> Service -> res B * Service) s out s' :
  checked r body s = (out, s') ->
  (unchanged s s' /\ exists e, out = Throw e) \/ exists a, r = Ok a /\ body a s = (out, s').
Proof.
  unfold checked. destruct r as [a|e]; [by right; exists a|]. intros [= <- <-]. left. split; [apply unchanged_refl|eauto].
Qed.
Lemma locked_outcome {A} f (body : Service -> res A * Service) s out s' :
  locked f body s = (out, s') -> (unchanged s s' /\ exists e, out = Throw e) \/ body s = (out, s').
Proof.
  destruct f; cbn; try by right. intros [= <- <-]. left. split; [apply unchanged_refl|eauto].
Qed.

Lemma transaction_atomic {A} (body : Store -> res (A * Store)) : atomic (fun w => transaction w body).
Proof.
  intros w db e db'. unfold transaction. destruct w; [by intros [= <- <-]|].
  destruct (body db) as [[a d]|]; [done|]. by intros [= <- <-].
Qed.

(** *** Each operation *)

Local Ltac op_case E :=
  first [apply checked_outcome in E as [[? [? ->]]|(? & ? & E)]; [done|]
        |apply locked_outcome in E as [[? [? ->]]|E]; [done|]].
Local Ltac submitted E :=
  match type of E with
  | context [submit ?f ?c ?w ?k ?s] =>
      let Es := fresh "Es" in
      destruct (submit f c w k s) as [[?|?] ?] eqn:Es;
      (eapply submit_outcome in Es; [|apply transaction_atomic|first [apply commit_candidate_commits|apply seeding_commits]])
  end.

Local Notation next s := (following_revision s).
Local Notation db_of s := (repository_ s).

Lemma create_site_outcome f site s r s' : create_site f site s = (r, s') ->
  match r with
  | Throw _ => unchanged s s'
  | Ok stored => exists site' spec db id,
      validate_and_normalize site = Ok site' /\
      stored = set_s_id id (set_s_id (next_site_id (db_of s)) site') /\
      build_runtime_spec (list_sites (db_of s) ++ [set_s_id (next_site_id (db_of s)) site']) (list_certificates (db_of s))
        (runtime_settings (db_of s)) (next s) = Ok spec /\
      ConfigRepository.create_site (write_fault f) (set_s_id (next_site_id (db_of s)) site') (db_of s) = (Ok id, db) /\
      moved spec (next s) db s s'
  end.
Proof.
  intros E. unfold create_site in E. do 2 op_case E. cbv zeta in E. submitted E; injection E as <- <-; [|done].
  destruct Es as (spec & db & ? & ? & ?). by exists x, spec, db, a.
Qed.

Lemma update_site_outcome f site s r s' : update_site f site s = (r, s') ->
  match r with
  | Throw _ => unchanged s s'
  | Ok stored => exists sites spec db,
      validate_and_normalize site = Ok stored /\ replace_site stored (list_sites (db_of s)) = Ok sites /\
      build_runtime_spec sites (list_certificates (db_of s)) (runtime_settings (db_of s)) (next s) = Ok spec /\
      ConfigRepository.update_site (write_fault f) stored (db_of s) = (Ok tt, db) /\ moved spec (next s) db s s'
  end.
Proof.
  intros E. unfold update_site in E. destruct (s_id site <=? 0); [injection E as <- <-; apply unchanged_refl|].
  do 2 op_case E. cbv zeta in E. op_case E. cbv beta in E. submitted E; injection E as <- <-; [|done].
  destruct a, Es as (spec & db & ? & ? & ?). by exists x0, spec, db.
Qed.

Lemma delete_site_outcome f id s r s' : delete_site f id s = (r, s') ->
  match r with
  | Throw _ => unchanged s s'
  | Ok _ => exists spec db,
      build_runtime_spec (filter (fun site => s_id site <> id) (list_sites (db_of s))) (list_certificates (db_of s))
        (runtime_settings (db_of s)) (next s) = Ok spec /\
      ConfigRepository.delete_site (write_fault f) id (db_of s) = (Ok tt, db) /\ moved spec (next s) db s s'
  end.
Proof.
  intros E. unfold delete_site in E. destruct (id <=? 0); [injection E as <- <-; apply unchanged_refl|].
  op_case E. cbv zeta in E. case_match; [injection E as <- <-; apply unchanged_refl|].
  submitted E; injection E as <- <-; [|done]. destruct a. exact Es.
Qed.

Lemma seed_certificate_outcome f name domains pem key s r s' :
  seed_default_certificate f name domains pem key s = (r, s') ->
  match r with
  | Throw _ => unchanged s s'
  | Ok _ => unchanged s s' \/ exists c spec db id, certificate_rows (db_of s) = [] /\ c_is_default c = true /\
      build_runtime_spec (list_sites (db_of s)) [c] (runtime_settings (db_of s)) (next s) = Ok spec /\
      ConfigRepository.create_certificate (write_fault f) c (db_of s) = (Ok id, db) /\ moved spec (next s) db s s'
  end.
Proof.
  intros E. unfold seed_default_certificate in E. op_case E. cbv zeta in E.
  destruct (certificate_count (db_of s) =? 0)%nat eqn:Ec; cbn [negb] in E.
  2: { injection E as <- <-. left. apply unchanged_refl. }
  op_case E. cbv beta zeta in E. submitted E; injection E as <- <-; [|done]. right.
  destruct Es as (spec & db & ? & ? & ?). exists x, spec, db, a. split_and!; try done.
  - apply Nat.eqb_eq in Ec. by apply length_zero_iff_nil.
  - unfold validate_and_normalize_certificate in *. by res_inv.
Qed.

Lemma create_certificate_outcome f c s r s' : create_certificate f c s = (r, s') ->
  match r with
  | Throw _ => unchanged s s'
  | Ok stored => exists c' spec db id, stored = set_c_id id c' /\
      build_runtime_spec (list_sites (db_of s))
        ((if c_is_default c' then clear_defaults (list_certificates (db_of s)) else list_certificates (db_of s)) ++ [c'])
        (runtime_settings (db_of s)) (next s) = Ok spec /\
      ConfigRepository.create_certificate (write_fault f) c' (db_of s) = (Ok id, db) /\ moved spec (next s) db s s'
  end.
Proof.
  intros E. unfold create_certificate in E. do 2 op_case E. cbv zeta in E. submitted E; injection E as <- <-; [|done].
  destruct Es as (spec & db & ? & ? & ?). by exists x, spec, db, a.
Qed.

Lemma update_certificate_outcome f c s r s' : update_certificate f c s = (r, s') ->
  match r with
  | Throw _ => unchanged s s'
  | Ok stored => exists spec db,
      build_runtime_spec (list_sites (db_of s)) (replace_certificate stored (list_certificates (db_of s)))
        (runtime_settings (db_of s)) (next s) = Ok spec /\
      ConfigRepository.update_certificate (write_fault f) stored (db_of s) = (Ok tt, db) /\ moved spec (next s) db s s'
  end.
Proof.
  intros E. unfold update_certificate in E. destruct (c_id c <=? 0); [injection E as <- <-; apply unchanged_refl|].
  do 2 op_case E. cbv zeta in E. case_match; [injection E as <- <-; apply unchanged_refl|].
  submitted E; injection E as <- <-; [|done]. destruct a. exact Es.
Qed.

Lemma delete_certificate_outcome f id s r s' : delete_certificate f id s = (r, s') ->
  match r with
  | Throw _ => unchanged s s'
  | Ok _ => exists spec db,
      build_runtime_spec (list_sites (db_of s)) (filter (fun c => c_id c <> id) (list_certificates (db_of s)))
        (runtime_settings (db_of s)) (next s) = Ok spec /\
      ConfigRepository.delete_certificate (write_fault f) id (db_of s) = (Ok tt, db) /\ moved spec (next s) db s s'
  end.
Proof.
  intros E. unfold delete_certificate in E. destruct (id <=? 0); [injection E as <- <-; apply unchanged_refl|].
  op_case E. cbv zeta in E. case_match; [injection E as <- <-; apply unchanged_refl|].
  submitted E; injection E as <- <-; [|done]. destruct a. exact Es.
Qed.

Lemma update_settings_outcome f settings s r s' : update_runtime_settings f settings s = (r, s') ->
  match r with
  | Throw _ => unchanged s s'
  | Ok _ => exists spec db,
      build_runtime_spec (list_sites (db_of s)) (list_certificates (db_of s)) settings (next s) = Ok spec /\
      ConfigRepository.update_runtime_settings (write_fault f) settings (db_of s) = (Ok tt, db) /\ moved spec (next s) db s s'
  end.
Proof.
  intros E. unfold update_runtime_settings in E. do 2 op_case E. cbv zeta in E.
  submitted E; injection E as <- <-; [|done]. destruct a. exact Es.
Qed.

Lemma import_outcome f encoded s r s' : import_configuration f encoded s = (r, s') ->
  match r with
  | Throw _ => unchanged s s'
  | Ok _ => exists sites cs settings spec db, decode_backup encoded = Ok (sites, cs, settings) /\
      build_runtime_spec (number_sites (next_site_id (db_of s)) sites) cs settings (next s) = Ok spec /\
      replace_configuration (write_fault f) (number_sites (next_site_id (db_of s)) sites) cs settings (db_of s) = (Ok tt, db) /\
      moved spec (next s) db s s'
  end.
Proof.
  intros E. unfold import_configuration in E. op_case E. destruct x as [[sites cs] settings]. op_case E. cbv zeta in E.
  submitted E; injection E as <- <-; [|done]. destruct a, Es as (spec & db & ? & ? & ?). by exists sites, cs, settings, spec, db.
Qed.

Lemma reload_outcome f s r s' : reload_runtime f s = (r, s') ->
  match r with
  | Throw _ => unchanged s s'
  | Ok _ => exists spec, build_runtime_spec_locked (db_of s) (config_revision (db_of s)) = Ok spec /\
      reload_handler_ s = true /\ moved spec (config_revision (db_of s)) (db_of s) s s'
  end.
Proof.
  intros E. unfold reload_runtime in E. destruct (reload_handler_ s) eqn:Eh; cbn [negb] in E.
  2: { injection E as <- <-. apply unchanged_refl. }
  op_case E. unfold activate_latest_locked in E. rewrite Eh in E. cbn [negb] in E. op_case E. cbv beta in E.
  destruct (prepare_candidate_locked x s) as [[activation|] s1] eqn:Ep; apply prepare_outcome in Ep as [Hu Ha];
    injection E as <- <-; [|done].
  exists x. split_and!; try done. specialize (Ha activation eq_refl). rewrite Eh in Ha. destruct Ha as (p & -> & Hc), Hu.
  constructor; try done. rewrite Eh. split; [done|]. exact Hc.
Qed.

(** ** The candidate is what the database will hold *)

(** The certificates of a specification, whatever their keys. *)
Definition tls_list (cs : list CertificateRecord) : list TlsCertificateConfig :=
  (fun c => tls_config (c_is_default c) c) <$> filter (fun c => c_enabled c = true) cs.

#[local] Instance tls_list_proper : Proper ((≡ₚ) ==> (≡ₚ)) tls_list.
Proof. intros cs cs' Hp. unfold tls_list. by rewrite Hp. Qed.

Lemma tls_list_app cs cs' : tls_list (cs ++ cs') = tls_list cs ++ tls_list cs'.
Proof. unfold tls_list. by rewrite filter_app, fmap_app. Qed.
Lemma tls_list_id id c : tls_list [set_c_id id c] = tls_list [c].
Proof. unfold tls_list. rewrite !filter_cons. cbn. by destruct (decide _). Qed.
Lemma tls_list_ids ids cs : length ids = length cs -> tls_list (zip_with set_c_id ids cs) = tls_list cs.
Proof.
  induction ids as [|id ids IH] in cs |- *; destruct cs as [|c cs]; cbn [length zip_with]; try done. intros [= Hl].
  change (tls_list ([set_c_id id c] ++ zip_with set_c_id ids cs) = tls_list ([c] ++ cs)).
  by rewrite !tls_list_app, tls_list_id, IH.
Qed.

(** The same specification but for the order of the certificates. *)
Record same_spec (spec spec' : RuntimeConfigSpec) : Prop := {
  ss_revision : spec_revision spec = spec_revision spec';
  ss_sites : spec_sites spec = spec_sites spec';
  ss_certificates : spec_tls_certificates spec ≡ₚ spec_tls_certificates spec';
  ss_reject : spec_reject_unknown_sni spec = spec_reject_unknown_sni spec';
  ss_settings : spec_settings spec = spec_settings spec'
}.

(** [spec] is the specification a restart would load from the database. *)
Definition describes (spec : RuntimeConfigSpec) (db : Store) : Prop :=
  exists loaded, build_runtime_spec_locked db (config_revision db) = Ok loaded /\ same_spec spec loaded.

Lemma candidate_describes sites cs settings revision spec db :
  build_runtime_spec sites cs settings revision = Ok spec ->
  sites = list_sites db -> tls_list cs ≡ₚ tls_list (list_certificates db) -> settings = runtime_settings db ->
  revision = config_revision db -> describes spec db.
Proof.
  intros E -> Hcs -> ->. unfold build_runtime_spec in E. res_inv.
  eexists. split; [unfold build_runtime_spec_locked, build_runtime_spec; rewrite Eb; cbn; rewrite Eb0; reflexivity|].
  by constructor.
Qed.

Lemma next_is_stored (s : Service) db : revision_value db = revision_value (db_of s) + 1 -> next s = config_revision db.
Proof. intros E. unfold following_revision, config_revision, u64, wrap_u. rewrite E. by rewrite Zplus_mod_idemp_l. Qed.

Lemma written_revision {A} w (write : Store -> res A * Store) db a db' op :
  configuration_op op = true -> perform w op db = forget (write db) -> write db = (Ok a, db') ->
  revision_value db' = revision_value db + 1.
Proof.
  intros Hop Hp E. rewrite E in Hp. destruct (perform_next_revision w op Hop db) as [[e E']|([] & d & E' & Hr)];
    rewrite E' in Hp; injection Hp; [done|]. by intros ->.
Qed.

Lemma written_wf {A} w (write : Store -> res A * Store) db a db' op :
  store_wf db -> perform w op db = forget (write db) -> write db = (Ok a, db') -> store_wf db'.
Proof. intros Hwf Hp E. pose proof (perform_keeps w op db Hwf) as Hk. by rewrite Hp, E in Hk. Qed.

Lemma forget_unit (x : res unit * Store) : x = forget x.
Proof. by destruct x as [[[]|] db]. Qed.

(** The iterator's element is the row with the key. *)
Lemma replace_site_spec site sites sites' : NoDup (s_id <$> sites) -> replace_site site sites = Ok sites' ->
  sites' = ((fun row => if s_id row =? s_id site then site else row) <$> sites).
Proof.
  intros Hnd. unfold replace_site. destruct (list_find _ sites) as [[i x]|] eqn:Ef; [|done]. intros [= <-].
  apply list_find_Some in Ef as (Hi & Hx & _). apply list_eq. intros j. rewrite list_lookup_fmap.
  destruct (decide (i = j)) as [<-|Hij].
  - rewrite list_lookup_insert_eq by (by eapply lookup_lt_Some). rewrite Hi. cbn. by rewrite Hx, Z.eqb_refl.
  - rewrite list_lookup_insert_ne by done. destruct (sites !! j) as [y|] eqn:Hj; [|done]. cbn.
    destruct (s_id y =? s_id site) eqn:E; [|done]. apply Z.eqb_eq in E. destruct Hij.
    eapply (NoDup_lookup (s_id <$> sites)); [done| |]; rewrite list_lookup_fmap; [rewrite Hi|rewrite Hj]; cbn; [|done].
    congruence.
Qed.

(** Both stores hold the same new configuration. *)
Definition advanced (s s' : Service) : Prop :=
  store_wf (db_of s') /\
  exists spec, describes spec (db_of s') /\ moved spec (config_revision (db_of s')) (db_of s') s s'.

Lemma advance {A} op w (write : Store -> res A * Store) a s s' sites cs settings spec db :
  store_wf (db_of s) -> configuration_op op = true -> perform w op (db_of s) = forget (write (db_of s)) ->
  write (db_of s) = (Ok a, db) -> build_runtime_spec sites cs settings (next s) = Ok spec ->
  moved spec (next s) db s s' ->
  sites = list_sites db /\ tls_list cs ≡ₚ tls_list (certificate_rows db) /\ settings = runtime_settings db ->
  advanced s s'.
Proof.
  intros Hwf Hop Hp Hw Hb Hm (Hs & Hc & Hset). pose proof (written_revision _ _ _ _ _ _ Hop Hp Hw) as Hr.
  apply next_is_stored in Hr. rewrite Hr in Hm. pose proof (mv_repository _ _ _ _ _ Hm) as E. unfold advanced. rewrite E.
  split; [by eapply written_wf|]. exists spec. split; [|done]. eapply candidate_describes; try done.
  by rewrite list_certificates_perm.
Qed.

Lemma create_site_advances f site s stored s' : store_wf (db_of s) -> create_site f site s = (Ok stored, s') -> advanced s s'.
Proof.
  intros Hwf (site' & spec & db & id & Hv & Hst & Hb & Hw & Hm)%create_site_outcome.
  eapply (advance (OpCreateSite _)); try done. apply create_site_ok in Hw as (Hid & Hs & Hc & Hset); [|done].
  split_and!; [|by rewrite list_certificates_perm, Hc|done]. rewrite Hs, Hid. done.
Qed.

Lemma update_site_advances f site s stored s' : store_wf (db_of s) -> update_site f site s = (Ok stored, s') -> advanced s s'.
Proof.
  intros Hwf (sites & spec & db & Hv & Hrep & Hb & Hw & Hm)%update_site_outcome.
  eapply (advance (OpUpdateSite _)); try done; [apply forget_unit|]. apply update_site_ok in Hw as (Hs & Hc & Hset).
  split_and!; [|by rewrite list_certificates_perm, Hc|done]. rewrite Hs. apply replace_site_spec; [|done].
  eapply sorted_keys_nodup. apply Hwf.
Qed.

Lemma delete_site_advances f id s u s' : store_wf (db_of s) -> delete_site f id s = (Ok u, s') -> advanced s s'.
Proof.
  intros Hwf (spec & db & Hb & Hw & Hm)%delete_site_outcome.
  eapply (advance (OpDeleteSite _)); try done; [apply forget_unit|]. apply delete_site_ok in Hw as (Hs & Hc & Hset).
  split_and!; [by rewrite Hs|by rewrite list_certificates_perm, Hc|done].
Qed.

Lemma added_certificate_list c id rows rows' : rows ≡ₚ rows' ->
  tls_list ((if c_is_default c then clear_defaults rows else rows) ++ [c]) ≡ₚ
  tls_list ((if c_is_default c then clear_defaults rows' else rows') ++ [set_c_id id c]).
Proof.
  intros Hp. rewrite !tls_list_app, tls_list_id. f_equiv. destruct (c_is_default c); [|by rewrite Hp].
  unfold clear_defaults. by rewrite Hp.
Qed.

Lemma create_certificate_advances f c s stored s' :
  store_wf (db_of s) -> create_certificate f c s = (Ok stored, s') -> advanced s s'.
Proof.
  intros Hwf (c' & spec & db & id & Hst & Hb & Hw & Hm)%create_certificate_outcome.
  eapply (advance (OpCreateCertificate _)); try done. apply create_certificate_ok in Hw as (Hc & Hs & Hset).
  split_and!; [done| |done]. rewrite Hc. apply added_certificate_list, list_certificates_perm.
Qed.

Lemma seed_certificate_advances f name domains pem key s u s' : store_wf (db_of s) ->
  seed_default_certificate f name domains pem key s = (Ok u, s') -> unchanged s s' \/ advanced s s'.
Proof.
  intros Hwf [?|(c & spec & db & id & Hn & Hd & Hb & Hw & Hm)]%seed_certificate_outcome; [by left|right].
  eapply (advance (OpCreateCertificate _)); try done. apply create_certificate_ok in Hw as (Hc & Hs & Hset).
  split_and!; [done| |done]. rewrite Hc, Hn, Hd. change (clear_defaults [] ++ ?l) with l. by rewrite tls_list_id.
Qed.

Lemma update_certificate_advances f c s stored s' :
  store_wf (db_of s) -> update_certificate f c s = (Ok stored, s') -> advanced s s'.
Proof.
  intros Hwf (spec & db & Hb & Hw & Hm)%update_certificate_outcome.
  eapply (advance (OpUpdateCertificate _)); try done; [apply forget_unit|].
  apply update_certificate_ok in Hw as (Hc & Hs & Hset). split_and!; [done| |done]. rewrite Hc.
  unfold replace_certificate. by rewrite list_certificates_perm.
Qed.

Lemma delete_certificate_advances f id s u s' :
  store_wf (db_of s) -> delete_certificate f id s = (Ok u, s') -> advanced s s'.
Proof.
  intros Hwf (spec & db & Hb & Hw & Hm)%delete_certificate_outcome.
  eapply (advance (OpDeleteCertificate _)); try done; [apply forget_unit|].
  apply delete_certificate_ok in Hw as (Hc & Hs & Hset). split_and!; [done| |done]. by rewrite Hc, list_certificates_perm.
Qed.

Lemma update_settings_advances f settings s r s' :
  store_wf (db_of s) -> update_runtime_settings f settings s = (Ok r, s') -> advanced s s'.
Proof.
  intros Hwf (spec & db & Hb & Hw & Hm)%update_settings_outcome.
  eapply (advance (OpUpdateSettings _)); try done; [apply forget_unit|].
  apply update_settings_ok in Hw as (Hc & Hs & Hset). split_and!; [done|by rewrite Hc, list_certificates_perm|done].
Qed.

Lemma number_sites_again n n' sites : number_sites n (number_sites n' sites) = number_sites n sites.
Proof. revert n n'. induction sites as [|site sites IH]; intros n n'; [done|]. by rewrite !number_sites_cons, IH. Qed.

Lemma import_advances f encoded s u s' :
  store_wf (db_of s) -> import_configuration f encoded s = (Ok u, s') -> advanced s s'.
Proof.
  intros Hwf (sites & cs & settings & spec & db & Hd & Hb & Hw & Hm)%import_outcome.
  eapply (advance (OpReplaceConfiguration _ _ _)); try done; [apply forget_unit|].
  apply replace_configuration_ok in Hw as (Hs & (ids & Hc & Hl) & Hset); [|done].
  split_and!; [by rewrite Hs, number_sites_again|by rewrite Hc, tls_list_ids|done].
Qed.

Lemma same_spec_refl spec : same_spec spec spec.
Proof. by constructor. Qed.

Lemma reload_advances f s u s' : store_wf (db_of s) -> reload_runtime f s = (Ok u, s') -> advanced s s'.
Proof.
  intros Hwf (spec & Hb & Hh & Hm)%reload_outcome. pose proof (mv_repository _ _ _ _ _ Hm) as E. unfold advanced. rewrite E.
  split; [done|]. exists spec. split; [|done]. exists spec. split; [done|apply same_spec_refl].
Qed.

Lemma done_with_throw {A} (x : res A * Service) e s' : done_with x = (Throw e, s') -> x = (Throw e, s').
Proof. unfold done_with. destruct x as [[?|?] ?]; cbn; [done|]. by intros [= <- <-]. Qed.
Lemma done_with_ok {A} (x : res A * Service) u s' : done_with x = (Ok u, s') -> exists a, x = (Ok a, s').
Proof. unfold done_with. destruct x as [[a|?] ?]; cbn; [|done]. intros [= _ <-]. by exists a. Qed.

Lemma serve_throws f op s e s' : serve f op s = (Throw e, s') -> unchanged s s'.
Proof.
  unfold serve. destruct op; intros E; try apply done_with_throw in E;
    first [by apply create_site_outcome in E | by apply update_site_outcome in E | by apply delete_site_outcome in E
          | by apply seed_certificate_outcome in E | by apply create_certificate_outcome in E
          | by apply update_certificate_outcome in E | by apply delete_certificate_outcome in E
          | by apply update_settings_outcome in E | by apply import_outcome in E | by apply reload_outcome in E].
Qed.

Lemma serve_advances f op s u s' : store_wf (db_of s) -> serve f op s = (Ok u, s') -> unchanged s s' \/ advanced s s'.
Proof.
  intros Hwf. unfold serve. destruct op; intros E; try apply done_with_ok in E as [? E];
    first [by eapply seed_certificate_advances
          | right; first [by eapply create_site_advances | by eapply update_site_advances | by eapply delete_site_advances
            | by eapply create_certificate_advances | by eapply update_certificate_advances
            | by eapply delete_certificate_advances | by eapply update_settings_advances | by eapply import_advances
            | by eapply reload_advances]].
Qed.

(** ** Stored sites *)

Definition fixed_point (site : SiteRecord) : Prop := validate_and_normalize site = Ok site.

Lemma fixed_canonical site : fixed_point site -> canonical site.
Proof. apply validated_canonical. Qed.

Lemma loaded_validate sites acc out : res_fold load_site sites acc = Ok out ->
  Forall (fun site => is_Some (match validate_and_normalize site with Ok x => Some x | Throw _ => None end)) sites.
Proof.
  induction sites as [|site sites IH] in acc |- *; cbn [res_fold]; [constructor|]. unfold load_site at 1.
  destruct (validate_and_normalize site) as [x|] eqn:Ev; [|done]. cbn [mbind res_bind].
  destruct (if negb (s_enabled x) then _ else _) eqn:Ex; [|done]. intros E. constructor; [rewrite Ev; eauto|by eapply IH].
Qed.

(** A canonical site of a candidate that could be built. *)
Lemma candidate_fixed sites cs settings revision spec site :
  build_runtime_spec sites cs settings revision = Ok spec -> site ∈ sites -> canonical site -> fixed_point site.
Proof.
  intros E Hin Hc. unfold build_runtime_spec in E. res_inv. apply loaded_validate in Eb. rewrite Forall_forall in Eb.
  destruct (Eb site Hin) as [x Ex]. destruct (validate_and_normalize site) as [y|] eqn:Ev; [|done].
  unfold fixed_point. rewrite Ev. f_equal. by eapply validate_again.
Qed.

Lemma number_sites_canonical n sites : Forall canonical sites -> Forall canonical (number_sites n sites).
Proof.
  intros Hc. revert n. induction Hc as [|site sites Hs _ IH]; intros n; [constructor|]. rewrite number_sites_cons.
  constructor; [by apply canonical_id|apply IH].
Qed.

Lemma import_sites_canonical items acc out : Forall canonical acc.1 -> res_fold import_site items acc = Ok out ->
  Forall canonical out.1.
Proof.
  intros Hc E. eapply (res_fold_keeps (fun acc => Forall canonical acc.1)); [|exact Hc|exact E].
  intros item a a' Ha Ei. unfold import_site in Ei. res_inv. cbn. apply Forall_app. split; [done|].
  constructor; [|constructor]. by eapply validated_canonical.
Qed.

Lemma decoded_canonical encoded sites cs settings :
  decode_backup encoded = Ok (sites, cs, settings) -> Forall canonical sites.
Proof.
  intros E. unfold decode_backup in E. res_inv. unfold decode_document in E. cbv zeta in E. res_inv.
  by eapply import_sites_canonical; [|eassumption].
Qed.

(** The sites of [db'] that are not rows of [db] are fixed points of validation. *)
Definition adds_fixed (db db' : Store) : Prop :=
  forall site, site ∈ list_sites db' -> site ∈ list_sites db \/ fixed_point site.

Lemma adds_fixed_refl db db' : list_sites db' = list_sites db -> adds_fixed db db'.
Proof. intros E site. rewrite E. by left. Qed.
Lemma adds_fixed_trans db db' db'' : adds_fixed db db' -> adds_fixed db' db'' -> adds_fixed db db''.
Proof. intros Ha Hb site [Hin|?]%Hb; [by apply Ha|by right]. Qed.

Lemma import_fixed f encoded s u s' : store_wf (db_of s) -> import_configuration f encoded s = (Ok u, s') ->
  adds_fixed (db_of s) (db_of s').
Proof.
  intros Hwf (sites & cs & settings & spec & db & Hd & Hb & Hw & Hm)%import_outcome. rewrite (mv_repository _ _ _ _ _ Hm).
  apply replace_configuration_ok in Hw as (Hs & _); [|done]. intros site. rewrite Hs, number_sites_again. intros Hin. right.
  eapply candidate_fixed; [exact Hb|exact Hin|]. apply decoded_canonical, (number_sites_canonical (next_site_id (db_of s))) in Hd.
  rewrite Forall_forall in Hd. by apply Hd.
Qed.

Lemma create_site_fixed f site s stored s' : store_wf (db_of s) -> create_site f site s = (Ok stored, s') ->
  fixed_point stored /\ list_sites (db_of s') = list_sites (db_of s) ++ [stored].
Proof.
  intros Hwf (site' & spec & db & id & Hv & -> & Hb & Hw & Hm)%create_site_outcome. rewrite (mv_repository _ _ _ _ _ Hm).
  apply create_site_ok in Hw as (Hid & Hl & _); [|done]. split; [|by rewrite Hl].
  assert (E : set_s_id id (set_s_id (next_site_id (db_of s)) site') = set_s_id (next_site_id (db_of s)) site')
    by (rewrite Hid; by destruct site').
  rewrite E. eapply candidate_fixed; [exact Hb|set_solver|]. apply canonical_id. by eapply validated_canonical.
Qed.

Lemma update_site_fixed f site s stored s' : update_site f site s = (Ok stored, s') ->
  fixed_point stored /\
  list_sites (db_of s') = ((fun row => if s_id row =? s_id stored then stored else row) <$> list_sites (db_of s)).
Proof.
  intros (sites & spec & db & Hv & Hr & Hb & Hw & Hm)%update_site_outcome. rewrite (mv_repository _ _ _ _ _ Hm).
  apply update_site_ok in Hw as (Hl & _). split; [|by rewrite Hl].
  eapply candidate_fixed; [exact Hb| |by eapply validated_canonical]. unfold replace_site in Hr.
  destruct (list_find _ _) as [[i x]|] eqn:El; [|done]. injection Hr as <-. apply list_find_Some in El as (Hi & _).
  apply list_elem_of_lookup. exists i. apply list_lookup_insert_eq. by eapply lookup_lt_Some.
Qed.

Lemma serve_adds_fixed f op s u s' : store_wf (db_of s) -> serve f op s = (Ok u, s') -> adds_fixed (db_of s) (db_of s').
Proof.
  intros Hwf E. unfold serve in E. destruct op; try apply done_with_ok in E as [? E].
  - apply create_site_fixed in E as [Hf E]; [|done]. intros y. rewrite E. rewrite elem_of_app, list_elem_of_singleton.
    intros [?| ->]; [by left|by right].
  - apply update_site_fixed in E as [Hf E]. intros y. rewrite E. intros (row & -> & Hrow)%list_elem_of_fmap.
    case_match; [by right|by left].
  - apply delete_site_outcome in E as (spec & db & _ & Hw & Hm). rewrite (mv_repository _ _ _ _ _ Hm).
    apply delete_site_ok in Hw as (E & _). intros y. rewrite E. intros [_ Hy]%list_elem_of_filter. by left.
  - apply seed_certificate_outcome in E as [[-> _ _ _]|(c & spec & db & id & _ & _ & _ & Hw & Hm)]; [by apply adds_fixed_refl|].
    rewrite (mv_repository _ _ _ _ _ Hm). apply create_certificate_ok in Hw as (_ & E & _). by apply adds_fixed_refl.
  - apply create_certificate_outcome in E as (c & spec & db & id & _ & _ & Hw & Hm).
    rewrite (mv_repository _ _ _ _ _ Hm). apply create_certificate_ok in Hw as (_ & E & _). by apply adds_fixed_refl.
  - apply update_certificate_outcome in E as (spec & db & _ & Hw & Hm).
    rewrite (mv_repository _ _ _ _ _ Hm). apply update_certificate_ok in Hw as (_ & E & _). by apply adds_fixed_refl.
  - apply delete_certificate_outcome in E as (spec & db & _ & Hw & Hm).
    rewrite (mv_repository _ _ _ _ _ Hm). apply delete_certificate_ok in Hw as (_ & E & _). by apply adds_fixed_refl.
  - apply update_settings_outcome in E as (spec & db & _ & Hw & Hm).
    rewrite (mv_repository _ _ _ _ _ Hm). apply update_settings_ok in Hw as (_ & E & _). by apply adds_fixed_refl.
  - by eapply import_fixed.
  - apply reload_outcome in E as (spec & _ & _ & Hm). rewrite (mv_repository _ _ _ _ _ Hm). by apply adds_fixed_refl.
Qed.

(** ** The service keeps database and server together *)

(** The server runs what the database holds. *)
Definition in_sync (s : Service) : Prop :=
  reload_handler_ s = true ->
  active_revision_ s = config_revision (db_of s) /\
  exists spec, describes spec (db_of s) /\ RuntimeConfig spec = Ok (published (runtime s)).

Record service_ok (s : Service) : Prop := {
  so_store : store_wf (db_of s);
  so_sync : in_sync s
}.

Lemma unchanged_ok s s' : unchanged s s' -> service_ok s -> service_ok s'.
Proof. intros [E1 E2 E3 E4] []. constructor; unfold in_sync; by rewrite ?E1, ?E2, ?E3, ?E4. Qed.

Lemma advanced_ok s s' : advanced s s' -> service_ok s'.
Proof.
  intros (Hwf & spec & Hd & Hm). constructor; [done|]. intros Hh.
  destruct Hm as [_ Hh' Hl]. rewrite Hh in Hh'. rewrite <-Hh' in Hl. destruct Hl as [? ?]. eauto.
Qed.

Lemma serve_ok f op s : service_ok s -> service_ok (serve f op s).2.
Proof.
  intros Hs. destruct (serve f op s) as [[u|e] s'] eqn:E; cbn.
  - destruct (serve_advances _ _ _ _ _ (so_store _ Hs) E) as [Hu|Ha]; [by eapply unchanged_ok|by eapply advanced_ok].
  - eapply unchanged_ok; [|done]. by eapply serve_throws.
Qed.

Lemma serve_keeps_fixed f op s : service_ok s -> adds_fixed (db_of s) (db_of (serve f op s).2).
Proof.
  intros Hs. destruct (serve f op s) as [[u|e] s'] eqn:E; cbn; [by eapply serve_adds_fixed; [apply Hs|]|].
  apply serve_throws in E as [E _ _ _]. rewrite E. by apply adds_fixed_refl.
Qed.

(** The start: seeding the example site, before there is a server. *)
Lemma initialize_ok f s : store_wf (db_of s) -> reload_handler_ s = false ->
  service_ok (initialize f s).2 /\ reload_handler_ (initialize f s).2 = false /\
  (is_ok (initialize f s).1 = true -> active_revision_ (initialize f s).2 = config_revision (db_of (initialize f s).2)).
Proof.
  intros Hwf Hh. unfold initialize. pose proof (seed_default_site_keeps (write_fault f) (db_of s) Hwf) as Hk.
  destruct (seed_default_site _ _) as [[u|e] db]; cbn in *; (split_and!; [|done|done]); (constructor; [done|]);
    intros Hc; cbn in Hc; congruence.
Qed.

Definition serve_all (ops : list (fault * service_op)) (s : Service) : Service :=
  foldl (fun s op => (serve op.1 op.2 s).2) s ops.

Lemma serve_all_ok ops s : service_ok s -> service_ok (serve_all ops s).
Proof.
  unfold serve_all. induction ops as [|op ops IH] in s |- *; cbn; intros Hs; [done|]. by apply IH, serve_ok.
Qed.

Lemma serve_all_fixed ops s : service_ok s -> adds_fixed (db_of s) (db_of (serve_all ops s)).
Proof.
  unfold serve_all. induction ops as [|op ops IH] in s |- *; cbn; intros Hs; [by apply adds_fixed_refl|].
  eapply adds_fixed_trans; [by apply serve_keeps_fixed|]. apply IH. by apply serve_ok.
Qed.

(** *** The order of the certificates

    A candidate with a new or changed certificate has it where the operation put
    it, [list_certificates] lists the default one first and then by key.  The other
    operations take over the order of the database. *)
Definition keeps_order (op : service_op) : bool :=
  match op with
  | SCreateSite _ | SUpdateSite _ | SDeleteSite _ | SDeleteCertificate _ | SUpdateSettings _ | SReload => true
  | _ => false
  end.

(** The server runs exactly what a restart would load. *)
Definition as_restarted (s : Service) : Prop :=
  exists spec, load_runtime_config s = Ok spec /\ RuntimeConfig spec = Ok (published (runtime s)).

Lemma moved_as_restarted sites cs settings spec s s' db :
  build_runtime_spec sites cs settings (next s) = Ok spec -> moved spec (next s) db s s' -> next s = config_revision db ->
  sites = list_sites db -> cs = list_certificates db -> settings = runtime_settings db -> reload_handler_ s = true ->
  as_restarted s'.
Proof.
  intros Hb [Hdb _ Hl] Hr -> -> -> Hh. rewrite Hh in Hl. destruct Hl as [_ Hl]. exists spec. split; [|done].
  unfold load_runtime_config, build_runtime_spec_locked. by rewrite Hdb, <-Hr.
Qed.

Lemma written_next {A} op w (write : Store -> res A * Store) (s : Service) a db :
  configuration_op op = true -> perform w op (db_of s) = forget (write (db_of s)) -> write (db_of s) = (Ok a, db) ->
  next s = config_revision db.
Proof. intros Hop Hp Hw. apply next_is_stored. by eapply written_revision. Qed.

Lemma listed_as (db db' : Store) : certificate_rows db' = certificate_rows db -> list_certificates db = list_certificates db'.
Proof. intros E. unfold list_certificates. by rewrite E. Qed.

Lemma serve_as_restarted f op s u s' : store_wf (db_of s) -> keeps_order op = true -> reload_handler_ s = true ->
  serve f op s = (Ok u, s') -> as_restarted s'.
Proof.
  intros Hwf Ho Hh E. unfold serve in E. destruct op; try done; try apply done_with_ok in E as [? E].
  - apply create_site_outcome in E as (site' & spec & db & id & _ & _ & Hb & Hw & Hm).
    assert (Hr : next s = config_revision db) by (by eapply (written_next (OpCreateSite _))).
    apply create_site_ok in Hw as (-> & Hs & Hc & Hset); [|done].
    eapply moved_as_restarted; try done. by apply listed_as.
  - apply update_site_outcome in E as (sites & spec & db & _ & Hrep & Hb & Hw & Hm).
    assert (Hr : next s = config_revision db) by (eapply (written_next (OpUpdateSite _)); [done|apply forget_unit|exact Hw]).
    apply update_site_ok in Hw as (Hs & Hc & Hset). eapply moved_as_restarted; try done; [|by apply listed_as].
    rewrite Hs. apply replace_site_spec; [|done]. eapply sorted_keys_nodup. apply Hwf.
  - apply delete_site_outcome in E as (spec & db & Hb & Hw & Hm).
    assert (Hr : next s = config_revision db) by (eapply (written_next (OpDeleteSite _)); [done|apply forget_unit|exact Hw]).
    apply delete_site_ok in Hw as (Hs & Hc & Hset). eapply moved_as_restarted; try done. by apply listed_as.
  - apply delete_certificate_outcome in E as (spec & db & Hb & Hw & Hm).
    assert (Hr : next s = config_revision db) by (eapply (written_next (OpDeleteCertificate _)); [done|apply forget_unit|exact Hw]).
    apply delete_certificate_ok in Hw as (Hc & Hs & Hset). eapply moved_as_restarted; try done.
    unfold list_certificates. rewrite Hc, filter_app, !list_filter_filter. f_equal; apply list_filter_iff; tauto.
  - apply update_settings_outcome in E as (spec & db & Hb & Hw & Hm).
    assert (Hr : next s = config_revision db) by (eapply (written_next (OpUpdateSettings _)); [done|apply forget_unit|exact Hw]).
    apply update_settings_ok in Hw as (Hc & Hs & Hset). eapply moved_as_restarted; try done. by apply listed_as.
  - apply reload_outcome in E as (spec & Hb & _ & [Hdb _ Hl]). rewrite Hh in Hl. destruct Hl as [_ Hl]. exists spec.
    split; [|done]. unfold load_runtime_config. by rewrite Hdb.
Qed.

(** ** Properties *)

(** C6: A change that fails leaves no trace.  Whatever an operation of the service
    throws (invalid input, a server that refuses the candidate, a database that
    fails before or during the write), the database, the active revision, the
    reload handler and the configuration the server has published are as before. *)
Theorem failed_change_leaves_no_trace f op (s s' : Service) e : serve f op s = (Throw e, s') ->
  repository_ s' = repository_ s /\ active_revision_ s' = active_revision_ s /\
  reload_handler_ s' = reload_handler_ s /\ published (runtime s') = published (runtime s).
Proof. intros []%serve_throws. done. Qed.


(** Validation is idempotent: what [validate_and_normalize] returns, it returns
    unchanged if it accepts it again, so the runtime site is built from exactly the
    fields that are stored. *)
Theorem validation_idempotent site site' :
  validate_and_normalize site = Ok site' -> is_ok (validate_and_normalize site') = true -> fixed_point site'.
Proof.
  intros Hv. unfold fixed_point. destruct (validate_and_normalize site') as [site''|] eqn:E; [intros _|done].
  f_equal. eapply validate_again; [|exact E]. by eapply validated_canonical.
Qed.

End Service.

(** ** A text format that reads the columns the program itself writes as literals

    The token format of Json.v, which also reads the three JSON literals of the
    seeded site. *)

Definition known_text (t : str) : option json :=
  if bool_decide (t = b!"[]") then Some (JArray [])
  else if bool_decide (t = default_extensions_text)
       then Some (JArray (JString <$> [b!"jpg"; b!"jpeg"; b!"png"; b!"gif"; b!"webp"; b!"mp4"; b!"zip"]))
  else if bool_decide (t = default_url_auth_text)
       then Some (JObject (list_to_map [(b!"enabled", JBool false); (b!"scope", JString b!"all"); (b!"primary_key", JString []);
              (b!"backup_key", JString []); (b!"validity_seconds", JInt 1800); (b!"protected_uris", JArray [])]))
  else None.
Definition stored_parse (t : str) : option json := match known_text t with Some j => Some j | None => token_parse t end.

Lemma print_tokens_head l : l <> [] -> exists c r, print_tokens l = c :: r /\ c ∈ [("n" : ascii); "p"; "s"]%char.
Proof. destruct l as [|[[n tag]|[p|s]] l]; [done|..]; intros _; do 2 eexists; (split; [reflexivity|set_solver]). Qed.
Lemma known_token j : known_text (token_dump j) = None.
Proof.
  destruct (print_tokens_head (gen_tree_to_list (tree_of j))) as (c & r & E & Hc).
  { destruct (tree_of j) as [x|n ts]; cbn; intros Hn; [done|]. by apply app_nil in Hn as [_ ?]. }
  unfold token_dump, known_text. rewrite E.
  assert (Hne : forall d t, d ∉ [("n" : ascii); "p"; "s"]%char -> bool_decide (c :: r = d :: t) = false).
  { intros d t Hd. apply bool_decide_eq_false. intros [= -> _]. done. }
  change b!"[]" with ["["; "]"]%char.
  change default_extensions_text with ("["%char :: tail default_extensions_text).
  change default_url_auth_text with ("{"%char :: tail default_url_auth_text).
  rewrite !Hne; [done|..]; by vm_compute; intros Hin; repeat (apply elem_of_cons in Hin as [[=]|Hin]); apply elem_of_nil in Hin.
Qed.

#[refine] Instance stored_json : JsonText := {
  json_parse := stored_parse;
  json_dump j := Some (token_dump j);
  json_dump2 j := Some (token_dump j);
  storable _ := True
}.
Proof.
  - by vm_compute.
  - done.
  - intros j _. exists (token_dump j). unfold stored_parse. by rewrite known_token, token_round.
  - intros j _. exists (token_dump j). unfold stored_parse. by rewrite known_token, token_round.
  - done.
  - done.
  - done.
  - intros l. split; [intros _; by apply Forall_true|done].
  - intros m. split; [by intros _ k j|done].
Defined.

(** ** A sample service

    The server is one that publishes a configuration as soon as it is committed. *)

Section Sample.
#[local] Existing Instance stored_json.
#[local] Existing Instance loopback_only.
#[local] Existing Instance no_regex.
#[local] Existing Instance permissive_openssl.

#[local, refine] Instance direct_target : ReloadTarget Config := {
  prepared := Config;
  prepare_reload spec r := (match RuntimeConfig spec with Ok c => Ok (Some c) | Throw e => Throw e end, r);
  commit_reload c _ := c;
  discard_reload _ r := r;
  published r := r
}.
Proof.
  - done.
  - done.
  - intros spec r p r'. cbn. destruct (RuntimeConfig spec); [|done]. by intros [= -> ->].
Defined.

Definition sample_site (name : str) (domains : list str) : SiteRecord :=
  set_s_url_auth_json (token_dump (JObject ∅)) (set_s_hotlink_allowed_hosts_json (token_dump (JArray []))
    (set_s_hotlink_extensions_json (token_dump (JArray [])) (set_s_redirect_rules_json (token_dump (JArray []))
      (set_s_acl_rules_json (token_dump (JArray [])) (default_site name domains b!"127.0.0.1" 8080))))).

Definition empty_config : Config :=
  match RuntimeConfig {| spec_revision := 1; spec_sites := []; spec_tls_certificates := []; spec_reject_unknown_sni := true;
                         spec_settings := default_settings |} with
  | Ok c => c
  | Throw _ => Build_Config 0 [] [] ∅ ∅ ∅ ∅ None default_settings []
  end.

Definition sample_service : Service Config :=
  {| repository_ := migrate; active_revision_ := 1; reload_handler_ := true; runtime := empty_config |}.

Lemma sample_service_ok : service_ok sample_service.
Proof.
  constructor; [apply migrate_wf|]. intros _. split; [done|]. eexists. split.
  - eexists. split; [vm_compute; reflexivity|]. apply same_spec_refl.
  - vm_compute. reflexivity.
Qed.

Lemma failed_change_leaves_no_trace_witness :
  let s' := (serve (write_fails b!"disk full") (SCreateSite (sample_site b!"a" [b!"a.test"])) sample_service).2 in
  serve (write_fails b!"disk full") (SCreateSite (sample_site b!"a" [b!"a.test"])) sample_service
    = (Throw (runtime_error b!"disk full"), s') /\
  repository_ s' = migrate /\ active_revision_ s' = 1 /\ published (runtime s') = empty_config.
Proof.
  intros s'. assert (E : serve (write_fails b!"disk full") (SCreateSite (sample_site b!"a" [b!"a.test"])) sample_service
    = (Throw (runtime_error b!"disk full"), s')).
  { rewrite (surjective_pairing (serve _ _ _)). unfold s'. vm_compute. reflexivity. }
  split; [exact E|].
  destruct (failed_change_leaves_no_trace (write_fails b!"disk full") (SCreateSite (sample_site b!"a" [b!"a.test"]))
    sample_service s' (runtime_error b!"disk full") E) as (H1 & H2 & _ & H4). clearbody s'. exact (conj H1 (conj H2 H4)).
Defined.

(** A new database as [run_server] prepares it: migrated, the example site and its
    certificate seeded; the server runs what was loaded. *)
Definition seeded : Service Config := serve_all
  [(no_fault, SSeedCertificate b!"development" [b!"example.com"; b!"www.example.com"] b!"pem" b!"key")]
  (initialize no_fault {| repository_ := migrate; active_revision_ := 0; reload_handler_ := false; runtime := empty_config |}).2.
Definition launched : Service Config := Eval vm_compute in
  {| repository_ := repository_ seeded; active_revision_ := active_revision_ seeded; reload_handler_ := true;
     runtime := match load_runtime_config seeded with
                | Ok spec => match RuntimeConfig spec with Ok c => c | Throw _ => empty_config end
                | Throw _ => empty_config
                end |}.

Lemma launched_ok : service_ok launched.
Proof.
  assert (E : repository_ launched = repository_ seeded) by (vm_compute; reflexivity). constructor.
  - rewrite E. apply so_store, serve_all_ok. by apply initialize_ok; [apply migrate_wf|].
  - intros _. split; [vm_compute; reflexivity|]. eexists. split.
    + eexists. split; [vm_compute; reflexivity|]. apply same_spec_refl.
    + vm_compute. reflexivity.
Qed.


Lemma validation_idempotent_witness :
  let site := sample_site b!"a" [b!"A.Test."; b!"*.B.test"] in
  exists site', validate_and_normalize site = Ok site' /\ s_domains site' = [b!"a.test"; b!"*.b.test"] /\
    fixed_point site'.
Proof.
  intros site. destruct (validate_and_normalize site) as [site'|] eqn:E; [|vm_compute in E; discriminate E].
  exists site'. split; [reflexivity|]. split; [vm_compute in E; injection E as <-; reflexivity|].
  apply (validation_idempotent site site' E). vm_compute in E. injection E as <-. vm_compute. reflexivity.
Defined.

(** A bracketed IPv6 literal is accepted as a domain and as an SNI but written
    back without its brackets; the next check refuses that form, so no site can be
    created with one. *)
Definition set_sni (sni : str) (site : SiteRecord) : SiteRecord :=
  set_s_backend_tls_sni sni (set_s_backend_protocol b!"https" site).

Theorem ipv6_literal_refused_after_normalizing :
  normalize_domain b!"[2001:db8::1]" = Some b!"2001:db8::1" /\
  validate_and_normalize (sample_site b!"six" [b!"[2001:db8::1]"]) =
    Throw (invalid_argument b!"invalid policy host pattern: 2001:db8::1") /\
  is_ok (validate_and_normalize (set_sni b!"[2001:db8::1]" (sample_site b!"six" [b!"a.test"]))) = true /\
  (create_site no_fault (set_sni b!"[2001:db8::1]" (sample_site b!"six" [b!"a.test"])) sample_service).1 =
    Throw (invalid_argument b!"invalid backend TLS SNI").
Proof. split_and!; vm_compute; reflexivity. Qed.

(** Which certificate serves clients without SNI depends on the order of the
    certificates when none is the default.  Demoting the default keeps it first in
    the running server, a restart puts the oldest first. *)
Definition certificate (id : Z) (name : str) (is_default : bool) (domain : str) : CertificateRecord :=
  {| c_id := id; c_name := name; c_enabled := true; c_is_default := is_default; c_domains := [domain];
     c_certificate_pem := b!"pem"; c_private_key_pem := b!"key" |}.

Definition two_certificates : Service Config := serve_all
  [(no_fault, SCreateCertificate (certificate 0 b!"old" false b!"a.test"));
   (no_fault, SCreateCertificate (certificate 0 b!"new" true b!"b.test"));
   (no_fault, SCreateSite (set_s_https_enabled true (sample_site b!"a" [b!"a.test"])))] sample_service.

Definition default_name (c : Config) : option str :=
  m ← tls_contexts c; i ← default_context m; h ← contexts m !! i; Some (ctx_name h).

Theorem demoted_default_differs_after_restart :
  let s := serve_all [(no_fault, SUpdateCertificate (certificate 2 b!"new" false b!"b.test"))] two_certificates in
  restart_required s = false /\ default_name (published (runtime s)) = Some b!"new" /\
  (default_name <$> match load_runtime_config s with
                    | Ok spec => match RuntimeConfig spec with Ok c => Some c | Throw _ => None end
                    | Throw _ => None
                    end) = Some (Some b!"old").
Proof. split_and!; vm_compute; reflexivity. Qed.

End Sample.
