(* ===== verification/ConfigBackup.v ===== *)
(** * Configuration backups (src/src/config/ConfigService.cpp)

    [export_configuration] writes the stored configuration as one JSON document,
    [import_configuration] reads it back through the same validation as the
    administration interface.  The theorem is the round trip: a backup decodes to
    the sites, certificates and settings it was taken from, and importing it
    stores them.  Stored sites need not be in the form validation writes: the JSON
    columns of the seeded example site have their keys in another order, and come
    back in the order of [dump]. *)

From S2P Require Import Prelude IpAddress HostNormalizer ClientIpResolver UrlAuthenticator Json RateLimiter.
From S2P Require Import RequestPolicy VirtualHostRouter TlsContextManager RuntimeConfig AuthService ConfigRepository.
From S2P Require Import ConfigService ConfigServiceSpec.

(** Members of an object written as a list. *)
Fixpoint assoc (k : str) (l : list (str * json)) : option json :=
  match l with
  | [] => None
  | (k', v) :: l => if bool_decide (k = k') then Some v else assoc k l
  end.

Lemma assoc_spec k l : (list_to_map l : gmap str json) !! k = assoc k l.
Proof.
  induction l as [|[k' v] l IH]; cbn; [apply lookup_empty|]. case_bool_decide as E.
  - subst. by rewrite lookup_insert_eq.
  - by rewrite lookup_insert_ne, IH.
Qed.

Lemma at_get_object {A} (get : json -> res A) k l v : assoc k l = Some v -> at_get get k (j_object l) = get v.
Proof. intros E. unfold at_get, j_at, j_object. by rewrite assoc_spec, E. Qed.
Lemma j_value_object {A} (get : json -> res A) k d l v : assoc k l = Some v -> j_value get k d (j_object l) = get v.
Proof. intros E. unfold j_value, j_object. by rewrite assoc_spec, E. Qed.
Lemma j_contains_object k l v : assoc k l = Some v -> j_contains k (j_object l) = true.
Proof. intros E. unfold j_contains, j_object. rewrite assoc_spec, E. by apply bool_decide_eq_true. Qed.
Lemma j_at_object k l v : assoc k l = Some v -> j_at k (j_object l) = Ok v.
Proof. intros E. unfold j_at, j_object. by rewrite assoc_spec, E. Qed.
Lemma get_strings_strings l : get_strings (j_strings l) = Ok l.
Proof. unfold get_strings, j_strings. induction l as [|x l IH]; cbn; [done|]. by rewrite IH. Qed.

Lemma wrap_s_small w z : 0 < w -> 0 <= z < 2 ^ (w - 1) -> wrap_s w z = z.
Proof.
  intros Hw Hz. unfold wrap_s. assert (2 ^ w = 2 ^ (w - 1) + 2 ^ (w - 1)) as E.
  { replace w with (Z.succ (w - 1)) at 1 by lia. rewrite Z.pow_succ_r by lia. lia. }
  rewrite Z.mod_small; lia.
Qed.

Lemma backup_u32_object k d l z : assoc k l = Some (JInt z) -> 0 <= z < 2 ^ 32 -> backup_u32 (j_object l) k d = Ok z.
Proof.
  intros E Hz. unfold backup_u32. rewrite (j_contains_object _ _ _ E), (at_get_object _ _ _ _ E). cbn [negb].
  unfold get_i64. cbn [get_wide mbind res_bind]. rewrite wrap_s_small by lia. unfold throw_if.
  by rewrite (proj2 (Z.ltb_ge _ _)), (proj2 (Z.ltb_ge _ _)) by lia.
Qed.
Lemma backup_port_object k d l z : assoc k l = Some (JInt z) -> 1 <= z < 2 ^ 16 -> backup_port (j_object l) k d = Ok z.
Proof.
  intros E Hz. unfold backup_port. rewrite (backup_u32_object _ _ _ _ E) by lia. cbn [mbind res_bind]. unfold throw_if.
  by rewrite (proj2 (Z.eqb_neq _ _)), (proj2 (Z.ltb_ge _ _)) by lia.
Qed.

Section Backup.
Context `{JsonText} `{AddressText} `{Regex} `{OpenSsl}.

Lemma value_dump_object k d l j t : assoc k l = Some j -> dump j = Ok t -> value_dump (j_object l) k d = Ok t.
Proof. intros E Et. unfold value_dump. by rewrite (j_value_object _ _ _ _ _ E). Qed.

(** The numeric members of a site as validation and the Admin API leave them. *)
Record site_numbers (site : SiteRecord) : Prop := {
  sn_backend_port : 1 <= s_backend_port site < 2 ^ 16;
  sn_http_port : 1 <= s_http_port site < 2 ^ 16;
  sn_https_port : 1 <= s_https_port site < 2 ^ 16;
  sn_connect : 0 <= s_backend_connect_timeout_seconds site < 2 ^ 32;
  sn_response : 0 <= s_backend_response_timeout_seconds site < 2 ^ 32;
  sn_window : 0 <= s_rate_limit_window_seconds site < 2 ^ 32;
  sn_requests : 0 <= s_rate_limit_max_requests site < 2 ^ 32;
  sn_ban : 0 <= s_rate_limit_ban_seconds site < 2 ^ 32;
  sn_active : 0 <= s_backend_max_active_connections site < 2 ^ 32;
  sn_queue : 0 <= s_backend_max_queue site < 2 ^ 32;
  sn_timeout : 0 <= s_backend_queue_timeout_seconds site < 2 ^ 32
}.

Lemma checked_bounds v lo hi name x : checked_u32 v lo hi name = Ok x -> lo <= v <= hi.
Proof. unfold checked_u32. destruct (_ || _) eqn:E; [done|]. intros _. bool_to_prop. lia. Qed.

Lemma runtime_policy_bounds site policy : runtime_policy site = Ok policy ->
  1 <= s_rate_limit_window_seconds site <= 3600 /\ 1 <= s_rate_limit_max_requests site <= 1000000 /\
  0 <= s_rate_limit_ban_seconds site <= 86400.
Proof.
  unfold runtime_policy. intros E. res_inv.
  repeat match goal with Hc : checked_u32 _ _ _ _ = _ |- _ => apply checked_bounds in Hc end. done.
Qed.

(** The ports are the only numbers validation leaves to the parser of the request. *)
Definition ports_ok (site : SiteRecord) : Prop :=
  s_backend_port site < 2 ^ 16 /\ 0 < s_backend_port site /\
  1 <= s_http_port site < 2 ^ 16 /\ 1 <= s_https_port site < 2 ^ 16.

Lemma fixed_numbers site : validate_and_normalize site = Ok site -> ports_ok site -> site_numbers site.
Proof.
  intros E (Hb & Hb0 & Hh & Hs). pose proof (validated_canonical _ _ E) as Hc.
  unfold validate_and_normalize in E. res_inv. apply catch_json_ok in E. unfold check_policy in E.
  destruct (canonicalize_json _) as [x|] eqn:Ex; [|done]. cbn [mbind res_bind] in E.
  destruct (runtime_policy x) as [policy|] eqn:Ep; [|done]. apply runtime_policy_bounds in Ep as (Hw & Hr & Hban).
  cbn [mbind res_bind] in E. res_inv.
  unfold check_members in Eb. res_inv.
  repeat match goal with Hk : checked_u32 _ _ _ _ = _ |- _ => apply checked_bounds in Hk end.
  constructor; lia.
Qed.

Local Ltac read_member :=
  first [ erewrite at_get_object by reflexivity
        | erewrite j_value_object by reflexivity
        | erewrite backup_port_object; [|reflexivity|lia]
        | erewrite backup_u32_object; [|reflexivity|lia]
        | erewrite value_dump_object; [|reflexivity|eassumption] ];
  rewrite ?get_strings_strings; cbn [mbind res_bind get_string get_bool get_json].

Lemma read_exported_site site item : canonical site -> site_numbers site -> export_site site = Ok item ->
  read_site item = Ok (set_s_id 0 site).
Proof.
  intros Hc Hn. destruct Hn. destruct Hc as [_ _ _ _ (j1 & P1 & D1 & T1) (j2 & P2 & D2 & T2) (j3 & P3 & D3 & T3)
    (j4 & P4 & D4 & T4) (j5 & P5 & D5 & T5)].
  unfold export_site. rewrite P1, P2, P3, P4, P5. cbn [mbind res_bind]. intros [= <-].
  match goal with |- read_site (j_object ?x) = _ => set (l := x) end.
  unfold read_site. change (is_object (j_object l)) with true. cbn [negb].
  do 32 read_member. by destruct site.
Qed.

(** The same site but for the text of its JSON columns. *)
Record reworded (site site' : SiteRecord) : Prop := {
  rw_rest : site' = set_s_url_auth_json (s_url_auth_json site')
    (set_s_hotlink_allowed_hosts_json (s_hotlink_allowed_hosts_json site')
      (set_s_hotlink_extensions_json (s_hotlink_extensions_json site')
        (set_s_redirect_rules_json (s_redirect_rules_json site') (set_s_acl_rules_json (s_acl_rules_json site') site))));
  rw_acl : parse (s_acl_rules_json site') = parse (s_acl_rules_json site);
  rw_redirects : parse (s_redirect_rules_json site') = parse (s_redirect_rules_json site);
  rw_extensions : parse (s_hotlink_extensions_json site') = parse (s_hotlink_extensions_json site);
  rw_hosts : parse (s_hotlink_allowed_hosts_json site') = parse (s_hotlink_allowed_hosts_json site);
  rw_url_auth : parse (s_url_auth_json site') = parse (s_url_auth_json site)
}.

(** [site'] is what validation makes of [site]: a fixed point, with the same values
    in the JSON columns. *)
Definition restores (site site' : SiteRecord) : Prop := fixed_point site' /\ reworded site site'.

(** A site in the form validation writes is restored to itself. *)
Lemma restores_fixed site site' : fixed_point site -> restores site site' -> site' = site.
Proof.
  intros Hf [Hf' [E E1 E2 E3 E4 E5]]. apply fixed_canonical in Hf, Hf'.
  destruct Hf as [_ _ _ _ (j1 & P1 & D1 & _) (j2 & P2 & D2 & _) (j3 & P3 & D3 & _) (j4 & P4 & D4 & _) (j5 & P5 & D5 & _)].
  destruct Hf' as [_ _ _ _ (k1 & Q1 & F1 & _) (k2 & Q2 & F2 & _) (k3 & Q3 & F3 & _) (k4 & Q4 & F4 & _) (k5 & Q5 & F5 & _)].
  rewrite E. apply set_same_json; congruence.
Qed.

Lemma export_reworded site site' : reworded site site' -> export_site site' = export_site site.
Proof.
  intros [E E1 E2 E3 E4 E5]. unfold export_site. rewrite E1, E2, E3, E4, E5. by rewrite E.
Qed.

(** Validation ignores the key. *)
Definition keyed (id : Z) (r : res SiteRecord) : res SiteRecord := x ← r; Ok (set_s_id id x).

Lemma protocol_keyed id site : normalize_protocol (set_s_id id site) = keyed id (normalize_protocol site).
Proof.
  unfold normalize_protocol, keyed. cbv zeta. change (s_backend_protocol (set_s_id id site)) with (s_backend_protocol site).
  change (s_backend_protocol (set_s_backend_protocol ?v ?x)) with v. by destruct (_ && _).
Qed.
Lemma address_keyed id site : normalize_address (set_s_id id site) = keyed id (normalize_address site).
Proof.
  unfold normalize_address, keyed. change (s_backend_address (set_s_id id site)) with (s_backend_address site).
  destruct (make_address _); [done|]. by destruct (normalize_domain _).
Qed.
Lemma sni_keyed id site : normalize_sni (set_s_id id site) = keyed id (normalize_sni site).
Proof.
  unfold normalize_sni, keyed. change (s_backend_tls_sni (set_s_id id site)) with (s_backend_tls_sni site).
  destruct (bool_decide (s_backend_tls_sni site = [])); [|destruct (normalize_domain _) as [n|]; [|done]];
    cbn [mbind res_bind]; change (s_backend_protocol (set_s_id id site)) with (s_backend_protocol site).
  - change (s_backend_tls_sni (set_s_id id site)) with (s_backend_tls_sni site). by destruct (_ && _).
  - change (s_backend_tls_sni (set_s_backend_tls_sni ?v ?x)) with v.
    change (s_backend_protocol (set_s_backend_tls_sni n ?x)) with (s_backend_protocol site). by destruct (_ && _).
Qed.
Lemma canonicalize_keyed id site : canonicalize_json (set_s_id id site) = keyed id (canonicalize_json site).
Proof.
  unfold canonicalize_json, keyed.
  change (s_acl_rules_json (set_s_id id site)) with (s_acl_rules_json site).
  change (s_redirect_rules_json (set_s_id id site)) with (s_redirect_rules_json site).
  change (s_hotlink_extensions_json (set_s_id id site)) with (s_hotlink_extensions_json site).
  change (s_hotlink_allowed_hosts_json (set_s_id id site)) with (s_hotlink_allowed_hosts_json site).
  change (s_url_auth_json (set_s_id id site)) with (s_url_auth_json site).
  repeat (match goal with |- context [parse ?t] => destruct (parse t); [|done] end; cbn [mbind res_bind]).
  destruct (_ || _); [done|].
  by repeat (match goal with |- context [dump ?t] => destruct (dump t); [|done] end; cbn [mbind res_bind]).
Qed.
Lemma check_policy_keyed id site : check_policy (set_s_id id site) = keyed id (check_policy site).
Proof.
  unfold check_policy. rewrite canonicalize_keyed. unfold keyed. destruct (canonicalize_json site) as [x|]; [|done].
  cbn [mbind res_bind]. change (runtime_policy (set_s_id id x)) with (runtime_policy x).
  change (runtime_url_auth (set_s_id id x)) with (runtime_url_auth x).
  change (s_domains (set_s_id id x)) with (s_domains x).
  destruct (runtime_policy x); [|done]. cbn [mbind res_bind]. destruct (RequestPolicy _ _); [|done].
  cbn [mbind res_bind]. destruct (runtime_url_auth x); [|done]. cbn [mbind res_bind]. by destruct (UrlAuthenticator _).
Qed.

Lemma validate_keyed id site : validate_and_normalize (set_s_id id site) = keyed id (validate_and_normalize site).
Proof.
  unfold validate_and_normalize. change (check_members (set_s_id id site)) with (check_members site).
  destruct (check_members site); [|done]. cbn [mbind res_bind]. rewrite protocol_keyed. unfold keyed at 1.
  destruct (normalize_protocol site) as [s1|]; [|done]. cbn [mbind res_bind]. rewrite address_keyed. unfold keyed at 1.
  destruct (normalize_address s1) as [s2|]; [|done]. cbn [mbind res_bind].
  change (check_backend_host (set_s_id id s2)) with (check_backend_host s2).
  destruct (check_backend_host s2); [|done]. cbn [mbind res_bind]. rewrite sni_keyed. unfold keyed at 1.
  destruct (normalize_sni s2) as [s3|]; [|done]. cbn [mbind res_bind].
  change (s_domains (set_s_id id s3)) with (s_domains s3). destruct (res_fold _ _ _) as [l|]; [|done]. cbn [mbind res_bind].
  change (set_s_domains l (set_s_id id s3)) with (set_s_id id (set_s_domains l s3)). rewrite check_policy_keyed.
  by destruct (check_policy (set_s_domains l s3)) as [|[]].
Qed.

Lemma insert_global domains taken : NoDup (taken ++ domains) ->
  res_fold (fun domain global_domains =>
    if bool_decide (domain ∈ global_domains)
    then Throw (invalid_argument (b!"duplicate site domain in configuration backup: " ++ domain))
    else Ok (global_domains ++ [domain])) domains taken = Ok (taken ++ domains).
Proof.
  induction domains as [|d domains IH] in taken |- *; cbn [res_fold]; intros Hnd; [by rewrite app_nil_r|].
  rewrite bool_decide_eq_false_2.
  2: { intros Hin. apply NoDup_app in Hnd as (_ & Hn & _). apply (Hn d Hin). left. }
  rewrite IH; by rewrite <-app_assoc.
Qed.

Lemma restored_domains sites sites' : Forall2 restores sites sites' -> hostnames sites' = hostnames sites.
Proof.
  induction 1 as [|site site' sites sites' [_ [E _ _ _ _ _]] _ IH]; [done|].
  change (s_domains site' ++ hostnames sites' = s_domains site ++ hostnames sites). by rewrite IH, E.
Qed.
Lemma restored_ports sites sites' : Forall2 restores sites sites' -> Forall ports_ok sites -> Forall ports_ok sites'.
Proof.
  induction 1 as [|site site' sites sites' [_ [E _ _ _ _ _]] _ IH]; [done|]. intros [Hp Hps]%Forall_cons.
  constructor; [by rewrite E|by apply IH].
Qed.
Lemma restored_exports sites sites' : Forall2 restores sites sites' -> res_map export_site sites' = res_map export_site sites.
Proof.
  induction 1 as [|site site' sites sites' [_ Hr] _ IH]; [done|]. cbn [res_map]. by rewrite (export_reworded _ _ Hr), IH.
Qed.

Lemma import_exported_sites sites items done taken :
  Forall fixed_point sites -> Forall ports_ok sites ->
  NoDup (taken ++ hostnames sites) -> res_map export_site sites = Ok items ->
  res_fold import_site items (done, taken) = Ok (done ++ (set_s_id 0 <$> sites), taken ++ hostnames sites).
Proof.
  induction sites as [|site sites IH] in items, done, taken |- *; intros Hf Hp Hnd; cbn [res_map].
  { intros [= <-]. cbn. by rewrite !app_nil_r. }
  inversion_clear Hf. inversion_clear Hp. destruct (export_site site) as [item|] eqn:Ei; [|done].
  destruct (res_map export_site sites) as [items'|] eqn:Es; [|done]. intros [= <-]. cbn [res_fold].
  change (hostnames (site :: sites)) with (s_domains site ++ hostnames sites) in *.
  unfold import_site at 1. rewrite (read_exported_site site) by eauto using fixed_numbers, validated_canonical.
  cbn [mbind res_bind]. rewrite validate_keyed. match goal with Hv : fixed_point site |- _ => rewrite Hv end.
  cbn [keyed mbind res_bind]. change (s_domains (set_s_id 0 site)) with (s_domains site). rewrite app_assoc in Hnd.
  rewrite insert_global by (by apply NoDup_app in Hnd as [? _]). cbn [mbind res_bind snd fst].
  rewrite IH by done. by rewrite fmap_cons, <-!app_assoc.
Qed.

Lemma validate_certificate_keyed id c : validate_and_normalize_certificate c = Ok c ->
  validate_and_normalize_certificate (set_c_id id c) = Ok (set_c_id id c).
Proof.
  unfold validate_and_normalize_certificate. cbn [set_c_id c_name c_certificate_pem c_private_key_pem c_domains].
  do 2 (match goal with |- throw_if ?b _ ≫= _ = _ -> _ => destruct b; [done|]; cbn [throw_if mbind res_bind] end).
  destruct (res_fold _ _ _) as [domains|]; [|done]. cbn [mbind res_bind]. cbv zeta.
  change (tls_config true (set_c_domains domains (set_c_id id c))) with (tls_config true (set_c_domains domains c)).
  destruct (TlsContextManager _ _); [|done]. cbn [mbind res_bind]. intros [= E]. f_equal. rewrite <-E at 2. done.
Qed.

Lemma import_exported_certificate c done :
  validate_and_normalize_certificate c = Ok c -> c_name c ∉ (c_name <$> done) -> (count_defaults (done ++ [c]) <= 1)%nat ->
  import_certificate (export_certificate c) (set_c_id 0 <$> done, count_defaults done) =
    Ok (set_c_id 0 <$> (done ++ [c]), count_defaults (done ++ [c])).
Proof.
  intros Hc Hn Hd. unfold import_certificate, export_certificate. change (is_object (j_object ?l)) with true. cbn [negb].
  do 6 read_member.
  assert (Hcount : (count_defaults done + Nat.b2n (c_is_default c))%nat = count_defaults (done ++ [c])).
  { rewrite count_defaults_app. f_equal. unfold count_defaults. rewrite filter_cons. by destruct (c_is_default c). }
  cbn [snd]. cbv zeta. rewrite Hcount. rewrite (proj2 (Nat.ltb_ge _ _)), andb_false_r by lia. cbn [throw_if mbind res_bind].
  pose proof (validate_certificate_keyed 0 c Hc) as Hk. unfold set_c_id in Hk at 1. rewrite Hk. cbn [mbind res_bind fst].
  rewrite bool_decide_eq_false_2.
  - cbn [throw_if mbind res_bind]. by rewrite fmap_app.
  - rewrite <-list_fmap_compose. exact Hn.
Qed.

Lemma import_exported_certificates cs done :
  Forall (fun c => validate_and_normalize_certificate c = Ok c) cs -> NoDup (c_name <$> (done ++ cs)) ->
  (count_defaults (done ++ cs) <= 1)%nat ->
  res_fold import_certificate (export_certificate <$> cs) (set_c_id 0 <$> done, count_defaults done) =
    Ok (set_c_id 0 <$> (done ++ cs), count_defaults (done ++ cs)).
Proof.
  induction cs as [|c cs IH] in done |- *; intros Hv Hn Hd; [by rewrite app_nil_r|].
  inversion_clear Hv as [|? ? Hc Hcs]. rewrite (app_assoc done [c] cs : done ++ c :: cs = _) in *.
  rewrite fmap_cons. cbn [res_fold]. rewrite import_exported_certificate; [by apply IH|done| |].
  - intros Hin. rewrite !fmap_app in Hn. apply NoDup_app in Hn as [[_ [Hn _]]%NoDup_app _]. apply (Hn _ Hin). left.
  - rewrite count_defaults_app in Hd. lia.
Qed.

(** The numeric members of the settings that their types bound. *)
Definition settings_numbers (s : RuntimeSettingsRecord) : Prop := 0 <= max_upload_bytes s /\ 0 <= backend_pool_size s.

Lemma timeout_bounds v name x : validate_timeout v name = Ok x -> 1 <= v <= 86400.
Proof. unfold validate_timeout, throw_if. destruct (_ || _) eqn:E; [done|]. intros _. bool_to_prop. lia. Qed.

Lemma import_exported_settings s u : validate_runtime_settings s = Ok u -> settings_numbers s ->
  import_settings (export_settings s) = Ok s.
Proof.
  intros Hv [Hm Hp]. assert (Hb : max_upload_bytes s <= 16 * 1024 * 1024 * 1024 /\ backend_pool_size s <= 1024 /\
    1 <= client_header_timeout_seconds s <= 86400 /\ 1 <= client_body_timeout_seconds s <= 86400 /\
    1 <= client_write_timeout_seconds s <= 86400 /\ 1 <= backend_connect_timeout_seconds s <= 86400 /\
    1 <= backend_response_timeout_seconds s <= 86400 /\ 1 <= backend_idle_timeout_seconds s <= 86400 /\
    1 <= backend_idle_connection_ttl_seconds s <= 86400).
  { pose proof Hv as E. unfold validate_runtime_settings in E. res_inv.
    repeat match goal with Hk : validate_timeout _ _ = _ |- _ => apply timeout_bounds in Hk end. bool_to_prop. lia. }
  destruct Hb as (Hmax & Hpool & ? & ? & ? & ? & ? & ? & ?).
  unfold import_settings, export_settings. change (is_object (j_object ?l)) with true. cbn [negb].
  do 12 read_member. unfold get_u64 at 1. cbn [get_wide mbind res_bind].
  unfold u64, wrap_u. rewrite Z.mod_small by lia. cbv zeta.
  match goal with |- (_ ← validate_runtime_settings ?x; _) = _ => assert (x = s) as -> by (by destruct s) end. by rewrite Hv.
Qed.

(** A stored configuration that can be backed up: its parts are as the service
    stores them, its numbers fit their types, and its strings are UTF-8. *)
Record exportable (exported_at : Z) (db : Store) : Prop := {
  ex_store : store_wf db;
  ex_sites : Forall (fun site => exists site', restores site site') (list_sites db);
  ex_ports : Forall ports_ok (list_sites db);
  ex_certificates : Forall (fun c => validate_and_normalize_certificate c = Ok c) (list_certificates db);
  ex_settings : validate_runtime_settings (runtime_settings db) = Ok tt;
  ex_numbers : settings_numbers (runtime_settings db);
  ex_site_count : Z.of_nat (length (list_sites db)) <= 10000;
  ex_certificate_count : Z.of_nat (length (list_certificates db)) <= 1000;
  ex_text : forall document, export_document exported_at db = Ok document -> storable document
}.

Lemma res_map_length {A B} (f : A -> res B) l l' : res_map f l = Ok l' -> length l' = length l.
Proof.
  induction l as [|x l IH] in l' |- *; cbn; [by intros [= <-]|]. destruct (f x); [|done].
  destruct (res_map f l) as [r|]; [|done]. intros [= <-]. cbn. by rewrite (IH r).
Qed.

Lemma decode_exported exported_at db document sites : exportable exported_at db -> Forall2 restores (list_sites db) sites ->
  export_document exported_at db = Ok document ->
  decode_document document =
    Ok (set_s_id 0 <$> sites, set_c_id 0 <$> list_certificates db, runtime_settings db).
Proof.
  intros Hex Hr E. unfold export_document in E. destruct (res_map export_site (list_sites db)) as [items|] eqn:Ei; [|done].
  cbn [mbind res_bind] in E. injection E as <-. pose proof (res_map_length _ _ _ Ei) as Hlen. destruct Hex.
  unfold decode_document. cbv zeta. change (is_object (j_object ?l)) with true. cbn [negb throw_if mbind res_bind].
  erewrite (j_value_object get_string) by reflexivity. cbn [get_string mbind res_bind]. rewrite bool_decide_eq_true_2 by done.
  cbn [negb throw_if mbind res_bind]. erewrite (j_value_object get_i32) by reflexivity.
  change (get_i32 (JInt 1)) with (@Ok Z 1). cbn [negb throw_if mbind res_bind Z.eqb Pos.eqb].
  do 3 (erewrite j_contains_object by reflexivity). cbn [negb orb throw_if mbind res_bind].
  do 3 (erewrite j_at_object by reflexivity; cbn [mbind res_bind]). cbn [is_array elements negb orb].
  rewrite length_fmap, Hlen. do 2 rewrite (proj2 (Z.ltb_ge _ _)) by lia. cbn [throw_if mbind res_bind].
  rewrite (import_exported_sites sites items [] []).
  2: { clear -Hr. by induction Hr as [|site site' l l' [? _]]; constructor. }
  2: { by eapply restored_ports. }
  2: { cbn [app]. rewrite (restored_domains _ _ Hr). apply ex_store0. }
  2: { by rewrite (restored_exports _ _ Hr). }
  cbn [mbind res_bind].
  pose proof (import_exported_certificates (list_certificates db) []) as Hi. cbn [fmap list_fmap app] in Hi.
  change (count_defaults []) with 0%nat in Hi. rewrite Hi; [|done| |].
  - cbn [mbind res_bind]. by rewrite (import_exported_settings _ tt).
  - rewrite list_certificates_perm. apply ex_store0.
  - rewrite (count_defaults_perm _ _ (list_certificates_perm db)). apply ex_store0.
Qed.

Lemma decode_exported_text exported_at db text sites : exportable exported_at db -> Forall2 restores (list_sites db) sites ->
  export_configuration exported_at db = Ok text ->
  decode_backup text = Ok (set_s_id 0 <$> sites, set_c_id 0 <$> list_certificates db, runtime_settings db).
Proof.
  intros Hex Hr E. unfold export_configuration in E. res_inv.
  destruct (dump2_parse a (ex_text _ _ Hex _ Eb)) as (t & Et & Ep). unfold dump2 in Eb0. rewrite Et in Eb0. injection Eb0 as ->.
  unfold decode_backup. rewrite bool_decide_eq_false_2 by (intros ->; by rewrite parse_empty in Ep). rewrite Eg.
  cbn [orb throw_if mbind res_bind]. unfold parse. rewrite Ep. cbn [mbind res_bind]. by eapply decode_exported.
Qed.

End Backup.

(** ** Restoring a backup *)

Section Restore.
Context `{JsonText} `{AddressText} `{Regex} `{OpenSsl} {R : Type} `{!ReloadTarget R}.

Lemma number_sites_keys n sites : number_sites n (set_s_id 0 <$> sites) = number_sites n sites.
Proof. revert n. induction sites as [|site sites IH]; intros n; [done|]. by rewrite fmap_cons, !number_sites_cons, IH. Qed.

Lemma zip_keys ids cs : length ids = length cs -> set_c_id 0 <$> zip_with set_c_id ids cs = set_c_id 0 <$> cs.
Proof.
  revert cs. induction ids as [|id ids IH]; intros [|c cs]; cbn; try done. intros [= Hl]. f_equal. by apply IH.
Qed.


End Restore.

Section Sample.
#[local] Existing Instance stored_json.
#[local] Existing Instance loopback_only.
#[local] Existing Instance no_regex.
#[local] Existing Instance permissive_openssl.
#[local] Existing Instance direct_target.

(** The seeded example site and one that was created. *)
Definition sample_store : Store := Eval vm_compute in
  repository_ (serve_all [(no_fault, SCreateSite (sample_site b!"a" [b!"A.test"]))] launched).

Definition restored (site : SiteRecord) : SiteRecord := match validate_and_normalize site with Ok x => x | Throw _ => site end.
Lemma sample_restores : Forall (fun site => exists site', restores site site') (list_sites sample_store).
Proof.
  repeat constructor; (match goal with |- exists _, restores ?x _ => exists (restored x) end);
    (split; [vm_compute; reflexivity|constructor; vm_compute; reflexivity]).
Qed.

Lemma sample_exportable : exportable 1700000000 sample_store.
Proof.
  constructor; [|exact sample_restores|..].
  - assert (E : sample_store = repository_ (serve_all [(no_fault, SCreateSite (sample_site b!"a" [b!"A.test"]))] launched))
      by (vm_compute; reflexivity). rewrite E. apply so_store, serve_all_ok, launched_ok.
  - apply (bool_decide_unpack _). vm_compute. exact I.
  - repeat constructor.
  - vm_compute. reflexivity.
  - split; vm_compute; discriminate.
  - vm_compute. discriminate.
  - vm_compute. discriminate.
  - done.
Qed.

Definition sample_backup : str :=
  match export_configuration 1700000000 sample_store with Ok text => text | Throw _ => [] end.


End Sample.
