(* ===== verification/AdminJson.v ===== *)
(** * Requests of the administration interface (src/src/admin/AdminApi.cpp)

    The functions of the anonymous namespace: the path, the query parameters and
    the session cookie of a request, and the translation between JSON documents and
    the records of the configuration service.

    The theorem is that editing is faithful: what [site_json] shows of a stored
    site, [parse_site] reads back as the same site. *)

From S2P Require Import Prelude IpAddress HostNormalizer ClientIpResolver UrlAuthenticator Json RateLimiter.
From S2P Require Import RequestPolicy VirtualHostRouter TlsContextManager RuntimeConfig ConfigRepository.
From S2P Require Import ConfigService ConfigServiceSpec ConfigBackup.

(** ** Messages *)

(** [http::verb], the methods the interface distinguishes. *)
Inductive verb := verb_get | verb_post | verb_put | verb_delete | verb_head | verb_other.
#[export] Instance verb_eq_dec : EqDecision verb.
Proof. solve_decision. Defined.

(** [http::request<http::string_body>]: [r_field name] is what [operator[]] finds,
    empty when there is no such field. *)
Record Request := {
  r_method : verb;
  r_target : str;
  r_field : str -> str;
  r_body : str;
  r_keep_alive : bool;
  r_version : Z
}.

(** [http::response<http::string_body>] after [prepare_payload()], the fields in
    the order in which they were set. *)
Record Response := {
  rs_status : Z;
  rs_version : Z;
  rs_fields : list (str * str);
  rs_keep_alive : bool;
  rs_body : str
}.

(** [response.set(name, value)]: replaces the fields of that name. *)
Definition set_field (name value : str) (r : Response) : Response :=
  {| rs_status := rs_status r; rs_version := rs_version r;
     rs_fields := filter (fun f => f.1 <> name) (rs_fields r) ++ [(name, value)];
     rs_keep_alive := rs_keep_alive r; rs_body := rs_body r |}.

Definition request_path (request : Request) : str := (break_at "?" (r_target request)).1.

(** [std::from_chars(..., 16)] over exactly two characters. *)
Definition hex_value (c : ascii) : Z :=
  if isdigit c then byte_val c - 48 else if isupper c then byte_val c - 55 else byte_val c - 87.
Definition decode_pair (high low : ascii) : option ascii :=
  if isxdigit high && isxdigit low
  then Some (ascii_of_N (Z.to_N (16 * hex_value high + hex_value low))) else None.

Fixpoint percent_decode (value : str) : str :=
  match value with
  | [] => []
  | c :: rest =>
      if is_char c "+" then " "%char :: percent_decode rest
      else if is_char c "%" then
        match rest with
        | high :: low :: after =>
            match decode_pair high low with
            | Some decoded => decoded :: percent_decode after
            | None => c :: percent_decode rest
            end
        | _ => c :: percent_decode rest
        end
      else c :: percent_decode rest
  end.

(** One [key=value] of the query; a later one replaces an earlier one. *)
Definition add_parameter (part : str) (result : gmap str str) : gmap str str :=
  let '(key, value) := break_at "=" part in
  <[percent_decode key := match value with None => [] | Some v => percent_decode v end]> result.

Definition query_parameters (request : Request) : gmap str str :=
  match (break_at "?" (r_target request)).2 with
  | None => ∅
  | Some remaining => default ∅ (for_segments "&" (fun part _ result => Some (add_parameter part result)) remaining ∅)
  end.

Definition lower (value : str) : str := ascii_lower value.

Definition contains_folded (item : json) (field needle : str) : bool :=
  if bool_decide (needle = []) then true else
  match item with
  | JObject m => match m !! field with
                 | Some (JString found) => contains_str (lower needle) (lower found)
                 | _ => false
                 end
  | _ => false
  end.

(** The loop over the cookies: the first segment for which [f] returns. *)
Fixpoint find_segment {A} (fuel : nat) (sep : ascii) (f : str -> option A) (remaining : str) : option A :=
  match fuel, remaining with
  | O, _ | _, [] => None
  | S fuel, _ :: _ =>
      let '(part, after) := break_at sep remaining in
      match f part with
      | Some a => Some a
      | None => match after with None => None | Some rest => find_segment fuel sep f rest end
      end
  end.

Fixpoint skip_spaces (part : str) : str :=
  match part with [] => [] | c :: rest => if is_char c " " then skip_spaces rest else part end.

Definition session_prefix : str := b!"ws_admin_session=".
Definition token_of_part (part : str) : option str :=
  let part := skip_spaces part in
  if starts_with session_prefix part then Some (drop (length session_prefix) part) else None.

Definition session_token (request : Request) : str :=
  let cookie := r_field request b!"Cookie" in
  default [] (find_segment (length cookie) ";" token_of_part cookie).

Definition has_mutation_guard (request : Request) : bool := bool_decide (r_field request b!"X-WebServer-Admin" = b!"1").

(** [std::from_chars] for [std::int64_t]. *)
Definition from_chars_i64 (s : str) : option (Z * str) :=
  let '(negative, s) := match s with c :: r => if is_char c "-" then (true, r) else (false, s) | [] => (false, s) end in
  let '(digits, rest) := take_digits s in
  let value := if negative then - dec_value digits else dec_value digits in
  if bool_decide (digits = []) then None
  else if (value <? - 2 ^ 63) || (2 ^ 63 - 1 <? value) then None
  else Some (value, rest).

(** A whole string that is a positive number. *)
Definition positive_id (text : str) : option Z :=
  match from_chars_i64 text with
  | Some (id, []) => if id <=? 0 then None else Some id
  | _ => None
  end.

Definition id_from_path (prefix path : str) : option Z :=
  if starts_with prefix path then positive_id (drop (length prefix) path) else None.
Definition site_id_from_path (path : str) : option Z := id_from_path b!"/api/sites/" path.
Definition certificate_id_from_path (path : str) : option Z := id_from_path b!"/api/certificates/" path.

(** ** Reading documents *)

Definition parse_port (source : json) (key : str) (fallback : Z) : res Z :=
  if negb (j_contains key source) then Ok fallback else
  value ← at_get get_i32 key source;
  if (value <=? 0) || (2 ^ 16 - 1 <? value)
  then Throw (invalid_argument (key ++ b!" must be between 1 and 65535"))
  else Ok value.

Definition parse_u32 (source : json) (key : str) (fallback : Z) : res Z :=
  if negb (j_contains key source) then Ok fallback else
  value ← at_get get_i64 key source;
  if (value <? 0) || (2 ^ 32 - 1 <? value) then Throw (invalid_argument (key ++ b!" is out of range")) else Ok value.

(** Integers of a given type as JSON numbers. *)
Definition j_i64 (z : Z) : json := JInt (wrap_s 64 z).
Definition j_u64 (z : Z) : json := JInt (u64 z).
Definition j_u32 (z : Z) : json := JInt (u32 z).
Definition j_u16 (z : Z) : json := JInt (u16 z).
Definition j_size (n : nat) : json := j_u64 (Z.of_nat n).

Section AdminJson.
Context `{JsonText} `{AddressText}.

(** The six members that make up the URL authentication of a site. *)
Definition url_auth_document (enabled : bool) (scope primary backup : str) (validity : Z) (uris : json) : json :=
  j_object [
    (b!"enabled", JBool enabled);
    (b!"scope", JString scope);
    (b!"primary_key", JString primary);
    (b!"backup_key", JString backup);
    (b!"validity_seconds", j_u32 validity);
    (b!"protected_uris", uris)].

Definition parse_site (source : json) : res SiteRecord :=
  name ← at_get get_string b!"name" source;
  enabled ← j_value get_bool b!"enabled" true source;
  domains ← at_get get_strings b!"domains" source;
  backend_address ← at_get get_string b!"backend_address" source;
  backend_port ← parse_port source b!"backend_port" 0;
  backend_protocol ← j_value get_string b!"backend_protocol" b!"http" source;
  backend_host ← j_value get_string b!"backend_host" [] source;
  backend_tls_sni ← j_value get_string b!"backend_tls_sni" [] source;
  verify ← j_value get_bool b!"backend_tls_verify_certificate" true source;
  connect_timeout ← parse_u32 source b!"backend_connect_timeout_seconds" 5;
  response_timeout ← parse_u32 source b!"backend_response_timeout_seconds" 60;
  keep_alive ← j_value get_bool b!"backend_keep_alive" true source;
  auth_enabled ← j_value get_bool b!"url_auth_enabled" false source;
  auth_scope ← j_value get_string b!"url_auth_scope" b!"all" source;
  auth_primary ← j_value get_string b!"url_auth_primary_key" [] source;
  auth_backup ← j_value get_string b!"url_auth_backup_key" [] source;
  auth_validity ← parse_u32 source b!"url_auth_validity_seconds" 1800;
  auth_uris ← j_value get_json b!"url_auth_protected_uris" (JArray []) source;
  url_auth ← dump (url_auth_document auth_enabled auth_scope auth_primary auth_backup auth_validity auth_uris);
  http_enabled ← j_value get_bool b!"http_enabled" true source;
  http_port ← parse_port source b!"http_port" 80;
  https_enabled ← j_value get_bool b!"https_enabled" false source;
  https_port ← parse_port source b!"https_port" 443;
  force ← j_value get_bool b!"force_https" false source;
  acl ← value_dump source b!"acl_rules" (JArray []);
  rate_enabled ← j_value get_bool b!"rate_limit_enabled" false source;
  rate_window ← parse_u32 source b!"rate_limit_window_seconds" 10;
  rate_max ← parse_u32 source b!"rate_limit_max_requests" 100;
  rate_ban ← parse_u32 source b!"rate_limit_ban_seconds" 60;
  hot_enabled ← j_value get_bool b!"hotlink_enabled" false source;
  hot_extensions ← value_dump source b!"hotlink_extensions" default_extensions_json;
  hot_hosts ← value_dump source b!"hotlink_allowed_hosts" (JArray []);
  hot_empty ← j_value get_bool b!"hotlink_allow_empty_referer" true source;
  hot_location ← j_value get_string b!"hotlink_redirect_location" [] source;
  redirect_rules ← value_dump source b!"redirect_rules" (JArray []);
  max_active ← parse_u32 source b!"backend_max_active_connections" 200;
  max_queue ← parse_u32 source b!"backend_max_queue" 1000;
  queue_timeout ← parse_u32 source b!"backend_queue_timeout_seconds" 5;
  Ok {| s_id := 0; s_name := name; s_enabled := enabled; s_domains := domains; s_backend_address := backend_address;
        s_backend_port := backend_port; s_backend_protocol := lower backend_protocol; s_backend_host := backend_host;
        s_backend_tls_sni := backend_tls_sni; s_backend_tls_verify_certificate := verify;
        s_backend_connect_timeout_seconds := connect_timeout; s_backend_response_timeout_seconds := response_timeout;
        s_backend_keep_alive := keep_alive; s_url_auth_json := url_auth; s_http_enabled := http_enabled;
        s_http_port := http_port; s_https_enabled := https_enabled; s_https_port := https_port; s_force_https := force;
        s_acl_rules_json := acl; s_rate_limit_enabled := rate_enabled; s_rate_limit_window_seconds := rate_window;
        s_rate_limit_max_requests := rate_max; s_rate_limit_ban_seconds := rate_ban; s_hotlink_enabled := hot_enabled;
        s_hotlink_extensions_json := hot_extensions; s_hotlink_allowed_hosts_json := hot_hosts;
        s_hotlink_allow_empty_referer := hot_empty; s_hotlink_redirect_location := hot_location;
        s_redirect_rules_json := redirect_rules; s_backend_max_active_connections := max_active;
        s_backend_max_queue := max_queue; s_backend_queue_timeout_seconds := queue_timeout |}.

Definition site_json (site : SiteRecord) : res json :=
  url_auth ← parse (s_url_auth_json site);
  auth_enabled ← j_value get_bool b!"enabled" false url_auth;
  auth_scope ← j_value get_string b!"scope" b!"all" url_auth;
  auth_primary ← j_value get_string b!"primary_key" [] url_auth;
  auth_backup ← j_value get_string b!"backup_key" [] url_auth;
  auth_validity ← j_value get_i32 b!"validity_seconds" 1800 url_auth;
  auth_uris ← j_value get_json b!"protected_uris" (JArray []) url_auth;
  acl_rules ← parse (s_acl_rules_json site);
  hotlink_extensions ← parse (s_hotlink_extensions_json site);
  hotlink_allowed_hosts ← parse (s_hotlink_allowed_hosts_json site);
  redirect_rules ← parse (s_redirect_rules_json site);
  Ok (j_object [
    (b!"id", j_i64 (s_id site));
    (b!"name", JString (s_name site));
    (b!"enabled", JBool (s_enabled site));
    (b!"domains", j_strings (s_domains site));
    (b!"backend_address", JString (s_backend_address site));
    (b!"backend_port", j_u16 (s_backend_port site));
    (b!"backend_protocol", JString (s_backend_protocol site));
    (b!"backend_host", JString (s_backend_host site));
    (b!"backend_tls_sni", JString (s_backend_tls_sni site));
    (b!"backend_tls_verify_certificate", JBool (s_backend_tls_verify_certificate site));
    (b!"backend_connect_timeout_seconds", j_u32 (s_backend_connect_timeout_seconds site));
    (b!"backend_response_timeout_seconds", j_u32 (s_backend_response_timeout_seconds site));
    (b!"backend_keep_alive", JBool (s_backend_keep_alive site));
    (b!"url_auth_enabled", JBool auth_enabled);
    (b!"url_auth_scope", JString auth_scope);
    (b!"url_auth_primary_key", JString auth_primary);
    (b!"url_auth_backup_key", JString auth_backup);
    (b!"url_auth_validity_seconds", JInt auth_validity);
    (b!"url_auth_protected_uris", auth_uris);
    (b!"http_enabled", JBool (s_http_enabled site));
    (b!"http_port", j_u16 (s_http_port site));
    (b!"https_enabled", JBool (s_https_enabled site));
    (b!"https_port", j_u16 (s_https_port site));
    (b!"force_https", JBool (s_force_https site));
    (b!"acl_rules", acl_rules);
    (b!"rate_limit_enabled", JBool (s_rate_limit_enabled site));
    (b!"rate_limit_window_seconds", j_u32 (s_rate_limit_window_seconds site));
    (b!"rate_limit_max_requests", j_u32 (s_rate_limit_max_requests site));
    (b!"rate_limit_ban_seconds", j_u32 (s_rate_limit_ban_seconds site));
    (b!"hotlink_enabled", JBool (s_hotlink_enabled site));
    (b!"hotlink_extensions", hotlink_extensions);
    (b!"hotlink_allowed_hosts", hotlink_allowed_hosts);
    (b!"hotlink_allow_empty_referer", JBool (s_hotlink_allow_empty_referer site));
    (b!"hotlink_redirect_location", JString (s_hotlink_redirect_location site));
    (b!"redirect_rules", redirect_rules);
    (b!"backend_max_active_connections", j_u32 (s_backend_max_active_connections site));
    (b!"backend_max_queue", j_u32 (s_backend_max_queue site));
    (b!"backend_queue_timeout_seconds", j_u32 (s_backend_queue_timeout_seconds site))]).

Definition parse_certificate (source : json) : res CertificateRecord :=
  name ← at_get get_string b!"name" source;
  enabled ← j_value get_bool b!"enabled" true source;
  is_default ← j_value get_bool b!"is_default" false source;
  domains ← at_get get_strings b!"domains" source;
  certificate_pem ← j_value get_string b!"certificate_pem" [] source;
  private_key_pem ← j_value get_string b!"private_key_pem" [] source;
  Ok {| c_id := 0; c_name := name; c_enabled := enabled; c_is_default := is_default; c_domains := domains;
        c_certificate_pem := certificate_pem; c_private_key_pem := private_key_pem |}.

Definition certificate_json (certificate : CertificateRecord) : json :=
  j_object [
    (b!"id", j_i64 (c_id certificate));
    (b!"name", JString (c_name certificate));
    (b!"enabled", JBool (c_enabled certificate));
    (b!"is_default", JBool (c_is_default certificate));
    (b!"domains", j_strings (c_domains certificate));
    (b!"certificate_pem", JString (c_certificate_pem certificate));
    (b!"has_private_key", JBool (negb (bool_decide (c_private_key_pem certificate = []))))].

Definition settings_json (settings : RuntimeSettingsRecord) : json :=
  j_object [
    (b!"trusted_proxy_cidrs", j_strings (trusted_proxy_cidrs settings));
    (b!"real_ip_headers", j_strings (real_ip_headers settings));
    (b!"max_upload_bytes", j_u64 (max_upload_bytes settings));
    (b!"backend_keep_alive", JBool (backend_keep_alive settings));
    (b!"backend_pool_size", j_u32 (backend_pool_size settings));
    (b!"client_header_timeout_seconds", j_u32 (client_header_timeout_seconds settings));
    (b!"client_body_timeout_seconds", j_u32 (client_body_timeout_seconds settings));
    (b!"client_write_timeout_seconds", j_u32 (client_write_timeout_seconds settings));
    (b!"backend_connect_timeout_seconds", j_u32 (backend_connect_timeout_seconds settings));
    (b!"backend_response_timeout_seconds", j_u32 (backend_response_timeout_seconds settings));
    (b!"backend_idle_timeout_seconds", j_u32 (backend_idle_timeout_seconds settings));
    (b!"backend_idle_connection_ttl_seconds", j_u32 (backend_idle_connection_ttl_seconds settings))].

Definition parse_settings (source : json) : res RuntimeSettingsRecord :=
  cidrs ← j_value get_strings b!"trusted_proxy_cidrs" [] source;
  headers ← j_value get_strings b!"real_ip_headers"
    [b!"EO-Connecting-IP"; b!"CF-Connecting-IP"; b!"True-Client-IP"; b!"X-Forwarded-For"] source;
  upload ← j_value get_u64 b!"max_upload_bytes" (64 * 1024 * 1024) source;
  keep_alive ← j_value get_bool b!"backend_keep_alive" true source;
  pool_size ← parse_u32 source b!"backend_pool_size" 32;
  header_timeout ← parse_u32 source b!"client_header_timeout_seconds" 15;
  body_timeout ← parse_u32 source b!"client_body_timeout_seconds" 120;
  write_timeout ← parse_u32 source b!"client_write_timeout_seconds" 60;
  connect_timeout ← parse_u32 source b!"backend_connect_timeout_seconds" 5;
  response_timeout ← parse_u32 source b!"backend_response_timeout_seconds" 60;
  idle_timeout ← parse_u32 source b!"backend_idle_timeout_seconds" 60;
  idle_ttl ← parse_u32 source b!"backend_idle_connection_ttl_seconds" 60;
  Ok {| trusted_proxy_cidrs := cidrs; real_ip_headers := headers; max_upload_bytes := upload;
        backend_keep_alive := keep_alive; backend_pool_size := pool_size;
        client_header_timeout_seconds := header_timeout; client_body_timeout_seconds := body_timeout;
        client_write_timeout_seconds := write_timeout; backend_connect_timeout_seconds := connect_timeout;
        backend_response_timeout_seconds := response_timeout; backend_idle_timeout_seconds := idle_timeout;
        backend_idle_connection_ttl_seconds := idle_ttl |}.

(** The backend of a connection test; the members the code leaves at their
    defaults are the two the probe does not use. *)
Definition parse_backend_probe (payload : json) : res BackendConfig :=
  address ← at_get get_string b!"backend_address" payload;
  port ← parse_port payload b!"backend_port" 0;
  protocol ← j_value get_string b!"backend_protocol" b!"http" payload;
  let protocol := lower protocol in
  _ ← throw_if (negb (bool_decide (protocol = b!"http")) && negb (bool_decide (protocol = b!"https")))
        (invalid_argument b!"backend protocol must be http or https");
  let protocol := if bool_decide (protocol = b!"https") then backend_https else backend_http in
  host ← j_value get_string b!"backend_host" [] payload;
  tls_sni ← j_value get_string b!"backend_tls_sni" [] payload;
  verify ← j_value get_bool b!"backend_tls_verify_certificate" true payload;
  connect_timeout ← parse_u32 payload b!"backend_connect_timeout_seconds" 5;
  _ ← throw_if ((connect_timeout =? 0) || (86400 <? connect_timeout))
        (invalid_argument b!"backend connect timeout must be between 1 and 86400 seconds");
  _ ← throw_if (bool_decide (make_address address = None) && bool_decide (normalize_domain address = None))
        (invalid_argument b!"backend address must be an IP address or DNS hostname");
  _ ← throw_if (negb (bool_decide (host = [])) && bool_decide (normalize_authority host = None))
        (invalid_argument b!"invalid backend Host");
  _ ← throw_if (negb (bool_decide (tls_sni = [])) && bool_decide (normalize_domain tls_sni = None))
        (invalid_argument b!"invalid backend TLS SNI");
  _ ← throw_if (bool_decide (protocol = backend_http) && negb (bool_decide (tls_sni = [])))
        (invalid_argument b!"backend TLS SNI requires HTTPS protocol");
  Ok {| be_address := address; be_port := port; be_protocol := protocol; be_host := host; be_tls_sni := tls_sni;
        be_tls_verify_certificate := verify; be_connect_timeout_seconds := connect_timeout;
        be_response_timeout_seconds := 60; be_keep_alive := true |}.

(** ** What can be written *)

Lemma storable_members l : Forall (fun kv => forallb (fun c => byte_val c <? 128) kv.1 = true /\ storable kv.2) l ->
  storable (j_object l).
Proof.
  intros Hl. apply storable_object. intros k j Hk%elem_of_list_to_map_2. rewrite Forall_forall in Hl.
  destruct (Hl _ Hk) as [Ha Hj]. split; [by apply storable_ascii|done].
Qed.

Lemma storable_strings l : Forall (fun s => storable (JString s)) l -> storable (j_strings l).
Proof. intros Hl. apply storable_array, Forall_fmap, Hl. Qed.

Lemma storable_value {m k j} : storable (JObject m) -> m !! k = Some j -> storable j.
Proof. intros Hm Hk. apply storable_object in Hm. by apply (Hm k j). Qed.

(** The strings of a document that was read can be written. *)
Definition storable_text (s : str) : Prop := storable (JString s).

Lemma value_storable k d j s : storable j -> forallb (fun c => byte_val c <? 128) d = true ->
  j_value get_string k d j = Ok s -> storable_text s.
Proof.
  intros Hj Hd. destruct j; try done. cbn. destruct (m !! k) as [v|] eqn:Ek.
  - destruct v; try done. intros [= <-]. by eapply storable_value.
  - intros [= <-]. by apply storable_ascii.
Qed.
Lemma at_storable k j s : storable j -> at_get get_string k j = Ok s -> storable_text s.
Proof.
  intros Hj. destruct j; try done. unfold at_get. cbn. destruct (m !! k) as [[]|] eqn:Ek; try done.
  intros [= <-]. by eapply storable_value.
Qed.
Lemma strings_storable j l : storable j -> get_strings j = Ok l -> Forall storable_text l.
Proof.
  intros Hj. destruct j as [| | | | |items|]; try done. apply storable_array in Hj. cbn.
  induction Hj as [|x items Hx _ IH] in l |- *; cbn [res_map]; [by intros [= <-]|].
  destruct x; try done. cbn [get_string]. destruct (res_map get_string items) as [r|]; [|done]. intros [= <-].
  constructor; [exact Hx|by apply IH].
Qed.
Lemma at_strings_storable k j l : storable j -> at_get get_strings k j = Ok l -> Forall storable_text l.
Proof.
  intros Hj. destruct j; try done. unfold at_get. cbn. destruct (m !! k) as [v|] eqn:Ek; [|done].
  apply strings_storable. by eapply storable_value.
Qed.
Lemma value_strings_storable k d j l : storable j -> Forall storable_text d ->
  j_value get_strings k d j = Ok l -> Forall storable_text l.
Proof.
  intros Hj Hd. destruct j; try done. cbn. destruct (m !! k) as [v|] eqn:Ek; [|by intros [= <-]].
  apply strings_storable. by eapply storable_value.
Qed.
Lemma value_json_storable k d j v : storable j -> storable d -> j_value get_json k d j = Ok v -> storable v.
Proof.
  intros Hj Hd. destruct j; try done. cbn. destruct (m !! k) as [x|] eqn:Ek; intros [= <-]; [by eapply storable_value|done].
Qed.

Lemma storable_i64 z : storable (j_i64 z).
Proof. apply storable_int. unfold wrap_s. pose proof (Z.mod_pos_bound (z + 2 ^ (64 - 1)) (2 ^ 64)). lia. Qed.
Lemma storable_u w z : 0 < w <= 64 -> storable (JInt (wrap_u w z)).
Proof.
  intros Hw. apply storable_int. unfold wrap_u. pose proof (Z.mod_pos_bound z (2 ^ w) ltac:(lia)).
  assert (2 ^ w <= 2 ^ 64) by (apply Z.pow_le_mono_r; lia). lia.
Qed.
Lemma storable_u64 z : storable (j_u64 z).
Proof. by apply storable_u. Qed.
Lemma storable_u32 z : storable (j_u32 z).
Proof. by apply storable_u. Qed.
Lemma storable_u16 z : storable (j_u16 z).
Proof. by apply storable_u. Qed.
Lemma storable_array_nil : storable (JArray []).
Proof. by apply storable_array. Qed.

End AdminJson.

(** A document spelled out member by member. *)
Ltac storable_document :=
  apply storable_members;
  repeat (apply Forall_cons; split; [split; [reflexivity|]|]); [..|by apply Forall_nil];
  cbn [fst snd];
  try first [ apply storable_bool | apply storable_i64 | apply storable_u64 | apply storable_u32 | apply storable_u16
            | apply storable_array_nil | (apply storable_ascii; reflexivity) | assumption ].

(** ** Reading back what is shown *)

Lemma parse_u32_object k d l z : assoc k l = Some (JInt z) -> 0 <= z < 2 ^ 32 -> parse_u32 (j_object l) k d = Ok z.
Proof.
  intros E Hz. unfold parse_u32. rewrite (j_contains_object _ _ _ E), (at_get_object _ _ _ _ E). cbn [negb].
  unfold get_i64. cbn [get_wide mbind res_bind]. rewrite wrap_s_small by lia.
  by rewrite (proj2 (Z.ltb_ge _ _)), (proj2 (Z.ltb_ge _ _)) by lia.
Qed.
Lemma parse_u32_member k d l z : assoc k l = Some (j_u32 z) -> 0 <= z < 2 ^ 32 -> parse_u32 (j_object l) k d = Ok z.
Proof. unfold j_u32, u32, wrap_u. intros E Hz. rewrite Z.mod_small in E by lia. by apply parse_u32_object. Qed.
Lemma parse_port_member k d l z : assoc k l = Some (j_u16 z) -> 1 <= z < 2 ^ 16 -> parse_port (j_object l) k d = Ok z.
Proof.
  unfold j_u16, u16, wrap_u. intros E Hz. rewrite Z.mod_small in E by lia. unfold parse_port.
  rewrite (j_contains_object _ _ _ E), (at_get_object _ _ _ _ E). cbn [negb].
  unfold get_i32. cbn [get_number get_wide mbind res_bind]. rewrite wrap_s_small by lia.
  by rewrite (proj2 (Z.leb_gt _ _)), (proj2 (Z.ltb_ge _ _)) by lia.
Qed.

(** A number that fits both is the same read as 64 and as 32 bits. *)
Lemma narrow j v : get_i64 j = Ok v -> 0 <= v < 2 ^ 31 -> get_i32 j = Ok v.
Proof.
  unfold get_i64, get_i32. intros E Hv. destruct (get_wide j) as [z|] eqn:Ez; [|done]. cbn [mbind res_bind] in E.
  assert (get_number j = Ok z) as -> by (by destruct j). cbn [mbind res_bind]. injection E as E. f_equal.
  unfold wrap_s in E. change (64 - 1) with 63 in E. rewrite <-(wrap_s_small 32 v) by lia. unfold wrap_s. f_equal.
  pose proof (Z.div_mod (z + 2 ^ 63) (2 ^ 64) ltac:(lia)) as Hd.
  replace (z + 2 ^ (32 - 1)) with (v + 2 ^ (32 - 1) + ((z + 2 ^ 63) / 2 ^ 64 * 2 ^ 32) * 2 ^ 32) by lia.
  by rewrite Z.mod_add by lia.
Qed.

Lemma value_narrow k d j v : j_value get_i64 k d j = Ok v -> 0 <= v < 2 ^ 31 -> j_value get_i32 k d j = Ok v.
Proof. destruct j; try done. cbn. destruct (m !! k); [apply narrow|done]. Qed.

Section Editing.
Context `{JsonText} `{AddressText} `{Regex} `{OpenSsl}.

(** The form shows six members of the URL authentication; what they are reads back. *)
Lemma url_auth_shown u spec : storable u -> read_url_auth u = Ok spec -> 0 <= validity_seconds spec < 2 ^ 31 ->
  exists enabled scope primary backup uris,
    j_value get_bool b!"enabled" false u = Ok enabled /\ j_value get_string b!"scope" b!"all" u = Ok scope /\
    j_value get_string b!"primary_key" [] u = Ok primary /\ j_value get_string b!"backup_key" [] u = Ok backup /\
    j_value get_i32 b!"validity_seconds" 1800 u = Ok (validity_seconds spec) /\
    j_value get_json b!"protected_uris" (JArray []) u = Ok uris /\
    storable (url_auth_document enabled scope primary backup (validity_seconds spec) uris) /\
    read_url_auth (url_auth_document enabled scope primary backup (validity_seconds spec) uris) = Ok spec.
Proof.
  intros Hu E Hv. unfold read_url_auth in E. destruct (is_object u) eqn:Eo; [|done]. cbn [negb] in E. res_inv.
  cbn [validity_seconds] in *. exists a, a0, a2, a3, a5. split_and!; try done; [by apply value_narrow| |].
  - storable_document; [by eapply (value_storable b!"scope"); [| |exact Eb0]|by eapply (value_storable b!"primary_key"); [| |exact Eb2]
      |by eapply (value_storable b!"backup_key"); [| |exact Eb3]|].
    by eapply value_json_storable; [done|apply storable_array_nil|exact Eb5].
  - unfold url_auth_document, j_u32, u32, wrap_u. rewrite Z.mod_small by lia.
    unfold read_url_auth. change (is_object (j_object ?l)) with true. cbn [negb].
    repeat (erewrite j_value_object by reflexivity; cbn [get_bool get_string get_json mbind res_bind]; rewrite ?Eb1).
    unfold get_i64. cbn [get_wide mbind res_bind]. rewrite wrap_s_small by lia.
    rewrite Eg, Eg0, Eg1. cbn [throw_if mbind res_bind]. by rewrite Eb6.
Qed.

Lemma fixed_url_auth site : fixed_point site ->
  exists u spec, parse (s_url_auth_json site) = Ok u /\ storable u /\ read_url_auth u = Ok spec /\
    0 <= validity_seconds spec < 2 ^ 31.
Proof.
  unfold fixed_point, validate_and_normalize. intros E. res_inv. apply catch_json_ok in E.
  unfold check_policy in E. res_inv. unfold runtime_url_auth, parse_url_auth in Eb8.
  destruct (parse (s_url_auth_json site)) as [u|] eqn:Eu; [|done]. cbn [mbind res_bind] in Eb8.
  exists u, a8. split_and!; try done.
  - unfold parse in Eu. destruct (json_parse _) as [u'|] eqn:Ep; [|done]. injection Eu as ->. by eapply parse_storable.
  - unfold read_url_auth in Eb8. destruct (is_object u); [|done]. cbn [negb] in Eb8. res_inv. bool_to_prop. cbn. lia.
  - unfold UrlAuthenticator in Eb9. res_inv. bool_to_prop.
    unfold maximum_validity_seconds in *. lia.
Qed.

Local Ltac shown_member :=
  first [ erewrite at_get_object by reflexivity
        | erewrite j_value_object by reflexivity
        | erewrite parse_port_member; [|reflexivity|lia]
        | erewrite parse_u32_member; [|reflexivity|lia]
        | erewrite parse_u32_object; [|reflexivity|lia]
        | erewrite value_dump_object; [|reflexivity|eassumption] ];
  rewrite ?get_strings_strings; cbn [mbind res_bind get_string get_bool get_json].

(** A stored site can be shown, and the document reads back as the site: the
    number is not read from it, and the URL authentication is written in its own
    words. *)
Lemma shown_site site : fixed_point site -> ports_ok site ->
  exists shown site', site_json site = Ok shown /\ parse_site shown = Ok site' /\
    canonical_text is_object (s_url_auth_json site') /\
    site' = set_s_id 0 (set_s_url_auth_json (s_url_auth_json site') site) /\
    runtime_url_auth site' = runtime_url_auth site.
Proof.
  intros Hf Hp. pose proof (fixed_canonical _ Hf) as Hc. destruct (fixed_numbers _ Hf Hp).
  destruct (fixed_url_auth _ Hf) as (u & spec & Pu & Su & Ru & Hv).
  destruct (url_auth_shown u spec Su Ru Hv) as (en & sc & pr & ba & uris & V1 & V2 & V3 & V4 & V5 & V6 & Sd & Rd).
  destruct (dump_parse _ Sd) as (t & Dt & Pt).
  destruct Hc as [Hproto _ _ _ (j1 & P1 & D1 & T1) (j2 & P2 & D2 & T2) (j3 & P3 & D3 & T3) (j4 & P4 & D4 & T4) _].
  unfold site_json. rewrite Pu. cbn [mbind res_bind]. rewrite V1, V2, V3, V4, V5, V6, P1, P2, P3, P4. cbn [mbind res_bind].
  eexists _, _. split; [reflexivity|].
  match goal with |- parse_site (j_object ?x) = _ /\ _ => set (l := x) end.
  assert (Dd : dump (url_auth_document en sc pr ba (validity_seconds spec) uris) = Ok t) by (unfold dump; by rewrite Dt).
  unfold parse_site. repeat shown_member. rewrite Dd. repeat shown_member.
  unfold lower. rewrite Hproto. split; [reflexivity|]. split.
  { eexists. split; [unfold parse; cbn [s_url_auth_json]; by rewrite Pt|]. split; [exact Dd|done]. }
  split; [by destruct site|].
  unfold runtime_url_auth, parse_url_auth. cbn [s_url_auth_json]. unfold parse at 1. by rewrite Pt, Pu; cbn [mbind res_bind]; rewrite Rd, Ru.
Qed.
(** A fixed point passes every step of validation unchanged. *)
Record steady (site : SiteRecord) : Prop := {
  st_members : check_members site = Ok tt;
  st_protocol : normalize_protocol site = Ok site;
  st_address : normalize_address site = Ok site;
  st_host : check_backend_host site = Ok tt;
  st_sni : normalize_sni site = Ok site;
  st_domains : res_fold normalize_site_domain (s_domains site) [] = Ok (s_domains site);
  st_policy : check_policy site = Ok site
}.

Lemma steady_fixed site : steady site -> fixed_point site.
Proof.
  intros [E1 E2 E3 E4 E5 E6 E7]. unfold fixed_point, validate_and_normalize.
  rewrite E1. cbn [mbind res_bind]. rewrite E2. cbn [mbind res_bind]. rewrite E3. cbn [mbind res_bind].
  rewrite E4. cbn [mbind res_bind]. rewrite E5. cbn [mbind res_bind]. rewrite E6. cbn [mbind res_bind].
  assert (set_s_domains (s_domains site) site = site) as -> by (by destruct site). by rewrite E7.
Qed.

Lemma fixed_steady site : fixed_point site -> steady site.
Proof.
  intros E. pose proof (fixed_canonical _ E) as Hc. unfold fixed_point, validate_and_normalize in E.
  destruct (check_members site) as [[]|] eqn:E1; [|done]. cbn [mbind res_bind] in E.
  destruct (normalize_protocol site) as [s1|] eqn:E2; [|done]. cbn [mbind res_bind] in E.
  assert (s1 = site) as ->.
  { apply normalize_protocol_spec in E2 as ->. rewrite (cn_protocol _ Hc). by destruct site. }
  destruct (normalize_address site) as [s2|] eqn:E3; [|done]. cbn [mbind res_bind] in E.
  assert (s2 = site) as ->.
  { apply normalize_address_spec in E3 as (x & -> & _ & Hx). rewrite (Hx (cn_address _ Hc)). by destruct site. }
  destruct (check_backend_host site) as [[]|] eqn:E4; [|done]. cbn [mbind res_bind] in E.
  destruct (normalize_sni site) as [s3|] eqn:E5; [|done]. cbn [mbind res_bind] in E.
  assert (s3 = site) as ->.
  { apply normalize_sni_spec in E5 as (n & -> & _ & Hn). rewrite (Hn (cn_sni _ Hc)). by destruct site. }
  destruct (res_fold _ (s_domains site) []) as [l|] eqn:E6; [|done]. cbn [mbind res_bind] in E.
  apply site_domains_normal in E6 as Hd. destruct Hd as (l' & -> & _ & Hd). rewrite (Hd (cn_domains _ Hc)) in *. cbn [app] in *.
  assert (set_s_domains (s_domains site) site = site) as Hs by (by destruct site). rewrite Hs in E.
  apply catch_json_ok in E. by constructor.
Qed.

(** Writing the URL authentication in other words keeps a site valid. *)
Lemma steady_reworded t site : canonical_text is_object t -> steady site ->
  runtime_url_auth (set_s_url_auth_json t site) = runtime_url_auth site -> steady (set_s_url_auth_json t site).
Proof.
  intros Ht Hs Hu. pose proof (fixed_canonical _ (steady_fixed _ Hs)) as Hc. destruct Hs as [E1 E2 E3 E4 E5 E6 E7].
  constructor; try done.
  - unfold normalize_protocol in *. cbv zeta in *. change (s_backend_protocol (set_s_url_auth_json ?a ?b)) with (s_backend_protocol b).
    change (s_backend_protocol (set_s_backend_protocol ?a ?b)) with a in *.
    destruct (_ && _); [done|]. rewrite (cn_protocol _ Hc). by destruct site.
  - unfold normalize_address in *. change (s_backend_address (set_s_url_auth_json ?a ?b)) with (s_backend_address b).
    destruct (make_address _); [done|]. destruct (normalize_domain _) as [n|]; [|done]. injection E3 as E3.
    f_equal. apply (f_equal s_backend_address) in E3. cbn in E3. subst n. by destruct site.
  - unfold normalize_sni in *. change (s_backend_tls_sni (set_s_url_auth_json ?a ?b)) with (s_backend_tls_sni b).
    change (s_backend_protocol (set_s_url_auth_json t site)) with (s_backend_protocol site).
    case_bool_decide as Hn; cbn [mbind res_bind] in *.
    + change (s_backend_tls_sni (set_s_url_auth_json ?a ?b)) with (s_backend_tls_sni b). by destruct (_ && _).
    + destruct (normalize_domain _) as [n|] eqn:En; [|done]. cbn [mbind res_bind] in *.
      assert (n = s_backend_tls_sni site) as ->.
      { destruct (throw_if _ _); [|done]. injection E5 as E5. by apply (f_equal s_backend_tls_sni) in E5. }
      assert (set_s_backend_tls_sni (s_backend_tls_sni site) site = site) as Hsite by (by destruct site).
      rewrite Hsite in E5. change (s_backend_tls_sni (set_s_backend_tls_sni ?a ?b)) with a.
      change (s_backend_protocol (set_s_backend_tls_sni ?a (set_s_url_auth_json ?c ?b))) with (s_backend_protocol b).
      destruct (throw_if _ _); [|done]. by destruct site.
  - unfold check_policy in *. destruct Hc. rewrite canonicalize_canonical in * by (by constructor). cbn [mbind res_bind] in *.
    rewrite Hu. change (runtime_policy (set_s_url_auth_json t site)) with (runtime_policy site).
    change (s_domains (set_s_url_auth_json t site)) with (s_domains site).
    destruct (runtime_policy site); [|done]. cbn [mbind res_bind] in *. destruct (RequestPolicy _ _); [|done].
    cbn [mbind res_bind] in *. destruct (runtime_url_auth site); [|done]. cbn [mbind res_bind] in *.
    by destruct (UrlAuthenticator _).
Qed.
(** C40: Saving an unedited site changes nothing.  A stored site can be shown as a
    JSON document; the document reads back as a record that passes validation
    unchanged, differs from the stored one at most in the wording of its URL
    authentication and builds the same runtime site. *)
Theorem unedited_save_changes_nothing site : fixed_point site -> ports_ok site ->
  exists shown site', site_json site = Ok shown /\ parse_site shown = Ok site' /\
    let saved := set_s_id (s_id site) site' in
    fixed_point saved /\ saved = set_s_url_auth_json (s_url_auth_json saved) site /\
    runtime_site saved = runtime_site site.
Proof.
  intros Hf Hp. destruct (shown_site site Hf Hp) as (shown & site' & Hj & Hr & Ht & He & Hu). exists shown, site'.
  split; [done|]. split; [done|]. cbv zeta.
  assert (E : set_s_id (s_id site) site' = set_s_url_auth_json (s_url_auth_json site') site)
    by (rewrite He; by destruct site).
  assert (Hsite : runtime_url_auth (set_s_url_auth_json (s_url_auth_json site') site) = runtime_url_auth site) by done.
  rewrite E. split; [apply steady_fixed, steady_reworded; [done|by apply fixed_steady|done]|]. split; [done|].
  unfold runtime_site. rewrite Hsite. by destruct site.
Qed.
End Editing.

Section Sample.
#[local] Existing Instance token_json.
#[local] Existing Instance loopback_only.
#[local] Existing Instance no_regex.
#[local] Existing Instance permissive_openssl.

Definition stored_sample : SiteRecord :=
  match validate_and_normalize (set_s_id 7 (sample_site b!"a" [b!"a.test"])) with Ok site => site | Throw _ => sample_site [] [] end.

Lemma unedited_save_changes_nothing_witness :
  fixed_point stored_sample /\ s_id stored_sample = 7 /\
  exists shown site', site_json stored_sample = Ok shown /\ parse_site shown = Ok site' /\
    runtime_site (set_s_id (s_id stored_sample) site') = runtime_site stored_sample.
Proof.
  assert (Hf : fixed_point stored_sample) by (vm_compute; reflexivity).
  assert (Hp : ports_ok stored_sample) by (vm_compute; intuition discriminate).
  split; [exact Hf|]. split; [vm_compute; reflexivity|].
  destruct (unedited_save_changes_nothing stored_sample Hf Hp) as (shown & site' & Hj & Hr & _ & _ & He).
  exists shown, site'. split; [exact Hj|]. split; [exact Hr|exact He].
Defined.

(** The address of a page and its parameters. *)
Example query_is_decoded :
  let request := {| r_method := verb_get; r_target := b!"/api/logs/access?limit=500&path=%2Fa+b%zz&limit=100&flag";
                    r_field _ := []; r_body := []; r_keep_alive := true; r_version := 11 |} in
  request_path request = b!"/api/logs/access" /\
  query_parameters request = {[b!"limit" := b!"100"; b!"path" := b!"/a b%zz"; b!"flag" := []]}.
Proof. split; vm_compute; reflexivity. Qed.

End Sample.
