(* ===== verification/ServerCore.v ===== *)
(** * Server core (src/src/core/ServerCore.{hpp,cpp})

    The server owns the listeners, the published configuration and the retired
    listeners that still have sessions.  A reload has two halves: [prepare_reload]
    builds the next configuration and opens the listeners it needs, gated by its
    revision; the function it returns ([commit]) installs them and publishes;
    destroying it instead ([discard]) stops them.  Listener objects are numbered;
    [posted] holds what [retire] and [stop] dispatched to a listener's strand.
    [conditions] is what the operating system and the allocator answer.

    The server implements the interface the configuration service is verified
    against.  The theorems about its runs, with all listeners' events interleaved,
    say that the listeners are those of the published configuration, and that a
    reload that is given up never serves a connection. *)

From S2P Require Import Prelude IpAddress RequestPolicy VirtualHostRouter TlsContextManager RuntimeConfig.
From S2P Require Import BackendConcurrencyLimiter ConfigService.
From S2P Require Import Listener.

(** ** State *)

Record Conditions := {
  binds : bool -> Z -> bool;              (* open, bind and listen on a port; the flag is TLS *)
  start_throws : nat -> list bool;        (* the calls of a listener's start() that throw *)
  limit_throws : Z -> bool                (* update_limits throws for a site *)
}.

Record Server := {
  bind_address : str;
  runtime_store_ : Config;
  http_listeners_ : gmap Z nat;
  tls_listeners_ : gmap Z nat;
  retired_http_listeners_ : list nat;
  retired_tls_listeners_ : list nat;
  started_ : bool;
  server_stopping_ : bool;
  limiter : Impl;
  objects : gmap nat Listener;
  next_object : nat;
  posted : list (nat * event);
  conditions : Conditions
}.

Definition server_eta (s : Server) : Server := Build_Server (s.(bind_address)) (s.(runtime_store_)) (s.(http_listeners_))
  (s.(tls_listeners_)) (s.(retired_http_listeners_)) (s.(retired_tls_listeners_)) (s.(started_)) (s.(server_stopping_))
  (s.(limiter)) (s.(objects)) (s.(next_object)) (s.(posted)) (s.(conditions)).
Definition set_runtime_store (v : Config) (s : Server) : Server := ltac:(record_update server_eta runtime_store_ s v).
Definition set_http_listeners (v : gmap Z nat) (s : Server) : Server := ltac:(record_update server_eta http_listeners_ s v).
Definition set_tls_listeners (v : gmap Z nat) (s : Server) : Server := ltac:(record_update server_eta tls_listeners_ s v).
Definition set_retired_http (v : list nat) (s : Server) : Server := ltac:(record_update server_eta retired_http_listeners_ s v).
Definition set_retired_tls (v : list nat) (s : Server) : Server := ltac:(record_update server_eta retired_tls_listeners_ s v).
Definition set_server_started (v : bool) (s : Server) : Server := ltac:(record_update server_eta started_ s v).
Definition set_server_stopping (v : bool) (s : Server) : Server := ltac:(record_update server_eta server_stopping_ s v).
Definition set_limiter (v : Impl) (s : Server) : Server := ltac:(record_update server_eta limiter s v).
Definition set_objects (v : gmap nat Listener) (s : Server) : Server := ltac:(record_update server_eta objects s v).
Definition set_next_object (v : nat) (s : Server) : Server := ltac:(record_update server_eta next_object s v).
Definition set_posted (v : list (nat * event)) (s : Server) : Server := ltac:(record_update server_eta posted s v).
Definition set_conditions (v : Conditions) (s : Server) : Server := ltac:(record_update server_eta conditions s v).

(** ** Listener objects *)

Definition put (id : nat) (l : Listener) (s : Server) : Server := set_objects (<[id := l]> (objects s)) s.

(** A listener's [stop()]: the flag now, the rest on its strand. *)
Definition stop_listener (id : nat) (s : Server) : Server :=
  match objects s !! id with
  | None => s
  | Some l => set_posted (posted s ++ [(id, EStop)]) (put id (request_stop l) s)
  end.
Definition stop_listeners (ids : list nat) (s : Server) : Server := foldl (fun s id => stop_listener id s) s ids.

(** A listener's [retire()]. *)
Definition retire_listeners (ids : list nat) (s : Server) : Server :=
  set_posted (posted s ++ ((fun id => (id, ERetire)) <$> ids)) s.

(** Construct, register and start the listeners of the ports the table lacks; the
    objects made so far come back with the exception. *)
Fixpoint open_listeners (secure : bool) (revision : Z) (ports : list Z) (table : gmap Z nat) (added : list nat) (s : Server)
    : res (gmap Z nat) * list nat * Server :=
  match ports with
  | [] => (Ok table, added, s)
  | port :: ports =>
      match table !! port with
      | Some _ => open_listeners secure revision ports table added s
      | None =>
          if negb (binds (conditions s) secure port) then (Throw (runtime_error b!"bind"), added, s)
          else
            let id := next_object s in
            let s := set_next_object (S id) s in
            match start revision (set_faults (start_throws (conditions s) id) (new_listener secure)) with
            | Threw l => (Throw (runtime_error b!"start"), added ++ [id], put id l s)
            | Done l => open_listeners secure revision ports (<[port := id]> table) (added ++ [id]) (put id l s)
            end
      end
  end.

(** [contains_port]. *)
Definition contains_port (ports : list Z) (port : Z) : bool := bool_decide (port ∈ ports).

(** The loop that moves the listeners of vanished ports: the table that stays and
    the listeners to retire. *)
Definition split_table (ports : list Z) (table : gmap Z nat) : gmap Z nat * list nat :=
  (filter (fun entry => contains_port ports entry.1 = true) table,
   (map_to_list (filter (fun entry => contains_port ports entry.1 = false) table)).*2).

(** ** Reload *)

Record Prepared := {
  next_config : Config;
  overload_limits : list BackendOverloadConfig;
  active_site_ids : list Z;
  final_http : gmap Z nat;
  final_tls : gmap Z nat;
  final_retired_http : list nat;
  final_retired_tls : list nat;
  added_http : list nat;
  added_tls : list nat;
  retire_http : list nat;
  retire_tls : list nat;
  server_started : bool
}.

Section ServerCore.
Context `{AddressText} `{Regex} `{OpenSsl}.

Definition site_overload (site : RuntimeSiteConfig) : BackendOverloadConfig := vc_overload (rs_virtual_host site).

(** The body of [prepare_reload] for a server that is running. *)
Definition prepare_listeners (next : Config) (limits : list BackendOverloadConfig) (s : Server)
    : res (option Prepared) * Server :=
  match make_address (bind_address s) with
  | None => (Throw (runtime_error b!"invalid bind address"), s)
  | Some _ =>
      match open_listeners false (revision next) (http_ports next) (http_listeners_ s) [] s with
      | (Throw e, added, s) => (Throw e, stop_listeners added s)
      | (Ok http, added_http, s) =>
          match open_listeners true (revision next) (https_ports next) (tls_listeners_ s) [] s with
          | (Throw e, added, s) => (Throw e, stop_listeners (added_http ++ added) s)
          | (Ok tls, added_tls, s) =>
              let '(final_http, retire_http) := split_table (http_ports next) http in
              let '(final_tls, retire_tls) := split_table (https_ports next) tls in
              (Ok (Some {| next_config := next; overload_limits := limits; active_site_ids := ov_site_id <$> limits;
                           final_http := final_http; final_tls := final_tls;
                           final_retired_http := retired_http_listeners_ s ++ retire_http;
                           final_retired_tls := retired_tls_listeners_ s ++ retire_tls;
                           added_http := added_http; added_tls := added_tls;
                           retire_http := retire_http; retire_tls := retire_tls; server_started := true |}), s)
          end
      end
  end.

Definition prepare (spec : RuntimeConfigSpec) (s : Server) : res (option Prepared) * Server :=
  let limits := site_overload <$> spec_sites spec in
  match RuntimeConfig spec with
  | Throw e => (Throw e, s)
  | Ok next =>
      if server_stopping_ s then (Throw (logic_error b!"cannot reload a stopping server"), s)
      else if started_ s then prepare_listeners next limits s
      else (Ok (Some {| next_config := next; overload_limits := limits; active_site_ids := ov_site_id <$> limits;
                        final_http := ∅; final_tls := ∅; final_retired_http := []; final_retired_tls := [];
                        added_http := []; added_tls := []; retire_http := []; retire_tls := [];
                        server_started := false |}), s)
  end.

(** The new limits of a site, unless the call throws, which is ignored. *)
Definition apply_limit (s : Server) (overload : BackendOverloadConfig) : Server :=
  if limit_throws (conditions s) (ov_site_id overload) then s
  else set_limiter (update_limits (ov_site_id overload) (ov_maximum_active_connections overload)
                      (ov_maximum_queue overload) (limiter s)).1 s.

Definition commit (p : Prepared) (s : Server) : Server :=
  let s := foldl apply_limit s (overload_limits p) in
  let s := set_limiter (retain_sites (active_site_ids p) (limiter s)) s in
  let s := if server_started p
           then retire_listeners (retire_http p ++ retire_tls p)
                  (set_retired_tls (final_retired_tls p) (set_retired_http (final_retired_http p)
                    (set_tls_listeners (final_tls p) (set_http_listeners (final_http p) s))))
           else s in
  set_runtime_store (next_config p) s.

(** [~PreparedReload] without a commit. *)
Definition discard (p : Prepared) (s : Server) : Server := stop_listeners (added_http p ++ added_tls p) s.

Definition reload (spec : RuntimeConfigSpec) (s : Server) : res unit * Server :=
  match prepare spec s with
  | (Throw e, s) => (Throw e, s)
  | (Ok None, s) => (Ok tt, s)
  | (Ok (Some p), s) => (Ok tt, commit p s)
  end.

(** ** Options *)

Record ServerOptions := {
  o_bind_address : str;
  o_port : Z;
  o_https_port : option Z;
  o_worker_threads : Z;
  o_virtual_hosts : list VirtualHostConfig;
  o_tls_certificates : list TlsCertificateConfig;
  o_reject_unknown_sni : bool;
  o_config_revision : Z;
  o_runtime_config : option RuntimeConfigSpec
}.

Definition choose_worker_count (requested hardware_concurrency : Z) : Z :=
  if negb (requested =? 0) then requested else Z.max 1 hardware_concurrency.

Definition initial_runtime_config (options : ServerOptions) : res Config :=
  match o_runtime_config options with
  | Some spec => RuntimeConfig spec
  | None =>
      RuntimeConfig
        {| spec_revision := o_config_revision options;
           spec_sites := (fun host =>
             {| rs_virtual_host := host; rs_http_enabled := true; rs_http_port := o_port options;
                rs_https_enabled := bool_decide (is_Some (o_https_port options));
                rs_https_port := default 443 (o_https_port options) |}) <$> o_virtual_hosts options;
           spec_tls_certificates := o_tls_certificates options;
           spec_reject_unknown_sni := o_reject_unknown_sni options; spec_settings := default_settings |}
  end.

(** The constructor: nothing runs yet. *)
Definition ServerCore (options : ServerOptions) (c : Conditions) : res Server :=
  runtime ← initial_runtime_config options;
  store ← RuntimeConfigStore (Some runtime);
  Ok {| bind_address := o_bind_address options; runtime_store_ := store; http_listeners_ := ∅; tls_listeners_ := ∅;
        retired_http_listeners_ := []; retired_tls_listeners_ := []; started_ := false; server_stopping_ := false;
        limiter := initial_impl; objects := ∅; next_object := 0; posted := []; conditions := c |}.

(** ** Start, stop *)

(** unordered_map::emplace keeps the element that is there. *)
Definition emplace (port : Z) (id : nat) (table : gmap Z nat) : gmap Z nat :=
  match table !! port with Some _ => table | None => <[port := id]> table end.

(** Construct the listeners of a list of ports, without starting them. *)
Fixpoint construct_listeners (secure : bool) (ports : list Z) (table : gmap Z nat) (s : Server) : res (gmap Z nat) * Server :=
  match ports with
  | [] => (Ok table, s)
  | port :: ports =>
      if negb (binds (conditions s) secure port) then (Throw (runtime_error b!"bind"), s)
      else
        let id := next_object s in
        construct_listeners secure ports (emplace port id table) (put id (new_listener secure) (set_next_object (S id) s))
  end.

(** Start the listeners of a table for a revision; the first that throws ends it. *)
Fixpoint start_listeners (revision : Z) (ids : list nat) (s : Server) : res unit * Server :=
  match ids with
  | [] => (Ok tt, s)
  | id :: ids =>
      match objects s !! id with
      | None => start_listeners revision ids s
      | Some l =>
          match start revision (set_faults (start_throws (conditions s) id) l) with
          | Threw l => (Throw (runtime_error b!"start"), put id l s)
          | Done l => start_listeners revision ids (put id l s)
          end
      end
  end.

(** [wait()] once the workers are joined: the listeners are destroyed. *)
Definition wait (s : Server) : Server :=
  set_limiter (BackendConcurrencyLimiter.clear (limiter s))
    (set_objects ∅ (set_posted [] (set_retired_tls [] (set_retired_http []
      (set_tls_listeners ∅ (set_http_listeners ∅ s)))))).

(** The catch block of [start()]. *)
Definition abandon_start (e : exn) (s : Server) : res unit * Server := (Throw e, wait (set_server_stopping true s)).

Definition start_server (s : Server) : res unit * Server :=
  if started_ s then (Throw (logic_error b!"HTTP server has already been started"), s)
  else
    let s := set_server_started true s in
    match make_address (bind_address s) with
    | None => abandon_start (runtime_error b!"invalid bind address") s
    | Some _ =>
        let runtime := runtime_store_ s in
        match construct_listeners false (http_ports runtime) ∅ s with
        | (Throw e, s) => abandon_start e s
        | (Ok http, s) =>
            match construct_listeners true (https_ports runtime) ∅ s with
            | (Throw e, s) => abandon_start e s
            | (Ok tls, s) =>
                let s := set_tls_listeners tls (set_http_listeners http s) in
                match start_listeners (revision runtime) ((map_to_list http).*2 ++ (map_to_list tls).*2) s with
                | (Throw e, s) => abandon_start e s
                | (Ok _, s) => (Ok tt, s)
                end
            end
        end
    end.

Definition stop_server (s : Server) : Server :=
  if negb (started_ s) || server_stopping_ s then s
  else
    let s := set_server_stopping true s in
    let s := stop_listeners ((map_to_list (http_listeners_ s)).*2 ++ (map_to_list (tls_listeners_ s)).*2 ++
                             retired_http_listeners_ s ++ retired_tls_listeners_ s) s in
    set_limiter (BackendConcurrencyLimiter.clear (limiter s)) s.

(** The handler a retired listener posts when its last session is gone. *)
Definition forget_drained (id : nat) (s : Server) : Server :=
  set_retired_tls (filter (fun x => x <> id) (retired_tls_listeners_ s))
    (set_retired_http (filter (fun x => x <> id) (retired_http_listeners_ s)) s).

Definition retired_listener_count (s : Server) : nat :=
  (length (retired_http_listeners_ s) + length (retired_tls_listeners_ s))%nat.
Definition runtime_revision (s : Server) : Z := revision (runtime_store_ s).

(** ** The interface of the configuration service *)

Lemma open_listeners_store secure rev ports table added s :
  runtime_store_ (open_listeners secure rev ports table added s).2 = runtime_store_ s.
Proof.
  induction ports as [|port ports IH] in table, added, s |- *; cbn [open_listeners]; [done|].
  destruct (table !! port); [apply IH|]. destruct (negb _); [done|]. cbv zeta. destruct (start _ _); [|done]. by rewrite IH.
Qed.
Lemma stop_listeners_store ids s : runtime_store_ (stop_listeners ids s) = runtime_store_ s.
Proof.
  unfold stop_listeners. induction ids as [|id ids IH] in s |- *; cbn; [done|]. rewrite IH. unfold stop_listener. by case_match.
Qed.

Lemma prepare_listeners_store next limits s : runtime_store_ (prepare_listeners next limits s).2 = runtime_store_ s.
Proof.
  unfold prepare_listeners. destruct (make_address _); [|done].
  pose proof (open_listeners_store false (revision next) (http_ports next) (http_listeners_ s) [] s) as E1.
  destruct (open_listeners false _ _ _ _ _) as [[[http|e] added] s1]; cbn in E1; [|by cbn; rewrite stop_listeners_store].
  pose proof (open_listeners_store true (revision next) (https_ports next) (tls_listeners_ s1) [] s1) as E2.
  destruct (open_listeners true _ _ _ _ _) as [[[tls|e] added'] s2]; cbn in E2 |- *; [|rewrite stop_listeners_store]; congruence.
Qed.

#[export, refine] Instance server_reloads : ReloadTarget Server := {
  prepared := Prepared;
  prepare_reload := prepare;
  commit_reload := commit;
  discard_reload := discard;
  published := runtime_store_
}.
Proof.
  - intros spec s. unfold prepare. destruct (RuntimeConfig spec); [|done]. destruct (server_stopping_ s); [done|].
    destruct (started_ s); [apply prepare_listeners_store|done].
  - intros p s. apply stop_listeners_store.
  - intros spec s p s'. unfold prepare. destruct (RuntimeConfig spec) as [next|] eqn:E; [|done].
    destruct (server_stopping_ s); [done|]. destruct (started_ s); [|by intros [= <- <-]].
    unfold prepare_listeners. destruct (make_address _); [|done].
    destruct (open_listeners false _ _ _ _ _) as [[[http|e] added] s1]; [|done].
    destruct (open_listeners true _ _ _ _ _) as [[[tls|e] added'] s2]; [|done]. by intros [= <- <-].
Defined.

(** ** Opening listeners *)

Definition fresh (s : Server) : Prop := forall id, (next_object s <= id)%nat -> objects s !! id = None.

(** Listeners opened for a revision that nobody has reached yet. *)
Definition gated (rev : Z) (s : Server) (id : nat) : Prop :=
  exists l, objects s !! id = Some l /\ minimum_runtime_revision_ l = rev /\ served l = [].

(** The invariant of a started listener. *)
Definition lives (l : Listener) : Prop := exists n, Inv n l.

Lemma step_lives e throws l : enabled e l = true -> lives l -> lives (step e throws l).
Proof. intros He [n Hi]. eexists. by apply listener_step_inv. Qed.
Lemma request_stop_lives l : lives l -> lives (request_stop l).
Proof. intros [n [[] ? ? ?]]. exists n. by constructor; [constructor|..]. Qed.

(** A listener that serves a port of the published configuration. *)
Definition serving (is_secure : bool) (rev : Z) (s : Server) (id : nat) : Prop :=
  exists l, objects s !! id = Some l /\ secure l = is_secure /\ minimum_runtime_revision_ l <= rev /\
    (server_stopping_ s = false -> stopping_ l = false) /\ lives l.

Definition table_ok (is_secure : bool) (rev : Z) (s : Server) (table : gmap Z nat) : Prop :=
  forall port id, table !! port = Some id -> serving is_secure rev s id.

(** Only objects were added. *)
Record grown (s s' : Server) : Prop := {
  gr_objects : objects s ⊆ objects s';
  gr_next : (next_object s <= next_object s')%nat;
  gr_rest : s' = set_next_object (next_object s') (set_objects (objects s') s)
}.

Lemma grown_refl s : grown s s.
Proof. constructor; [done|done|by destruct s]. Qed.
Lemma grown_trans s s' s'' : grown s s' -> grown s' s'' -> grown s s''.
Proof. intros [? ? ->] [? ? ->]. constructor; cbn in *; [by etrans|lia|done]. Qed.

Lemma grown_serving is_secure rev s s' id : grown s s' -> serving is_secure rev s id -> serving is_secure rev s' id.
Proof.
  intros [Ho _ Hr] (l & Hl & Hs & Hm & Hst). exists l. rewrite Hr. cbn. split_and!; try done; [by eapply lookup_weaken|apply Hst..].
Qed.
Lemma grown_gated rev s s' id : grown s s' -> gated rev s id -> gated rev s' id.
Proof. intros [Ho _ _] (l & Hl & Hm). exists l. split; [by eapply lookup_weaken|done]. Qed.

Lemma put_grown l s : fresh s -> grown s (put (next_object s) l (set_next_object (S (next_object s)) s)).
Proof. intros Hf. constructor; [|cbn; lia|done]. cbn. apply insert_subseteq, Hf. lia. Qed.
Lemma put_fresh l s : fresh s -> fresh (put (next_object s) l (set_next_object (S (next_object s)) s)).
Proof. intros Hf id Hid. cbn in *. rewrite lookup_insert_ne by lia. apply Hf. lia. Qed.

Lemma open_listeners_spec is_secure rev ports table added s r added' s' :
  fresh s -> server_stopping_ s = false -> table_ok is_secure rev s table ->
  open_listeners is_secure rev ports table added s = (r, added', s') ->
  fresh s' /\ grown s s' /\
  (forall id, id ∈ added' -> id ∈ added \/ (next_object s <= id)%nat /\ gated rev s' id) /\
  (forall id, id ∈ added \/ (next_object s <= id < next_object s')%nat -> id ∈ added') /\
  (forall table', r = Ok table' -> table_ok is_secure rev s' table' /\
                                  dom table' = dom table ∪ list_to_set ports).
Proof.
  induction ports as [|port ports IH] in table, added, s |- *; cbn [open_listeners]; intros Hf Hs Ht E.
  { simplify_eq. split_and!; [done|apply grown_refl|auto|intros id [?|?]; [done|lia]|]. intros table' [= <-]. split; [done|set_solver]. }
  destruct (table !! port) as [old|] eqn:Ep.
  { apply IH in E as (Hf' & Hg & Ha & Hn & Hok); [|done..]. split_and!; try done. intros table' Hr.
    destruct (Hok table' Hr) as [Hto Hd]. split; [done|]. rewrite Hd. apply elem_of_dom_2 in Ep. set_solver. }
  destruct (negb _). { simplify_eq. split_and!; [done|apply grown_refl|auto|intros id [?|?]; [done|lia]|done]. }
  cbv zeta in E. set (s1 := set_next_object (S (next_object s)) s) in *.
  pose proof (start_keeps rev (start_throws (conditions s1) (next_object s)) (new_listener is_secure)) as Hst. cbv zeta in Hst.
  pose proof (fun l => start_inv is_secure rev (start_throws (conditions s1) (next_object s)) l) as Hi.
  destruct (start rev _) as [l|l]; cbn [state_of] in Hst; destruct Hst as (Hsec & Hmin & Hstop & Hser).
  - pose proof (put_grown l s Hf) as Hg1. pose proof (put_fresh l s Hf) as Hf1. fold s1 in Hg1, Hf1.
    set (s2 := put (next_object s) l s1) in *.
    assert (Hl : objects s2 !! next_object s = Some l) by (cbn; by rewrite lookup_insert_eq).
    apply IH in E as (Hf' & Hg & Ha & Hn & Hok); [| done | done |].
    + split_and!; [done|by eapply grown_trans| | |].
      * intros id Hid. destruct (Ha id Hid) as [[Hin| ->%list_elem_of_singleton]%elem_of_app|[Hle Hgt]]; [by left| |].
        -- right. split; [done|]. eapply grown_gated; [done|]. by exists l.
        -- right. split; [cbn in Hle; lia|done].
      * intros id Hid. apply Hn. rewrite elem_of_app, list_elem_of_singleton. cbn. destruct Hid as [?|?]; [tauto|].
        destruct (decide (id = next_object s)); [tauto|lia].
      * intros table' Hr. destruct (Hok table' Hr) as [Hto Hd]. split; [done|]. rewrite Hd, dom_insert_L. set_solver.
    + intros port' id [[_ <-]|[_ Hp]]%lookup_insert_Some; [|by eapply grown_serving, Ht].
      exists l. split_and!; try done; [lia|exists 0%nat; by apply Hi].
  - simplify_eq. pose proof (put_grown l s Hf) as Hg1. pose proof (put_fresh l s Hf) as Hf1. fold s1 in Hg1, Hf1.
    split_and!; [done|done| | |done].
    + intros id [Hin| ->%list_elem_of_singleton]%elem_of_app; [by left|]. right.
      split; [done|]. exists l. split; [cbn; by rewrite lookup_insert_eq|done].
    + intros id Hid. rewrite elem_of_app, list_elem_of_singleton. cbn in Hid. destruct Hid as [?|?]; [tauto|]. right. lia.
Qed.

(** Stopping listeners marks exactly those named and posts the rest. *)
Definition asked_to_stop (ids : list nat) (id : nat) (l : Listener) : Listener :=
  if bool_decide (id ∈ ids) then request_stop l else l.

Record halted (ids : list nat) (s s' : Server) : Prop := {
  ha_objects : forall id, objects s' !! id = asked_to_stop ids id <$> objects s !! id;
  ha_posted : forall x, x ∈ posted s' -> x ∈ posted s \/ exists id, x = (id, EStop) /\ id ∈ ids /\ is_Some (objects s !! id);
  ha_rest : s' = set_posted (posted s') (set_objects (objects s') s)
}.

Lemma stop_listener_halted id s : halted [id] s (stop_listener id s).
Proof.
  unfold stop_listener. destruct (objects s !! id) as [l|] eqn:E.
  - constructor; [| |done].
    + intros k. cbn. unfold asked_to_stop. destruct (decide (k = id)) as [->|Hne].
      * by rewrite lookup_insert_eq, E, bool_decide_eq_true_2 by set_solver.
      * rewrite lookup_insert_ne, bool_decide_eq_false_2 by set_solver. by destruct (objects s !! k).
    + intros x [Hx| ->%list_elem_of_singleton]%elem_of_app; [by left|]. right. exists id. by rewrite E; split_and!; [|set_solver|].
  - constructor; [|by left|by destruct s]. intros k. unfold asked_to_stop. case_bool_decide as Hk.
    + apply list_elem_of_singleton in Hk as ->. by rewrite E.
    + by destruct (objects s !! k).
Qed.

Lemma stop_listeners_halted ids s : halted ids s (stop_listeners ids s).
Proof.
  unfold stop_listeners. induction ids as [|id ids IH] in s |- *; cbn.
  { constructor; [|by left|by destruct s]. intros k. unfold asked_to_stop. rewrite bool_decide_eq_false_2 by set_solver.
    by destruct (objects s !! k). }
  destruct (stop_listener_halted id s) as [O1 P1 R1]. destruct (IH (stop_listener id s)) as [O2 P2 R2]. constructor.
  - intros k. rewrite O2, O1. destruct (objects s !! k) as [l|]; cbn; [|done]. f_equal. unfold asked_to_stop.
    by repeat case_bool_decide; set_solver.
  - intros x Hx. apply P2 in Hx as [Hx|(k & -> & Hk & Hs)].
    + apply P1 in Hx as [Hx|(k & -> & Hk & Hs)]; [by left|]. right. exists k. split_and!; [done|set_solver|done].
    + right. exists k. split_and!; [done|set_solver|]. rewrite O1 in Hs. by apply fmap_is_Some in Hs.
  - rewrite R2 at 1. rewrite R1. done.
Qed.

(** ** Preparing *)

Definition added (p : Prepared) : list nat := added_http p ++ added_tls p.

(** What a prepared reload of a running server holds. *)
Record ready (s : Server) (p : Prepared) : Prop := {
  rd_started : server_started p = true;
  rd_http : dom (final_http p) =@{gset Z} list_to_set (http_ports (next_config p));
  rd_tls : dom (final_tls p) =@{gset Z} list_to_set (https_ports (next_config p));
  rd_http_ok : table_ok false (revision (next_config p)) s (final_http p);
  rd_tls_ok : table_ok true (revision (next_config p)) s (final_tls p);
  rd_gated : forall id, id ∈ added p -> gated (revision (next_config p)) s id;
  rd_apart : forall id port, id ∈ added p -> http_listeners_ s !! port <> Some id /\ tls_listeners_ s !! port <> Some id
}.

Lemma table_ok_weaken is_secure rev rev' s s' table : rev <= rev' -> grown s s' ->
  table_ok is_secure rev s table -> table_ok is_secure rev' s' table.
Proof.
  intros Hr Hg Ht port id Hp. destruct (grown_serving _ _ _ _ _ Hg (Ht port id Hp)) as (l & ? & ? & ? & ? & ?).
  exists l. split_and!; try done. lia.
Qed.

Lemma split_table_dom ports table : list_to_set ports ⊆ dom table ->
  dom (split_table ports table).1 =@{gset Z} list_to_set ports.
Proof.
  intros Hs. apply set_eq. intros port. rewrite elem_of_dom. cbn. split.
  - intros [id [_ Hp]%map_lookup_filter_Some]. unfold contains_port in Hp. cbn in Hp. by apply bool_decide_eq_true in Hp; set_solver.
  - intros Hp. assert (is_Some (table !! port)) as [id Hid] by (apply elem_of_dom; set_solver). exists id.
    apply map_lookup_filter_Some. split; [done|]. unfold contains_port. cbn. apply bool_decide_eq_true. set_solver.
Qed.
Lemma split_table_ok is_secure rev s ports table : table_ok is_secure rev s table -> table_ok is_secure rev s (split_table ports table).1.
Proof. intros Ht port id [Hp _]%map_lookup_filter_Some. by apply (Ht port). Qed.

(** An object that was added is in no table that existed before. *)
Lemma table_old is_secure rev s table port id : fresh s -> table_ok is_secure rev s table -> (next_object s <= id)%nat ->
  table !! port <> Some id.
Proof. intros Hf Ht Hn Hp. destruct (Ht port id Hp) as (l & Hl & _). by rewrite Hf in Hl. Qed.

(** [ids] are exactly the objects made between two states, all gated. *)
Record opened (rev : Z) (ids : list nat) (s s' : Server) : Prop := {
  op_fresh : fresh s';
  op_grown : grown s s';
  op_range id : id ∈ ids <-> (next_object s <= id < next_object s')%nat;
  op_gated id : id ∈ ids -> gated rev s' id
}.

Lemma opened_nil rev s : fresh s -> opened rev [] s s.
Proof. intros Hf. constructor; [done|apply grown_refl| |]; intros id; [split; [set_solver|lia]|set_solver]. Qed.

Lemma opened_app rev ids ids' s s' s'' : opened rev ids s s' -> opened rev ids' s' s'' -> opened rev (ids ++ ids') s s''.
Proof.
  intros [F1 G1 R1 A1] [F2 G2 R2 A2]. constructor; [done|by eapply grown_trans| |].
  - intros id. rewrite elem_of_app, R1, R2. pose proof (gr_next _ _ G1). pose proof (gr_next _ _ G2). lia.
  - intros id [Hi|Hi]%elem_of_app; [|by apply A2]. eapply grown_gated; [done|by apply A1].
Qed.

Lemma open_listeners_opened is_secure rev ports table s r ids s' :
  fresh s -> server_stopping_ s = false -> table_ok is_secure rev s table ->
  open_listeners is_secure rev ports table [] s = (r, ids, s') ->
  opened rev ids s s' /\
  (forall table', r = Ok table' -> table_ok is_secure rev s' table' /\ dom table' = dom table ∪ list_to_set ports).
Proof.
  intros Hf Hs Ht E. apply open_listeners_spec in E as (F & G & A & N & K); [|done..]. split; [|done].
  assert (Hr : forall id, id ∈ ids -> (next_object s <= id)%nat /\ gated rev s' id) by (intros id [?|?]%A; [set_solver|done]).
  constructor; [done|done| |by intros id []%Hr]. intros id. split; [|intros ?; apply N; by right].
  intros [Hle (l & Hl & _)]%Hr. split; [done|]. destruct (decide (id < next_object s')%nat); [done|]. rewrite F in Hl by lia. done.
Qed.

(** Ports that are all open need nothing. *)
Lemma open_listeners_none is_secure rev ports (table : gmap Z nat) ids s : list_to_set ports ⊆ dom table ->
  open_listeners is_secure rev ports table ids s = (Ok table, ids, s).
Proof.
  induction ports as [|port ports IH]; cbn [open_listeners]; intros Hp; [done|].
  assert (is_Some (table !! port)) as [id ->] by (apply elem_of_dom; set_solver). apply IH. set_solver.
Qed.
Lemma prepare_same_ports next limits s p s' :
  list_to_set (http_ports next) ⊆ dom (http_listeners_ s) -> list_to_set (https_ports next) ⊆ dom (tls_listeners_ s) ->
  prepare_listeners next limits s = (Ok (Some p), s') -> added p = [].
Proof.
  intros Hh Ht. unfold prepare_listeners. destruct (make_address _); [|done].
  rewrite open_listeners_none by done. rewrite open_listeners_none by done. cbn. by intros [= <- _].
Qed.

(** The two outcomes: ready, or every new object was told to stop. *)
Lemma prepare_listeners_spec next limits s r s' :
  fresh s -> server_stopping_ s = false -> revision (runtime_store_ s) <= revision next ->
  table_ok false (revision (runtime_store_ s)) s (http_listeners_ s) ->
  table_ok true (revision (runtime_store_ s)) s (tls_listeners_ s) ->
  prepare_listeners next limits s = (r, s') ->
  match r with
  | Ok (Some p) => opened (revision next) (added p) s s' /\ ready s' p /\ next_config p = next
  | Ok None => False
  | Throw _ => exists s1 ids, opened (revision next) ids s s1 /\ s' = stop_listeners ids s1
  end.
Proof.
  intros Hf Hs Hrev Hh Ht E. unfold prepare_listeners in E.
  destruct (make_address _) as [a|]. 2: { simplify_eq. exists s', []. split; [by apply opened_nil|done]. }
  destruct (open_listeners false _ _ _ _ s) as [[[http|e] ah] s1] eqn:E1.
  all: apply open_listeners_opened in E1 as [O1 K1]; [|done|done|by eapply table_ok_weaken; [|apply grown_refl|]].
  2: { simplify_eq. by exists s1, ah. }
  assert (Es1 : server_stopping_ s1 = false /\ tls_listeners_ s1 = tls_listeners_ s) by (by rewrite (gr_rest _ _ (op_grown _ _ _ _ O1))).
  destruct Es1 as [Hs1 Et1]. rewrite Et1 in E.
  destruct (open_listeners true _ _ _ _ s1) as [[[tls|e] at_] s2] eqn:E2.
  all: apply open_listeners_opened in E2 as [O2 K2];
    [|apply O1|done|by eapply table_ok_weaken; [exact Hrev|apply O1|]].
  2: { simplify_eq. exists s2, (ah ++ at_). split; [by eapply opened_app|done]. }
  destruct (K1 http eq_refl) as [T1 D1]. destruct (K2 tls eq_refl) as [T2 D2]. cbn in E. simplify_eq.
  pose proof (opened_app _ _ _ _ _ _ O1 O2) as O. split; [exact O|]. split; [|done].
  pose proof (gr_rest _ _ (op_grown _ _ _ _ O)) as Er.
  constructor; cbn [server_started final_http final_tls next_config]; [done| | | | |apply O|].
  - apply (split_table_dom _ http). rewrite D1. set_solver.
  - apply (split_table_dom _ tls). rewrite D2. set_solver.
  - apply (split_table_ok _ _ _ _ http). eapply table_ok_weaken; [reflexivity|apply O2|done].
  - by apply (split_table_ok _ _ _ _ tls).
  - intros id port [Hid _]%(op_range _ _ _ _ O). rewrite Er. cbn. split; by eapply table_old.
Qed.

(** ** Runs of the server

    [control_mutex_] is held from a preparation to its commit or its end, so that
    nothing else that takes it runs in between; the listeners do. *)

Record System := {
  server : Server;
  held : option Prepared;            (* a prepared reload, with the mutex *)
  discarded : list nat               (* listeners of reloads that were given up *)
}.

Definition listener_event (s : Server) (e : event) : Prop :=
  match e with
  | EAccept _ env => published_revision env = revision (runtime_store_ s)
  | ERetry _ | EClosed _ => True
  | ERetire | ERequestStop | EStop => False
  end.

(** The caller prepares a later revision, or the published one again with the ports
    it has. *)
Definition follows (spec : RuntimeConfigSpec) (s : Server) : Prop :=
  revision (runtime_store_ s) < spec_revision spec \/
  revision (runtime_store_ s) = spec_revision spec /\
  forall next, RuntimeConfig spec = Ok next ->
    http_ports next = http_ports (runtime_store_ s) /\ https_ports next = https_ports (runtime_store_ s).

Inductive sys_step : System -> System -> Prop :=
| SPrepare spec s s' p d :
    follows spec s -> prepare spec s = (Ok (Some p), s') ->
    sys_step (Build_System s None d) (Build_System s' (Some p) d)
| SPrepareFails spec s s' e d :
    follows spec s -> prepare spec s = (Throw e, s') ->
    sys_step (Build_System s None d) (Build_System s' None (d ++ seq (next_object s) (next_object s' - next_object s)))
| SCommit s p d : sys_step (Build_System s (Some p) d) (Build_System (commit p s) None d)
| SDiscard s p d : sys_step (Build_System s (Some p) d) (Build_System (discard p s) None (d ++ added p))
| SStop s d : sys_step (Build_System s None d) (Build_System (stop_server s) None d)
| SListener s h d id l e throws :
    objects s !! id = Some l -> listener_event s e -> enabled e l = true ->
    sys_step (Build_System s h d) (Build_System (put id (step e throws l) s) h d)
| SPosted s h d before id e after l throws :
    posted s = before ++ (id, e) :: after -> objects s !! id = Some l ->
    sys_step (Build_System s h d) (Build_System (put id (step e throws l) (set_posted (before ++ after) s)) h d)
| SForget s d id l :
    objects s !! id = Some l -> (0 < drained l)%nat ->
    sys_step (Build_System s None d) (Build_System (forget_drained id s) None d)
| SConditions s h d c : sys_step (Build_System s h d) (Build_System (set_conditions c s) h d).

Inductive sys_reachable : System -> Prop :=
| sys_start options c s0 s :
    ServerCore options c = Ok s0 -> start_server s0 = (Ok tt, s) -> sys_reachable (Build_System s None [])
| sys_more σ σ' : sys_reachable σ -> sys_step σ σ' -> sys_reachable σ'.

(** ** Invariant *)

Definition posted_ok (s : Server) (x : nat * event) : Prop :=
  x.2 = ERetire \/ x.2 = EStop /\ exists l, objects s !! x.1 = Some l /\ stopping_ l = true.

(** A listener of a reload that was given up. *)
Definition silenced (s : Server) (id : nat) : Prop :=
  exists l, objects s !! id = Some l /\ stopping_ l = true /\ served l = [].

Record SysInv (σ : System) : Prop := {
  si_fresh : fresh (server σ);
  si_started : started_ (server σ) = true;
  si_http : dom (http_listeners_ (server σ)) =@{gset Z} list_to_set (http_ports (runtime_store_ (server σ)));
  si_tls : dom (tls_listeners_ (server σ)) =@{gset Z} list_to_set (https_ports (runtime_store_ (server σ)));
  si_http_ok : table_ok false (revision (runtime_store_ (server σ))) (server σ) (http_listeners_ (server σ));
  si_tls_ok : table_ok true (revision (runtime_store_ (server σ))) (server σ) (tls_listeners_ (server σ));
  si_held p : held σ = Some p -> server_stopping_ (server σ) = false /\
    (revision (runtime_store_ (server σ)) < revision (next_config p) \/ added p = []) /\ ready (server σ) p;
  si_posted : Forall (posted_ok (server σ)) (posted (server σ));
  si_discarded : Forall (silenced (server σ)) (discarded σ)
}.

(** *** Steps that leave the tables and the configuration alone *)

Definition evolves (rev : Z) (l l' : Listener) : Prop :=
  secure l' = secure l /\ minimum_runtime_revision_ l' = minimum_runtime_revision_ l /\ stopping_ l' = stopping_ l /\
  (served l' = served l \/ stopping_ l = false /\ minimum_runtime_revision_ l <= rev) /\ (lives l -> lives l').

Record steady (s s' : Server) : Prop := {
  sd_some id l : objects s !! id = Some l -> exists l', objects s' !! id = Some l' /\ evolves (revision (runtime_store_ s)) l l';
  sd_none id : objects s !! id = None -> objects s' !! id = None;
  sd_posted x : x ∈ posted s' -> x ∈ posted s;
  sd_next : next_object s' = next_object s;
  sd_store : runtime_store_ s' = runtime_store_ s;
  sd_http : http_listeners_ s' = http_listeners_ s;
  sd_tls : tls_listeners_ s' = tls_listeners_ s;
  sd_started : started_ s' = started_ s;
  sd_stopping : server_stopping_ s' = server_stopping_ s
}.

Lemma steady_fresh s s' : steady s s' -> fresh s -> fresh s'.
Proof. intros [] Hf id. rewrite sd_next0. auto. Qed.
Lemma steady_table s s' is_secure rev table : steady s s' -> table_ok is_secure rev s table -> table_ok is_secure rev s' table.
Proof.
  intros Hd Ht port id Hp. destruct (Ht port id Hp) as (l & Hl & Hs & Hm & Hst).
  destruct (sd_some _ _ Hd _ _ Hl) as (l' & Hl' & Es & Em & Et & _ & Hv). exists l'. rewrite (sd_stopping _ _ Hd), Es, Em, Et.
  destruct Hst. split_and!; auto.
Qed.
Lemma steady_gated s s' rev id : steady s s' -> revision (runtime_store_ s) < rev -> gated rev s id -> gated rev s' id.
Proof.
  intros Hd Hr (l & Hl & Hm & Hs). destruct (sd_some _ _ Hd _ _ Hl) as (l' & Hl' & Es & Em & Et & Ev & _).
  exists l'. split_and!; [done|congruence|]. destruct Ev as [?|[_ ?]]; [congruence|lia].
Qed.
Lemma steady_silenced s s' id : steady s s' -> silenced s id -> silenced s' id.
Proof.
  intros Hd (l & Hl & Ht & Hs). destruct (sd_some _ _ Hd _ _ Hl) as (l' & Hl' & Es & Em & Et & Ev & _).
  exists l'. split_and!; [done|congruence|]. destruct Ev as [?|[? _]]; congruence.
Qed.
Lemma steady_posted s s' x : steady s s' -> posted_ok s x -> posted_ok s' x.
Proof.
  intros Hd [?|(? & l & Hl & Ht)]; [by left|]. right. split; [done|].
  destruct (sd_some _ _ Hd _ _ Hl) as (l' & Hl' & _ & _ & Et & _). exists l'. split; [done|congruence].
Qed.
Lemma steady_ready s s' p : steady s s' -> revision (runtime_store_ s) < revision (next_config p) \/ added p = [] ->
  ready s p -> ready s' p.
Proof.
  intros Hd Hr []. constructor; try done; [by eapply steady_table..| |].
  - intros id Hid. destruct Hr as [Hr|Hr]; [|rewrite Hr in Hid; set_solver]. eapply steady_gated; [done..|auto].
  - intros id port Hid. rewrite (sd_http _ _ Hd), (sd_tls _ _ Hd). auto.
Qed.

Lemma steady_inv s s' h d : steady s s' -> SysInv (Build_System s h d) -> SysInv (Build_System s' h d).
Proof.
  intros Hd []. cbn in *.
  constructor; cbn; rewrite ?(sd_started _ _ Hd), ?(sd_stopping _ _ Hd), ?(sd_store _ _ Hd), ?(sd_http _ _ Hd), ?(sd_tls _ _ Hd); try done.
  - by eapply steady_fresh.
  - by eapply steady_table.
  - by eapply steady_table.
  - intros p Hp. destruct (si_held0 p Hp) as (H2 & H3 & H4). split_and!; [done|done|by eapply steady_ready].
  - apply Forall_forall. intros x Hx%(sd_posted _ _ Hd). eapply steady_posted; [done|]. by eapply Forall_forall in si_posted0.
  - eapply Forall_impl; [done|]. intros id. by apply steady_silenced.
Qed.

Lemma evolves_refl rev l : evolves rev l l.
Proof. split_and!; auto. Qed.

Lemma put_steady id l l' s s1 : objects s !! id = Some l -> evolves (revision (runtime_store_ s)) l l' ->
  (forall x, x ∈ posted s1 -> x ∈ posted s) -> s1 = set_posted (posted s1) s -> steady s (put id l' s1).
Proof.
  intros Hl He Hp Hs. rewrite Hs. constructor; cbn; try done.
  - intros k lk Hk. destruct (decide (k = id)) as [->|Hne].
    + rewrite lookup_insert_eq. simplify_eq. eauto.
    + rewrite lookup_insert_ne by done. exists lk. split; [done|apply evolves_refl].
  - intros k Hk. rewrite lookup_insert_ne; [done|]. congruence.
Qed.

Lemma event_evolves s e throws l : listener_event s e -> enabled e l = true -> evolves (revision (runtime_store_ s)) l (step e throws l).
Proof.
  intros He Hen. destruct (step_frame e throws l) as [[] Hs]; [by intros ->..|]. split_and!; [done..| |by apply step_lives].
  destruct Hs as [?|(result & env & -> & _ & ? & _ & ?)]; [by left|]. right. cbn in He. rewrite <-He. done.
Qed.
Lemma posted_evolves s id e throws l : posted_ok s (id, e) -> objects s !! id = Some l ->
  evolves (revision (runtime_store_ s)) l (step e throws l).
Proof.
  intros [He|(He & l' & Hl' & Ht)] Hl; cbn in He; subst e.
  - destruct (step_frame ERetire throws l) as [[] Hs]; [done..|]. split_and!; [done..| |by apply step_lives].
    destruct Hs as [?|(? & ? & [=] & _)]. by left.
  - cbn in Hl'. rewrite Hl in Hl'. injection Hl' as <-. destruct (stop_keeps throws l) as (? & ? & ? & Hst).
    split_and!; [done..| |by left|by apply step_lives]. rewrite Ht. by apply Hst.
Qed.

(** *** Telling listeners to stop *)

Lemma halted_table ids s s' is_secure rev table : halted ids s s' ->
  (server_stopping_ s = true \/ forall id port, id ∈ ids -> table !! port <> Some id) ->
  table_ok is_secure rev s table -> table_ok is_secure rev s' table.
Proof.
  intros [Ho _ Hr] Hi Ht port id Hp. destruct (Ht port id Hp) as (l & Hl & Hs & Hm & Hst).
  exists (asked_to_stop ids id l). rewrite Ho, Hl, Hr. cbn. unfold asked_to_stop. case_bool_decide as Hid; [|done].
  destruct Hst as [Hst Hv]. split_and!; try done; [|by apply request_stop_lives].
  destruct Hi as [->|Hi]; [done|]. by destruct (Hi id port Hid).
Qed.
Lemma halted_fresh ids s s' : halted ids s s' -> fresh s -> fresh s'.
Proof. intros [Ho _ Hr] Hf id Hid. rewrite Hr in Hid. cbn in Hid. by rewrite Ho, Hf. Qed.
Lemma halted_silenced ids s s' id : halted ids s s' -> silenced s id -> silenced s' id.
Proof.
  intros [Ho _ _] (l & Hl & Hs & Hm). exists (asked_to_stop ids id l). rewrite Ho, Hl. unfold asked_to_stop. by case_bool_decide.
Qed.
Lemma halted_gated ids s s' rev id : halted ids s s' -> id ∈ ids -> gated rev s id -> silenced s' id.
Proof.
  intros [Ho _ _] Hid (l & Hl & Hm & Hs). exists (request_stop l). rewrite Ho, Hl. unfold asked_to_stop.
  by rewrite bool_decide_eq_true_2.
Qed.
Lemma halted_posted ids s s' : halted ids s s' -> Forall (posted_ok s) (posted s) -> Forall (posted_ok s') (posted s').
Proof.
  intros [Ho Hp _] Hf. apply Forall_forall. intros x [Hx|(id & -> & Hid & [l Hl])]%Hp.
  - eapply Forall_forall in Hf as [?|(? & l & Hl & Ht)]; [by left| |done]. right. split; [done|].
    exists (asked_to_stop ids x.1 l). rewrite Ho, Hl. unfold asked_to_stop. by case_bool_decide.
  - right. split; [done|]. exists (request_stop l). cbn. rewrite Ho, Hl. unfold asked_to_stop. by rewrite bool_decide_eq_true_2.
Qed.

(** Stopping the listeners of an abandoned reload, or all of them when the server stops. *)
Lemma halted_inv ids s s' d : halted ids s s' -> SysInv (Build_System s None d) ->
  (server_stopping_ s = true \/ forall id port, id ∈ ids -> http_listeners_ s !! port <> Some id /\ tls_listeners_ s !! port <> Some id) ->
  SysInv (Build_System s' None d).
Proof.
  intros Hh [] Hi. cbn in *. pose proof (ha_rest _ _ _ Hh) as Er.
  assert (Hs : runtime_store_ s' = runtime_store_ s /\ http_listeners_ s' = http_listeners_ s /\ tls_listeners_ s' = tls_listeners_ s /\
    started_ s' = started_ s) by (by rewrite Er). destruct Hs as (E1 & E2 & E3 & E4).
  constructor; cbn; rewrite ?E1, ?E2, ?E3, ?E4; try done.
  - by eapply halted_fresh.
  - eapply halted_table; [done| |done]. destruct Hi as [?|Hi]; [by left|]. right. naive_solver.
  - eapply halted_table; [done| |done]. destruct Hi as [?|Hi]; [by left|]. right. naive_solver.
  - by eapply halted_posted.
  - eapply Forall_impl; [done|]. intros id. by eapply halted_silenced.
Qed.

(** *** The steps *)

Lemma silence_more s h d d' : Forall (silenced s) d' -> SysInv (Build_System s h d) -> SysInv (Build_System s h (d ++ d')).
Proof. intros Hd []. constructor; cbn; try done. by apply Forall_app. Qed.

Lemma grown_silenced s s' id : grown s s' -> silenced s id -> silenced s' id.
Proof. intros [Ho _ _] (l & Hl & Hs). exists l. split; [by eapply lookup_weaken|done]. Qed.
Lemma grown_posted s s' x : grown s s' -> posted_ok s x -> posted_ok s' x.
Proof. intros [Ho _ _] [?|(? & l & Hl & ?)]; [by left|]. right. split; [done|]. exists l. split; [by eapply lookup_weaken|done]. Qed.

Lemma grown_inv s s' d : grown s s' -> fresh s' -> SysInv (Build_System s None d) -> SysInv (Build_System s' None d).
Proof.
  intros Hg Hf []. cbn in *. pose proof (gr_rest _ _ Hg) as Er.
  assert (Hs : runtime_store_ s' = runtime_store_ s /\ http_listeners_ s' = http_listeners_ s /\ tls_listeners_ s' = tls_listeners_ s /\
    started_ s' = started_ s /\ posted s' = posted s) by (by rewrite Er). destruct Hs as (E1 & E2 & E3 & E4 & E5).
  constructor; cbn; rewrite ?E1, ?E2, ?E3, ?E4, ?E5; try done.
  - intros port id Hp. eapply grown_serving; [done|by eapply si_http_ok0].
  - intros port id Hp. eapply grown_serving; [done|by eapply si_tls_ok0].
  - eapply Forall_impl; [done|]. intros x. by apply grown_posted.
  - eapply Forall_impl; [done|]. intros id. by apply grown_silenced.
Qed.

Lemma prepare_running spec s r s' : started_ s = true -> prepare spec s = (r, s') ->
  (exists e, r = Throw e /\ s' = s) \/
  server_stopping_ s = false /\ exists next limits, revision next = spec_revision spec /\ RuntimeConfig spec = Ok next /\
    prepare_listeners next limits s = (r, s').
Proof.
  unfold prepare. intros Hs. destruct (RuntimeConfig spec) as [next|e] eqn:E; [|intros [= <- <-]; eauto].
  destruct (server_stopping_ s); [intros [= <- <-]; eauto|]. rewrite Hs. intros Hp. right. split; [done|].
  exists next, (site_overload <$> spec_sites spec). split; [|done]. unfold RuntimeConfig in E. by res_inv.
Qed.

(** What a preparation did to a running server. *)
Lemma prepare_spec spec s r s' d :
  SysInv (Build_System s None d) -> follows spec s -> prepare spec s = (r, s') ->
  (exists e, r = Throw e /\ s' = s) \/
  server_stopping_ s = false /\
  match r with
  | Ok (Some p) => opened (spec_revision spec) (added p) s s' /\ ready s' p /\ revision (next_config p) = spec_revision spec /\
      (revision (runtime_store_ s) < spec_revision spec \/ added p = [])
  | Ok None => False
  | Throw _ => exists s1 ids, opened (spec_revision spec) ids s s1 /\ s' = stop_listeners ids s1
  end.
Proof.
  intros [] Hr Hp. cbn in *. apply prepare_running in Hp as [?|(Hs & next & limits & En & Ec & Hp)]; [by left| |done].
  right. split; [done|]. pose proof Hp as Hp'.
  apply prepare_listeners_spec in Hp; [|try done; destruct Hr as [Hr|[Hr _]]; lia..]. rewrite En in Hp. destruct r as [[p|]|]; [|done..].
  destruct Hp as (? & ? & ->). split_and!; try done. destruct Hr as [Hr|[_ Hr]]; [by left|]. right.
  destruct (Hr next Ec) as [Eh Et]. eapply prepare_same_ports; [..|exact Hp']; rewrite ?Eh, ?Et, ?si_http0, ?si_tls0; done.
Qed.

Lemma prepare_inv spec s s' p d :
  SysInv (Build_System s None d) -> follows spec s -> prepare spec s = (Ok (Some p), s') ->
  SysInv (Build_System s' (Some p) d).
Proof.
  intros Hi Hr Hp. destruct (prepare_spec _ _ _ _ _ Hi Hr Hp) as [(? & [=] & _)|(Hs & O & Hd & En & Ha)].
  pose proof (grown_inv _ _ _ (op_grown _ _ _ _ O) (op_fresh _ _ _ _ O) Hi) as []. constructor; try done. cbn.
  intros ? [= <-]. rewrite En. split_and!; [| |done]; rewrite (gr_rest _ _ (op_grown _ _ _ _ O)); [done|exact Ha].
Qed.

Lemma prepare_fails_inv spec s s' e d :
  SysInv (Build_System s None d) -> follows spec s -> prepare spec s = (Throw e, s') ->
  SysInv (Build_System s' None (d ++ seq (next_object s) (next_object s' - next_object s))).
Proof.
  intros Hi Hr Hp. destruct (prepare_spec _ _ _ _ _ Hi Hr Hp) as [(? & _ & ->)|(Hs & s1 & ids & O & ->)].
  { by rewrite Nat.sub_diag, app_nil_r. }
  pose proof (stop_listeners_halted ids s1) as Hh. apply silence_more.
  - apply Forall_forall. intros id Hid%elem_of_seq. rewrite (ha_rest _ _ _ Hh) in Hid. cbn in Hid.
    assert (id ∈ ids) by (apply (op_range _ _ _ _ O); lia). eapply halted_gated; [done..|by apply (op_gated _ _ _ _ O)].
  - eapply halted_inv; [done|by eapply grown_inv; [apply O|apply O|]|]. right. intros id port Hid.
    rewrite (gr_rest _ _ (op_grown _ _ _ _ O)). cbn. apply (op_range _ _ _ _ O) in Hid as [Hid _].
    destruct Hi. split; by eapply table_old.
Qed.

Lemma apply_limits_rest limits s : exists lim, foldl apply_limit s limits = set_limiter lim s.
Proof.
  induction limits as [|o limits IH] in s |- *; cbn; [by exists (limiter s); destruct s|].
  destruct (IH (apply_limit s o)) as [lim ->]. exists lim. unfold apply_limit. by case_match.
Qed.

Lemma commit_inv s p d : SysInv (Build_System s (Some p) d) -> SysInv (Build_System (commit p s) None d).
Proof.
  intros []. cbn in *. destruct (si_held0 p eq_refl) as (Hs & Hr & []). unfold commit. rewrite rd_started0.
  destruct (apply_limits_rest (overload_limits p) s) as [lim ->]. cbv zeta.
  constructor; cbn; try done. apply Forall_app. split; [done|]. apply Forall_fmap, Forall_true. intros id. by left.
Qed.

Lemma discard_step_inv s p d : SysInv (Build_System s (Some p) d) -> SysInv (Build_System (discard p s) None (d ++ added p)).
Proof.
  intros Hi. destruct (si_held _ Hi p eq_refl) as (Hs & Hr & Hd). cbn in Hs, Hr, Hd.
  pose proof (stop_listeners_halted (added p) s) as Hh. apply silence_more.
  - apply Forall_forall. intros id Hid. eapply halted_gated; [done..|by apply (rd_gated _ _ Hd)].
  - eapply halted_inv; [done| |right; by apply (rd_apart _ _ Hd)]. by destruct Hi.
Qed.

Lemma stop_server_inv s d : SysInv (Build_System s None d) -> SysInv (Build_System (stop_server s) None d).
Proof.
  intros Hi. unfold stop_server. destruct (_ || _); [done|]. cbv zeta. set (s1 := set_server_stopping true s).
  assert (Hi1 : SysInv (Build_System s1 None d)).
  { destruct Hi. constructor; cbn in *; try done; intros port id Hp;
      [destruct (si_http_ok0 port id Hp) as (l & ? & ? & ? & ? & ?)|destruct (si_tls_ok0 port id Hp) as (l & ? & ? & ? & ? & ?)]; by exists l. }
  match goal with |- context [stop_listeners ?l s1] => pose proof (stop_listeners_halted l s1) as Hh end.
  pose proof (halted_inv _ _ _ _ Hh Hi1 (or_introl eq_refl)) as []. by constructor.
Qed.

Lemma rest_steady s s' : objects s' = objects s -> posted s' = posted s -> next_object s' = next_object s ->
  runtime_store_ s' = runtime_store_ s -> http_listeners_ s' = http_listeners_ s -> tls_listeners_ s' = tls_listeners_ s ->
  started_ s' = started_ s -> server_stopping_ s' = server_stopping_ s -> steady s s'.
Proof.
  intros E1 E2 ?. constructor; try done; rewrite ?E1, ?E2; try done. intros id l Hl. exists l. split; [done|apply evolves_refl].
Qed.

Lemma sys_step_inv σ σ' : sys_step σ σ' -> SysInv σ -> SysInv σ'.
Proof.
  intros Hst Hi. destruct Hst.
  - by eapply prepare_inv.
  - by eapply prepare_fails_inv.
  - by apply commit_inv.
  - by apply discard_step_inv.
  - by apply stop_server_inv.
  - eapply steady_inv; [|done]. eapply put_steady; [done|by apply event_evolves|done|by destruct s].
  - eapply steady_inv; [|done]. eapply put_steady; [done| | |done].
    + eapply posted_evolves; [|done]. pose proof (si_posted _ Hi) as Hp. cbn in Hp. rewrite H2 in Hp.
      by apply Forall_app in Hp as [_ [? _]%Forall_cons].
    + cbn. rewrite H2. set_solver.
  - eapply steady_inv; [|exact Hi]. by apply rest_steady.
  - eapply steady_inv; [|exact Hi]. by apply rest_steady.
Qed.

(** *** Starting *)

(** A table of listeners that were constructed and not started, each in one place. *)
Definition built (is_secure : bool) (s : Server) (table : gmap Z nat) : Prop :=
  (forall port id, table !! port = Some id -> objects s !! id = Some (new_listener is_secure)) /\
  (forall port port' id, table !! port = Some id -> table !! port' = Some id -> port = port').

Lemma grown_built is_secure s s' table : grown s s' -> built is_secure s table -> built is_secure s' table.
Proof. intros Hg [Ht Hj]. split; [|done]. intros port id Hp. by eapply lookup_weaken; [eapply Ht|apply Hg]. Qed.

Lemma built_ids is_secure s table : built is_secure s table -> NoDup (map_to_list table).*2.
Proof.
  intros [_ Hj]. apply NoDup_fmap_2_strong; [|apply NoDup_map_to_list].
  intros [p id] [p' id'] H2%elem_of_map_to_list H3%elem_of_map_to_list E. cbn in E. subst id'. f_equal. by eapply Hj.
Qed.
Lemma built_elem is_secure s table id : built is_secure s table -> id ∈ (map_to_list table).*2 ->
  objects s !! id = Some (new_listener is_secure).
Proof. intros [Ht _] ([p k] & -> & Hp%elem_of_map_to_list)%list_elem_of_fmap. by eapply Ht. Qed.

Lemma construct_listeners_spec is_secure ports table s table' s' :
  fresh s -> built is_secure s table -> construct_listeners is_secure ports table s = (Ok table', s') ->
  fresh s' /\ grown s s' /\ dom table' = dom table ∪ list_to_set ports /\ built is_secure s' table'.
Proof.
  induction ports as [|port ports IH] in table, s |- *; cbn [construct_listeners]; intros Hf Ht E.
  { simplify_eq. split_and!; [done|apply grown_refl|set_solver|done]. }
  destruct (negb _); [done|]. cbv zeta in E.
  pose proof (put_grown (new_listener is_secure) s Hf) as Hg1. pose proof (put_fresh (new_listener is_secure) s Hf) as Hf1.
  set (s1 := put (next_object s) _ _) in *. pose proof (grown_built _ _ _ _ Hg1 Ht) as [Hold Hj].
  assert (Hnew : forall port', table !! port' <> Some (next_object s)).
  { intros port' Hp. destruct Ht as [Ht _]. apply Ht in Hp. by rewrite Hf in Hp. }
  apply IH in E as (Hf' & Hg & Hd & Hok); [|done|].
  - split_and!; [done|by eapply grown_trans| |done]. rewrite Hd. unfold emplace. destruct (table !! port) eqn:Ep.
    + apply elem_of_dom_2 in Ep. set_solver.
    + rewrite dom_insert_L. set_solver.
  - unfold emplace. destruct (table !! port); [done|]. split.
    + intros port' id [[_ <-]|[_ Hp]]%lookup_insert_Some; [cbn; by rewrite lookup_insert_eq|by eapply Hold].
    + intros p p' id [[<- <-]|[? Hp]]%lookup_insert_Some [[<- E2]|[? Hp']]%lookup_insert_Some; try done.
      * by destruct (Hnew p').
      * subst id. by destruct (Hnew p).
      * by eapply Hj.
Qed.

(** Every listener named is started for the revision, the others are as they were. *)
Lemma start_listeners_spec rev ids s s' : NoDup ids -> start_listeners rev ids s = (Ok tt, s') ->
  s' = set_objects (objects s') s /\
  (forall id, id ∉ ids -> objects s' !! id = objects s !! id) /\
  (forall id l, id ∈ ids -> objects s !! id = Some l ->
    exists l' throws, objects s' !! id = Some l' /\ start rev (set_faults throws l) = Done l').
Proof.
  induction ids as [|id ids IH] in s |- *; cbn [start_listeners]; intros Hn E.
  { simplify_eq. split_and!; [by destruct s'|done|set_solver]. }
  apply NoDup_cons in Hn as [Hni Hn]. destruct (objects s !! id) as [l0|] eqn:El.
  2: { apply IH in E as (Hr & Hk & Hl); [|done]. split_and!; [done|intros k Hnk; apply Hk; set_solver|].
       intros k l [->|?]%elem_of_cons Hlk; [congruence|by eapply Hl]. }
  destruct (start rev _) as [l1|] eqn:Est; [|done]. apply IH in E as (Hr & Hk & Hl); [|done]. split_and!.
  - rewrite Hr. done.
  - intros k Hnk. rewrite Hk by set_solver. cbn. rewrite lookup_insert_ne; [done|set_solver].
  - intros k l [->|Hin]%elem_of_cons Hlk.
    + simplify_eq. exists l1, (start_throws (conditions s) id). split; [|done]. rewrite Hk by done. cbn. by rewrite lookup_insert_eq.
    + apply Hl; [done|]. cbn. rewrite lookup_insert_ne; [done|]. by intros <-.
Qed.

Lemma started_serving is_secure rev throws s l id : objects s !! id = Some l ->
  start rev (set_faults throws (new_listener is_secure)) = Done l -> serving is_secure rev s id.
Proof.
  intros Hl Hs. pose proof (start_keeps rev throws (new_listener is_secure)) as Hk. cbv zeta in Hk. rewrite Hs in Hk.
  destruct Hk as (? & ? & ? & _). exists l. split_and!; try done; [cbn in *; lia|]. exists 0%nat. by eapply start_inv.
Qed.

Lemma start_server_inv options c s0 s : ServerCore options c = Ok s0 -> start_server s0 = (Ok tt, s) ->
  SysInv (Build_System s None []).
Proof.
  unfold ServerCore. intros E0 E. destruct (initial_runtime_config options) as [rt|]; [|done]. cbn in E0.
  injection E0 as <-. unfold start_server in E. cbn [started_] in E. cbv zeta in E.
  destruct (make_address _); [|done]. set (s1 := set_server_started true _) in E.
  assert (Hb : forall is_secure s, built is_secure s ∅) by (intros; split; intros *; by rewrite lookup_empty).
  destruct (construct_listeners false _ _ _) as [[http|] s2] eqn:E1; [|done].
  apply construct_listeners_spec in E1 as (F1 & G1 & D1 & K1); [|by intros id ?|apply Hb].
  destruct (construct_listeners true _ _ _) as [[tls|] s3] eqn:E2; [|done].
  apply construct_listeners_spec in E2 as (F2 & G2 & D2 & K2); [|done|apply Hb].
  apply (grown_built _ _ _ _ G2) in K1.
  destruct (start_listeners _ _ _) as [[[]|] s4] eqn:E3; [|done]. injection E as <-.
  apply start_listeners_spec in E3 as (R & N & K).
  2: { apply NoDup_app. split_and!; [by eapply built_ids| |by eapply built_ids].
       intros id H2%(built_elem _ _ _ _ K1) H3%(built_elem _ _ _ _ K2). rewrite H2 in H3. discriminate H3. }
  rewrite dom_empty_L, union_empty_l_L in D1, D2. pose proof (gr_rest _ _ (grown_trans _ _ _ G1 G2)) as Er.
  assert (Hs : runtime_store_ s4 = rt /\ http_listeners_ s4 = http /\ tls_listeners_ s4 = tls /\ started_ s4 = true /\
    posted s4 = [] /\ next_object s4 = next_object s3) by (rewrite R; cbn; rewrite Er; done).
  destruct Hs as (Hrt & H2 & H3 & H4 & H5 & H6).
  assert (Hin : forall (table : gmap Z nat) port id, table !! port = Some id -> id ∈ (map_to_list table).*2).
  { intros table port id Hp. apply list_elem_of_fmap. exists (port, id). by rewrite elem_of_map_to_list. }
  constructor; cbn; rewrite ?Hrt, ?H2, ?H3, ?H4, ?H5; try done.
  - intros id Hid. rewrite N, F2; [done|lia|]. intros [Hi|Hi]%elem_of_app;
      [apply (built_elem _ _ _ _ K1) in Hi|apply (built_elem _ _ _ _ K2) in Hi]; rewrite F2 in Hi by lia; done.
  - intros port id Hp. destruct (K id (new_listener false)) as (l & thr & Hl & Hst);
      [apply elem_of_app; left; by eapply Hin|by eapply K1|by eapply started_serving].
  - intros port id Hp. destruct (K id (new_listener true)) as (l & thr & Hl & Hst);
      [apply elem_of_app; right; by eapply Hin|by eapply K2|by eapply started_serving].
Qed.

Lemma sys_inv σ : sys_reachable σ -> SysInv σ.
Proof. induction 1; [by eapply start_server_inv|by eapply sys_step_inv]. Qed.

(** *** Giving up *)

(** The running part of a server: everything but what was made since. *)
Record undisturbed (s s' : Server) : Prop := {
  ud_store : runtime_store_ s' = runtime_store_ s;
  ud_http : http_listeners_ s' = http_listeners_ s;
  ud_tls : tls_listeners_ s' = tls_listeners_ s;
  ud_retired : retired_http_listeners_ s' = retired_http_listeners_ s /\ retired_tls_listeners_ s' = retired_tls_listeners_ s;
  ud_flags : started_ s' = started_ s /\ server_stopping_ s' = server_stopping_ s;
  ud_limiter : limiter s' = limiter s;
  ud_objects id l : objects s !! id = Some l -> objects s' !! id = Some l
}.

Lemma opened_then_stopped rev ids s s1 : fresh s -> opened rev ids s s1 -> undisturbed s (stop_listeners ids s1).
Proof.
  intros Hf [_ G R _]. pose proof (stop_listeners_halted ids s1) as [Ho _ Hr]. pose proof (gr_rest _ _ G) as Eg.
  assert (E : forall A (f : Server -> A), (forall x y s, f (set_posted x (set_objects y s)) = f s) ->
    (forall x y s, f (set_next_object x (set_objects y s)) = f s) -> f (stop_listeners ids s1) = f s).
  { intros A f H3 H4. by rewrite Hr, H3, Eg, H4. }
  constructor; try (by apply E); [by split; apply E..|].
  intros id l Hl. rewrite Ho, (lookup_weaken _ _ _ _ Hl (gr_objects _ _ G)). cbn. unfold asked_to_stop.
  rewrite bool_decide_eq_false_2; [done|]. intros [Hn _]%R. by rewrite Hf in Hl.
Qed.

(** ** Properties *)

Definition table (is_secure : bool) (s : Server) : gmap Z nat := if is_secure then tls_listeners_ s else http_listeners_ s.

(** C5: The server listens to what it publishes.  However reloads (committed,
    abandoned or failing), accepts, exceptions, retirements and the stop interleave,
    the listener tables have exactly the ports of the published configuration, each
    with a listener of its protocol whose revision gate is open; and while the server
    is not stopping such a listener is not either, and as long as its acceptor is
    open it has an accept or a retry outstanding. *)
Theorem listeners_match_configuration σ : sys_reachable σ ->
  let s := server σ in
  dom (http_listeners_ s) =@{gset Z} list_to_set (http_ports (runtime_store_ s)) /\
  dom (tls_listeners_ s) =@{gset Z} list_to_set (https_ports (runtime_store_ s)) /\
  forall is_secure port id, table is_secure s !! port = Some id -> exists l, objects s !! id = Some l /\
    secure l = is_secure /\ minimum_runtime_revision_ l <= revision (runtime_store_ s) /\
    (server_stopping_ s = false -> stopping_ l = false /\
       (acceptor_open l = true -> accept_pending l = true \/ retry_pending l = true)).
Proof.
  intros []%sys_inv s. split_and!; [done..|]. intros is_secure port id Hp.
  assert (Hs : serving is_secure (revision (runtime_store_ s)) s id).
  { destruct is_secure; [by eapply si_tls_ok0|by eapply si_http_ok0]. }
  destruct Hs as (l & Hl & Hsec & Hm & Hst & n & Hi). exists l. split_and!; try done. intros Hns. split; [auto|]. intros Ho.
  apply (in_alive _ _ Hi); [done| |auto]. destruct (retired_ l) eqn:E; [|done].
  apply (ba_retired _ _ (in_base _ _ Hi)) in E. congruence.
Qed.

(** C8: A reload that is given up serves nobody.  The listeners it had opened have
    served no connection before it is given up (the revision gate) nor ever after
    (they were told to stop), although they were accepting all the while. *)
Theorem abandoned_reload_serves_nobody σ : sys_reachable σ ->
  (forall p id, held σ = Some p -> id ∈ added p ->
     exists l, objects (server σ) !! id = Some l /\ minimum_runtime_revision_ l = revision (next_config p) /\ served l = []) /\
  (forall id, id ∈ discarded σ -> exists l, objects (server σ) !! id = Some l /\ stopping_ l = true /\ served l = []).
Proof.
  intros []%sys_inv. split.
  - intros p id Hp Hid. destruct (si_held0 p Hp) as (_ & _ & Hr). by apply (rd_gated _ _ Hr).
  - intros id Hid. by eapply Forall_forall in si_discarded0.
Qed.

(** A reload that fails changes nothing.  Whether the preparation throws (the
    specification is refused, a port cannot be bound, a listener does not start) or
    its result is dropped, the published configuration, the listener tables, the
    retired listeners, the backend limits and every listener that existed are as
    they were. *)
Theorem failed_reload_changes_nothing spec s d r s' :
  sys_reachable (Build_System s None d) -> follows spec s -> prepare spec s = (r, s') ->
  undisturbed s (match r with Ok (Some p) => discard p s' | _ => s' end).
Proof.
  intros Hi%sys_inv Hr Hp. pose proof (si_fresh _ Hi) as Hf. cbn in Hf.
  destruct (prepare_spec _ _ _ _ _ Hi Hr Hp) as [(e & -> & ->)|(Hs & Hm)]; [done|].
  destruct r as [[p|]|e]; [|done|].
  - destruct Hm as (O & _). by eapply opened_then_stopped.
  - destruct Hm as (s1 & ids & O & ->). by eapply opened_then_stopped.
Qed.

End ServerCore.

(** ** A sample run: a reload from HTTP on port 80 to HTTP on port 81 and HTTPS on 443 *)

Section Sample.
#[local] Existing Instance loopback_only.
#[local] Existing Instance no_regex.
#[local] Existing Instance permissive_openssl.

Definition all_well : Conditions := {| binds _ _ := true; start_throws _ := []; limit_throws _ := false |}.
Definition port_taken (port : Z) : Conditions :=
  {| binds _ p := negb (p =? port); start_throws _ := []; limit_throws _ := false |}.

Definition site_on (http https : option Z) : RuntimeSiteConfig :=
  {| rs_virtual_host := rs_virtual_host sample_site;
     rs_http_enabled := bool_decide (is_Some http); rs_http_port := default 80 http;
     rs_https_enabled := bool_decide (is_Some https); rs_https_port := default 443 https |}.
Definition spec_on (revision : Z) (http https : option Z) : RuntimeConfigSpec :=
  {| spec_revision := revision; spec_sites := [site_on http https]; spec_tls_certificates := sample_certificates;
     spec_reject_unknown_sni := true; spec_settings := default_settings |}.

Definition sample_options : ServerOptions :=
  {| o_bind_address := b!"127.0.0.1"; o_port := 80; o_https_port := None; o_worker_threads := 0; o_virtual_hosts := [];
     o_tls_certificates := []; o_reject_unknown_sni := true; o_config_revision := 0;
     o_runtime_config := Some (spec_on 1 (Some 80) None) |}.

Definition running : Server :=
  match ServerCore sample_options all_well with
  | Ok s => (start_server s).2
  | Throw _ => Build_Server [] (Build_Config 0 [] [] ∅ ∅ ∅ ∅ None default_settings []) ∅ ∅ [] [] false false initial_impl ∅ 0 [] all_well
  end.
Lemma running_reachable : sys_reachable (Build_System running None []).
Proof.
  destruct (ServerCore sample_options all_well) as [s0|] eqn:E; [|vm_compute in E; discriminate E].
  apply (sys_start sample_options all_well s0); [exact E|]. unfold running. rewrite E.
  vm_compute in E. injection E as <-. vm_compute. reflexivity.
Qed.

Definition next_spec : RuntimeConfigSpec := spec_on 2 (Some 81) (Some 443).
Definition prepared_state : System :=
  match prepare next_spec running with
  | (Ok (Some p), s) => Build_System s (Some p) []
  | (_, s) => Build_System s None []
  end.
(** A client connects to port 81 before the reload is decided. *)
Definition on_object (id : nat) (e : event) (σ : System) : System :=
  match objects (server σ) !! id with
  | Some l => Build_System (put id (step e [] l) (server σ)) (held σ) (discarded σ)
  | None => σ
  end.
Definition early_client : System := on_object 1 (EAccept (accepted 7) (env_at 1)) prepared_state.
Definition given_up : System :=
  match held early_client with
  | Some p => Build_System (discard p (server early_client)) None (discarded early_client ++ added p)
  | None => early_client
  end.
Definition reloaded : System :=
  match held early_client with
  | Some p => Build_System (commit p (server early_client)) None (discarded early_client)
  | None => early_client
  end.

Lemma prepared_reachable : sys_reachable prepared_state.
Proof.
  unfold prepared_state. destruct (prepare next_spec running) as [r s'] eqn:E.
  assert (Hr : exists p, r = Ok (Some p)).
  { change r with (r, s').1. rewrite <-E. vm_compute. eexists. reflexivity. }
  destruct Hr as [p ->]. eapply sys_more; [exact running_reachable|]. eapply SPrepare; [|exact E]. left. vm_compute. reflexivity.
Qed.

Lemma on_object_reachable id e σ : sys_reachable σ -> listener_event (server σ) e ->
  match objects (server σ) !! id with Some l => enabled e l | None => true end = true -> sys_reachable (on_object id e σ).
Proof.
  intros Hr Hle He. unfold on_object. destruct (objects (server σ) !! id) as [l|] eqn:E; [|done].
  eapply sys_more; [exact Hr|]. destruct σ. by apply SListener.
Qed.

Lemma early_client_reachable : sys_reachable early_client.
Proof. apply on_object_reachable; [exact prepared_reachable|vm_compute; reflexivity|vm_compute; reflexivity]. Qed.
Lemma given_up_reachable : sys_reachable given_up.
Proof.
  pose proof early_client_reachable as Hr. unfold given_up. destruct early_client as [s [p|] d]; cbn; [|done].
  eapply sys_more; [exact Hr|]. apply SDiscard.
Qed.
Lemma reloaded_reachable : sys_reachable reloaded.
Proof.
  pose proof early_client_reachable as Hr. unfold reloaded. destruct early_client as [s [p|] d]; cbn; [|done].
  eapply sys_more; [exact Hr|]. apply SCommit.
Qed.

(** After the reload port 81 serves and port 80 is retired. *)
Lemma listeners_match_configuration_witness :
  let s := server reloaded in
  dom (http_listeners_ s) =@{gset Z} list_to_set (http_ports (runtime_store_ s)) /\
  http_ports (runtime_store_ s) = [81] /\ https_ports (runtime_store_ s) = [443] /\ retired_http_listeners_ s = [0%nat] /\
  exists l, objects s !! 1%nat = Some l /\ secure l = false /\
    (server_stopping_ s = false -> stopping_ l = false /\ (acceptor_open l = true -> accept_pending l = true \/ retry_pending l = true)).
Proof.
  pose proof (listeners_match_configuration reloaded reloaded_reachable) as (H1 & _ & H3). cbv zeta in H1, H3. intros s.
  split; [exact H1|]. split; [vm_compute; reflexivity|]. split; [vm_compute; reflexivity|]. split; [vm_compute; reflexivity|].
  destruct (H3 false 81 1%nat ltac:(vm_compute; reflexivity)) as (l & Hl & Hs & _ & Ha). exists l. exact (conj Hl (conj Hs Ha)).
Defined.

Lemma abandoned_reload_serves_nobody_witness :
  discarded given_up = [1%nat; 2%nat] /\
  exists l, objects (server given_up) !! 1%nat = Some l /\ stopping_ l = true /\ served l = [].
Proof.
  split; [vm_compute; reflexivity|].
  destruct (abandoned_reload_serves_nobody given_up given_up_reachable) as [_ H2]. apply H2.
  apply (bool_decide_unpack _). vm_compute. exact I.
Defined.

(** Port 443 is taken: the listener of port 81 is stopped and port 80 goes on. *)
Lemma failed_reload_changes_nothing_witness :
  let s := set_conditions (port_taken 443) running in
  is_ok (prepare next_spec s).1 = false /\ next_object (prepare next_spec s).2 = 2%nat /\ undisturbed s (prepare next_spec s).2.
Proof.
  intros s. split; [vm_compute; reflexivity|]. split; [vm_compute; reflexivity|].
  assert (Hr : sys_reachable (Build_System s None [])) by (eapply sys_more; [exact running_reachable|apply SConditions]).
  assert (He : exists e, (prepare next_spec s).1 = Throw e) by (vm_compute; eexists; reflexivity). destruct He as [e He].
  pose proof (failed_reload_changes_nothing next_spec s [] (Throw e) (prepare next_spec s).2 Hr
    ltac:(left; vm_compute; reflexivity) ltac:(rewrite <-He; apply surjective_pairing)) as Hu. exact Hu.
Defined.

End Sample.
