(* ===== verification/Application.v ===== *)
(** * Application (src/src/app/Application.cpp)

    The start of the data plane in [run_server] and the system that runs from then
    on: the configuration service, driven by administrators, whose reload handler is
    the server core of ServerCore.v, while the listeners accept, retry, retire and
    drain by themselves.

    The theorem is end to end: in every state of that system the ports the server
    listens on are those of the enabled sites of the database. *)

From S2P Require Import Prelude IpAddress Json RequestPolicy VirtualHostRouter TlsContextManager RuntimeConfig.
From S2P Require Import BackendConcurrencyLimiter ConfigRepository ConfigService ConfigServiceSpec.
From S2P Require Import Listener ServerCore.

(** ** Bringing up the data plane *)

Section Application.
Context `{JsonText} `{AddressText} `{Regex} `{OpenSsl}.

Section Start.
Context {R : Type} `{!ReloadTarget R}.

(** The state of the service before there is a server; [R] stands for no server. *)
Inductive data_plane :=
| running (s : Service Server)
| recovery (s : Service R) (error : exn).

(** Opening the database: [initialize] runs the migrations on the file and seeds
    the example site; [r] stands for no server. *)
Definition open_service (migration_fault : option (nat * str)) (f : fault) (file : File) (r : R) : res unit * Service R :=
  match migrate_file migration_fault file with
  | (Throw e, file) =>
      (Throw e, {| repository_ := tables file; active_revision_ := 0; reload_handler_ := false; runtime := r |})
  | (Ok _, file) =>
      initialize f {| repository_ := tables file; active_revision_ := 0; reload_handler_ := false; runtime := r |}
  end.

Definition disabled (s : Service R) (e : exn) : data_plane := recovery (mark_runtime_unavailable s) e.

(** The default certificate, when there is none; [files] are the contents of the
    two files, or what reading them throws. *)
Definition seed (f : fault) (files : res (str * str)) (s : Service R) : res unit * Service R :=
  match list_certificates (repository_ s) with
  | [] => checked files (fun files =>
            seed_default_certificate f b!"example.com development certificate" [b!"example.com"; b!"www.example.com"]
              files.1 files.2) s
  | _ => (Ok tt, s)
  end.

Definition server_options (spec : RuntimeConfigSpec) : ServerOptions :=
  {| o_bind_address := b!"0.0.0.0"; o_port := 80; o_https_port := None; o_worker_threads := 0;
     o_virtual_hosts := default_virtual_hosts; o_tls_certificates := []; o_reject_unknown_sni := true; o_config_revision := 1;
     o_runtime_config := Some spec |}.

Definition start_data_plane (f : fault) (files : res (str * str)) (c : Conditions) (s : Service R) : data_plane :=
  match seed f files s with
  | (Throw e, s) => disabled s e
  | (Ok _, s) =>
      match load_runtime_config s with
      | Throw e => disabled s e
      | Ok spec =>
          match ServerCore (server_options spec) c with
          | Throw e => disabled s e
          | Ok server =>
              match start_server server with
              | (Throw e, _) => disabled s e
              | (Ok _, server) =>
                  running {| repository_ := repository_ s; active_revision_ := active_revision_ s;
                             reload_handler_ := true; runtime := server |}
              end
          end
      end
  end.
End Start.

(** ** The running system *)

(** What the listeners and the worker threads do by themselves. *)
Definition background (r r' : Server) : Prop :=
  exists d d', sys_step (Build_System r None d) (Build_System r' None d').

(** [run_server]: the database file is opened, migrated and seeded, the data plane
    starts, and from then on administrators and listeners act.  The tables of the
    file satisfy the constraints of the schema; the stored revision stays in the
    range of SQLite's integers. *)
Inductive whole_reachable : Service Server -> Prop :=
| whole_start {R} `{!ReloadTarget R} mf f0 file (r : R) f files c s0 s :
    store_wf (tables file) -> open_service mf f0 file r = (Ok tt, s0) ->
    start_data_plane f files c s0 = running s -> whole_reachable s
| whole_serve f op s :
    whole_reachable s -> config_revision (repository_ s) + 1 < 2 ^ 63 -> whole_reachable (serve f op s).2
| whole_accounts rows s :
    whole_reachable s -> whole_reachable (set_repository (set_admins rows (repository_ s)) s)
| whole_background s r' :
    whole_reachable s -> background (runtime s) r' -> whole_reachable (set_runtime r' s).

(** ** How an operation of the service drives the server *)

Section Drives.
Context {R : Type} `{!ReloadTarget R}.

Definition driven (ok : RuntimeConfigSpec -> Prop) (r r' : R) : Prop :=
  r' = r \/ exists spec, ok spec /\
    match prepare_reload spec r with
    | (Ok (Some p), r1) => r' = commit_reload p r1 \/ r' = discard_reload p r1
    | (_, r1) => r' = r1
    end.

Definition installs (commit : option prepared -> Service R -> Service R) : Prop := forall a s,
  runtime (commit a s) = match a with Some p => commit_reload p (runtime s) | None => runtime s end.

Lemma commit_candidate_installs revision : installs (fun a => commit_candidate_locked a revision).
Proof. by intros [p|] s. Qed.
Lemma seeding_installs revision : installs (fun activation s =>
  match activation with Some _ => commit_candidate_locked activation revision s | None => set_active_revision revision s end).
Proof. by intros [p|] s. Qed.

Definition candidate_ok (s : Service R) (spec : RuntimeConfigSpec) : Prop :=
  reload_handler_ s = true /\
  (spec_revision spec = following_revision s \/ build_runtime_spec_locked (repository_ s) (config_revision (repository_ s)) = Ok spec).

(** Preparing, and then committing or giving up. *)
Lemma prepared_driven ok spec s r s' : (reload_handler_ s = true -> ok spec) -> prepare_candidate_locked spec s = (r, s') ->
  match r with
  | Ok (Some p) => forall r', r' = commit_reload p (runtime s') \/ r' = discard_reload p (runtime s') -> driven ok (runtime s) r'
  | _ => driven ok (runtime s) (runtime s')
  end.
Proof.
  intros Hok. unfold prepare_candidate_locked. destruct (RuntimeConfig spec); [|intros [= <- <-]; by left].
  destruct (reload_handler_ s) eqn:Eh; cbn [negb]; [|intros [= <- <-]; by left].
  destruct (prepare_reload spec (runtime s)) as [[[p|]|e] r1] eqn:E; intros [= <- <-]; cbn [runtime set_runtime].
  - intros r' Hr. right. exists spec. split; [auto|]. by rewrite E.
  - right. exists spec. split; [auto|]. by rewrite E.
  - right. exists spec. split; [auto|]. by rewrite E.
Qed.

Lemma submit_driven {A} f candidate (write : option str -> Store -> res A * Store) commit s r s' ok :
  installs commit -> (forall spec, candidate = Ok spec -> reload_handler_ s = true -> ok spec) ->
  submit f candidate write commit s = (r, s') -> driven ok (runtime s) (runtime s').
Proof.
  intros Hc Hok. unfold submit, checked. destruct candidate as [spec|]; [|intros [= _ <-]; by left].
  destruct (prepare_candidate_locked spec s) as [[a|e] s1] eqn:E; apply (prepared_driven ok) in E; auto.
  2: { by intros [= _ <-]. }
  destruct (write _ _) as [[x|e] db]; intros [= _ <-].
  - rewrite Hc. destruct a as [p|]; [|exact E]. apply E. by left.
  - destruct a as [p|]; [|exact E]. apply E. by right.
Qed.

Lemma built_revision sites cs settings revision spec :
  build_runtime_spec sites cs settings revision = Ok spec -> spec_revision spec = revision.
Proof. intros E. unfold build_runtime_spec in E. by res_inv. Qed.

Lemma submit_next {A} f sites cs settings (write : option str -> Store -> res A * Store) commit s r s' : installs commit ->
  submit f (build_runtime_spec sites cs settings (following_revision s)) write commit s = (r, s') ->
  driven (candidate_ok s) (runtime s) (runtime s').
Proof.
  intros Hc. apply submit_driven; [done|]. intros spec E Hh. split; [done|]. left. by eapply built_revision.
Qed.

Lemma driven_refl ok r : driven ok r r.
Proof. by left. Qed.

Local Ltac drive :=
  unfold checked, locked; cbv beta zeta;
  repeat match goal with
  | |- driven _ (runtime ?s) (runtime (_, ?s).2) => apply driven_refl
  | |- context [submit ?f ?c ?w ?k ?s] =>
      let E := fresh "E" in destruct (submit f c w k s) as [[?|?] ?] eqn:E;
      (apply submit_next in E; [exact E|first [apply commit_candidate_installs|apply seeding_installs]])
  | |- context [match ?x with _ => _ end] => destruct x
  end.

Lemma reload_driven f s : driven (candidate_ok s) (runtime s) (runtime (reload_runtime f s).2).
Proof.
  unfold reload_runtime. destruct (reload_handler_ s) eqn:Eh; cbn [negb]; [|apply driven_refl].
  unfold locked. destruct f; try apply driven_refl. all: unfold activate_latest_locked, checked; rewrite Eh; cbn [negb]; cbv zeta.
  all: destruct (build_runtime_spec_locked _ _) as [spec|] eqn:Eb; [|apply driven_refl].
  all: destruct (prepare_candidate_locked spec s) as [[a|e] s1] eqn:E; apply (prepared_driven (candidate_ok s)) in E;
    try (intros _; split; [done|by right]); [|exact E].
  all: destruct a as [p|]; [|exact E]; apply E; by left.
Qed.

Lemma serve_driven f op s : driven (candidate_ok s) (runtime s) (runtime (serve f op s).2).
Proof.
  assert (Hk : forall A (x : res A * Service R), (done_with x).2 = x.2) by done.
  destruct op; cbn [serve]; rewrite ?Hk; [..|apply reload_driven];
    [unfold create_site|unfold update_site|unfold delete_site|unfold seed_default_certificate|unfold create_certificate
    |unfold update_certificate|unfold delete_certificate|unfold update_runtime_settings|unfold import_configuration]; drive.
Qed.
End Drives.

(** ** Invariant *)

Record WholeInv (s : Service Server) : Prop := {
  wi_service : service_ok s;
  wi_handler : reload_handler_ s = true;
  wi_server : exists d, sys_reachable (Build_System (runtime s) None d)
}.

Lemma runtime_revision_of spec c : RuntimeConfig spec = Ok c -> revision c = spec_revision spec.
Proof. intros E. unfold RuntimeConfig in E. by res_inv. Qed.

Lemma same_sites_ports spec spec' c c' : RuntimeConfig spec = Ok c -> RuntimeConfig spec' = Ok c' ->
  spec_sites spec = spec_sites spec' -> http_ports c' = http_ports c /\ https_ports c' = https_ports c.
Proof.
  intros (r & Hr & _ & _ & _ & _ & E1 & E2 & _)%RuntimeConfig_parts (r' & Hr' & _ & _ & _ & _ & E1' & E2' & _)%RuntimeConfig_parts E.
  rewrite E in Hr. split; congruence.
Qed.

Lemma candidate_follows (s : Service Server) spec : service_ok s -> config_revision (repository_ s) + 1 < 2 ^ 63 ->
  candidate_ok s spec -> follows spec (runtime s).
Proof.
  intros Hs Hb [Hh Hc]. destruct (so_sync _ Hs Hh) as (_ & spec0 & (loaded & Hl & Hsame) & Hrt).
  change (published (runtime s)) with (runtime_store_ (runtime s)) in Hrt.
  assert (Hr : revision (runtime_store_ (runtime s)) = config_revision (repository_ s)).
  { rewrite (runtime_revision_of _ _ Hrt), (ss_revision _ _ Hsame). by eapply built_revision. }
  unfold follows. rewrite Hr. destruct Hc as [Hc|Hc].
  - left. rewrite Hc. unfold following_revision, u64, wrap_u. rewrite Z.mod_small; [lia|].
    assert (0 <= config_revision (repository_ s)) by (apply Z.mod_pos_bound; done). lia.
  - right. rewrite Hl in Hc. injection Hc as <-. split; [symmetry; by eapply built_revision|].
    intros next Hn. eapply same_sites_ports; [done..|]. by destruct Hsame.
Qed.

Lemma driven_reachable r r' d : driven (fun spec => follows spec r) r r' -> sys_reachable (Build_System r None d) ->
  exists d', sys_reachable (Build_System r' None d').
Proof.
  intros [->|(spec & Hf & Hp)] Hr; [eauto|]. cbn [prepare_reload server_reloads commit_reload discard_reload] in Hp.
  destruct (prepare spec r) as [[[p|]|e] r1] eqn:E.
  - assert (Hr1 : sys_reachable (Build_System r1 (Some p) d)) by (by eapply sys_more; [|eapply SPrepare]).
    destruct Hp as [->| ->]; eexists; (eapply sys_more; [exact Hr1|]); [apply SCommit|apply SDiscard].
  - destruct (prepare_spec _ _ _ _ _ (sys_inv _ Hr) Hf E) as [(? & [=] & _)|[_ []]].
  - subst r'. eexists. by eapply sys_more; [|eapply SPrepareFails].
Qed.

Lemma serve_whole f op s : WholeInv s -> config_revision (repository_ s) + 1 < 2 ^ 63 -> WholeInv (serve f op s).2.
Proof.
  intros [Hs Hh [d Hr]] Hb. constructor; [by apply serve_ok| |].
  - destruct (serve f op s) as [[u|e] s'] eqn:E; cbn.
    + destruct (serve_advances _ _ _ _ _ (so_store _ Hs) E) as [Hu|(_ & spec & _ & Hm)].
      * by rewrite (un_handler _ _ Hu).
      * by rewrite (mv_handler _ _ _ _ _ Hm).
    + apply serve_throws in E. by rewrite (un_handler _ _ E).
  - eapply driven_reachable; [|exact Hr]. destruct (serve_driven f op s) as [E|(spec & Hc & Hp)]; [by left|].
    right. exists spec. split; [by eapply candidate_follows|done].
Qed.

(** Steps outside the mutex keep the published configuration. *)
Lemma background_store r r' d d' : sys_step (Build_System r None d) (Build_System r' None d') ->
  runtime_store_ r' = runtime_store_ r.
Proof.
  intros Hst. inversion Hst; subst; try done.
  - pose proof (prepare_keeps spec r) as Hk. cbn [published prepare_reload server_reloads] in Hk.
    match goal with E : prepare spec r = _ |- _ => by rewrite E in Hk end.
  - unfold stop_server. destruct (_ || _); [done|]. cbv zeta. cbn. by rewrite stop_listeners_store.
Qed.
Lemma background_any r r' d d' d2 : sys_step (Build_System r None d) (Build_System r' None d') ->
  exists d2', sys_step (Build_System r None d2) (Build_System r' None d2').
Proof. intros Hst. inversion Hst; subst; eexists; by econstructor. Qed.

Lemma background_whole s r' : WholeInv s -> background (runtime s) r' -> WholeInv (set_runtime r' s).
Proof.
  intros [[Hwf Hsy] Hh [d Hr]] (d1 & d1' & Hst). constructor; [|done|].
  - constructor; [done|]. intros Hh'. destruct (Hsy Hh) as (Ha & spec & Hd & Hrt). split; [done|]. exists spec. split; [done|].
    rewrite Hrt. f_equal. symmetry. by eapply background_store.
  - destruct (background_any _ _ _ _ d Hst) as [d2 Hst2]. exists d2. by eapply sys_more.
Qed.

(** *** The start *)

Lemma construct_listeners_store secure ports table s : runtime_store_ (construct_listeners secure ports table s).2 = runtime_store_ s.
Proof.
  induction ports as [|port ports IH] in table, s |- *; cbn [construct_listeners]; [done|]. destruct (negb _); [done|]. cbv zeta. by rewrite IH.
Qed.
Lemma start_listeners_store rev ids s : runtime_store_ (start_listeners rev ids s).2 = runtime_store_ s.
Proof.
  induction ids as [|id ids IH] in s |- *; cbn [start_listeners]; [done|]. destruct (objects s !! id); [|apply IH].
  destruct (start _ _); [|done]. by rewrite IH.
Qed.
Lemma start_server_store s s' : start_server s = (Ok tt, s') -> runtime_store_ s' = runtime_store_ s.
Proof.
  unfold start_server. destruct (started_ s); [done|]. cbv zeta. destruct (make_address _); [|done].
  set (s1 := set_server_started true s).
  pose proof (construct_listeners_store false (http_ports (runtime_store_ s1)) ∅ s1) as E1.
  destruct (construct_listeners false _ _ _) as [[http|] s2]; [|done].
  pose proof (construct_listeners_store true (https_ports (runtime_store_ s1)) ∅ s2) as E2.
  destruct (construct_listeners true _ _ _) as [[tls|] s3]; [|done].
  match goal with |- context [start_listeners ?r ?l ?x] => pose proof (start_listeners_store r l x) as E3; destruct (start_listeners r l x) as [[[]|] s4] end;
    [|done]. intros [= <-]. cbn in *. congruence.
Qed.

Section Startup.
Context {R : Type} `{!ReloadTarget R}.

Lemma submit_detached {A} f candidate (write : option str -> Store -> res A * Store) commit (s : Service R) a s' :
  reload_handler_ s = false -> submit f candidate write commit s = (Ok a, s') ->
  exists db, write (write_fault f) (repository_ s) = (Ok a, db) /\ s' = commit None (set_repository db s).
Proof.
  intros Hh. unfold submit, checked. destruct candidate as [spec|]; [|done]. unfold prepare_candidate_locked.
  destruct (RuntimeConfig spec); [|done]. rewrite Hh. cbn [negb]. destruct (write _ _) as [[x|] db]; [|done].
  intros [= <- <-]. eauto.
Qed.

(** Seeding without a server: the new revision is the active one. *)
Lemma seed_active f name domains pem key (s s' : Service R) : reload_handler_ s = false ->
  active_revision_ s = config_revision (repository_ s) -> seed_default_certificate f name domains pem key s = (Ok tt, s') ->
  active_revision_ s' = config_revision (repository_ s') /\ reload_handler_ s' = false.
Proof.
  intros Hh Ha. unfold seed_default_certificate, locked, checked. destruct f; try done.
  all: cbv zeta; destruct (negb _); [by intros [= <-]|]; destruct (validate_and_normalize_certificate _) as [c|]; [|done].
  all: match goal with |- context [submit ?f ?c ?w ?k ?s] => destruct (submit f c w k s) as [[a|?] s1] eqn:Es end; [|done].
  all: intros [= <-]; apply submit_detached in Es as (db & Hw & ->); [|done]; cbn; split; [|done].
  all: apply next_is_stored; eapply (written_revision _ _ _ _ _ (OpCreateCertificate c)); [reflexivity| |exact Hw]; reflexivity.
Qed.

Lemma seed_spec f files (s s' : Service R) : service_ok s -> reload_handler_ s = false ->
  active_revision_ s = config_revision (repository_ s) -> seed f files s = (Ok tt, s') ->
  service_ok s' /\ active_revision_ s' = config_revision (repository_ s').
Proof.
  intros Hs Hh Ha. unfold seed. destruct (list_certificates _); [|by intros [= <-]]. unfold checked.
  destruct files as [[pem key]|]; [|done]. cbn [fst snd]. intros E. split; [|by eapply seed_active].
  pose proof (serve_ok f (SSeedCertificate b!"example.com development certificate" [b!"example.com"; b!"www.example.com"] pem key) s Hs) as Hk.
  cbn [serve] in Hk. by rewrite E in Hk.
Qed.

Lemma opened mf f file (r : R) s0 : store_wf (tables file) -> open_service mf f file r = (Ok tt, s0) ->
  service_ok s0 /\ reload_handler_ s0 = false /\ active_revision_ s0 = config_revision (repository_ s0).
Proof.
  intros Hwf. unfold open_service.
  pose proof (apply_migrations_keep store_wf mf [1; 2; 3; 4; 5; 6; 7]%nat file migration_wf Hwf) as Hk.
  unfold migrate_file. destruct (apply_migrations _ _ _) as [[[]|] file']; [|done]. cbn in Hk. intros E.
  match type of E with initialize f ?s = _ => pose proof (initialize_ok f s Hk eq_refl) as Hi end. rewrite E in Hi.
  destruct Hi as (? & ? & Ha). split_and!; [done..|]. by apply Ha.
Qed.

Lemma start_whole f files c (s0 : Service R) s : service_ok s0 -> reload_handler_ s0 = false ->
  active_revision_ s0 = config_revision (repository_ s0) -> start_data_plane f files c s0 = running s -> WholeInv s.
Proof.
  intros Hs Hh Ha. unfold start_data_plane. destruct (seed f files s0) as [[[]|] s1] eqn:Es; [|done].
  apply seed_spec in Es as [[Hwf _] Ha1]; [|done..].
  destruct (load_runtime_config s1) as [spec|] eqn:El; [|done].
  destruct (ServerCore (server_options spec) c) as [r0|] eqn:Ec; [|done].
  destruct (start_server r0) as [[[]|] r] eqn:Er; [|done]. intros [= <-].
  constructor; [|done|exists []; by eapply sys_start]. constructor; [done|]. intros _. split; [done|].
  exists spec. split; [exists spec; split; [done|apply same_spec_refl]|].
  change (published _) with (runtime_store_ r). rewrite (start_server_store _ _ Er).
  unfold ServerCore in Ec. cbn in Ec. by destruct (RuntimeConfig spec); [injection Ec as <-|].
Qed.

End Startup.

(** The administrator accounts are a table of their own. *)
Lemma accounts_ok {R} `{!ReloadTarget R} rows (s : Service R) : service_ok s ->
  service_ok (set_repository (set_admins rows (repository_ s)) s).
Proof. intros [[] Hy]. by constructor. Qed.
Lemma accounts_whole rows s : WholeInv s -> WholeInv (set_repository (set_admins rows (repository_ s)) s).
Proof. intros []. constructor; [by apply accounts_ok|done|done]. Qed.

Lemma whole_inv s : whole_reachable s -> WholeInv s.
Proof.
  induction 1 as [R ? mf f0 file r f files c s0 s Hwf Ho Hs|f op s _ IH Hb|rows s _ IH|s r' _ IH Hb];
    [|by apply serve_whole|by apply accounts_whole|by apply background_whole].
  destruct (opened _ _ _ _ _ Hwf Ho) as (? & ? & ?). by eapply start_whole.
Qed.

(** ** Stored sites and ports *)

Definition site_enabled (protocol : ListenerProtocol) (site : SiteRecord) : bool :=
  s_enabled site && match protocol with listen_http => s_http_enabled site | listen_https => s_https_enabled site end.
Definition site_port (protocol : ListenerProtocol) (site : SiteRecord) : Z :=
  match protocol with listen_http => s_http_port site | listen_https => s_https_port site end.

(** Validation keeps the switches and the ports of a site. *)
Definition site_switches (site : SiteRecord) : bool * (bool * Z) * (bool * Z) :=
  (s_enabled site, (s_http_enabled site, s_http_port site), (s_https_enabled site, s_https_port site)).

Lemma validated_switches site site' : validate_and_normalize site = Ok site' -> site_switches site' = site_switches site.
Proof.
  intros E. unfold validate_and_normalize in E. res_inv. apply catch_json_ok, check_policy_spec in E.
  apply canonicalize_spec in E as (acl & reds & exts & allowed & auth & _ & _ & _ & _ & _ & ->).
  apply normalize_sni_spec in Eb3 as (n & -> & _ & _). apply normalize_address_spec in Eb1 as (x & -> & _ & _).
  by apply normalize_protocol_spec in Eb0 as ->.
Qed.

Lemma loaded_ports protocol port sites acc out : res_fold load_site sites acc = Ok out ->
  (exists rs, rs ∈ out /\ RuntimeConfig.enabled protocol rs = true /\ port_of protocol rs = port) <->
  (exists rs, rs ∈ acc /\ RuntimeConfig.enabled protocol rs = true /\ port_of protocol rs = port) \/
  exists site, site ∈ sites /\ site_enabled protocol site = true /\ site_port protocol site = port.
Proof.
  revert acc. induction sites as [|site sites IH]; intros acc; cbn [res_fold]; [intros [= <-]; set_solver|].
  unfold load_site at 1. destruct (validate_and_normalize site) as [site'|] eqn:Hs; [|done].
  apply validated_switches in Hs. injection Hs as Ee' Eh Ehp Et Etp.
  cbn [mbind res_bind]. rewrite Ee'. destruct (s_enabled site) eqn:Ee; cbn [negb].
  - destruct (runtime_site site') as [rs|] eqn:Er; [|done]. cbn [mbind res_bind]. intros E. rewrite (IH _ E).
    assert (Hrs : forall x, x = rs -> (RuntimeConfig.enabled protocol x = site_enabled protocol site) /\ port_of protocol x = site_port protocol site).
    { intros x ->. unfold runtime_site in Er. res_inv. unfold site_enabled. rewrite Ee. destruct protocol; cbn; by rewrite ?Eh, ?Ehp, ?Et, ?Etp. }
    setoid_rewrite elem_of_app. setoid_rewrite list_elem_of_singleton. setoid_rewrite elem_of_cons. split.
    + intros [(x & [Hx|Hx] & ? & ?)|(x & ? & ?)]; [left; eauto| |right; eauto]. right. destruct (Hrs x Hx). exists site.
      split_and!; [by left|congruence..].
    + intros [(x & ? & ? & ?)|(x & [->|?] & ? & ?)]; [left; eauto| |right; eauto]. left. destruct (Hrs rs eq_refl). exists rs.
      split_and!; [by right|congruence..].
  - cbn [mbind res_bind]. intros E. rewrite (IH _ E). setoid_rewrite elem_of_cons. split; [naive_solver|].
    intros [?|(x & [->|?] & He & ?)]; [by left| |right; eauto]. unfold site_enabled in He. by rewrite Ee in He.
Qed.

(** ** Properties *)

(** C1: The server listens for exactly the sites of the database.  Open, migrate and
    seed a database file whose tables satisfy the schema (a new one, say), start the
    data plane, then let administrators change sites,
    certificates and settings, import backups and reload, with any of it failing at
    any point, and let the listeners accept, fail, retry, drain and stop in between:
    the server has an HTTP (HTTPS) listener on a port exactly if an enabled site of
    the database has HTTP (HTTPS) enabled on that port, and the configuration it
    publishes has the revision of the database. *)
Theorem listeners_are_the_stored_sites s : whole_reachable s ->
  runtime_revision (runtime s) = config_revision (repository_ s) /\
  forall protocol port,
    is_Some (table (match protocol with listen_http => false | listen_https => true end) (runtime s) !! port) <->
    exists site, site ∈ list_sites (repository_ s) /\ site_enabled protocol site = true /\ site_port protocol site = port.
Proof.
  intros [[Hwf Hsy] Hh [d Hr]]%whole_inv. destruct (Hsy Hh) as (_ & spec & (loaded & Hl & Hsame) & Hrt).
  change (published (runtime s)) with (runtime_store_ (runtime s)) in Hrt. split.
  { unfold runtime_revision. rewrite (runtime_revision_of _ _ Hrt), (ss_revision _ _ Hsame). by eapply built_revision. }
  intros protocol port. destruct (sys_inv _ Hr) as [_ _ Dh Dt _ _ _ _ _]. cbn in Dh, Dt.
  assert (Hp : is_Some (table (match protocol with listen_http => false | listen_https => true end) (runtime s) !! port) <->
    port ∈ ports (runtime_store_ (runtime s)) protocol).
  { rewrite <-elem_of_dom. destruct protocol; cbn; [rewrite Dh|rewrite Dt]; apply elem_of_list_to_set. }
  rewrite Hp, (proj1 (runtime_ports_exact _ _ Hrt)), (ss_sites _ _ Hsame).
  unfold build_runtime_spec_locked, build_runtime_spec in Hl. res_inv. cbn [spec_sites].
  rewrite (loaded_ports protocol port _ _ _ Eb). split; [|by right]. intros [(rs & Hin & _)|?]; [set_solver|done].
Qed.

(** A data plane that cannot start leaves the administrator a service.  When
    seeding, loading, building or binding throws, no reload handler is installed, no
    configuration counts as active, and the database is the one there was but for the
    certificate that may have been seeded; it is still consistent. *)
Theorem recovery_mode_is_safe {R} `{!ReloadTarget R} f files c (s0 s : Service R) e :
  service_ok s0 -> start_data_plane f files c s0 = recovery s e ->
  reload_handler_ s = false /\ active_revision_ s = 0 /\ service_ok s /\ list_sites (repository_ s) = list_sites (repository_ s0).
Proof.
  intros Hs. unfold start_data_plane.
  assert (Hk : service_ok (seed f files s0).2 /\ list_sites (repository_ (seed f files s0).2) = list_sites (repository_ s0)).
  { unfold seed. destruct (list_certificates _); [|done]. unfold checked. destruct files as [[pem key]|]; [|done]. cbn [fst snd].
    split; [apply (serve_ok f (SSeedCertificate _ _ pem key) s0 Hs)|].
    destruct (seed_default_certificate _ _ _ _ _ s0) as [[u|] s1] eqn:E; apply seed_certificate_outcome in E.
    - destruct E as [Hu|(x & spec & db & id & _ & _ & _ & Hw & Hm)]; cbn; [by rewrite (un_repository _ _ Hu)|].
      rewrite (mv_repository _ _ _ _ _ Hm). by apply create_certificate_ok in Hw as (_ & -> & _).
    - cbn. by rewrite (un_repository _ _ E). }
  destruct (seed f files s0) as [r s1]. cbn in Hk. destruct Hk as [[Hwf Hsy] Hl].
  assert (Hd : forall e', disabled s1 e' = recovery s e -> reload_handler_ s = false /\ active_revision_ s = 0 /\
    service_ok s /\ list_sites (repository_ s) = list_sites (repository_ s0)).
  { unfold disabled. intros e' [= <- _]. by split_and!. }
  destruct r as [u|]; [|apply Hd]. destruct (load_runtime_config s1) as [spec|]; [|apply Hd].
  destruct (ServerCore _ c) as [r0|]; [|apply Hd]. destruct (start_server r0) as [[[]|] r]; [done|apply Hd].
Qed.

End Application.

(** ** A sample system *)

Section Sample.
#[local] Existing Instance stored_json.
#[local] Existing Instance no_regex.
#[local] Existing Instance permissive_openssl.
#[local] Instance two_addresses : AddressText :=
  {| make_address s := if bool_decide (s = b!"127.0.0.1") then Some (V4 2130706433)
                       else if bool_decide (s = b!"0.0.0.0") then Some (V4 0) else None;
     address_to_string _ := b!"127.0.0.1" |}.

Definition no_server : Server :=
  Build_Server [] (Build_Config 0 [] [] ∅ ∅ ∅ ∅ None default_settings []) ∅ ∅ [] [] false false initial_impl ∅ 0 [] all_well.
(** A new file, opened: migrated, with the example site. *)
Definition new_file : File := {| schema_version := 0; tables := migrate |}.
Definition before : Service Server := Eval vm_compute in (open_service None no_fault new_file no_server).2.
Lemma before_opened : open_service None no_fault new_file no_server = (Ok tt, before).
Proof. vm_compute. reflexivity. Qed.
Lemma before_ok : service_ok before.
Proof. exact (proj1 (opened None no_fault new_file no_server before migrate_wf before_opened)). Qed.

Definition set_s_http_port (v : Z) (s : SiteRecord) : SiteRecord := ltac:(record_update site_eta s_http_port s v).
Definition plain_site (port : Z) : SiteRecord :=
  set_s_http_port port (ConfigServiceSpec.sample_site b!"a" [b!"A.test"]).

(** Started with the example site; then one on port 8080 is created and a deletion fails. *)
Definition plane : data_plane (R := Server) := start_data_plane no_fault (Ok (b!"pem", b!"key")) all_well before.
Definition started_service : Service Server := match plane with running s => s | recovery s _ => s end.
Definition with_site : Service Server :=
  (serve (write_fails b!"disk full") (SDeleteSite 1) (serve no_fault (SCreateSite (plain_site 8080)) started_service).2).2.

Lemma started_service_reachable : whole_reachable started_service.
Proof.
  assert (Hp : exists s, plane = running s) by (vm_compute; eexists; reflexivity). destruct Hp as [s Hp].
  unfold started_service. rewrite Hp. exact (whole_start None no_fault new_file no_server no_fault _ all_well before s migrate_wf before_opened Hp).
Qed.
Lemma with_site_reachable : whole_reachable with_site.
Proof.
  apply whole_serve; [apply whole_serve; [exact started_service_reachable|]|]; vm_compute; reflexivity.
Qed.

Lemma listeners_are_the_stored_sites_witness :
  runtime_revision (runtime with_site) = config_revision (repository_ with_site) /\
  config_revision (repository_ with_site) = 4 /\
  is_Some (table false (runtime with_site) !! 8080) /\ is_Some (table true (runtime with_site) !! 443) /\
  ~ is_Some (table true (runtime with_site) !! 8443).
Proof.
  assert (Hex : exists site, site ∈ list_sites (repository_ with_site) /\ site_enabled listen_http site = true /\ site_port listen_http site = 8080)
    by (vm_compute; eexists; split; [right; left|]; split; reflexivity).
  assert (Hseed : exists site, site ∈ list_sites (repository_ with_site) /\ site_enabled listen_https site = true /\ site_port listen_https site = 443)
    by (vm_compute; eexists; split; [left|]; split; reflexivity).
  assert (Hno : forallb (fun site => negb (site_port listen_https site =? 8443)) (list_sites (repository_ with_site)) = true)
    by (vm_compute; reflexivity).
  assert (Hrev : config_revision (repository_ with_site) = 4) by (vm_compute; reflexivity).
  destruct (listeners_are_the_stored_sites with_site with_site_reachable) as [H1 H2].
  pose proof (H2 listen_http 8080) as [_ Hh]. pose proof (H2 listen_https 443) as [_ Hs]. pose proof (H2 listen_https 8443) as [Ht _].
  cbv iota in Hh, Hs, Ht. split; [exact H1|]. split; [exact Hrev|]. split; [exact (Hh Hex)|]. split; [exact (Hs Hseed)|].
  intros Hn. destruct (Ht Hn) as (site & Hin & _ & He).
  rewrite forallb_forall in Hno. specialize (Hno site (proj1 (list_elem_of_In _ _) Hin)). rewrite He in Hno. discriminate Hno.
Defined.

(** The certificate files are missing. *)
Lemma recovery_mode_is_safe_witness :
  exists s, start_data_plane no_fault (Throw (runtime_error b!"cannot read required file")) all_well before =
              recovery s (runtime_error b!"cannot read required file") /\ reload_handler_ s = false /\ active_revision_ s = 0.
Proof.
  eexists. split; [vm_compute; reflexivity|].
  match goal with |- reload_handler_ ?s = _ /\ _ => pose proof (recovery_mode_is_safe no_fault (Throw (runtime_error b!"cannot read required file"))
    all_well before s (runtime_error b!"cannot read required file") before_ok ltac:(vm_compute; reflexivity)) as (H1 & H2 & _) end.
  exact (conj H1 H2).
Defined.

End Sample.
