(* ===== verification/Shutdown.v ===== *)
(** * Running and stopping the process (src/src/app/Application.cpp run_server, src/src/admin/AdminServer.cpp AdminServer)

    [run_server] builds the administration server, registers a callback for the stop
    request, starts the data plane (or falls back to recovery mode), starts the
    administration server, looks once whether a stop was requested meanwhile, and waits
    for the two servers in turn.  The stop request comes from another thread at any
    moment: from the signal handler or from the service control.  Here the main thread,
    the requesting thread and its callback are interleaved step by step; of a server
    only its flags and its threads are kept ([ServerCore] has the same shape; the
    whole of it is ServerCore.v).

    The theorem: the request is never lost.  Whenever it comes, the process ends after
    finitely many steps, and is never waiting for a server that nobody told to stop. *)

From S2P Require Import Prelude.

(** ** Servers *)

Record Endpoint := {
  started_ : bool;
  stopping_ : bool;
  threads : bool;                         (* its worker threads exist *)
  stops : nat                             (* calls of [listener_->stop()] *)
}.

Definition unstarted : Endpoint := {| started_ := false; stopping_ := false; threads := false; stops := 0 |}.

(** [start]: the listener or the thread may fail after [started_] was set. *)
Definition start_endpoint (throws : bool) (e : Endpoint) : res unit * Endpoint :=
  if started_ e then (Throw (logic_error b!"admin server has already been started"), e)
  else
    let e := {| started_ := true; stopping_ := stopping_ e; threads := threads e; stops := stops e |} in
    if throws then (Throw (runtime_error []), e)
    else (Ok tt, {| started_ := true; stopping_ := stopping_ e; threads := true; stops := stops e |}).

Definition stop_endpoint (e : Endpoint) : Endpoint :=
  if negb (started_ e) || stopping_ e then e
  else {| started_ := started_ e; stopping_ := true; threads := threads e; stops := S (stops e) |}.

(** [wait] returns when there is no thread to join; a thread ends when its listeners
    were stopped. *)
Definition joins (e : Endpoint) : bool := negb (threads e) || stopping_ e.

(** The worker thread: [io_context_.run()] until it returns; what it throws is logged,
    if that works. *)
Inductive run_result := run_returned | run_bad_alloc | run_exception (what : str) | run_unknown.
Definition worker_message (r : run_result) : str :=
  match r with
  | run_returned => []
  | run_bad_alloc => b!"worker handler ran out of memory; event loop will continue"
  | run_exception what => b!"uncaught worker handler exception: " ++ what
  | run_unknown => b!"unknown worker handler exception; event loop will continue"
  end.
Fixpoint run_worker (runs : list run_result) (logged : list str) : option (list str) :=
  match runs with
  | [] => None                            (* still running *)
  | run_returned :: _ => Some logged
  | r :: rest => run_worker rest (logged ++ [worker_message r])
  end.

(** ** The process *)

Inductive callback_phase := not_called | tells_admin | tells_server | called.

(** Where the main thread is. *)
Inductive position :=
| registering | starting_data | publishing | starting_admin | reporting | checking
| stopping_admin | stopping_server | waiting_server | clearing | stopping_again | waiting_admin
| unregistering | destroying_admin | joining_admin | destroying_server | joining_server
| finished | failed.
#[export] Instance position_eq_dec : EqDecision position.
Proof. solve_decision. Defined.

#[export] Instance Endpoint_eq_dec : EqDecision Endpoint.
Proof. solve_decision. Defined.
#[export] Instance callback_phase_eq_dec : EqDecision callback_phase.
Proof. solve_decision. Defined.

Record Process := {
  admin : Endpoint;
  server : option Endpoint;
  active_server : bool;
  requested : bool;                       (* stop_token.stop_requested() *)
  registered : bool;
  callback : callback_phase;
  at_ : position
}.

#[export] Instance Process_eq_dec : EqDecision Process.
Proof. solve_decision. Defined.

Definition process_eta (p : Process) : Process := Build_Process (p.(admin)) (p.(server)) (p.(active_server)) (p.(requested)) (p.(registered)) (p.(callback)) (p.(at_)).
Definition set_admin (v : Endpoint) (p : Process) : Process := ltac:(record_update process_eta admin p v).
Definition set_server (v : option Endpoint) (p : Process) : Process := ltac:(record_update process_eta server p v).
Definition set_active_server (v : bool) (p : Process) : Process := ltac:(record_update process_eta active_server p v).
Definition set_requested (v : bool) (p : Process) : Process := ltac:(record_update process_eta requested p v).
Definition set_registered (v : bool) (p : Process) : Process := ltac:(record_update process_eta registered p v).
Definition set_callback (v : callback_phase) (p : Process) : Process := ltac:(record_update process_eta callback p v).
Definition go (v : position) (p : Process) : Process := ltac:(record_update process_eta at_ p v).

Definition initial : Process :=
  {| admin := unstarted; server := None; active_server := false; requested := false; registered := false; callback := not_called; at_ := registering |}.

Definition stop_admin (p : Process) : Process := set_admin (stop_endpoint (admin p)) p.
Definition stop_data (p : Process) : Process := set_server (stop_endpoint <$> server p) p.

(** What the calls of a step of the main thread do; [throws_again]: so does its handler. *)
Inductive luck := succeeds | throws | throws_again.
Definition fails (result : luck) : bool := match result with succeeds => false | _ => true end.

Inductive event :=
| Request
| Callback
| Main (result : luck).

(** [request_stop()], and the callback on the thread that called it. *)
Definition request (p : Process) : Process :=
  let p := set_requested true p in if registered p then set_callback tells_admin p else p.

Definition run_callback (p : Process) : option Process :=
  match callback p with
  | tells_admin => Some (set_callback tells_server (stop_admin p))
  | tells_server => Some (set_callback called (if active_server p then stop_data p else p))
  | not_called | called => None
  end.

(** One step of [run_server].  A callback registered after
    the request is called by the registration, while the main thread waits. *)
Definition main_step (result : luck) (p : Process) : option Process :=
  match at_ p with
  | registering =>
      let p := set_registered true (go starting_data p) in
      Some (if requested p then set_callback called (stop_admin p) else p)
  | starting_data =>
      match result with
      | succeeds => Some (go publishing (set_server (Some (start_endpoint false unstarted).2) p))
      | throws => Some (go starting_admin (set_server None p))                (* recovery mode *)
      | throws_again => Some (go unregistering (set_server None p))
      end
  | publishing => Some (go starting_admin (set_active_server true p))
  | starting_admin =>
      match start_endpoint (fails result) (admin p) with
      | (Ok _, e) => Some (go reporting (set_admin e p))
      | (Throw _, e) => Some (go unregistering (set_admin e p))
      end
  | reporting => Some (go (if fails result then unregistering else checking) p)      (* log, ready(), output *)
  | checking => Some (go (if requested p then stopping_admin else if server p is Some _ then waiting_server else waiting_admin) p)
  | stopping_admin => Some (go stopping_server (stop_admin p))
  | stopping_server => Some (go (if server p is Some _ then waiting_server else waiting_admin) (stop_data p))
  | waiting_server => if joins (default unstarted (server p)) then Some (go clearing p) else None
  | clearing => Some (go stopping_again (set_active_server false p))
  | stopping_again => Some (go waiting_admin (stop_admin p))
  | waiting_admin => if joins (admin p) then Some (go finished p) else None
  (* an exception: the destructors, in reverse order *)
  | unregistering =>
      match callback p with
      | tells_admin | tells_server => None                                    (* waits for the callback *)
      | not_called | called => Some (go destroying_admin (set_registered false p))
      end
  | destroying_admin => Some (go joining_admin (stop_admin p))
  | joining_admin => if joins (admin p) then Some (go destroying_server p) else None
  | destroying_server => Some (go joining_server (stop_data p))
  | joining_server => if joins (default unstarted (server p)) then Some (go failed p) else None
  | finished | failed => None
  end.

Definition step (e : event) (p : Process) : option Process :=
  match e with
  | Request => if requested p then None else Some (request p)
  | Callback => run_callback p
  | Main result => main_step result p
  end.

Inductive reachable : Process -> Prop :=
| reachable_initial : reachable initial
| reachable_step e p p' : reachable p -> step e p = Some p' -> reachable p'.

(** ** Exploration

    The process has finitely many states: they are enumerated from the initial one, and
    the enumeration is checked to be closed under every step. *)

Definition events : list event := [Request; Callback; Main succeeds; Main throws; Main throws_again].
Definition successors (p : Process) : list Process := omap (fun e => step e p) events.

Fixpoint explore (fuel : nat) (seen frontier : list Process) : list Process :=
  match fuel, frontier with
  | S fuel, p :: rest =>
      if bool_decide (p ∈ seen) then explore fuel seen rest else explore fuel (p :: seen) (successors p ++ rest)
  | _, _ => seen
  end.
Definition states : list Process := Eval vm_compute in explore 2000 [] [initial].

Lemma all_events e : e ∈ events.
Proof. unfold events. rewrite !elem_of_cons. destruct e as [| |[]]; tauto. Qed.

Lemma states_closed : forallb (fun p => forallb (fun p' => bool_decide (p' ∈ states)) (successors p)) states = true.
Proof. vm_compute. reflexivity. Qed.

Lemma reachable_state p : reachable p -> p ∈ states.
Proof.
  induction 1 as [|e p p' _ IH E]; [apply (bool_decide_unpack (initial ∈ states)); vm_compute; exact I|].
  pose proof states_closed as Hc. rewrite forallb_forall in Hc. specialize (Hc p (proj1 (list_elem_of_In _ _) IH)).
  rewrite forallb_forall in Hc. eapply bool_decide_eq_true, Hc, list_elem_of_In, list_elem_of_omap. exists e. split; [apply all_events|done].
Qed.

(** A decidable property of all enumerated states holds of all reachable ones. *)
Lemma reachable_forall (P : Process -> Prop) `{forall p, Decision (P p)} p :
  forallb (fun p => bool_decide (P p)) states = true -> reachable p -> P p.
Proof.
  intros Hc Hr%reachable_state. rewrite forallb_forall in Hc. by eapply bool_decide_eq_true, Hc, list_elem_of_In.
Qed.

(** ** Properties *)

Definition ended (p : Process) : bool := bool_decide (at_ p = finished) || bool_decide (at_ p = failed).
(** The main thread has left the body of the [try] by an exception. *)
Definition unwinding (p : Process) : bool :=
  match at_ p with
  | unregistering | destroying_admin | joining_admin | destroying_server | joining_server | failed => true
  | _ => false
  end.

(** Steps the main thread has before it at most, and those of the callback. *)
Definition ahead (p : position) : nat :=
  match p with
  | registering => 16 | starting_data => 15 | publishing => 14 | starting_admin => 13 | reporting => 12 | checking => 11
  | stopping_admin => 10 | stopping_server => 9 | waiting_server => 8 | clearing => 7 | stopping_again => 6
  | unregistering => 5 | destroying_admin => 4 | joining_admin => 3 | destroying_server => 2 | joining_server => 1
  | waiting_admin => 1 | finished | failed => 0
  end.
Definition callbacks_left (p : Process) : nat := match callback p with not_called => 3 | tells_admin => 2 | tells_server => 1 | called => 0 end.
Definition remaining (p : Process) : nat := (ahead (at_ p) + callbacks_left p + Nat.b2n (negb (requested p)))%nat.

(** How often the servers were told to stop. *)
Definition told (p : Process) : list nat := stops (admin p) :: (if server p is Some e then [stops e] else []).

(** C13: Whenever the stop is requested, before, during or after the start and whatever
    throws meanwhile, the process ends: as long as it has not ended the callback or the
    main thread can make a step (the main thread never waits for a server that was not
    told to stop), and every step brings it nearer to its end.  Before the request, and
    unless an exception ends it, nobody is told to stop; after a normal end each server
    was told exactly once. *)
Theorem stop_request_is_never_lost p : reachable p ->
  (requested p = true -> ended p = false -> is_Some (step Callback p) \/ is_Some (step (Main succeeds) p)) /\
  (forall e p', step e p = Some p' -> (remaining p' < remaining p)%nat) /\
  (requested p = false -> unwinding p = false -> Forall (fun n => n = 0%nat) (told p)) /\
  (at_ p = finished -> Forall (fun n => n = 1%nat) (told p)).
Proof.
  intros Hr. split_and!.
  - apply (reachable_forall (fun p => requested p = true -> ended p = false -> is_Some (step Callback p) \/ is_Some (step (Main succeeds) p)));
      [vm_compute; reflexivity|done].
  - intros e p' E. apply (reachable_forall (fun p => Forall (fun p' => (remaining p' < remaining p)%nat) (successors p)) p) in Hr; [|vm_compute; reflexivity].
    rewrite Forall_forall in Hr. apply Hr, list_elem_of_omap. exists e. split; [apply all_events|done].
  - apply (reachable_forall (fun p => requested p = false -> unwinding p = false -> Forall (fun n => n = 0%nat) (told p))); [vm_compute; reflexivity|done].
  - apply (reachable_forall (fun p => at_ p = finished -> Forall (fun n => n = 1%nat) (told p))); [vm_compute; reflexivity|done].
Qed.

(** The stop comes while the data plane is starting: the callback reaches neither server. *)
Definition steps (es : list event) (p : Process) : option Process := foldl (fun o e => o ≫= step e) (Some p) es.
Definition asked_early : list event := [Main succeeds; Request; Callback; Callback; Main succeeds; Main succeeds; Main succeeds; Main succeeds].
Definition at_the_check : Process := Eval vm_compute in default initial (steps asked_early initial).

Lemma stop_request_is_never_lost_witness :
  stopping_ (admin at_the_check) = false /\ requested at_the_check = true /\
  (is_Some (step Callback at_the_check) \/ is_Some (step (Main succeeds) at_the_check)) /\
  steps (replicate 7 (Main succeeds)) at_the_check <> None.
Proof.
  split_and!; [vm_compute; reflexivity..| |vm_compute; discriminate].
  refine (proj1 (stop_request_is_never_lost at_the_check _) _ _); [|vm_compute; reflexivity..].
  refine (reachable_step (Main succeeds) (default initial (steps (take 7 asked_early) initial)) _ _ _); [|vm_compute; reflexivity].
  refine (reachable_step (Main succeeds) (default initial (steps (take 6 asked_early) initial)) _ _ _); [|vm_compute; reflexivity].
  refine (reachable_step (Main succeeds) (default initial (steps (take 5 asked_early) initial)) _ _ _); [|vm_compute; reflexivity].
  refine (reachable_step (Main succeeds) (default initial (steps (take 4 asked_early) initial)) _ _ _); [|vm_compute; reflexivity].
  refine (reachable_step Callback (default initial (steps (take 3 asked_early) initial)) _ _ _); [|vm_compute; reflexivity].
  refine (reachable_step Callback (default initial (steps (take 2 asked_early) initial)) _ _ _); [|vm_compute; reflexivity].
  refine (reachable_step Request (default initial (steps (take 1 asked_early) initial)) _ _ _); [|vm_compute; reflexivity].
  refine (reachable_step (Main succeeds) initial _ reachable_initial _). vm_compute. reflexivity.
Defined.

(** The worker thread leaves its loop only when the event loop has nothing left to do,
    and logs every exception on the way. *)
Theorem worker_survives_exceptions errors rest logged : Forall (fun r => r <> run_returned) errors ->
  run_worker (errors ++ run_returned :: rest) logged = Some (logged ++ (worker_message <$> errors)).
Proof.
  intros He. revert logged. induction He as [|r errors Hr _ IH]; intros logged; cbn; [by rewrite app_nil_r|].
  destruct r; [done|..]; rewrite IH, <-app_assoc; done.
Qed.

(** ** Command line *)

Inductive action :=
| exits (code : Z) (prints : str)
| install_service
| uninstall_service
| run_as_service
| run_in_console.

(** [Application::run], by the options; the texts of --version and --help are left out. *)
Definition application_run (options : list str) : action :=
  match options with
  | [] => run_in_console
  | [option] =>
      if bool_decide (option = b!"--version") then exits 0 b!"version"
      else if bool_decide (option = b!"--help") || bool_decide (option = b!"-h") then exits 0 b!"help"
      else if bool_decide (option = b!"--install-service") then install_service
      else if bool_decide (option = b!"--uninstall-service") then uninstall_service
      else if bool_decide (option = b!"--service") then run_as_service
      else exits 2 (b!"error: unknown option: " ++ option)
  | _ => exits 2 b!"error: expected at most one option"
  end.
