(* ===== verification/WindowsService.v ===== *)
(** * Windows service (src/src/service/WindowsService.{hpp,cpp})

    [ServiceRuntime] runs the server as a service: it reports its state to the service
    control manager, and turns the stop control into a stop request.  The worker (the
    server, Shutdown.v) is an input: it calls the ready handler or not, and returns a
    code or throws.  The calls of the Windows interface are inputs too; the texts
    written to the event log are not kept.

    [execute] and [control] run on two threads and share [current_state_] and
    [checkpoint_] without a lock.  So the two are not steps: each of their accesses to
    these members, and each call of [SetServiceStatus], is one step, and the threads
    interleave freely.  (The accesses are aligned 32-bit ones of x64; what the language
    makes of a data race is left out.)

    The theorem: in every interleaving the service thread reports START_PENDING,
    RUNNING if it became ready, and STOPPED with the exit code of the process; check
    points rise one by one; a stop is requested only after STOP_PENDING was reported.
    While no control overlaps a report of the service thread, the manager is told only legal
    successions of states, and the member says what the service does, so a stop is
    not ignored.  With an overlap it can be: [late_answer_loses_stop]. *)

From S2P Require Import Prelude.

(** ** Status *)

Inductive service_state := SERVICE_STOPPED | SERVICE_START_PENDING | SERVICE_RUNNING | SERVICE_STOP_PENDING.
#[export] Instance service_state_eq_dec : EqDecision service_state.
Proof. solve_decision. Defined.

Definition NO_ERROR : Z := 0.
Definition ERROR_SERVICE_SPECIFIC_ERROR : Z := 1066.
Definition ERROR_CALL_NOT_IMPLEMENTED : Z := 120.

(** [SERVICE_STATUS], without the constant service type. *)
Record Status := {
  dwCurrentState : service_state;
  accepts_stop : bool;                    (* dwControlsAccepted *)
  dwWin32ExitCode : Z;
  dwServiceSpecificExitCode : Z;
  dwCheckPoint : Z;
  dwWaitHint : Z
}.

Definition pending (state : service_state) : bool := bool_decide (state = SERVICE_START_PENDING) || bool_decide (state = SERVICE_STOP_PENDING).

(** A call of [report] that is under way, with the access it makes next. *)
Inductive report_pc :=
| at_store                                (* current_state_ = state *)
| at_count                                (* ++checkpoint_: the load *)
| at_counted (n : Z)                      (* ... and the store *)
| at_send (n : Z).                        (* SetServiceStatus *)
Record Report := { rp_state : service_state; rp_win32_exit : Z; rp_wait_hint : Z; rp_service_exit : Z; rp_at : report_pc }.

Definition new_report (state : service_state) (win32_exit wait_hint service_exit : Z) : Report :=
  {| rp_state := state; rp_win32_exit := win32_exit; rp_wait_hint := wait_hint; rp_service_exit := service_exit; rp_at := at_store |}.
Definition advance (pc : report_pc) (rp : Report) : Report :=
  {| rp_state := rp_state rp; rp_win32_exit := rp_win32_exit rp; rp_wait_hint := rp_wait_hint rp; rp_service_exit := rp_service_exit rp; rp_at := pc |}.
Definition status_of (rp : Report) (n : Z) : Status :=
  {| dwCurrentState := rp_state rp; accepts_stop := bool_decide (rp_state rp = SERVICE_RUNNING); dwWin32ExitCode := rp_win32_exit rp;
     dwServiceSpecificExitCode := rp_service_exit rp; dwCheckPoint := n; dwWaitHint := rp_wait_hint rp |}.

(** Where the two threads are. *)
Inductive execute_pc := starting | working | reporting (rp : Report) | ended.
Inductive control_pc :=
| idle
| checking                                (* current_state_ == SERVICE_RUNNING *)
| asking                                  (* the two reads of an interrogation *)
| asking_hint (state : service_state)
| answering (rp : Report) (then_stop : bool)
| requesting.                             (* request_stop() *)
Inductive thread := service_thread | dispatcher_thread.
#[export] Instance thread_eq_dec : EqDecision thread.
Proof. solve_decision. Defined.

Record ServiceRuntime := {
  current_state_ : service_state;
  checkpoint_ : Z;
  exit_code_ : Z;
  ready_ : bool;
  stop_requested : bool;                  (* stop_source_ *)
  execute_ : execute_pc;
  control_ : control_pc;
  reported : list (thread * Status);      (* to SetServiceStatus, and by whom *)
  overlapped : bool                       (* a control met a report of the service thread *)
}.

Definition runtime_eta (r : ServiceRuntime) : ServiceRuntime := Build_ServiceRuntime (r.(current_state_)) (r.(checkpoint_)) (r.(exit_code_))
  (r.(ready_)) (r.(stop_requested)) (r.(execute_)) (r.(control_)) (r.(reported)) (r.(overlapped)).
Definition set_current_state (v : service_state) (r : ServiceRuntime) : ServiceRuntime := ltac:(record_update runtime_eta current_state_ r v).
Definition set_checkpoint (v : Z) (r : ServiceRuntime) : ServiceRuntime := ltac:(record_update runtime_eta checkpoint_ r v).
Definition set_exit_code (v : Z) (r : ServiceRuntime) : ServiceRuntime := ltac:(record_update runtime_eta exit_code_ r v).
Definition set_ready (v : bool) (r : ServiceRuntime) : ServiceRuntime := ltac:(record_update runtime_eta ready_ r v).
Definition set_stop_requested (v : bool) (r : ServiceRuntime) : ServiceRuntime := ltac:(record_update runtime_eta stop_requested r v).
Definition set_execute (v : execute_pc) (r : ServiceRuntime) : ServiceRuntime := ltac:(record_update runtime_eta execute_ r v).
Definition set_control (v : control_pc) (r : ServiceRuntime) : ServiceRuntime := ltac:(record_update runtime_eta control_ r v).
Definition set_reported (v : list (thread * Status)) (r : ServiceRuntime) : ServiceRuntime := ltac:(record_update runtime_eta reported r v).
Definition set_overlapped (v : bool) (r : ServiceRuntime) : ServiceRuntime := ltac:(record_update runtime_eta overlapped r v).

Definition new_runtime : ServiceRuntime :=
  {| current_state_ := SERVICE_STOPPED; checkpoint_ := 0; exit_code_ := 0; ready_ := false; stop_requested := false;
     execute_ := starting; control_ := idle; reported := []; overlapped := false |}.

(** One access of [report]; [None] when it has returned. *)
Definition report (who : thread) (rp : Report) (r : ServiceRuntime) : option Report * ServiceRuntime :=
  match rp_at rp with
  | at_store => (Some (advance (if pending (rp_state rp) then at_count else at_send 0) rp), set_current_state (rp_state rp) r)
  | at_count => (Some (advance (at_counted (checkpoint_ r)) rp), r)
  | at_counted n => (Some (advance (at_send (u32 (n + 1))) rp), set_checkpoint (u32 (n + 1)) r)
  | at_send n => (None, set_reported (reported r ++ [(who, status_of rp n)]) r)
  end.

(** ** The dispatcher thread *)

Inductive control := control_stop | control_shutdown | control_interrogate | control_other.

(** The switch of [control], and what it returns. *)
Definition handle_control (c : control) (r : ServiceRuntime) : Z * ServiceRuntime :=
  match c with
  | control_stop | control_shutdown => (NO_ERROR, set_control checking r)
  | control_interrogate => (NO_ERROR, set_control asking r)
  | control_other => (ERROR_CALL_NOT_IMPLEMENTED, r)
  end.

(** The next access of the handler. *)
Definition control_step (r : ServiceRuntime) : option ServiceRuntime :=
  match control_ r with
  | idle => None
  | checking => Some (set_control (if bool_decide (current_state_ r = SERVICE_RUNNING)
                                   then answering (new_report SERVICE_STOP_PENDING NO_ERROR 30000 0) true else idle) r)
  | asking => Some (set_control (asking_hint (current_state_ r)) r)
  | asking_hint state =>
      let wait_hint := if bool_decide (current_state_ r = SERVICE_RUNNING) then 0 else 30000 in
      Some (set_control (answering (new_report state NO_ERROR wait_hint 0) false) r)
  | answering rp then_stop =>
      let '(rp', r) := report dispatcher_thread rp r in
      Some (set_control (match rp' with
                         | Some rp => answering rp then_stop
                         | None => if then_stop then requesting else idle
                         end) r)
  | requesting => Some (set_control idle (set_stop_requested true r))
  end.

(** ** The service thread *)

(** [execute] up to the call of the worker; the handler may fail to register. *)
Definition begin_execute (registered : bool) (last_error : Z) (r : ServiceRuntime) : ServiceRuntime :=
  if negb registered then set_execute ended (set_exit_code last_error r)
  else set_execute (reporting (new_report SERVICE_START_PENDING NO_ERROR 30000 0)) r.

Definition on_ready (r : ServiceRuntime) : ServiceRuntime :=
  if ready_ r then r else set_execute (reporting (new_report SERVICE_RUNNING NO_ERROR 0 0)) (set_ready true r).

(** [execute] after the worker: a code, or an exception. *)
Definition end_execute (result : option Z) (r : ServiceRuntime) : ServiceRuntime :=
  let r := match result with
           | Some code => set_exit_code (if negb (ready_ r) && (code =? 0) then 1 else code) r
           | None => set_exit_code 1 r
           end in
  set_execute (reporting (new_report SERVICE_STOPPED (if exit_code_ r =? 0 then NO_ERROR else ERROR_SERVICE_SPECIFIC_ERROR) 0
                            (if exit_code_ r =? 0 then 0 else u32 (exit_code_ r)))) r.

(** The next access of a report of the service thread. *)
Definition execute_step (r : ServiceRuntime) : option ServiceRuntime :=
  match execute_ r with
  | reporting rp =>
      let '(rp', r) := report service_thread rp r in
      Some (set_execute (match rp' with
                         | Some rp => reporting rp
                         | None => if bool_decide (rp_state rp = SERVICE_STOPPED) then ended else working
                         end) r)
  | _ => None
  end.

(** ** Interleaving *)

Inductive event := EReady | EEnd (result : option Z) | EExecute | EControl (c : control) | EHandler.

Definition states (r : ServiceRuntime) : list service_state := (fun x => dwCurrentState x.2) <$> reported r.

(** The manager sends no control before the first report and none once STOPPED was reported. *)
Definition accepting (r : ServiceRuntime) : bool :=
  negb (bool_decide (states r = [])) && negb (bool_decide (SERVICE_STOPPED ∈ states r)).

Definition is_reporting (r : ServiceRuntime) : bool := match execute_ r with reporting _ => true | _ => false end.
Definition is_idle (r : ServiceRuntime) : bool := match control_ r with idle => true | _ => false end.
Definition is_working (r : ServiceRuntime) : bool := match execute_ r with working => true | _ => false end.

(** The service thread starts or makes an access of a report during a control, or a
    control starts during a report of the service thread. *)
Definition overlaps (e : event) (r : ServiceRuntime) : bool :=
  match e with
  | EReady | EEnd _ | EExecute => negb (is_idle r)
  | EControl _ => is_reporting r
  | EHandler => false
  end.

Definition act (e : event) (r : ServiceRuntime) : option ServiceRuntime :=
  match e with
  | EReady => if is_working r then Some (on_ready r) else None
  | EEnd result => if is_working r then Some (end_execute result r) else None
  | EExecute => execute_step r
  | EControl c => if is_idle r && accepting r then Some (handle_control c r).2 else None
  | EHandler => control_step r
  end.
Definition step (e : event) (r : ServiceRuntime) : option ServiceRuntime := act e (set_overlapped (overlapped r || overlaps e r) r).

(** Fewer reports than the check point can count. *)
Definition short (r : ServiceRuntime) : Prop := Z.of_nat (length (reported r)) < 2 ^ 32 - 1.

Inductive reachable : ServiceRuntime -> Prop :=
| reachable_begin : reachable (begin_execute true 0 new_runtime)
| reachable_step e r r' : reachable r -> short r -> step e r = Some r' -> reachable r'.

(** ** What holds in every interleaving *)

Definition own (r : ServiceRuntime) : list Status := snd <$> filter (fun x => x.1 = service_thread) (reported r).
Definition own_states (r : ServiceRuntime) : list service_state := dwCurrentState <$> own r.
Definition check_points (r : ServiceRuntime) : list Z :=
  (fun x => dwCheckPoint x.2) <$> filter (fun x => pending (dwCurrentState x.2) = true) (reported r).

(** What the service thread reports before it ends, and as its end. *)
Definition so_far (r : ServiceRuntime) : list service_state := SERVICE_START_PENDING :: if ready_ r then [SERVICE_RUNNING] else [].
Definition final_report (r : ServiceRuntime) (s : Status) : Prop :=
  dwCurrentState s = SERVICE_STOPPED /\ (exit_code_ r = 0 <-> dwWin32ExitCode s = NO_ERROR) /\
  dwServiceSpecificExitCode s = u32 (exit_code_ r) /\ (exit_code_ r = 0 -> ready_ r = true).

Definition service_ok (r : ServiceRuntime) : Prop :=
  match execute_ r with
  | starting => False
  | working => own_states r = so_far r
  | reporting rp =>
      match rp_state rp with
      | SERVICE_START_PENDING => reported r = [] /\ control_ r = idle /\ ready_ r = false /\ current_state_ r <> SERVICE_RUNNING
      | SERVICE_RUNNING => own_states r = [SERVICE_START_PENDING] /\ ready_ r = true
      | SERVICE_STOPPED => own_states r = so_far r /\ forall n, final_report r (status_of rp n)
      | SERVICE_STOP_PENDING => False
      end
  | ended => own_states r = so_far r ++ [SERVICE_STOPPED] /\ exists s, last (own r) = Some s /\ final_report r s
  end.

(** A stop control was let through. *)
Definition stopping (r : ServiceRuntime) : bool :=
  stop_requested r || match control_ r with answering _ true | requesting => true | _ => false end.
Definition told (r : ServiceRuntime) : Prop := stop_requested r = true \/ control_ r = requesting.

(** A state the handler has read and not yet reported. *)
Definition seen (r : ServiceRuntime) (state : service_state) : Prop :=
  (state = SERVICE_RUNNING -> ready_ r = true) /\ (state = SERVICE_STOP_PENDING -> stop_requested r = true).

Record StopOk (r : ServiceRuntime) : Prop := {
  so_ready : stopping r = true -> ready_ r = true;
  so_running : current_state_ r = SERVICE_RUNNING -> ready_ r = true;
  so_pending : current_state_ r = SERVICE_STOP_PENDING -> stopping r = true;
  so_told : SERVICE_STOP_PENDING ∈ states r <-> told r;
  so_control : match control_ r with
               | asking_hint state => seen r state
               | answering rp true => rp_state rp = SERVICE_STOP_PENDING
               | answering rp false => seen r (rp_state rp)
               | _ => True
               end
}.

Lemma states_snoc r who s : states (set_reported (reported r ++ [(who, s)]) r) = states r ++ [dwCurrentState s].
Proof. unfold states. cbn. by rewrite fmap_app. Qed.
Lemma own_snoc r s : own (set_reported (reported r ++ [(service_thread, s)]) r) = own r ++ [s].
Proof. unfold own. cbn. by rewrite filter_app, fmap_app. Qed.
Lemma own_other r s : own (set_reported (reported r ++ [(dispatcher_thread, s)]) r) = own r.
Proof. unfold own. cbn. rewrite filter_app, fmap_app. cbn. apply app_nil_r. Qed.

(** The service thread's part is touched by the service thread only. *)
Lemma service_ok_control r r' : service_ok r -> control_step r = Some r' -> service_ok r'.
Proof.
  intros Hs Hc. unfold control_step in Hc.
  assert (Hkeep : control_ r <> idle -> forall c q, own q = own r -> ready_ q = ready_ r -> exit_code_ q = exit_code_ r -> execute_ q = execute_ r ->
            service_ok (set_control c q)).
  { intros Hn c q E1 E2 E3 E4. unfold service_ok, own_states, so_far, final_report in *. cbn [execute_ set_control ready_ exit_code_].
    change (own (set_control c q)) with (own q). rewrite E1, E2, E3, E4. repeat case_match; naive_solver. }
  destruct (control_ r) as [| | |st|rp then_stop|] eqn:Ec; try done; try (injection Hc as <-; by apply Hkeep).
  destruct (report _ _ _) as [rp' q] eqn:Er. injection Hc as <-. unfold report in Er.
  destruct (rp_at rp); injection Er as <- <-; apply Hkeep; try done. apply own_other.
Qed.

Lemma final_report_new q code : exit_code_ q = code -> (code = 0 -> ready_ q = true) -> forall n,
  final_report q (status_of (new_report SERVICE_STOPPED (if code =? 0 then NO_ERROR else ERROR_SERVICE_SPECIFIC_ERROR) 0
                                        (if code =? 0 then 0 else u32 code)) n).
Proof.
  intros <- Hr n. unfold final_report. cbn. destruct (Z.eqb_spec (exit_code_ q) 0) as [E|E]; split_and!; try done.
  by rewrite E.
Qed.

Lemma end_ok result r : service_ok r -> is_working r = true -> service_ok (end_execute result r).
Proof.
  intros Hs Hw. unfold is_working, service_ok in *. destruct (execute_ r) eqn:Ee; try done. unfold end_execute. cbv zeta.
  set (code := match result with Some code => if negb (ready_ r) && (code =? 0) then 1 else code | None => 1 end).
  replace (match result with Some _ => _ | None => _ end) with (set_exit_code code r) by (by destruct result).
  cbn [execute_ set_execute rp_state new_report]. split; [exact Hs|]. apply final_report_new; [done|].
  subst code. cbn. destruct result as [z|]; [|done]. destruct (ready_ r); [done|]. cbn. destruct (z =? 0) eqn:E; [done|]. by intros ->.
Qed.

Lemma execute_ok r r' : service_ok r -> execute_step r = Some r' -> service_ok r'.
Proof.
  unfold execute_step. destruct (execute_ r) as [| |rp|] eqn:Ee; try done. intros Hs. unfold service_ok in Hs. rewrite Ee in Hs.
  unfold report. destruct (rp_at rp) as [| |n|n]; intros [= <-]; unfold service_ok; cbn [execute_ set_execute rp_state advance].
  - destruct (rp_state rp) eqn:Es; try done. destruct Hs as (? & ? & ? & ?). cbn. rewrite ?Es. by split_and!.
  - exact Hs.
  - exact Hs.
  - unfold own_states, final_report in *. match goal with |- context [own ?q] => change (own q) with (own (set_reported (reported r ++ [(service_thread, status_of rp n)]) r)) end.
    unfold so_far in *. cbn [ready_ set_reported set_execute exit_code_]. rewrite own_snoc, fmap_app, last_snoc. cbn [fmap list_fmap status_of dwCurrentState].
    destruct (rp_state rp) eqn:Es; cbn [bool_decide]; try done.
    + destruct Hs as [-> Hf]. split; [done|]. eexists. split; [done|]. apply (Hf n).
    + destruct Hs as (Hr & _ & -> & _). unfold own. by rewrite Hr.
    + destruct Hs as [-> ->]. done.
Qed.

Lemma service_ok_step e r r' : service_ok r -> step e r = Some r' -> service_ok r'.
Proof.
  intros Hs. unfold step. assert (Hs' : service_ok (set_overlapped (overlapped r || overlaps e r) r)) by exact Hs. revert Hs'.
  generalize (set_overlapped (overlapped r || overlaps e r) r). clear Hs r. intros r Hs. destruct e as [|result| |c|]; cbn [act].
  - destruct (is_working r) eqn:Hw; [|done]. intros [= <-]. unfold on_ready. destruct (ready_ r) eqn:Er; [done|].
    unfold is_working, service_ok in *. destruct (execute_ r); try done. cbn. unfold so_far in Hs. by rewrite Er in Hs.
  - destruct (is_working r) eqn:Hw; [|done]. intros [= <-]. by apply end_ok.
  - by apply execute_ok.
  - destruct (is_idle r && accepting r) eqn:Ha; [|done]. intros [= <-].
    assert (Hk : forall c, service_ok (set_control c r)).
    { intros c'. unfold service_ok in *. cbn [execute_ set_control]. destruct (execute_ r) as [| |rp|]; try done. destruct (rp_state rp); try done.
      destruct Hs as (Hr & _). apply andb_true_iff in Ha as [_ Ha]. unfold accepting, states in Ha. by rewrite Hr in Ha. }
    destruct c; cbn; [apply Hk..|done].
  - by apply service_ok_control.
Qed.

(** Steps that leave the stop, the reports and the handler alone. *)
Lemma stop_ok_same r q : StopOk r -> (ready_ r = true -> ready_ q = true) -> stop_requested q = stop_requested r -> control_ q = control_ r ->
  states q = states r -> (current_state_ q = SERVICE_RUNNING -> ready_ q = true) -> (current_state_ q = SERVICE_STOP_PENDING -> stopping r = true) ->
  StopOk q.
Proof.
  intros [H1 H2 H3 H4 H5] Hr Es Ec Est Hrun Hpend. unfold stopping, told, seen in *. constructor; unfold stopping, told, seen; rewrite ?Es, ?Ec, ?Est; auto.
  repeat case_match; naive_solver.
Qed.

Lemma stop_ok_execute r r' : service_ok r -> StopOk r -> execute_step r = Some r' -> StopOk r'.
Proof.
  unfold execute_step, service_ok. destruct (execute_ r) as [| |rp|]; try done. intros Hs Hk.
  assert (Hnp : rp_state rp <> SERVICE_STOP_PENDING) by (intros E; by rewrite E in Hs).
  unfold report. destruct (rp_at rp) as [| |n|n]; intros [= <-].
  - apply (stop_ok_same r); try done. cbn. intros Er. rewrite Er in Hs. by destruct Hs.
  - apply (stop_ok_same r); try done; apply Hk.
  - apply (stop_ok_same r); try done; apply Hk.
  - destruct Hk as [H1 H2 H3 H4 H5]. constructor; try done. unfold states, told in *. cbn [reported set_execute set_reported stop_requested control_].
    rewrite fmap_app, elem_of_app, H4. cbn. rewrite list_elem_of_singleton. naive_solver.
Qed.

Lemma stop_ok_control r r' : StopOk r -> control_step r = Some r' -> StopOk r'.
Proof.
  unfold control_step. intros Hk. pose proof Hk as [H1 H2 H3 H4 H5]. unfold stopping, told, seen in *.
  destruct (control_ r) as [| | |st|rp then_stop|] eqn:Ec; try done.
  - case_bool_decide as Hc; intros [= <-]; constructor; unfold stopping, told, seen; cbn; rewrite ?orb_true_r, ?orb_false_r in *; try done; naive_solver.
  - intros [= <-]. constructor; unfold stopping, told, seen; cbn; rewrite ?orb_false_r in *; try done; naive_solver.
  - cbv zeta. intros [= <-]. constructor; unfold stopping, told, seen; cbn; rewrite ?orb_false_r in *; try done; naive_solver.
  - unfold report. destruct (rp_at rp) as [| |n|n]; intros [= <-].
    + constructor; unfold stopping, told, seen; cbn; destruct then_stop; rewrite ?orb_true_r, ?orb_false_r in *; try done; try naive_solver.
    + constructor; unfold stopping, told, seen; cbn; destruct then_stop; rewrite ?orb_true_r, ?orb_false_r in *; try done; naive_solver.
    + constructor; unfold stopping, told, seen; cbn; destruct then_stop; rewrite ?orb_true_r, ?orb_false_r in *; try done; naive_solver.
    + constructor; unfold stopping, told, seen, states in *; cbn [reported control_ stop_requested ready_ current_state_ set_control set_reported];
        rewrite ?fmap_app, ?elem_of_app, ?H4; cbn; rewrite ?list_elem_of_singleton;
        destruct then_stop; rewrite ?orb_true_r, ?orb_false_r in *; try done; naive_solver.
  - intros [= <-]. constructor; unfold stopping, told, seen; cbn; rewrite ?orb_true_r in *; try done; naive_solver.
Qed.

Lemma stop_ok_step e r r' : service_ok r -> StopOk r -> step e r = Some r' -> StopOk r'.
Proof.
  intros Hs Hk. unfold step. set (q := set_overlapped (overlapped r || overlaps e r) r).
  assert (Hq : service_ok q /\ StopOk q) by (split; [exact Hs|apply (stop_ok_same r); try done; apply Hk]). clearbody q. destruct Hq as [Hs' Hk'].
  clear Hs Hk r. destruct e as [|result| |c|]; cbn [act].
  - destruct (is_working q); [|done]. intros [= <-]. unfold on_ready. destruct (ready_ q); [done|]. apply (stop_ok_same q); try done; apply Hk'.
  - destruct (is_working q); [|done]. intros [= <-]. unfold end_execute. cbv zeta.
    destruct result; apply (stop_ok_same q); try done; apply Hk'.
  - by apply stop_ok_execute.
  - unfold is_idle. destruct (control_ q) eqn:Ec; try done. destruct (accepting q); [|done]. intros [= <-].
    destruct Hk' as [H1 H2 H3 H4 H5]. unfold stopping, told in *. rewrite Ec in *.
    destruct c; constructor; unfold stopping, told; cbn; rewrite ?Ec; try done; naive_solver.
  - by apply stop_ok_control.
Qed.

(** *** Check points: only one thread counts at a time. *)

(** The report that counts, if any; [phase]: how far it is, [k] reports having counted. *)
Definition counting (r : ServiceRuntime) : option Report :=
  match execute_ r, control_ r with
  | reporting rp, idle => if pending (rp_state rp) then Some rp else None
  | _, answering rp _ => if pending (rp_state rp) then Some rp else None
  | _, _ => None
  end.
Definition phase (rp : Report) (checkpoint k : Z) : Prop :=
  match rp_at rp with
  | at_store | at_count => checkpoint = k
  | at_counted n => n = k /\ checkpoint = k
  | at_send n => n = k + 1 /\ checkpoint = k + 1
  end.
Definition shaped (rp : Report) : Prop :=
  pending (rp_state rp) = false -> match rp_at rp with at_store | at_send _ => True | _ => False end.

Record Counted (r : ServiceRuntime) : Prop := {
  ct_points : check_points r = Z.of_nat <$> seq 1 (length (check_points r));
  ct_phase : match counting r with
             | Some rp => phase rp (checkpoint_ r) (Z.of_nat (length (check_points r)))
             | None => checkpoint_ r = Z.of_nat (length (check_points r))
             end;
  ct_execute : match execute_ r with reporting rp => shaped rp | _ => True end;
  ct_control : match control_ r with answering rp _ => shaped rp | _ => True end
}.

Lemma check_points_bound r : (length (check_points r) <= length (reported r))%nat.
Proof. unfold check_points. rewrite length_fmap. apply length_filter. Qed.

Lemma check_points_snoc r who rp n : let q := set_reported (reported r ++ [(who, status_of rp n)]) r in
  check_points q = check_points r ++ if pending (rp_state rp) then [n] else [].
Proof.
  cbv zeta. unfold check_points. cbn [reported set_reported]. rewrite filter_app, fmap_app. f_equal.
  destruct (pending (rp_state rp)) eqn:Ep; [by rewrite filter_cons_True|by rewrite filter_cons_False by (cbn; by rewrite Ep)].
Qed.

Lemma points_snoc l : l = Z.of_nat <$> seq 1 (length l) -> forall n, n = Z.of_nat (length l) + 1 -> l ++ [n] = Z.of_nat <$> seq 1 (length (l ++ [n])).
Proof.
  intros Hl n ->. rewrite length_app, seq_app, fmap_app, <-Hl. cbn [length seq fmap list_fmap]. do 2 f_equal. lia.
Qed.

(** One access of the report that counts. *)
Lemma report_phase who rp r : short r -> check_points r = Z.of_nat <$> seq 1 (length (check_points r)) -> shaped rp ->
  (if pending (rp_state rp) then phase rp (checkpoint_ r) (Z.of_nat (length (check_points r))) else checkpoint_ r = Z.of_nat (length (check_points r))) ->
  let '(rp', q) := report who rp r in
  check_points q = Z.of_nat <$> seq 1 (length (check_points q)) /\
  match rp' with
  | Some rp' => rp_state rp' = rp_state rp /\ shaped rp' /\
      (if pending (rp_state rp) then phase rp' (checkpoint_ q) (Z.of_nat (length (check_points q))) else checkpoint_ q = Z.of_nat (length (check_points q)))
  | None => checkpoint_ q = Z.of_nat (length (check_points q))
  end.
Proof.
  intros Hb Hp Hsh Hph. pose proof (check_points_bound r) as Hl. unfold report, phase, shaped, short in *. destruct (rp_at rp) as [| |n|n] eqn:Ea.
  - split; [exact Hp|]. split; [done|]. change (check_points (set_current_state _ r)) with (check_points r). cbn. by destruct (pending (rp_state rp)).
  - split; [exact Hp|]. split; [done|]. destruct (pending (rp_state rp)) eqn:Ep; [|by destruct (Hsh eq_refl)]. cbn. rewrite Ep. by split_and!.
  - split; [exact Hp|]. split; [done|]. destruct (pending (rp_state rp)) eqn:Ep; [|by destruct (Hsh eq_refl)]. destruct Hph as [-> Hc].
    change (check_points (set_checkpoint _ r)) with (check_points r). cbn. rewrite Ep. unfold u32, wrap_u. rewrite Z.mod_small by lia. done.
  - rewrite check_points_snoc. cbn [checkpoint_ set_reported]. destruct (pending (rp_state rp)); [|by rewrite app_nil_r].
    destruct Hph as [-> Hc]. split; [by apply points_snoc|]. rewrite length_app, Hc. cbn. lia.
Qed.

Definition handler_part (c : control_pc) : option Report :=
  match c with answering rp _ => if pending (rp_state rp) then Some rp else None | _ => None end.
Definition quiet (x : execute_pc) : Prop := match x with reporting rp => pending (rp_state rp) = false | _ => True end.

Lemma counting_handler r : quiet (execute_ r) -> counting r = handler_part (control_ r).
Proof. unfold quiet, counting, handler_part. intros Hq. repeat case_match; congruence. Qed.

(** The service thread counts only in its first report, before any control. *)
Lemma service_quiet r : service_ok r -> quiet (execute_ r) \/ control_ r = idle.
Proof.
  unfold service_ok, quiet. destruct (execute_ r) as [| |rp|]; auto. destruct (rp_state rp) eqn:Es; try (by left).
  intros (_ & ? & _). by right.
Qed.

Lemma counted_execute r r' : service_ok r -> short r -> Counted r -> execute_step r = Some r' -> Counted r'.
Proof.
  unfold execute_step. intros Hs Hb [Hp Hph Hx Hc]. pose proof (service_quiet r Hs) as Hq. destruct (execute_ r) as [| |rp|] eqn:Ee; try done.
  destruct (pending (rp_state rp)) eqn:Epend.
  - destruct Hq as [Hq|Hid]; [cbn in Hq; congruence|]. unfold counting in Hph. rewrite Ee, Hid, Epend in Hph.
    pose proof (report_phase service_thread rp r Hb Hp Hx) as Hrep. rewrite Epend in Hrep. specialize (Hrep Hph).
    assert (Hid' : control_ (report service_thread rp r).2 = idle) by (unfold report; by destruct (rp_at rp)).
    destruct (report service_thread rp r) as [rp' q]. intros [= <-]. cbn in Hid'. destruct Hrep as [Hp' Hrest].
    constructor; [exact Hp'| |destruct rp'; cbn; [apply Hrest|by destruct (bool_decide _)]|cbn; by rewrite Hid'].
    unfold counting. cbn [execute_ control_ set_execute]. rewrite Hid'. destruct rp' as [rp'|]; [|by destruct (bool_decide _)].
    destruct Hrest as (-> & _ & Hrest). by rewrite Epend.
  - rewrite counting_handler in Hph by by rewrite Ee. unfold report.
    destruct (rp_at rp) as [| |n|n] eqn:Ea; intros [= <-].
    + constructor; [exact Hp|rewrite counting_handler; [exact Hph|exact Epend]|intros _; cbn; by rewrite Epend|exact Hc].
    + by specialize (Hx Epend); rewrite Ea in Hx.
    + by specialize (Hx Epend); rewrite Ea in Hx.
    + set (q := set_execute _ _). assert (Ecp : check_points q = check_points r).
      { change (check_points q) with (check_points (set_reported (reported r ++ [(service_thread, status_of rp n)]) r)).
        by rewrite check_points_snoc, Epend, app_nil_r. }
      constructor; [by rewrite Ecp| |subst q; cbn; by destruct (bool_decide _)|exact Hc].
      rewrite counting_handler by (subst q; cbn; by destruct (bool_decide _)). rewrite Ecp. exact Hph.
Qed.

Lemma counted_control r r' : service_ok r -> short r -> Counted r -> control_step r = Some r' -> Counted r'.
Proof.
  unfold control_step. intros Hs Hb [Hp Hph Hx Hc]. destruct (service_quiet r Hs) as [Hq|Hid]; [|by rewrite Hid].
  rewrite counting_handler in Hph by done.
  assert (Hset : forall c, (match c with answering rp _ => rp_at rp = at_store | _ => True end) -> handler_part (control_ r) = None ->
            Counted (set_control c r)).
  { intros c Ha En. rewrite En in Hph. constructor; [exact Hp| |exact Hx|destruct c; try done; intros _; cbn in *; by rewrite Ha].
    rewrite counting_handler by exact Hq. cbn. destruct c as [| | |st|rp b|]; try exact Hph. cbn. destruct (pending _); [|exact Hph].
    unfold phase. by rewrite Ha. }
  destruct (control_ r) as [| | |st|rp then_stop|] eqn:Ec; try done.
  - intros [= <-]. apply Hset; [by case_bool_decide|done].
  - intros [= <-]. by apply Hset.
  - intros [= <-]. by apply Hset.
  - pose proof (report_phase dispatcher_thread rp r Hb Hp Hc) as Hrep. cbn [handler_part] in Hph.
    assert (Hrep' := Hrep ltac:(by destruct (pending (rp_state rp)))). clear Hrep.
    assert (Hq' : execute_ (report dispatcher_thread rp r).2 = execute_ r) by (unfold report; by destruct (rp_at rp)).
    destruct (report dispatcher_thread rp r) as [rp' q]. intros [= <-]. cbn in Hq'. destruct Hrep' as [Hp' Hrest].
    constructor; [exact Hp'| |cbn; by rewrite Hq'|destruct rp' as [rp'|]; [apply Hrest|by destruct then_stop]].
    rewrite counting_handler by (cbn; by rewrite Hq'). cbn [control_ set_control]. destruct rp' as [rp'|]; [|by destruct then_stop].
    cbn [handler_part]. destruct Hrest as (-> & _ & Hrest). by destruct (pending (rp_state rp)).
  - intros [= <-]. destruct (Hset idle I eq_refl) as [Hp' Hph' Hx' Hc']. by constructor.
Qed.

Lemma counted_step e r r' : service_ok r -> short r -> Counted r -> step e r = Some r' -> Counted r'.
Proof.
  intros Hs Hb Hc. unfold step. set (q := set_overlapped (overlapped r || overlaps e r) r).
  assert (Hq : service_ok q /\ short q /\ Counted q) by (split_and!; [exact Hs|exact Hb|destruct Hc; by constructor]).
  clearbody q. destruct Hq as (Hs' & Hb' & Hc'). clear Hs Hb Hc r. destruct e as [|result| |c|]; cbn [act].
  - destruct (is_working q) eqn:Hw; [|done]. intros [= <-]. unfold on_ready. destruct (ready_ q); [done|].
    unfold is_working in Hw. destruct (execute_ q) eqn:Ee; try done. destruct Hc' as [Hp Hph Hx Hc].
    rewrite counting_handler in Hph by by rewrite Ee. constructor; [exact Hp|by rewrite counting_handler|done|exact Hc].
  - destruct (is_working q) eqn:Hw; [|done]. intros [= <-]. unfold is_working in Hw. destruct (execute_ q) eqn:Ee; try done.
    destruct Hc' as [Hp Hph Hx Hc]. rewrite counting_handler in Hph by by rewrite Ee. unfold end_execute. cbv zeta.
    destruct result; (constructor; [exact Hp|by rewrite counting_handler|done|exact Hc]).
  - by apply counted_execute.
  - unfold is_idle. destruct (control_ q) eqn:Ec; try done. destruct (accepting q) eqn:Ha; [|done]. intros [= <-].
    destruct Hc' as [Hp Hph Hx Hc]. assert (Hqt : quiet (execute_ q)).
    { unfold service_ok, quiet in *. destruct (execute_ q) as [| |rp|]; try done. destruct (rp_state rp); try done.
      destruct Hs' as (Hr & _). unfold accepting, states in Ha. by rewrite Hr in Ha. }
    rewrite counting_handler, Ec in Hph by done. 
    destruct c; cbn; (constructor; [exact Hp|by rewrite counting_handler by exact Hqt; cbn; rewrite ?Ec|exact Hx|cbn; by rewrite ?Ec]).
  - by apply counted_control.
Qed.

(** ** What holds while no control overlaps a report of the service thread *)

(** The states a service may report after one another, START_PENDING first. *)
Definition may_follow (before after : service_state) : bool :=
  match before, after with
  | SERVICE_START_PENDING, SERVICE_STOP_PENDING => false
  | SERVICE_START_PENDING, _ => true
  | SERVICE_RUNNING, SERVICE_START_PENDING => false
  | SERVICE_RUNNING, _ => true
  | SERVICE_STOP_PENDING, (SERVICE_STOP_PENDING | SERVICE_STOPPED) => true
  | SERVICE_STOP_PENDING, _ => false
  | SERVICE_STOPPED, _ => false
  end.
Fixpoint legal_after (before : service_state) (l : list service_state) : bool :=
  match l with [] => true | s :: rest => may_follow before s && legal_after s rest end.
Definition legal (l : list service_state) : bool :=
  match l with [] => true | s :: rest => bool_decide (s = SERVICE_START_PENDING) && legal_after s rest end.

Lemma legal_after_snoc before l s : legal_after before (l ++ [s]) = legal_after before l && may_follow (default before (last l)) s.
Proof.
  revert before. induction l as [|x l IH]; intros before; [cbn; by rewrite andb_true_r|]. cbn [app legal_after]. rewrite IH, andb_assoc. f_equal. f_equal.
  rewrite last_cons. by destruct (last l).
Qed.
Lemma legal_snoc l before s : legal l = true -> last l = Some before -> may_follow before s = true -> legal (l ++ [s]) = true.
Proof.
  destruct l as [|x l]; [done|]. cbn [legal app]. intros [Hx Hl]%andb_true_iff Hb Hm. rewrite Hx, legal_after_snoc, Hl.
  rewrite last_cons in Hb. destruct (last l); cbn; by injection Hb as ->.
Qed.

(** The state the service is in, by what it did. *)
Definition expected (r : ServiceRuntime) : service_state :=
  if ready_ r then if stop_requested r then SERVICE_STOP_PENDING else SERVICE_RUNNING else SERVICE_START_PENDING.

Lemma expected_follows r : may_follow (expected r) (expected r) = true /\ may_follow (expected r) SERVICE_STOPPED = true.
Proof. unfold expected. by destruct (ready_ r), (stop_requested r). Qed.

Definition settled (r : ServiceRuntime) : Prop := current_state_ r = expected r /\ last (states r) = Some (expected r).

Definition serial (r : ServiceRuntime) : Prop :=
  legal (states r) = true /\
  match execute_ r with
  | starting => False
  | working =>
      match control_ r with
      | idle | checking | asking => settled r
      | asking_hint state => settled r /\ state = expected r
      | answering rp false => settled r /\ rp_state rp = expected r
      | answering rp true => rp_state rp = SERVICE_STOP_PENDING /\ expected r = SERVICE_RUNNING /\ last (states r) = Some SERVICE_RUNNING /\
          (rp_at rp = at_store \/ current_state_ r = SERVICE_STOP_PENDING)
      | requesting => expected r = SERVICE_RUNNING /\ current_state_ r = SERVICE_STOP_PENDING /\ last (states r) = Some SERVICE_STOP_PENDING
      end
  | reporting rp =>
      control_ r = idle /\ (rp_at rp = at_store \/ current_state_ r = rp_state rp) /\
      match rp_state rp with
      | SERVICE_STOPPED => last (states r) = Some (expected r)
      | SERVICE_START_PENDING => states r = [] /\ expected r = SERVICE_START_PENDING
      | SERVICE_RUNNING => last (states r) = Some SERVICE_START_PENDING /\ expected r = SERVICE_RUNNING
      | SERVICE_STOP_PENDING => False
      end
  | ended => control_ r = idle /\ last (states r) = Some SERVICE_STOPPED
  end.

(** Reading [states], [expected] and the rest after a step. *)
Ltac serial_cases :=
  unfold serial, settled; cbn [execute_ control_ set_execute set_control rp_state rp_at advance current_state_ set_current_state set_checkpoint
    set_reported set_stop_requested];
  repeat match goal with
  | |- context [states (set_control _ ?q)] => change (states (set_control _ q)) with (states q)
  | |- context [states (set_execute _ ?q)] => change (states (set_execute _ q)) with (states q)
  end; rewrite ?states_snoc, ?last_snoc.

Lemma serial_execute r r' : serial r -> execute_step r = Some r' -> serial r'.
Proof.
  unfold execute_step, serial. destruct (execute_ r) as [| |rp|]; try done. intros (Hl & Hid & Hcur & Hst). unfold report.
  destruct (rp_at rp) as [| |n|n]; intros [= <-]; serial_cases; try (destruct Hcur as [?|Hcur]; [done|]).
  - split_and!; [exact Hl|exact Hid|by right|exact Hst].
  - split_and!; [exact Hl|exact Hid|by right|exact Hst].
  - split_and!; [exact Hl|exact Hid|by right|exact Hst].
  - change (dwCurrentState (status_of rp n)) with (rp_state rp).
    change (expected (set_execute _ _)) with (expected r). cbn. rewrite Hid. destruct (rp_state rp) eqn:Es; try done.
    + split_and!; try done. by eapply legal_snoc; [..|apply expected_follows].
    + destruct Hst as [Hnil He]. rewrite Hnil, Hcur, He. by split_and!.
    + destruct Hst as [Hlast He]. rewrite Hcur, He. split_and!; try done. by eapply legal_snoc.
Qed.

Lemma serial_control r r' : serial r -> control_step r = Some r' -> serial r'.
Proof.
  unfold control_step, serial. intros [Hl Hst]. destruct (execute_ r) as [| |rp0|] eqn:Ee; [done| |destruct Hst as [-> _]; done|destruct Hst as [-> _]; done].
  unfold settled in Hst. destruct (control_ r) as [| | |st|rp then_stop|] eqn:Ec; try done.
  - destruct Hst as [Hc Hlast]. case_bool_decide as Hrun; intros [= <-]; serial_cases; rewrite Ee; [|done].
    change (expected (set_control _ r)) with (expected r). split_and!; try done; [congruence|rewrite Hlast; congruence|by left].
  - destruct Hst as [Hc Hlast]. intros [= <-]; serial_cases; rewrite Ee. by split_and!.
  - destruct Hst as ((Hc & Hlast) & ->). intros [= <-]; serial_cases; rewrite Ee. by split_and!.
  - unfold report. destruct then_stop.
    + destruct Hst as (Es & He & Hlast & Hcur). destruct (rp_at rp) as [| |n|n]; intros [= <-]; serial_cases; cbn [execute_ set_current_state set_checkpoint set_reported]; rewrite Ee;
        try (destruct Hcur as [?|Hcur]; [done|]).
      * split_and!; try done. right. exact Es.
      * split_and!; try done. by right.
      * split_and!; try done. by right.
      * change (expected (set_control _ _)) with (expected r). cbn. rewrite Es. split_and!; try done. by eapply legal_snoc.
    + destruct Hst as ((Hc & Hlast) & Es). destruct (rp_at rp) as [| |n|n]; intros [= <-]; serial_cases; cbn [execute_ set_current_state set_checkpoint set_reported]; rewrite Ee;
        try by split_and!.
      change (expected (set_control _ _)) with (expected r). cbn. rewrite Es. split_and!; try done. eapply legal_snoc; [done..|apply expected_follows].
  - destruct Hst as (He & Hcur & Hlast). intros [= <-]; serial_cases; cbn [execute_ set_stop_requested]; rewrite Ee.
    unfold expected in *. cbn. destruct (ready_ r); [|done]. by split_and!.
Qed.

Lemma serial_act e r r' : StopOk r -> serial r -> overlaps e r = false -> act e r = Some r' -> serial r'.
Proof.
  intros Hk Hs Ho. destruct e as [|result| |c|]; cbn [act overlaps] in *; [..|by apply serial_control].
  - unfold is_working, is_idle in *. destruct (control_ r) eqn:Ec; try done. destruct (execute_ r) eqn:Ee; [done| |done..]. intros [= <-].
    unfold on_ready. destruct (ready_ r) eqn:Er; [done|]. unfold serial in Hs. rewrite Ee, Ec in Hs. destruct Hs as (Hl & Hcur & Hlast).
    unfold expected in Hlast. rewrite Er in Hlast. serial_cases.
    split_and!; [exact Hl|exact Ec|by left|]. cbn [rp_state new_report]. split; [exact Hlast|].
    assert (Hn : stop_requested r = false).
    { apply not_true_iff_false. intros Et. pose proof (so_ready _ Hk) as Hr. unfold stopping in Hr. rewrite Et, Er in Hr. by discriminate Hr. }
    unfold expected. cbn. by rewrite Hn.
  - unfold is_working, is_idle in *. destruct (control_ r) eqn:Ec; try done. destruct (execute_ r) eqn:Ee; [done| |done..]. intros [= <-].
    unfold serial in Hs. rewrite Ee, Ec in Hs. destruct Hs as (Hl & Hcur & Hlast). unfold end_execute. cbv zeta.
    destruct result; serial_cases; (split_and!; [exact Hl|exact Ec|by left|exact Hlast]).
  - by apply serial_execute.
  - unfold is_idle, is_reporting in *. destruct (control_ r) eqn:Ec; try done. destruct (accepting r) eqn:Ha; [|done]. intros [= <-].
    unfold serial in Hs. rewrite Ec in Hs. destruct Hs as [Hl Hst]. destruct (execute_ r) eqn:Ee; try done.
    + destruct c; cbn [handle_control snd]; serial_cases; by rewrite ?Ee, ?Ec.
    + destruct Hst as [_ Hlast]. unfold accepting in Ha. apply andb_true_iff in Ha as [_ Ha]. apply negb_true_iff, bool_decide_eq_false in Ha.
      destruct Ha. apply last_Some in Hlast as [l' ->]. set_solver.
Qed.

(** ** Properties *)

Record Inv (r : ServiceRuntime) : Prop := {
  iv_service : service_ok r;
  iv_stop : StopOk r;
  iv_counted : Counted r;
  iv_serial : overlapped r = false -> serial r
}.

Lemma overlapped_act e r r' : act e r = Some r' -> overlapped r' = overlapped r.
Proof.
  destruct e as [|result| |c|]; cbn [act].
  - destruct (is_working r); [|done]. intros [= <-]. unfold on_ready. by destruct (ready_ r).
  - destruct (is_working r); [|done]. intros [= <-]. unfold end_execute. by destruct result.
  - unfold execute_step. destruct (execute_ r) as [| |rp|]; try done. unfold report. destruct (rp_at rp); by intros [= <-].
  - destruct (is_idle r && accepting r); [|done]. intros [= <-]. by destruct c.
  - unfold control_step. destruct (control_ r) as [| | |st|rp then_stop|]; try (by intros [= <-]). unfold report. destruct (rp_at rp); by intros [= <-].
Qed.

Lemma runtime_inv r : reachable r -> Inv r.
Proof.
  induction 1 as [|e r r' _ [Hs Hk Hc Hl] Hb E].
  - constructor; [done|constructor; try done..|]; [|by intros _; split; [|split; [|split; [left|]]]]. split; [set_solver|]. by intros [|].
  - constructor; [by eapply service_ok_step|by eapply stop_ok_step|by eapply counted_step|].
    intros Ho. unfold step in E. rewrite (overlapped_act _ _ _ E) in Ho. cbn in Ho. apply orb_false_iff in Ho as [Ho1 Ho2].
    eapply (serial_act e); [..|exact E]; [apply (stop_ok_same r); try done; apply Hk|exact (Hl Ho1)|exact Ho2].
Qed.

Lemma own_prefix r : service_ok r -> own_states r `prefix_of` so_far r ++ [SERVICE_STOPPED].
Proof.
  unfold service_ok, own_states, so_far. destruct (execute_ r) as [| |rp|]; [done| | |by intros [-> _]].
  - intros ->. by apply prefix_app_r.
  - destruct (rp_state rp); [intros [-> _]; by apply prefix_app_r|intros [Hr _]; unfold own; rewrite Hr; apply prefix_nil| |done].
    intros [-> ->]. by exists [SERVICE_RUNNING; SERVICE_STOPPED].
Qed.


(** *** Runs *)

Definition run_service (es : list event) : option ServiceRuntime :=
  foldl (fun o e => o ≫= step e) (Some (begin_execute true 0 new_runtime)) es.
Definition service_after (es : list event) : ServiceRuntime := default new_runtime (run_service es).

Lemma run_service_reachable es r : (Z.of_nat (length es) < 2 ^ 32 - 1) -> run_service es = Some r -> reachable r.
Proof.
  assert (Hone : forall e a b, step e a = Some b -> (length (reported b) <= S (length (reported a)))%nat).
  { intros e a b. unfold step. set (q := set_overlapped _ a). change (reported a) with (reported q). clearbody q. destruct e as [|result| |c|]; cbn [act].
    - destruct (is_working q); [|done]. intros [= <-]. unfold on_ready. destruct (ready_ q); cbn; lia.
    - destruct (is_working q); [|done]. intros [= <-]. unfold end_execute. destruct result; cbn; lia.
    - unfold execute_step. destruct (execute_ q) as [| |rp|]; try done. unfold report. destruct (rp_at rp); intros [= <-]; cbn; rewrite ?length_app; cbn; lia.
    - destruct (is_idle q && accepting q); [|done]. intros [= <-]. destruct c; cbn; lia.
    - unfold control_step. destruct (control_ q) as [| | |st|rp then_stop|]; try (intros [= <-]; cbn; lia). unfold report.
      destruct (rp_at rp); intros [= <-]; cbn; rewrite ?length_app; cbn; lia. }
  intros Hb. cut (run_service es = Some r -> reachable r /\ (length (reported r) <= length es)%nat); [tauto|].
  revert r. induction es as [|e es IH] using rev_ind; intros r; unfold run_service.
  - intros [= <-]. split; [constructor|cbn; lia].
  - rewrite foldl_app. cbn [foldl]. fold (run_service es). rewrite length_app in *. cbn [length] in *.
    intros (q & Eq & Es)%bind_Some. destruct (IH ltac:(lia) q Eq) as [Hr Hn]. split; [eapply reachable_step; [exact Hr|unfold short; lia|exact Es]|].
    specialize (Hone _ _ _ Es). lia.
Qed.

(** Four accesses of a pending report, two of another one. *)
Definition slow (e : event) : list event := [e; e; e; e].
Definition started : list event := slow EExecute.
Definition made_ready : list event := [EReady; EExecute; EExecute].

(** The manager interrogates the starting service, then stops it. *)
Definition stopped_in_turn : list event :=
  started ++ [EControl control_interrogate; EHandler; EHandler] ++ slow EHandler ++ made_ready ++
  [EControl control_stop; EHandler] ++ slow EHandler ++ [EHandler; EEnd (Some 0); EExecute; EExecute].
Definition stopped_service : ServiceRuntime := Eval vm_compute in service_after stopped_in_turn.

Example stopped_states : states stopped_service =
  [SERVICE_START_PENDING; SERVICE_START_PENDING; SERVICE_RUNNING; SERVICE_STOP_PENDING; SERVICE_STOPPED].
Proof. reflexivity. Qed.


(** An interrogation reads START_PENDING, the service becomes ready and reports RUNNING,
    then the interrogation reports what it has read.  The member stays at
    START_PENDING: the manager believes the service is starting, and a stop control is ignored. *)
Definition late_answer : list event :=
  started ++ [EControl control_interrogate; EHandler; EHandler] ++ made_ready ++ slow EHandler.
Theorem late_answer_loses_stop : exists r, run_service (late_answer ++ [EControl control_stop; EHandler]) = Some r /\
  states r = [SERVICE_START_PENDING; SERVICE_RUNNING; SERVICE_START_PENDING] /\
  ready_ r = true /\ control_ r = idle /\ stop_requested r = false.
Proof. eexists. split; [vm_compute; reflexivity|]. vm_compute. split_and!; reflexivity. Qed.

(** An interrogation reads RUNNING, the service ends and reports STOPPED, then the
    interrogation reports RUNNING: the last the manager hears of a process that is gone. *)
Theorem late_answer_after_stopped :
  exists r, run_service (started ++ made_ready ++ [EControl control_interrogate; EHandler; EHandler; EEnd (Some 0); EExecute; EExecute; EHandler; EHandler]) = Some r /\
  execute_ r = ended /\ states r = [SERVICE_START_PENDING; SERVICE_RUNNING; SERVICE_STOPPED; SERVICE_RUNNING].
Proof. eexists. split; [vm_compute; reflexivity|]. vm_compute. split; reflexivity. Qed.

(** [WindowsService::run]: the runtime is registered while the dispatcher runs, so at
    most one service runs in the process; [exit_code] is that of the finished runtime. *)
Definition run (worker_given dispatcher_starts : bool) (exit_code : Z) (active_runtime : bool) : res Z * bool :=
  if negb worker_given then (Throw (invalid_argument b!"service worker is required"), active_runtime)
  else if active_runtime then (Throw (logic_error b!"a Windows service dispatcher is already active"), active_runtime)
  else if negb dispatcher_starts then (Throw (runtime_error b!"StartServiceCtrlDispatcherW"), false)
  else (Ok exit_code, false).

(** ** Installation *)

(** [service_command_line] of an absolute, normal path: a quote cannot be quoted. *)
Definition service_command_line (executable : str) : res str :=
  if bool_decide (executable = []) || contains_char (ascii_of_N 34) executable then Throw (invalid_argument b!"invalid service executable path")
  else Ok ([ascii_of_N 34] ++ executable ++ [ascii_of_N 34] ++ b!" --service").

(** What the calls of the Windows interface return, in the order of the calls. *)
Record InstallCalls := { opens_manager : bool; creates_service : bool; configures : list bool; deletes_service : bool }.

(** The service registered afterwards, if any, with its command line. *)
Definition install (calls : InstallCalls) (executable : str) (present : option str) : res unit * option str :=
  match service_command_line executable with
  | Throw e => (Throw e, present)
  | Ok command =>
      if negb (opens_manager calls) then (Throw (runtime_error b!"OpenSCManagerW"), present)
      else if negb (creates_service calls) then (Throw (runtime_error b!"CreateServiceW"), present)
      else if forallb id (configures calls) then (Ok tt, Some command)
      else (Throw (runtime_error b!"ChangeServiceConfig2W"), if deletes_service calls then None else Some command)
  end.

(** The observations of the wait loop of [uninstall]: the clock, and the state the query
    returns, if it does. *)
Fixpoint waits_until_stopped (deadline : Z) (observed : list (Z * option service_state)) : nat :=
  match observed with
  | (now, Some state) :: rest => if (now <? deadline) && negb (bool_decide (state = SERVICE_STOPPED)) then S (waits_until_stopped deadline rest) else 0
  | _ => 0
  end.

Definition uninstall (manager service deletes : bool) (present : option str) : res unit * option str :=
  if negb manager then (Throw (runtime_error b!"OpenSCManagerW"), present)
  else if negb service then (Throw (runtime_error b!"OpenServiceW"), present)
  else if deletes then (Ok tt, None) else (Throw (runtime_error b!"DeleteService"), present).

(** A failed installation leaves no half configured service behind, as far as it can be deleted. *)
Theorem install_is_all_or_nothing calls executable result present : deletes_service calls = true ->
  install calls executable None = (result, present) -> (result = Ok tt <-> present <> None).
Proof.
  intros Hd. unfold install. destruct (service_command_line _); [|intros [= <- <-]; by split].
  destruct (opens_manager calls), (creates_service calls); cbn [negb]; try (intros [= <- <-]; by split).
  rewrite Hd. destruct (forallb id _); intros [= <- <-]; by split.
Qed.
