(* ===== verification/LogManager.v ===== *)
(** * Asynchronous logging (src/src/logging/LogManager.{hpp,cpp})

    Three parts: the text of a log line (JSON with escaped strings), the
    bounded queue between the request threads and the writer thread, and the
    rotating files.  The writer and the producers share the queue under one
    mutex, so the queue is a step relation over its critical sections. *)

From S2P Require Import Prelude.

(** ** Log lines *)

Definition dq : ascii := "034"%char.
Definition backslash : ascii := "092"%char.

Definition hexadecimal (v : Z) : ascii := default "0"%char (b!"0123456789abcdef" !! Z.to_nat v).

Definition json_escape_char (character : ascii) : str :=
  let code := byte_val character in
  if code =? 34 then [backslash; dq]
  else if code =? 92 then [backslash; backslash]
  else if code =? 8 then [backslash; "b"%char]
  else if code =? 12 then [backslash; "f"%char]
  else if code =? 10 then [backslash; "n"%char]
  else if code =? 13 then [backslash; "r"%char]
  else if code =? 9 then [backslash; "t"%char]
  else if code <? 32 then
    [backslash; "u"%char; "0"%char; "0"%char;
     hexadecimal (Z.land (Z.shiftr code 4) 15); hexadecimal (Z.land code 15)]
  else [character].

Definition json_escape (value : str) : str := mjoin (json_escape_char <$> value).

(** [setw(width) << setfill('0')]. *)
Definition zero_padded (width : nat) (z : Z) : str :=
  let text := to_string z in replicate (width - length text) "0"%char ++ text.

(** The civil date of a day count since 1970-01-01 ([gmtime]): years in eras
    of 400 from 0000-03-01. *)
Definition civil_from_days (days : Z) : Z * Z * Z :=
  let z := days + 719468 in
  let era := z / 146097 in
  let doe := z mod 146097 in
  let yoe := (doe - doe / 1460 + doe / 36524 - doe / 146096) / 365 in
  let doy := doe - (365 * yoe + yoe / 4 - yoe / 100) in
  let mp := (5 * doy + 2) / 153 in
  let d := doy - (153 * mp + 2) / 5 + 1 in
  let m := if mp <? 10 then mp + 3 else mp - 9 in
  (yoe + era * 400 + (if m <=? 2 then 1 else 0), m, d).

(** [timestamp] in nanoseconds of the system clock. *)
Definition timestamp_text (timestamp : Z) : str :=
  let seconds := timestamp / 10 ^ 9 in
  let '(y, m, d) := civil_from_days (seconds / 86400) in
  let tod := seconds mod 86400 in
  zero_padded 4 y ++ b!"-" ++ zero_padded 2 m ++ b!"-" ++ zero_padded 2 d ++ b!"T" ++
  zero_padded 2 (tod / 3600) ++ b!":" ++ zero_padded 2 (tod / 60 mod 60) ++ b!":" ++
  zero_padded 2 (tod mod 60) ++ b!"." ++ zero_padded 3 (timestamp / 10 ^ 6 mod 1000) ++ b!"Z".

Example timestamp_ex : timestamp_text 1709210096789000000 = b!"2024-02-29T12:34:56.789Z".
Proof. vm_compute. reflexivity. Qed.

Inductive ErrorSeverity := sev_info | sev_warning | sev_error | sev_critical.

Definition severity_text (severity : ErrorSeverity) : str :=
  match severity with
  | sev_info => b!"info"
  | sev_warning => b!"warning"
  | sev_error => b!"error"
  | sev_critical => b!"critical"
  end.

Record AccessLogEntry := {
  al_request_id : str;
  al_client_ip : str;
  al_scheme : str;
  al_listener_port : Z;
  al_host : str;
  al_method : str;
  al_path : str;
  al_status : Z;
  al_response_bytes : Z;
  al_duration : Z;             (* microseconds *)
  al_config_revision : Z
}.

Record ErrorLogEntry := {
  el_severity : ErrorSeverity;
  el_component : str;
  el_message : str;
  el_request_id : str
}.

(** [fixed << setprecision(3) << count / 1000.0]: exact for durations below
    2^43 milliseconds. *)
Definition duration_text (microseconds : Z) : str :=
  to_string (microseconds / 1000) ++ b!"." ++ zero_padded 3 (microseconds mod 1000).

Definition json_key (name : str) : str := dq :: name ++ [dq] ++ b!":".
Definition json_text (value : str) : str := dq :: json_escape value ++ [dq].

Definition access_line (timestamp : Z) (entry : AccessLogEntry) : str :=
  b!"{" ++ json_key b!"timestamp" ++ dq :: timestamp_text timestamp ++ [dq] ++
  b!"," ++ json_key b!"request_id" ++ json_text (al_request_id entry) ++
  b!"," ++ json_key b!"client_ip" ++ json_text (al_client_ip entry) ++
  b!"," ++ json_key b!"scheme" ++ json_text (al_scheme entry) ++
  b!"," ++ json_key b!"listener_port" ++ to_string (al_listener_port entry) ++
  b!"," ++ json_key b!"host" ++ json_text (al_host entry) ++
  b!"," ++ json_key b!"method" ++ json_text (al_method entry) ++
  b!"," ++ json_key b!"path" ++ json_text (al_path entry) ++
  b!"," ++ json_key b!"status" ++ to_string (al_status entry) ++
  b!"," ++ json_key b!"response_bytes" ++ to_string (al_response_bytes entry) ++
  b!"," ++ json_key b!"duration_ms" ++ duration_text (al_duration entry) ++
  b!"," ++ json_key b!"config_revision" ++ to_string (al_config_revision entry) ++ b!"}".

Definition error_line (timestamp : Z) (entry : ErrorLogEntry) : str :=
  b!"{" ++ json_key b!"timestamp" ++ dq :: timestamp_text timestamp ++ [dq] ++
  b!"," ++ json_key b!"level" ++ dq :: severity_text (el_severity entry) ++ [dq] ++
  b!"," ++ json_key b!"component" ++ json_text (el_component entry) ++
  b!"," ++ json_key b!"message" ++ json_text (el_message entry) ++
  (if bool_decide (el_request_id entry = []) then []
   else b!"," ++ json_key b!"request_id" ++ json_text (el_request_id entry)) ++ b!"}".

(** [find_first_of("?#")], the default for an empty path and the cap. *)
Fixpoint before_query (target : str) : str :=
  match target with
  | [] => []
  | c :: r => if is_char c "?" || is_char c "#" then [] else c :: before_query r
  end.

Definition maximum_logged_path : nat := 4096.

Definition sanitize_request_target (target : str) : str :=
  let target := before_query target in
  if bool_decide (target = []) then b!"/"
  else if (maximum_logged_path <? length target)%nat then take maximum_logged_path target
  else target.

(** [%016llx]. *)
Fixpoint hex_digits (width : nat) (value : Z) : str :=
  match width with
  | O => []
  | S w => hex_digits w (Z.shiftr value 4) ++ [hexadecimal (Z.land value 15)]
  end.

(** The process-wide counter and the prefix drawn once per process. *)
Definition next_request_id (prefix sequence : Z) : str * Z :=
  let sequence := u64 (sequence + 1) in
  (hex_digits 16 prefix ++ hex_digits 16 sequence, sequence).

(** ** A reader for the lines *)

Inductive json_value := VText (text : str) | VNumber (text : str).

Definition json_unescape_char (c : ascii) : option ascii :=
  if is_char c dq then Some dq
  else if is_char c backslash then Some backslash
  else if is_char c "/" then Some "/"%char
  else if is_char c "b" then Some (ascii_of_N 8)
  else if is_char c "f" then Some (ascii_of_N 12)
  else if is_char c "n" then Some (ascii_of_N 10)
  else if is_char c "r" then Some (ascii_of_N 13)
  else if is_char c "t" then Some (ascii_of_N 9)
  else None.

Definition hex_value (c : ascii) : option Z :=
  if isdigit c then Some (byte_val c - 48)
  else if (97 <=? byte_val c) && (byte_val c <=? 102) then Some (byte_val c - 87)
  else if (65 <=? byte_val c) && (byte_val c <=? 70) then Some (byte_val c - 55)
  else None.

Definition code_unit (a b c d : ascii) : option ascii :=
  match hex_value a, hex_value b, hex_value c, hex_value d with
  | Some 0, Some 0, Some x, Some y => if x <? 8 then Some (ascii_of_N (Z.to_N (16 * x + y))) else None
  | _, _, _, _ => None
  end.

(** UTF-8 (RFC 3629), byte by byte: after the lead byte of a character, the ranges the
    bytes that complete it must lie in; [None] for a byte that leads none. *)
Definition utf8_lead (c : ascii) : option (list (Z * Z)) :=
  let v := byte_val c in
  let any := (0x80, 0xbf) in
  if v <? 0x80 then Some []
  else if v <? 0xc2 then None
  else if v <? 0xe0 then Some [any]
  else if v =? 0xe0 then Some [(0xa0, 0xbf); any]
  else if v =? 0xed then Some [(0x80, 0x9f); any]
  else if v <? 0xf0 then Some [any; any]
  else if v =? 0xf0 then Some [(0x90, 0xbf); any; any]
  else if v <? 0xf4 then Some [any; any; any]
  else if v =? 0xf4 then Some [(0x80, 0x8f); any; any]
  else None.
Definition in_range (range : Z * Z) (c : ascii) : bool := (range.1 <=? byte_val c) && (byte_val c <=? range.2).

Fixpoint utf8_from (need : list (Z * Z)) (s : str) : bool :=
  match s, need with
  | [], [] => true
  | [], _ => false
  | c :: r, range :: need' => in_range range c && utf8_from need' r
  | c :: r, [] => match utf8_lead c with Some need' => utf8_from need' r | None => false end
  end.
Definition utf8 (s : str) : bool := utf8_from [] s.

Definition add_text (c : ascii) (read : option (str * str)) : option (str * str) :=
  match read with Some (t, rest) => Some (c :: t, rest) | None => None end.

(** The rest of a JSON string after its opening quote: the text it denotes (for escapes,
    code points below 128) and what follows it.  As for the parser the log page uses
    ([json::parse], AdminApi.cpp), raw control characters and bytes that are not
    UTF-8 are errors.  [need] is what completes the character being read. *)
Fixpoint json_string_from (need : list (Z * Z)) (s : str) : option (str * str) :=
  match s, need with
  | [], _ => None
  | c :: r, range :: need' => if in_range range c then add_text c (json_string_from need' r) else None
  | c :: r, [] =>
      if is_char c dq then Some ([], r)
      else if is_char c backslash then
        match r with
        | e :: r1 =>
            if is_char e "u" then
              match r1 with
              | h1 :: h2 :: h3 :: h4 :: r2 =>
                  match code_unit h1 h2 h3 h4 with Some x => add_text x (json_string_from [] r2) | None => None end
              | _ => None
              end
            else match json_unescape_char e with Some x => add_text x (json_string_from [] r1) | None => None end
        | [] => None
        end
      else if byte_val c <? 32 then None
      else match utf8_lead c with Some need' => add_text c (json_string_from need' r) | None => None end
  end.
Definition json_string (s : str) : option (str * str) := json_string_from [] s.

Fixpoint json_number (s : str) : str * str :=
  match s with
  | c :: r => if number_char c then let '(t, rest) := json_number r in (c :: t, rest) else ([], s)
  | [] => ([], [])
  end.

(** The members of a flat object after its opening brace; the object must end
    the text. *)
Fixpoint json_members (fuel : nat) (s : str) : option (list (str * json_value)) :=
  match fuel, s with
  | S fuel', q :: r =>
      if negb (is_char q dq) then None
      else match json_string r with
      | Some (key, colon :: v :: r1) =>
          if negb (is_char colon ":") then None
          else
            let value := if is_char v dq
                         then match json_string r1 with Some (t, r2) => Some (VText t, r2) | None => None end
                         else let '(t, r2) := json_number (v :: r1) in
                              if bool_decide (t = []) then None else Some (VNumber t, r2) in
            match value with
            | Some (x, c :: r2) =>
                if is_char c "," then
                  match json_members fuel' r2 with Some ms => Some ((key, x) :: ms) | None => None end
                else if is_char c "}" && bool_decide (r2 = []) then Some [(key, x)]
                else None
            | _ => None
            end
      | _ => None
      end
  | _, _ => None
  end.

Definition json_object (s : str) : option (list (str * json_value)) :=
  match s with
  | b :: r => if is_char b "{" then json_members (length r) r else None
  | [] => None
  end.

(** ** Reading back what is written *)

Lemma json_escape_cons c s : json_escape (c :: s) = json_escape_char c ++ json_escape s.
Proof. reflexivity. Qed.

(** The ranges that complete a character hold no ASCII. *)
Definition high (need : list (Z * Z)) : Prop := Forall (fun range => 0x80 <= range.1) need.

Lemma utf8_lead_high c need : utf8_lead c = Some need -> high need.
Proof. unfold utf8_lead, high. repeat case_match; intros [= <-]; repeat constructor; cbn; lia. Qed.

Lemma read_escaped_char c rest :
  json_string_from [] (json_escape_char c ++ rest) =
  match utf8_lead c with Some need => add_text c (json_string_from need rest) | None => None end.
Proof. destruct c as [[] [] [] [] [] [] [] []]; reflexivity. Qed.

Lemma read_escaped_next range need c rest : 0x80 <= range.1 ->
  json_string_from (range :: need) (json_escape_char c ++ rest) =
  if in_range range c then add_text c (json_string_from need rest) else None.
Proof.
  intros Hh. destruct (Z.ltb_spec (byte_val c) 0x80) as [Hc|Hc].
  - assert (Hr : forall x, byte_val x < 0x80 -> in_range range x = false)
      by (intros x Hx; unfold in_range; rewrite (proj2 (Z.leb_gt _ _)); [done|lia]).
    rewrite (Hr c Hc). assert (exists x t, json_escape_char c = x :: t /\ byte_val x < 0x80) as (x & t & -> & Hx).
    { unfold json_escape_char. cbv zeta. repeat case_match; eexists _, _; (split; [reflexivity|]); done. }
    cbn [json_string_from app]. by rewrite (Hr x Hx).
  - assert (json_escape_char c = [c]) as ->; [|done]. revert Hc. by destruct c as [[] [] [] [] [] [] [] []].
Qed.

(** An escaped text is read back exactly when it is UTF-8. *)
Lemma read_escaped s : forall need rest, high need ->
  json_string_from need (json_escape s ++ dq :: rest) = if utf8_from need s then Some (s, rest) else None.
Proof.
  induction s as [|c s IH]; intros need rest Hn.
  - destruct need as [|range need]; [done|]. apply Forall_cons in Hn as [Hh _]. change (json_escape [] ++ dq :: rest) with (dq :: rest).
    cbn [json_string_from utf8_from]. assert (in_range range dq = false) as ->; [|done].
    unfold in_range. rewrite (proj2 (Z.leb_gt _ _)); [done|]. change (byte_val dq) with 34. lia.
  - rewrite json_escape_cons, <-app_assoc. destruct need as [|range need]; cbn [utf8_from].
    + rewrite read_escaped_char. destruct (utf8_lead c) as [need|] eqn:El; [|done].
      rewrite IH by by eapply utf8_lead_high. by destruct (utf8_from need s).
    + apply Forall_cons in Hn as [Hh Hn]. rewrite read_escaped_next by done. destruct (in_range range c); [|done]. cbn [andb].
      rewrite IH by done. by destruct (utf8_from need s).
Qed.

Lemma json_string_escape s rest : json_string (json_escape s ++ dq :: rest) = if utf8 s then Some (s, rest) else None.
Proof. apply read_escaped. constructor. Qed.

Definition ascii_text (s : str) : bool := forallb (fun c => byte_val c <? 0x80) s.
Lemma ascii_utf8 s : ascii_text s = true -> utf8 s = true.
Proof.
  unfold utf8. induction s as [|c s IH]; [done|]. cbn [ascii_text forallb]. intros [Hc Hs]%andb_true_iff. cbn [utf8_from].
  unfold utf8_lead. rewrite Hc. by apply IH.
Qed.
Lemma number_ascii s : forallb number_char s = true -> ascii_text s = true.
Proof.
  unfold ascii_text. rewrite !forallb_forall. intros Hs c Hc. specialize (Hs c Hc). revert Hs. by destruct c as [[] [] [] [] [] [] [] []].
Qed.

Definition plain (s : str) : Prop := json_escape s = s.

Lemma plain_chars s : forallb (fun c => bool_decide (json_escape_char c = [c])) s = true -> plain s.
Proof.
  unfold plain. induction s as [|c s IH]; [done|]. cbn [forallb].
  intros [Hc Hs]%andb_true_iff. apply bool_decide_eq_true in Hc. rewrite json_escape_cons, Hc, (IH Hs). done.
Qed.

Lemma number_char_plain c : number_char c = true -> json_escape_char c = [c].
Proof. destruct c as [[] [] [] [] [] [] [] []]; done. Qed.

Lemma zero_padded_number w z : forallb number_char (zero_padded w z) = true.
Proof.
  unfold zero_padded. rewrite forallb_app, to_string_number, andb_true_r.
  by induction (w - length (to_string z))%nat.
Qed.

Lemma plain_app a b : plain a -> plain b -> plain (a ++ b).
Proof. unfold plain, json_escape. intros Ha Hb. by rewrite fmap_app, join_app, Ha, Hb. Qed.

Lemma plain_number s : forallb number_char s = true -> plain s.
Proof.
  intros Hs. apply plain_chars. apply forallb_forall. intros c Hc. rewrite forallb_forall in Hs.
  by apply bool_decide_eq_true, number_char_plain, Hs.
Qed.

Lemma timestamp_plain t : plain (timestamp_text t).
Proof.
  unfold timestamp_text. destruct (civil_from_days _) as [[y m] d].
  repeat first [by apply plain_number, zero_padded_number | reflexivity | apply plain_app].
Qed.

Lemma timestamp_utf8 t : utf8 (timestamp_text t) = true.
Proof.
  apply ascii_utf8. unfold timestamp_text. destruct (civil_from_days _) as [[y m] d]. unfold ascii_text.
  rewrite !forallb_app. repeat (rewrite (number_ascii (zero_padded _ _)) by apply zero_padded_number). reflexivity.
Qed.

Lemma duration_number u : forallb number_char (duration_text u) = true.
Proof. unfold duration_text. by rewrite !forallb_app, to_string_number, zero_padded_number. Qed.

Lemma duration_nonempty u : duration_text u <> [].
Proof. unfold duration_text. pose proof (to_string_nonempty (u / 1000)). by destruct (to_string _). Qed.

Lemma json_number_read t c rest :
  forallb number_char t = true -> number_char c = false -> json_number (t ++ c :: rest) = (t, c :: rest).
Proof.
  induction t as [|x t IH]; intros Ht Hc; cbn in *; [by rewrite Hc|].
  apply andb_true_iff in Ht as [-> Ht]. by rewrite IH.
Qed.

(** One member of an object, as the reader sees it. *)
Definition written (v : json_value) : str :=
  match v with VText t => json_text t | VNumber t => t end.
Definition readable (v : json_value) : Prop :=
  match v with VText _ => True | VNumber t => forallb number_char t = true /\ t <> [] end.

(** A text of the member is UTF-8. *)
Definition legible (m : str * json_value) : bool := match m.2 with VText t => utf8 t | VNumber _ => true end.

(** Where a member ends. *)
Definition member_end (c : ascii) : Prop := c = ","%char \/ c = "}"%char.

Lemma read_member fuel k v c rest :
  plain k -> utf8 k = true -> readable v -> member_end c ->
  json_members (S fuel) (json_key k ++ written v ++ c :: rest) =
  if negb (legible (k, v)) then None
  else if is_char c "," then match json_members fuel rest with Some ms => Some ((k, v) :: ms) | None => None end
  else if bool_decide (rest = []) then Some [(k, v)] else None.
Proof.
  intros Hk Hu Hv Hc. unfold json_key. cbn [json_members app].
  replace (is_char dq dq) with true by done. cbn [negb].
  unfold plain in Hk. rewrite <-Hk at 1. rewrite <-!app_assoc. cbn [app]. rewrite json_string_escape, Hu.
  assert (Hfin : forall x, (if is_char c "," then x else if is_char c "}" && bool_decide (rest = [])
    then Some [(k, v)] else None) = (if is_char c "," then x else if bool_decide (rest = []) then Some [(k, v)] else None)).
  { intros x. destruct Hc as [->| ->]; done. }
  unfold legible. cbn [snd]. destruct v as [t|t]; cbn [written json_text app].
  - replace (is_char dq dq) with true by done. rewrite <-app_assoc. cbn [app String.list_ascii_of_string].
    rewrite json_string_escape. destruct (utf8 t); [apply Hfin|done].
  - destruct Hv as [Ht Hne]. destruct t as [|x t]; [done|]. cbn [app String.list_ascii_of_string].
    assert (Hx : is_char x dq = false).
    { apply andb_true_iff in Ht as [Hx _]. revert Hx. by destruct x as [[] [] [] [] [] [] [] []]. }
    rewrite Hx. change (x :: t ++ c :: rest) with ((x :: t) ++ c :: rest).
    rewrite json_number_read; [|done|by destruct Hc as [->| ->]].
    replace (bool_decide (x :: t = [])) with false by done. apply Hfin.
Qed.

Fixpoint members_text (ms : list (str * json_value)) : str :=
  match ms with
  | [] => []
  | [(k, v)] => json_key k ++ written v ++ b!"}"
  | (k, v) :: ms' => json_key k ++ written v ++ b!"," ++ members_text ms'
  end.

Definition good_member (m : str * json_value) : Prop := plain m.1 /\ utf8 m.1 = true /\ readable m.2.

Lemma read_members ms : forall fuel,
  ms <> [] -> Forall good_member ms -> (length ms <= fuel)%nat ->
  json_members fuel (members_text ms) = if forallb legible ms then Some ms else None.
Proof.
  induction ms as [|[k v] ms IH]; intros fuel Hne HF Hf; [done|].
  apply Forall_cons in HF as [(Hk & Hu & Hv) HF].
  destruct fuel as [|fuel]; cbn [length] in Hf; [lia|]. cbn [forallb].
  destruct ms as [|m ms].
  - change (members_text [(k, v)]) with (json_key k ++ written v ++ ["}"%char]).
    rewrite (read_member fuel k v "}" []) by (auto; by right). by destruct (legible (k, v)).
  - change (members_text ((k, v) :: m :: ms))
      with (json_key k ++ written v ++ ","%char :: members_text (m :: ms)).
    rewrite read_member by (auto; by left). destruct (legible (k, v)); [|done]. cbn [negb andb].
    rewrite IH by (auto; lia). by destruct (forallb legible (m :: ms)).
Qed.

Lemma members_text_length ms : Forall good_member ms -> (length ms <= length (members_text ms))%nat.
Proof.
  induction ms as [|[k v] ms IH]; intros HF; [done|]. apply Forall_cons in HF as [_ HF].
  destruct ms as [|m ms]; [unfold json_key; cbn; lia|].
  change (members_text ((k, v) :: m :: ms))
    with (json_key k ++ written v ++ ","%char :: members_text (m :: ms)).
  specialize (IH HF). rewrite !length_app, length_cons. cbn [length] in *. lia.
Qed.

Lemma read_object ms :
  ms <> [] -> Forall good_member ms ->
  json_object ("{"%char :: members_text ms) = if forallb legible ms then Some ms else None.
Proof. intros Hne HF. cbn. apply read_members; [done|done|by apply members_text_length]. Qed.

Definition printable (s : str) : bool := forallb (fun c => 32 <=? byte_val c) s.

Lemma printable_app a b : printable (a ++ b) = printable a && printable b.
Proof. apply forallb_app. Qed.

Lemma json_escape_printable s : printable (json_escape s) = true.
Proof.
  induction s as [|c s IH]; [done|]. rewrite json_escape_cons, printable_app, IH, andb_true_r.
  by destruct c as [[] [] [] [] [] [] [] []].
Qed.

Lemma plain_printable s : plain s -> printable s = true.
Proof. intros <-. apply json_escape_printable. Qed.

Lemma members_printable ms : Forall good_member ms -> printable (members_text ms) = true.
Proof.
  intros HF. induction HF as [|[k v] ms (Hk & _ & Hv) HF IH]; [done|].
  assert (Hkv : printable (json_key k) = true /\ printable (written v) = true).
  { split.
    - unfold json_key. change (dq :: ?l) with ([dq] ++ l). rewrite !printable_app, (plain_printable k) by done. done.
    - destruct v as [t|t]; cbn [written].
      + unfold json_text. change (dq :: ?l) with ([dq] ++ l). by rewrite !printable_app, json_escape_printable.
      + destruct Hv as [Ht _]. by apply plain_printable, plain_number. }
  destruct Hkv as [H1 H2]. destruct ms as [|m ms].
  - cbn [members_text]. by rewrite !printable_app, H1, H2.
  - change (members_text ((k, v) :: m :: ms))
      with (json_key k ++ written v ++ b!"," ++ members_text (m :: ms)).
    by rewrite !printable_app, H1, H2, IH.
Qed.

(** What a line says. *)
Definition access_members (timestamp : Z) (e : AccessLogEntry) : list (str * json_value) :=
  [(b!"timestamp", VText (timestamp_text timestamp)); (b!"request_id", VText (al_request_id e));
   (b!"client_ip", VText (al_client_ip e)); (b!"scheme", VText (al_scheme e));
   (b!"listener_port", VNumber (to_string (al_listener_port e))); (b!"host", VText (al_host e));
   (b!"method", VText (al_method e)); (b!"path", VText (al_path e));
   (b!"status", VNumber (to_string (al_status e)));
   (b!"response_bytes", VNumber (to_string (al_response_bytes e)));
   (b!"duration_ms", VNumber (duration_text (al_duration e)));
   (b!"config_revision", VNumber (to_string (al_config_revision e)))].

Definition error_members (timestamp : Z) (e : ErrorLogEntry) : list (str * json_value) :=
  [(b!"timestamp", VText (timestamp_text timestamp)); (b!"level", VText (severity_text (el_severity e)));
   (b!"component", VText (el_component e)); (b!"message", VText (el_message e))] ++
  if bool_decide (el_request_id e = []) then [] else [(b!"request_id", VText (el_request_id e))].

Lemma severity_plain s : plain (severity_text s).
Proof. by destruct s. Qed.

Lemma access_line_text t e : access_line t e = "{"%char :: members_text (access_members t e).
Proof.
  unfold access_line, access_members, members_text, written, json_text.
  rewrite timestamp_plain. rewrite <-?app_assoc. cbn [app]. by rewrite <-?app_assoc.
Qed.

Lemma error_line_text t e : error_line t e = "{"%char :: members_text (error_members t e).
Proof.
  unfold error_line, error_members. destruct (bool_decide (el_request_id e = []));
  unfold members_text, written, json_text; cbn [app];
  rewrite timestamp_plain, severity_plain; rewrite <-?app_assoc; cbn [app]; by rewrite <-?app_assoc.
Qed.

Lemma access_members_good t e : Forall good_member (access_members t e).
Proof.
  unfold access_members. repeat (apply Forall_cons; split); [..|apply Forall_nil]; try done;
    (split; [done|]; split; [done|]); cbn [readable snd];
    auto using to_string_number, to_string_nonempty, duration_number, duration_nonempty.
Qed.

Lemma error_members_good t e : Forall good_member (error_members t e).
Proof. unfold error_members. apply Forall_app. split; [|case_match]; repeat constructor. Qed.

(** The texts of an entry that come from outside. *)
Definition access_texts (e : AccessLogEntry) : list str :=
  [al_request_id e; al_client_ip e; al_scheme e; al_host e; al_method e; al_path e].
Definition error_texts (e : ErrorLogEntry) : list str := [el_component e; el_message e; el_request_id e].

Lemma access_legible t e : forallb legible (access_members t e) = forallb utf8 (access_texts e).
Proof. unfold access_members, access_texts, legible. cbn [forallb snd]. by rewrite timestamp_utf8. Qed.
Lemma error_legible t e : forallb legible (error_members t e) = forallb utf8 (error_texts e).
Proof.
  unfold error_members, error_texts, legible. rewrite forallb_app. cbn [forallb snd]. rewrite timestamp_utf8, andb_true_r.
  assert (utf8 (severity_text (el_severity e)) = true) as -> by by destruct (el_severity e). cbn [andb].
  destruct (utf8 (el_component e)), (utf8 (el_message e)); try done. cbn [andb]. by case_bool_decide as He; [rewrite He|].
Qed.


(** A request line may hold any bytes above 0x20: this one is logged and never shown. *)
Definition hidden_request : AccessLogEntry :=
  {| al_request_id := b!"1"; al_client_ip := b!"192.0.2.1"; al_scheme := b!"http"; al_listener_port := 80; al_host := b!"a.example";
     al_method := b!"GET"; al_path := b!"/" ++ [ascii_of_N 255]; al_status := 200; al_response_bytes := 0; al_duration := 0;
     al_config_revision := 1 |}.
Theorem hidden_request_is_logged : printable (access_line 0 hidden_request) = true /\ json_object (access_line 0 hidden_request) = None.
Proof. split; vm_compute; reflexivity. Qed.

(** ** The queue *)

Inductive payload := access_payload (entry : AccessLogEntry) | error_payload (entry : ErrorLogEntry).

Record Event := { ev_timestamp : Z; ev_payload : payload }.

Definition is_access (e : Event) : bool :=
  match ev_payload e with access_payload _ => true | error_payload _ => false end.

Record LogQueue := {
  queue : list Event;
  accepted_access : Z;
  accepted_error : Z;
  dropped_access : Z;
  dropped_error : Z;
  reported_dropped_access : Z;
  reported_dropped_error : Z;
  writer_busy : bool;
  stopping : bool
}.

Definition empty_queue : LogQueue :=
  {| queue := []; accepted_access := 0; accepted_error := 0; dropped_access := 0; dropped_error := 0;
     reported_dropped_access := 0; reported_dropped_error := 0; writer_busy := false; stopping := false |}.

Definition count_dropped (access_event : bool) (q : LogQueue) : LogQueue :=
  {| queue := queue q; accepted_access := accepted_access q; accepted_error := accepted_error q;
     dropped_access := dropped_access q + (if access_event then 1 else 0);
     dropped_error := dropped_error q + (if access_event then 0 else 1);
     reported_dropped_access := reported_dropped_access q;
     reported_dropped_error := reported_dropped_error q;
     writer_busy := writer_busy q; stopping := stopping q |}.

(** [push_back] and the count; it throws when memory is short ([stored] false)
    and the handler counts a drop. *)
Definition push_event (stored : bool) (event : Event) (q : LogQueue) : LogQueue :=
  if stored then
    {| queue := queue q ++ [event];
       accepted_access := accepted_access q + (if is_access event then 1 else 0);
       accepted_error := accepted_error q + (if is_access event then 0 else 1);
       dropped_access := dropped_access q; dropped_error := dropped_error q;
       reported_dropped_access := reported_dropped_access q;
       reported_dropped_error := reported_dropped_error q;
       writer_busy := writer_busy q; stopping := stopping q |}
  else count_dropped (is_access event) q.

(** [find_if] and [erase] of the oldest access event. *)
Fixpoint evict_access (l : list Event) : option (list Event) :=
  match l with
  | [] => None
  | e :: r => if is_access e then Some r else (fun r' => e :: r') <$> evict_access r
  end.

Definition enqueue (queue_capacity : nat) (stored : bool) (event : Event) (q : LogQueue) : LogQueue :=
  if stopping q then count_dropped (is_access event) q
  else if (queue_capacity <=? length (queue q))%nat then
    if is_access event then count_dropped true q
    else
      match evict_access (queue q) with
      | None => count_dropped false q
      | Some rest =>
          push_event stored event
            {| queue := rest; accepted_access := accepted_access q - 1; accepted_error := accepted_error q;
               dropped_access := dropped_access q + 1; dropped_error := dropped_error q;
               reported_dropped_access := reported_dropped_access q;
               reported_dropped_error := reported_dropped_error q;
               writer_busy := writer_busy q; stopping := stopping q |}
      end
  else push_event stored event q.

Definition with_writer (l : list Event) (busy stop : bool) (q : LogQueue) : LogQueue :=
  {| queue := l; accepted_access := accepted_access q; accepted_error := accepted_error q;
     dropped_access := dropped_access q; dropped_error := dropped_error q;
     reported_dropped_access := reported_dropped_access q;
     reported_dropped_error := reported_dropped_error q;
     writer_busy := busy; stopping := stop |}.

(** The counts [write_drop_summary] reports, when there is something new. *)
Definition drop_summary (q : LogQueue) : option (Z * Z) * LogQueue :=
  if (dropped_access q =? reported_dropped_access q) && (dropped_error q =? reported_dropped_error q)
  then (None, q)
  else
    (Some (dropped_access q - reported_dropped_access q, dropped_error q - reported_dropped_error q),
     {| queue := queue q; accepted_access := accepted_access q; accepted_error := accepted_error q;
        dropped_access := dropped_access q; dropped_error := dropped_error q;
        reported_dropped_access := dropped_access q; reported_dropped_error := dropped_error q;
        writer_busy := writer_busy q; stopping := stopping q |}).

(** The queue with its history: every event offered, those the writer took,
    those a failing writer threw away, and the drops reported. *)
Record QueueWorld := {
  offered : list Event;
  taken : list Event;
  lost : list Event;
  reported : Z * Z;
  log_queue : LogQueue
}.

Inductive queue_step (capacity : nat) : QueueWorld -> QueueWorld -> Prop :=
  | step_enqueue w stored e :                                   (* log_access, log_error *)
      queue_step capacity w
        {| offered := offered w ++ [e]; taken := taken w; lost := lost w; reported := reported w;
           log_queue := enqueue capacity stored e (log_queue w) |}
  | step_take w e rest :                                        (* writer_loop pops the front *)
      queue (log_queue w) = e :: rest -> writer_busy (log_queue w) = false ->
      queue_step capacity w
        {| offered := offered w; taken := taken w ++ [e]; lost := lost w; reported := reported w;
           log_queue := with_writer rest true (stopping (log_queue w)) (log_queue w) |}
  | step_summary w counts q :                                   (* write_drop_summary *)
      drop_summary (log_queue w) = (counts, q) ->
      queue_step capacity w
        {| offered := offered w; taken := taken w; lost := lost w;
           reported := match counts with
                       | Some (a, e) => ((reported w).1 + a, (reported w).2 + e)
                       | None => reported w
                       end;
           log_queue := q |}
  | step_idle w :                                               (* the event is written *)
      queue_step capacity w
        {| offered := offered w; taken := taken w; lost := lost w; reported := reported w;
           log_queue := with_writer (queue (log_queue w)) false (stopping (log_queue w)) (log_queue w) |}
  | step_stop w :                                               (* ~LogManager *)
      queue_step capacity w
        {| offered := offered w; taken := taken w; lost := lost w; reported := reported w;
           log_queue := with_writer (queue (log_queue w)) (writer_busy (log_queue w)) true (log_queue w) |}
  | step_writer_failed w :                                      (* the handlers of writer_loop *)
      queue_step capacity w
        {| offered := offered w; taken := taken w; lost := lost w ++ queue (log_queue w); reported := reported w;
           log_queue := with_writer [] false true (log_queue w) |}.

Definition initial_queue : QueueWorld :=
  {| offered := []; taken := []; lost := []; reported := (0, 0); log_queue := empty_queue |}.

Inductive queue_reachable (capacity : nat) : QueueWorld -> Prop :=
  | queue_start : queue_reachable capacity initial_queue
  | queue_next w w' : queue_reachable capacity w -> queue_step capacity w w' -> queue_reachable capacity w'.

(** The number of access ([true]) or error ([false]) events of a list. *)
Definition count_kind (access : bool) (l : list Event) : Z :=
  Z.of_nat (length (filter (fun e => is_access e = access) l)).

Lemma count_kind_app k l1 l2 : count_kind k (l1 ++ l2) = count_kind k l1 + count_kind k l2.
Proof. unfold count_kind. rewrite filter_app, length_app. lia. Qed.

Lemma count_kind_one k e : count_kind k [e] = if Bool.eqb (is_access e) k then 1 else 0.
Proof. unfold count_kind. rewrite filter_cons. case_decide as H; cbn; by destruct (is_access e), k. Qed.

Lemma count_kind_cons k e l : count_kind k (e :: l) = count_kind k [e] + count_kind k l.
Proof. apply (count_kind_app k [e] l). Qed.

Lemma evict_access_spec l :
  match evict_access l with
  | Some rest => exists a e b, l = a ++ e :: b /\ rest = a ++ b /\ is_access e = true /\
                               Forall (fun x => is_access x = false) a
  | None => Forall (fun x => is_access x = false) l
  end.
Proof.
  induction l as [|x l IH]; cbn; [done|]. destruct (is_access x) eqn:Ex.
  - exists [], x, l. auto.
  - destruct (evict_access l) as [r|]; cbn; [|by constructor].
    destruct IH as (a & e & b & -> & -> & He & Ha). exists (x :: a), e, b. split_and!; auto.
Qed.

Record queue_inv (capacity : nat) (w : QueueWorld) : Prop := {
  qi_bound : (length (queue (log_queue w)) <= capacity)%nat;
  qi_order : (taken w ++ lost w ++ queue (log_queue w)) `sublist_of` offered w;
  qi_access : accepted_access (log_queue w) = count_kind true (taken w ++ lost w ++ queue (log_queue w));
  qi_error : accepted_error (log_queue w) = count_kind false (taken w ++ lost w ++ queue (log_queue w));
  qi_all_access : accepted_access (log_queue w) + dropped_access (log_queue w) = count_kind true (offered w);
  qi_all_error : accepted_error (log_queue w) + dropped_error (log_queue w) = count_kind false (offered w);
  qi_lost : lost w = [] \/ (queue (log_queue w) = [] /\ stopping (log_queue w) = true);
  qi_reported : reported w = (reported_dropped_access (log_queue w), reported_dropped_error (log_queue w))
}.

(** What a producer may change. *)
Record enqueued (capacity : nat) (e : Event) (q q' : LogQueue) : Prop := {
  en_bound : (length (queue q) <= capacity)%nat -> (length (queue q') <= capacity)%nat;
  en_order : queue q' `sublist_of` queue q ++ [e];
  en_access : accepted_access q' - accepted_access q = count_kind true (queue q') - count_kind true (queue q);
  en_error : accepted_error q' - accepted_error q = count_kind false (queue q') - count_kind false (queue q);
  en_all_access : accepted_access q' + dropped_access q' =
                  accepted_access q + dropped_access q + count_kind true [e];
  en_all_error : accepted_error q' + dropped_error q' =
                 accepted_error q + dropped_error q + count_kind false [e];
  en_stopping : stopping q' = stopping q /\ (stopping q = true -> queue q' = queue q);
  en_reported : (reported_dropped_access q', reported_dropped_error q') =
                (reported_dropped_access q, reported_dropped_error q)
}.

Lemma count_dropped_enqueued capacity e q : enqueued capacity e q (count_dropped (is_access e) q).
Proof.
  split; cbn; rewrite ?count_kind_one; try done; try lia;
    try (destruct (is_access e); cbn; lia). by apply sublist_inserts_r.
Qed.

Lemma push_event_enqueued capacity stored e q :
  (length (queue q) < capacity)%nat -> stopping q = false -> enqueued capacity e q (push_event stored e q).
Proof.
  intros Hl Hs. destruct stored; [|apply count_dropped_enqueued].
  split; cbn; rewrite ?count_kind_app, ?count_kind_one, ?length_app; cbn; try done; try lia;
    try (destruct (is_access e); cbn; lia). by rewrite Hs.
Qed.

Lemma enqueue_enqueued capacity stored e q :
  (length (queue q) <= capacity)%nat -> enqueued capacity e q (enqueue capacity stored e q).
Proof.
  intros Hb. unfold enqueue. destruct (stopping q) eqn:Es; [apply count_dropped_enqueued|].
  destruct (capacity <=? length (queue q))%nat eqn:Ec.
  2:{ apply Nat.leb_gt in Ec. by apply push_event_enqueued. }
  apply Nat.leb_le in Ec. destruct (is_access e) eqn:Ee.
  { pose proof (count_dropped_enqueued capacity e q) as H. by rewrite Ee in H. }
  pose proof (evict_access_spec (queue q)) as He. destruct (evict_access (queue q)) as [rest|].
  2:{ pose proof (count_dropped_enqueued capacity e q) as H. by rewrite Ee in H. }
  destruct He as (a & x & b & Hq & -> & Hx & _).
  assert (Hk : forall k, count_kind k (queue q) = count_kind k (a ++ b) + count_kind k [x]).
  { intros k. rewrite Hq, !count_kind_app, (count_kind_cons k x b). lia. }
  assert (Hl : length (queue q) = S (length (a ++ b))) by (rewrite Hq, !length_app; cbn; lia).
  pose proof (Hk true) as Ht. pose proof (Hk false) as Hf. rewrite !count_kind_one, Hx in Ht, Hf. cbn in Ht, Hf.
  match goal with |- enqueued _ _ _ (push_event _ _ ?r) => pose proof (push_event_enqueued capacity stored e r) as Hp end.
  cbn [queue stopping] in Hp. destruct Hp as [H1 H2 H3 H4 H5 H6 [H7 _] H9]; [lia|done|].
  split; cbn in *; try lia; try done.
  - etrans; [exact H2|]. rewrite Hq. apply sublist_app; [|done]. apply sublist_app; [done|]. by apply sublist_cons.
  - by rewrite Es.
Qed.

Lemma queue_reachable_inv capacity w : queue_reachable capacity w -> queue_inv capacity w.
Proof.
  induction 1 as [|w w' _ [Hb Ho Ha He Haa Hae Hl Hr] Hs].
  { split; cbn; try done; try lia. by left. }
  destruct Hs as [w stored e|w e rest Hq Hbusy|w counts q Hd|w|w|w].
  - destruct (enqueue_enqueued capacity stored e (log_queue w) Hb) as [H1 H2 H3 H4 H5 H6 [H7 H8] H9].
    split; cbn [offered taken lost reported log_queue]; rewrite ?count_kind_app in *; try lia.
    + rewrite app_assoc. etrans; [apply sublist_app; [reflexivity|exact H2]|].
      rewrite app_assoc. apply sublist_app; [|done]. by rewrite <-app_assoc.
    + destruct Hl as [?|[Hq Hst]]; [by left|right]. by rewrite H7, H8.
    + congruence.
  - destruct Hl as [Hlost|[Hq' _]]; [|congruence]. rewrite Hq, Hlost in *. cbn in *.
    split; cbn; rewrite ?Hlost; cbn; rewrite <-?app_assoc; auto; lia.
  - unfold drop_summary in Hd. destruct (_ && _); injection Hd as <- <-.
    + by split.
    + split; cbn; try done. rewrite Hr. cbn. f_equal; lia.
  - by split.
  - split; try done. cbn. destruct Hl as [?|[? ?]]; auto.
  - split; cbn; rewrite ?app_nil_r; auto; lia.
Qed.

(** The log queue keeps its books.  In every interleaving of producers and
    the writer, shutdown and a failing writer included: the queue never exceeds
    its capacity; events reach the files in the order they were logged; for each
    kind, every event offered is counted exactly once, as accepted or as
    dropped, and the accepted ones are those written, those waiting and those a
    failed writer discarded; and the drops reported so far are the ones the
    queue has marked as reported. *)
Theorem log_queue_accounting capacity w :
  queue_reachable capacity w ->
  let q := log_queue w in
  let kept := taken w ++ lost w ++ queue q in
  (length (queue q) <= capacity)%nat /\
  kept `sublist_of` offered w /\
  accepted_access q = count_kind true kept /\ accepted_error q = count_kind false kept /\
  accepted_access q + dropped_access q = count_kind true (offered w) /\
  accepted_error q + dropped_error q = count_kind false (offered w) /\
  reported w = (reported_dropped_access q, reported_dropped_error q).
Proof. intros [? ? ? ? ? ? ? ?]%queue_reachable_inv. cbn. auto 10. Qed.

(** Errors outrank accesses.  While the service runs and memory lasts, an
    error event is always stored, in place of the oldest access event when the
    queue is full; it is dropped only if the queue is full of errors. *)
Theorem error_events_have_priority capacity e q :
  is_access e = false -> stopping q = false ->
  let q' := enqueue capacity true e q in
  (last (queue q') = Some e /\ dropped_error q' = dropped_error q /\
   ((length (queue q) < capacity)%nat -> queue q' = queue q ++ [e])) \/
  ((capacity <= length (queue q))%nat /\ Forall (fun x => is_access x = false) (queue q) /\
   queue q' = queue q /\ dropped_error q' = dropped_error q + 1).
Proof.
  intros He Hs. unfold enqueue. rewrite Hs, He.
  destruct (capacity <=? length (queue q))%nat eqn:Ec.
  - apply Nat.leb_le in Ec. pose proof (evict_access_spec (queue q)) as Hev.
    destruct (evict_access (queue q)) as [rest|]; [|right; cbn; auto].
    left. cbn. rewrite last_snoc. split_and!; auto. lia.
  - apply Nat.leb_gt in Ec. left. cbn. rewrite last_snoc. auto.
Qed.

Definition sample_access : Event :=
  {| ev_timestamp := 0; ev_payload := access_payload
       {| al_request_id := b!"1"; al_client_ip := b!"192.0.2.1"; al_scheme := b!"http"; al_listener_port := 80;
          al_host := b!"a.example"; al_method := b!"GET"; al_path := b!"/"; al_status := 200;
          al_response_bytes := 5; al_duration := 1500; al_config_revision := 1 |} |}.
Definition sample_error : Event :=
  {| ev_timestamp := 0; ev_payload := error_payload
       {| el_severity := sev_error; el_component := b!"proxy"; el_message := b!"reset"; el_request_id := [] |} |}.

Definition offer (e : Event) (w : QueueWorld) : QueueWorld :=
  {| offered := offered w ++ [e]; taken := taken w; lost := lost w; reported := reported w;
     log_queue := enqueue 2 true e (log_queue w) |}.

Definition full_world : QueueWorld :=
  offer sample_error (offer sample_access (offer sample_access initial_queue)).

Lemma log_queue_accounting_witness :
  (length (queue (log_queue full_world)) <= 2)%nat /\
  accepted_access (log_queue full_world) + dropped_access (log_queue full_world) = 2.
Proof.
  assert (Hr : queue_reachable 2 full_world).
  { repeat (eapply queue_next; [|apply (step_enqueue 2 _ true)]). apply queue_start. }
  destruct (log_queue_accounting 2 full_world Hr) as (H1 & _ & _ & _ & H2 & _).
  split; [exact H1|]. rewrite H2. vm_compute. reflexivity.
Defined.

Lemma error_events_have_priority_witness :
  last (queue (log_queue full_world)) = Some sample_error /\ dropped_access (log_queue full_world) = 1.
Proof.
  pose proof (error_events_have_priority 2 sample_error
    (log_queue (offer sample_access (offer sample_access initial_queue))) eq_refl eq_refl) as [[H _]|[_ [H _]]].
  - split; [exact H|vm_compute; reflexivity].
  - exfalso. apply Forall_cons in H as [H _]. vm_compute in H. discriminate.
Defined.

(** ** Rotating files

    The files of one log: index 0 is the current file, index [i] the file with
    suffix [.i].  [renames] says which renames the file system carries out. *)

Abbreviation files := (gmap nat str).

Record RotatingFile := { on_disk : files; current_bytes : Z }.

Definition file_text (fs : files) (i : nat) : str := default [] (fs !! i).

Definition cannot_rotate : exn := runtime_error b!"cannot rotate log file".

(** One iteration of the loop of [rotate]. *)
Definition shift_file (renames : nat -> bool) (index : nat) (fs : files) : res files :=
  match fs !! (index - 1)%nat with
  | None => Ok fs
  | Some content =>
      if renames (index - 1)%nat then Ok (<[index := content]> (delete (index - 1)%nat (delete index fs)))
      else Throw cannot_rotate
  end.

(** [for (index = rotated_file_count; index > 1; --index)]. *)
Fixpoint shift_files (renames : nat -> bool) (index : nat) (fs : files) : res files :=
  match index with
  | S (S _ as below) =>
      match shift_file renames index fs with
      | Ok fs' => shift_files renames below fs'
      | Throw e => Throw e
      end
  | _ => Ok fs
  end.

Definition rotate (renames : nat -> bool) (rotated_file_count : nat) (file : RotatingFile) : res RotatingFile :=
  match shift_files renames rotated_file_count (delete rotated_file_count (on_disk file)) with
  | Throw e => Throw e
  | Ok fs =>
      match delete 1%nat fs !! 0%nat with
      | Some content =>
          if renames 0%nat
          then Ok {| on_disk := <[0%nat := []]> (<[1%nat := content]> (delete 0%nat (delete 1%nat fs)));
                     current_bytes := 0 |}
          else Throw cannot_rotate
      | None => Throw cannot_rotate
      end
  end.

Definition newline : ascii := "010"%char.

Definition write_line (renames : nat -> bool) (count : nat) (max : Z)
    (line : str) (file : RotatingFile) : res RotatingFile :=
  let line := line ++ [newline] in
  file ← (if negb (current_bytes file =? 0) &&
             (max <? current_bytes file + Z.of_nat (length line))
          then rotate renames count file else Ok file);
  Ok {| on_disk := <[0%nat := file_text (on_disk file) 0 ++ line]> (on_disk file);
        current_bytes := current_bytes file + Z.of_nat (length line) |}.

(** [std::getline] over a file: the segments between newlines, without an
    empty one at the end. *)
Definition lines_of (text : str) : list str :=
  let segments := split newline text in
  if bool_decide (last segments = Some []) then removelast segments else segments.

Definition maximum_line : Z := 1024 * 1024.

(** The loop over one file: long lines are skipped, the oldest lines give way. *)
Definition keep_line (remaining : nat) (file_lines : list str) (line : str) : list str :=
  if maximum_line <? Z.of_nat (length line) then file_lines
  else
    let file_lines := file_lines ++ [line] in
    if (remaining <? length file_lines)%nat then tail file_lines else file_lines.

Definition prepend_file (maximum_lines : nat) (text : str) (lines : list str) : list str :=
  let remaining := (maximum_lines - length lines)%nat in
  if (remaining =? 0)%nat then lines
  else fold_left (keep_line remaining) (lines_of text) [] ++ lines.

(** [for (index = 1; index <= rotated_file_count && lines.size() < maximum_lines; ++index)]. *)
Fixpoint prepend_rotated (maximum_lines : nat) (fs : files) (index count : nat) (lines : list str) : list str :=
  match count with
  | O => lines
  | S count' =>
      if (length lines <? maximum_lines)%nat
      then prepend_rotated maximum_lines fs (S index) count' (prepend_file maximum_lines (file_text fs index) lines)
      else lines
  end.

Definition recent_lines (rotated_file_count : nat) (fs : files) (maximum_lines : Z) : res (list str) :=
  if (maximum_lines =? 0) || (100000 <? maximum_lines) then
    Throw (invalid_argument b!"log scan limit must be between 1 and 100000")
  else
    let maximum := Z.to_nat maximum_lines in
    Ok (prepend_rotated maximum fs 1 rotated_file_count (prepend_file maximum (file_text fs 0) [])).

(** [open_file] in append mode: an existing file keeps its text. *)
Definition open_file (fs : files) : RotatingFile :=
  {| on_disk := <[0%nat := file_text fs 0]> fs;
     current_bytes := Z.of_nat (length (file_text fs 0)) |}.

Record LogOptions := {
  directory : str;
  max_file_bytes : Z;
  rotated_file_count : Z;
  queue_capacity : Z
}.

(** The checks of the constructor. *)
Definition check_options (o : LogOptions) : res unit :=
  throw_if (bool_decide (directory o = [])) (invalid_argument b!"log directory must not be empty") ;;
  throw_if (max_file_bytes o <? 1024)
    (invalid_argument b!"log max file size must be at least 1024 bytes") ;;
  throw_if ((rotated_file_count o =? 0) || (100 <? rotated_file_count o))
    (invalid_argument b!"rotated log file count must be between 1 and 100") ;;
  throw_if ((queue_capacity o <? 2) || (1000000 <? queue_capacity o))
    (invalid_argument b!"log queue capacity must be between 2 and 1000000").

(** The line [write_drop_summary] writes to the error log. *)
Definition drop_summary_entry (counts : Z * Z) : ErrorLogEntry :=
  {| el_severity := sev_warning; el_component := b!"logging";
     el_message := b!"asynchronous queue dropped " ++ to_string counts.1 ++ b!" access and " ++
                   to_string counts.2 ++ b!" error events";
     el_request_id := [] |}.

(** [write_event]: the file (access or error) and the line. *)
Definition event_line (e : Event) : str :=
  match ev_payload e with
  | access_payload entry => access_line (ev_timestamp e) entry
  | error_payload entry => error_line (ev_timestamp e) entry
  end.

Definition write_event (renames : nat -> bool) (count : nat) (max : Z) (e : Event)
    (logs : RotatingFile * RotatingFile) : res (RotatingFile * RotatingFile) :=
  if is_access e
  then access ← write_line renames count max (event_line e) logs.1; Ok (access, logs.2)
  else error ← write_line renames count max (event_line e) logs.2; Ok (logs.1, error).

(** ** What rotation keeps *)

Definition all_renames (_ : nat) : bool := true.

Lemma shift_file_spec index fs :
  (1 < index)%nat -> fs !! index = None ->
  exists fs', shift_file all_renames index fs = Ok fs' /\
    forall i, fs' !! i = if decide (i = index) then fs !! (index - 1)%nat
                         else if decide (i = index - 1)%nat then None else fs !! i.
Proof.
  intros Hi Hn. unfold shift_file. destruct (fs !! (index - 1)%nat) as [c|] eqn:E; cbn.
  - eexists. split; [done|]. intros i. destruct (decide (i = index)) as [->|]; [by rewrite lookup_insert_eq|].
    rewrite lookup_insert_ne by done. destruct (decide (i = index - 1)%nat) as [->|];
      [by rewrite lookup_delete_eq|by rewrite !lookup_delete_ne by done].
  - eexists. split; [done|]. intros i. destruct (decide (i = index)) as [->|]; [done|].
    by destruct (decide (i = index - 1)%nat) as [->|].
Qed.

Lemma shift_files_spec n : forall fs,
  (1 <= n)%nat -> fs !! n = None ->
  exists fs', shift_files all_renames n fs = Ok fs' /\
    forall i, fs' !! i = if decide (i = 0%nat) then fs !! 0%nat
                         else if decide (i = 1%nat) then None
                         else if decide (i <= n)%nat then fs !! (i - 1)%nat else fs !! i.
Proof.
  induction n as [|n IH]; intros fs Hn Hf; [lia|]. destruct n as [|n].
  { exists fs. split; [done|]. intros i. repeat case_decide; subst; auto. lia. }
  destruct (shift_file_spec (S (S n)) fs) as (fs1 & Hs & H1); [lia|done|].
  replace (S (S n) - 1)%nat with (S n) in H1 by lia.
  destruct (IH fs1) as (fs2 & Hs2 & H2); [lia| |].
  { rewrite H1. rewrite decide_False by lia. by rewrite decide_True. }
  exists fs2. split; [cbn [shift_files]; by rewrite Hs|].
  intros i. rewrite H2, !H1.
  repeat case_decide; subst; try lia; auto; try (f_equal; lia).
Qed.

Lemma rotate_spec count file :
  (1 <= count)%nat -> is_Some (on_disk file !! 0%nat) ->
  exists file', rotate all_renames count file = Ok file' /\ current_bytes file' = 0 /\
    forall i, on_disk file' !! i =
      if decide (i = 0%nat) then Some []
      else if decide (i <= count)%nat then on_disk file !! (i - 1)%nat else on_disk file !! i.
Proof.
  intros Hc [cur H0]. unfold rotate.
  destruct (shift_files_spec count (delete count (on_disk file))) as (fs & Hs & Hfs);
    [lia|apply lookup_delete_eq|].
  rewrite Hs. rewrite lookup_delete_ne, Hfs, decide_True, lookup_delete_ne, H0 by (done || lia). cbn.
  eexists. split; [done|]. split; [done|]. intros i. cbn.
  destruct (decide (i = 0%nat)) as [->|]; [by rewrite lookup_insert_eq|].
  rewrite lookup_insert_ne by done. destruct (decide (i = 1%nat)) as [->|].
  { rewrite lookup_insert_eq, decide_True by lia. done. }
  rewrite lookup_insert_ne, !lookup_delete_ne, Hfs, decide_False, decide_False by done.
  case_decide; rewrite lookup_delete_ne by lia; done.
Qed.

(** The text of the files, oldest first. *)
Fixpoint retained (count : nat) (fs : files) : str :=
  match count with
  | O => file_text fs 0
  | S below => file_text fs count ++ retained below fs
  end.

Lemma retained_shift n fs fs' :
  file_text fs' 0 = [] ->
  (forall i, (1 <= i <= S n)%nat -> file_text fs' i = file_text fs (i - 1)) ->
  retained (S n) fs' = retained n fs.
Proof.
  intros H0 H. induction n as [|n IH]; cbn [retained].
  - rewrite H, H0, app_nil_r by lia. done.
  - rewrite H by lia. replace (S (S n) - 1)%nat with (S n) by lia. f_equal. apply IH. intros i Hi. apply H. lia.
Qed.

Lemma retained_append n fs line :
  retained n (<[0%nat := file_text fs 0 ++ line]> fs) = retained n fs ++ line.
Proof.
  induction n as [|n IH]; cbn [retained].
  - unfold file_text at 1. by rewrite lookup_insert_eq.
  - rewrite IH, app_assoc. f_equal. f_equal. unfold file_text. by rewrite lookup_insert_ne.
Qed.

(** A file is within the limit, or holds one line that alone exceeds it. *)
Definition small_file (max_file_bytes : Z) (text : str) : Prop :=
  Z.of_nat (length text) <= max_file_bytes \/ exists line, text = line ++ [newline].

Record log_wf (count : nat) (max_file_bytes : Z) (file : RotatingFile) : Prop := {
  lw_open : is_Some (on_disk file !! 0%nat);
  lw_bytes : current_bytes file = Z.of_nat (length (file_text (on_disk file) 0));
  lw_small : forall i, (i <= count)%nat -> small_file max_file_bytes (file_text (on_disk file) i)
}.

(** Appending to the current file, when the line fits or the file is empty. *)
Lemma append_wf count max file line :
  log_wf count max file ->
  current_bytes file = 0 \/ current_bytes file + Z.of_nat (length (line ++ [newline])) <= max ->
  log_wf count max
    {| on_disk := <[0%nat := file_text (on_disk file) 0 ++ (line ++ [newline])]> (on_disk file);
       current_bytes := current_bytes file + Z.of_nat (length (line ++ [newline])) |}.
Proof.
  intros [Ho Hb Hs] Hfit. split; cbn [on_disk current_bytes].
  - rewrite lookup_insert_eq. eauto.
  - unfold file_text at 1. rewrite lookup_insert_eq. cbn [default from_option id].
    rewrite (length_app (file_text (on_disk file) 0)), Hb. lia.
  - intros i Hi. destruct (decide (i = 0%nat)) as [->|].
    + unfold file_text at 1. rewrite lookup_insert_eq. cbn [default from_option id].
      destruct Hfit as [Hz|Hle].
      * right. exists line. destruct (file_text (on_disk file) 0); [done|]. cbn in Hb. lia.
      * left. rewrite (length_app (file_text (on_disk file) 0)). lia.
    + unfold file_text. rewrite lookup_insert_ne by done. by apply Hs.
Qed.

Lemma rotate_wf count max file file' :
  (1 <= count)%nat -> 0 <= max -> log_wf count max file -> rotate all_renames count file = Ok file' ->
  log_wf count max file' /\
  retained count (on_disk file) = file_text (on_disk file) count ++ retained count (on_disk file').
Proof.
  intros Hc Hm [Ho Hb Hs] Hr. destruct (rotate_spec count file Hc Ho) as (f & Hf & Hz & Hd).
  rewrite Hr in Hf. injection Hf as <-.
  assert (H0 : file_text (on_disk file') 0 = []) by (unfold file_text; by rewrite Hd, decide_True).
  assert (Hi : forall i, (1 <= i <= count)%nat -> file_text (on_disk file') i = file_text (on_disk file) (i - 1)).
  { intros i Hi. unfold file_text. by rewrite Hd, decide_False, decide_True by lia. }
  split.
  - split; [rewrite Hd, decide_True by done; eauto|by rewrite H0, Hz|].
    intros i Hle. destruct (decide (i = 0%nat)) as [->|]; [rewrite H0; left; cbn; lia|].
    rewrite Hi by lia. apply Hs. lia.
  - destruct count as [|n]; [lia|]. cbn [retained]. f_equal. symmetry. by apply retained_shift.
Qed.

Lemma write_line_wf count max line file :
  (1 <= count)%nat -> 0 <= max -> log_wf count max file ->
  exists file' old, write_line all_renames count max line file = Ok file' /\ log_wf count max file' /\
    (old = [] \/ old = file_text (on_disk file) count) /\
    retained count (on_disk file) ++ line ++ [newline] = old ++ retained count (on_disk file').
Proof.
  intros Hc Hm W. unfold write_line.
  destruct (negb (current_bytes file =? 0) && (max <? current_bytes file + Z.of_nat (length (line ++ [newline])))) eqn:E.
  - destruct (rotate_spec count file Hc (lw_open _ _ _ W)) as (f & Hf & Hz & _). rewrite Hf. cbn [mbind res_bind].
    destruct (rotate_wf count max file f Hc Hm W Hf) as [W' Hret].
    eexists _, _. split; [done|]. split; [apply append_wf; auto|]. split; [by right|].
    cbn [on_disk]. by rewrite retained_append, Hret, <-app_assoc.
  - cbn [mbind res_bind]. eexists _, []. split; [done|]. split.
    + apply append_wf; [done|]. apply andb_false_iff in E as [E|E]; [left|right]; [|apply Z.ltb_ge in E; lia].
      apply negb_false_iff, Z.eqb_eq in E. done.
    + split; [by left|]. cbn [on_disk]. by rewrite retained_append.
Qed.

Definition write_lines (renames : nat -> bool) (count : nat) (max : Z) (lines : list str) (file : RotatingFile)
    : res RotatingFile := res_fold (write_line renames count max) lines file.

(** Rotation loses nothing but the oldest text.  When the file system
    carries out the renames, writing any lines succeeds; the files, read from
    the oldest to the current one, then hold the end of everything logged, in
    order and without a gap; and every file stays within the size limit unless
    it is a single longer line. *)
Theorem log_rotation_keeps_newest count max lines file :
  (1 <= count)%nat -> 0 <= max -> log_wf count max file ->
  exists file' dropped,
    write_lines all_renames count max lines file = Ok file' /\
    retained count (on_disk file) ++ mjoin ((fun l => l ++ [newline]) <$> lines) =
      dropped ++ retained count (on_disk file') /\
    (forall i, (i <= count)%nat -> small_file max (file_text (on_disk file') i)) /\
    current_bytes file' = Z.of_nat (length (file_text (on_disk file') 0)).
Proof.
  intros Hc Hm. revert file. induction lines as [|l lines IH]; intros file W; cbn.
  - exists file, []. destruct W. rewrite app_nil_r. auto.
  - destruct (write_line_wf count max l file Hc Hm W) as (f1 & old & Hw & W1 & _ & Hr).
    destruct (IH f1 W1) as (f2 & dropped & Hws & Hd & Hs & Hb).
    exists f2, (old ++ dropped). unfold write_lines in *. cbn [res_fold]. rewrite Hw. split; [done|].
    split; [|done]. rewrite app_assoc. change (mjoin _) with (mjoin ((fun l => l ++ [newline]) <$> lines)) in *.
    rewrite Hr, <-!app_assoc. f_equal. exact Hd.
Qed.

Definition sample_log : RotatingFile := {| on_disk := {[0%nat := []]}; current_bytes := 0 |}.

Lemma log_rotation_keeps_newest_witness :
  exists file' dropped,
    write_lines all_renames 2 8 [b!"one"; b!"two"; b!"three"; b!"four"; b!"five"] sample_log = Ok file' /\
    b!"" ++ mjoin ((fun l => l ++ [newline]) <$> [b!"one"; b!"two"; b!"three"; b!"four"; b!"five"]) =
      dropped ++ retained 2 (on_disk file') /\
    retained 2 (on_disk file') = b!"three" ++ [newline] ++ b!"four" ++ [newline] ++ b!"five" ++ [newline].
Proof.
  assert (W : log_wf 2 8 sample_log).
  { split; [eexists; vm_compute; reflexivity|vm_compute; reflexivity|].
    intros i Hi. left. destruct i as [|[|[|]]]; [vm_compute; discriminate..|lia]. }
  destruct (log_rotation_keeps_newest 2 8 [b!"one"; b!"two"; b!"three"; b!"four"; b!"five"] sample_log
    ltac:(lia) ltac:(lia) W) as (f & d & Hw & Hd & _).
  exists f, d. split; [exact Hw|]. split; [exact Hd|].
  vm_compute in Hw. injection Hw as <-. vm_compute. reflexivity.
Defined.

(** ** Reading the newest lines *)

(** The last [n] elements. *)
Definition lastn {A} (n : nat) (l : list A) : list A := drop (length l - n) l.

Lemma lastn_length {A} n (l : list A) : length (lastn n l) = (n `min` length l)%nat.
Proof. unfold lastn. rewrite length_drop. lia. Qed.

Lemma lastn_app {A} n (a b : list A) : lastn n (a ++ b) = lastn (n - length b) a ++ lastn n b.
Proof.
  unfold lastn. rewrite length_app, drop_app. f_equal; [|f_equal; lia].
  destruct (decide (length b <= n)%nat); [f_equal; lia|]. by rewrite !drop_ge by lia.
Qed.

Lemma lastn_0 {A} (l : list A) : lastn 0 l = [].
Proof. unfold lastn. rewrite Nat.sub_0_r. apply drop_all. Qed.

Definition short_line (line : str) : bool := negb (maximum_line <? Z.of_nat (length line)).

Lemma keep_lines remaining lines acc :
  (0 < remaining)%nat ->
  fold_left (keep_line remaining) lines (lastn remaining acc) =
  lastn remaining (acc ++ List.filter short_line lines).
Proof.
  intros Hr. revert acc. induction lines as [|l lines IH]; intros acc; cbn [fold_left List.filter].
  { by rewrite app_nil_r. }
  assert (Hs : short_line l = negb (maximum_line <? Z.of_nat (length l))) by done. rewrite Hs.
  unfold keep_line at 2. destruct (maximum_line <? Z.of_nat (length l)); cbn [negb]; [apply IH|].
  change (l :: List.filter short_line lines) with ([l] ++ List.filter short_line lines).
  rewrite app_assoc, <-IH. f_equal.
  rewrite lastn_app, length_app, !lastn_length. cbn [length].
  replace (lastn remaining [l]) with [l] by (unfold lastn; cbn; by replace (1 - remaining)%nat with 0%nat by lia).
  unfold lastn. destruct (remaining <? _)%nat eqn:E; [apply Nat.ltb_lt in E|apply Nat.ltb_ge in E].
  - assert (Hlt : (remaining <= length acc)%nat) by lia.
    replace (length acc - (remaining - 1))%nat with (S (length acc - remaining)) by lia.
    destruct (drop (length acc - remaining) acc) as [|x r] eqn:Ed.
    { apply (f_equal length) in Ed. rewrite length_drop in Ed. cbn in Ed. lia. }
    cbn [app tail]. f_equal. rewrite <-Nat.add_1_r, <-drop_drop, Ed. done.
  - f_equal. f_equal. lia.
Qed.

(** The lines of a file that are not skipped, and of all files, oldest first. *)
Definition readable_lines (text : str) : list str := List.filter short_line (lines_of text).
Fixpoint retained_lines (count : nat) (fs : files) : list str :=
  match count with
  | O => readable_lines (file_text fs 0)
  | S below => readable_lines (file_text fs count) ++ retained_lines below fs
  end.

Lemma prepend_file_spec maximum text all :
  prepend_file maximum text (lastn maximum all) = lastn maximum (readable_lines text ++ all).
Proof.
  unfold prepend_file. rewrite lastn_length, lastn_app.
  destruct (maximum - maximum `min` length all =? 0)%nat eqn:E.
  - apply Nat.eqb_eq in E. replace (maximum - length all)%nat with 0%nat by lia. by rewrite lastn_0.
  - apply Nat.eqb_neq in E. f_equal.
    rewrite <-(drop_nil (A := str) (0 - (maximum - maximum `min` length all))) at 1.
    change (drop _ []) with (lastn (maximum - maximum `min` length all) ([] : list str)).
    rewrite keep_lines by lia. f_equal. lia.
Qed.

Lemma prepend_rotated_spec maximum fs count : forall index,
  prepend_rotated maximum fs (S index) count (lastn maximum (retained_lines index fs)) =
  lastn maximum (retained_lines (index + count) fs).
Proof.
  induction count as [|count IH]; intros index; cbn [prepend_rotated]; [by rewrite Nat.add_0_r|].
  rewrite lastn_length. destruct (_ <? maximum)%nat eqn:E.
  - rewrite prepend_file_spec. change (readable_lines (file_text fs (S index)) ++ retained_lines index fs)
      with (retained_lines (S index) fs). rewrite IH. f_equal. f_equal. lia.
  - apply Nat.ltb_ge in E. clear IH.
    assert (H : forall n, lastn maximum (retained_lines (index + n) fs) = lastn maximum (retained_lines index fs) /\
                          (maximum <= length (retained_lines (index + n) fs))%nat).
    { induction n as [|n [IH1 IH2]]; [rewrite Nat.add_0_r; split; [done|lia]|].
      rewrite Nat.add_succ_r. cbn [retained_lines]. rewrite lastn_app, length_app, IH1.
      replace (maximum - length (retained_lines (index + n) fs))%nat with 0%nat by lia.
      rewrite lastn_0. split; [done|lia]. }
    symmetry. apply H.
Qed.

(** The log viewer shows the newest lines.  For a limit in range,
    [recent_lines] returns, in order, exactly the last [limit] lines of the
    rotated files and the current one taken together (lines over 1 MiB are
    skipped); any other limit is refused. *)
Theorem recent_lines_newest count fs limit :
  0 <= limit ->
  recent_lines count fs limit =
  if bool_decide (1 <= limit <= 100000)
  then Ok (lastn (Z.to_nat limit) (retained_lines count fs))
  else Throw (invalid_argument b!"log scan limit must be between 1 and 100000").
Proof.
  intros H0. unfold recent_lines.
  destruct (limit =? 0) eqn:E1, (100000 <? limit) eqn:E2; cbn [orb];
    case_bool_decide; bool_to_prop; try lia; try done.
  f_equal. replace ([] : list str) with (lastn (Z.to_nat limit) ([] : list str)) by (unfold lastn; apply drop_nil).
  rewrite prepend_file_spec, app_nil_r. change (readable_lines (file_text fs 0)) with (retained_lines 0 fs).
  apply prepend_rotated_spec.
Qed.

Lemma recent_lines_newest_witness :
  recent_lines 2 {[0%nat := b!"five" ++ [newline]; 1%nat := b!"three" ++ [newline] ++ b!"four" ++ [newline]]} 2 =
  Ok [b!"four"; b!"five"].
Proof.
  rewrite (recent_lines_newest 2 _ 2 ltac:(lia)). vm_compute. reflexivity.
Defined.
