(* ===== verification/AdminListener.v ===== *)
(** * Listener of the administration interface (src/src/admin/AdminServer.cpp, AdminListener and AdminServer)

    Like the listeners of the data plane (Listener.v), without retirement and
    revisions, with at most 128 sessions.  A handler is one step; calls that can throw
    take their answer from [faults].  [AdminServer] starts it with one thread, which
    runs the event loop.

    The theorem: the listener never goes deaf and never has more than 128 sessions.
    Stopping it is undefined when a session closes while the sessions are walked,
    which is the case for every open session ([stop_with_open_session_undefined]). *)

From S2P Require Import Prelude AdminSession.

(** ** State *)

Record AdminListener := {
  acceptor_open : bool;
  accept_pending : bool;                  (* an async_accept is outstanding *)
  retry_pending : bool;                   (* a wait on accept_retry_timer_ is outstanding *)
  accept_retry_delay_ : Z;                (* milliseconds *)
  listener_stopping_ : bool;
  sessions_ : gset nat;
  served : list nat;                      (* sessions started *)
  told_to_stop : gset nat;
  listener_faults : list bool
}.

Definition listener_eta (l : AdminListener) : AdminListener := Build_AdminListener (l.(acceptor_open)) (l.(accept_pending))
  (l.(retry_pending)) (l.(accept_retry_delay_)) (l.(listener_stopping_)) (l.(sessions_)) (l.(served)) (l.(told_to_stop)) (l.(listener_faults)).
Definition set_acceptor_open (v : bool) (l : AdminListener) : AdminListener := ltac:(record_update listener_eta acceptor_open l v).
Definition set_accept_pending (v : bool) (l : AdminListener) : AdminListener := ltac:(record_update listener_eta accept_pending l v).
Definition set_retry_pending (v : bool) (l : AdminListener) : AdminListener := ltac:(record_update listener_eta retry_pending l v).
Definition set_accept_retry_delay (v : Z) (l : AdminListener) : AdminListener := ltac:(record_update listener_eta accept_retry_delay_ l v).
Definition set_listener_stopping (v : bool) (l : AdminListener) : AdminListener := ltac:(record_update listener_eta listener_stopping_ l v).
Definition set_sessions (v : gset nat) (l : AdminListener) : AdminListener := ltac:(record_update listener_eta sessions_ l v).
Definition set_served (v : list nat) (l : AdminListener) : AdminListener := ltac:(record_update listener_eta served l v).
Definition set_told_to_stop (v : gset nat) (l : AdminListener) : AdminListener := ltac:(record_update listener_eta told_to_stop l v).
Definition set_listener_faults (v : list bool) (l : AdminListener) : AdminListener := ltac:(record_update listener_eta listener_faults l v).

Definition maximum_admin_connections : nat := 128.

(** The constructor, after open, bind and listen succeeded. *)
Definition new_admin_listener : AdminListener :=
  {| acceptor_open := true; accept_pending := false; retry_pending := false; accept_retry_delay_ := 10; listener_stopping_ := false;
     sessions_ := ∅; served := []; told_to_stop := ∅; listener_faults := [] |}.

(** ** Exceptions *)

Inductive result := Returned (l : AdminListener) | Raised (l : AdminListener).
Definition then_ (o : result) (k : AdminListener -> result) : result := match o with Returned l => k l | Raised l => Raised l end.
(** try { o } catch (...) { k } *)
Definition catch (o : result) (k : AdminListener -> result) : result := match o with Returned l => Returned l | Raised l => k l end.
Local Notation "l <~ o ;; k" := (then_ o (fun l => k)) (at level 100, o at next level, right associativity).

Definition may_throw (l : AdminListener) : result :=
  match listener_faults l with
  | true :: rest => Raised (set_listener_faults rest l)
  | false :: rest => Returned (set_listener_faults rest l)
  | [] => Returned l
  end.

(** ** Handlers *)

Definition not_accepting (l : AdminListener) : bool := listener_stopping_ l || negb (acceptor_open l).

Definition accept_next (l : AdminListener) : result :=
  if not_accepting l then Returned l else l <~ may_throw l;; Returned (set_accept_pending true l).

Definition schedule_accept_retry (l : AdminListener) : result :=
  if not_accepting l then Returned l
  else
    l <~ may_throw l;;                                       (* expires_after *)
    let l := set_accept_retry_delay (Z.min (accept_retry_delay_ l * 2) 1000) l in
    l <~ may_throw l;;                                       (* async_wait *)
    Returned (set_retry_pending true l).

(** Creating, registering and starting a session. *)
Definition serve_connection (session : nat) (l : AdminListener) : result :=
  l <~ may_throw l;;                                         (* make_shared *)
  l <~ may_throw l;;                                         (* sessions_.emplace *)
  let l := set_sessions ({[session]} ∪ sessions_ l) l in
  catch (l <~ may_throw l;; Returned (set_served (served l ++ [session]) l))        (* session->start() *)
    (fun l => Raised (set_sessions (sessions_ l ∖ {[session]}) l)).

(** [accept_result]: the error of a failed accept is [operation_aborted] or not. *)
Definition on_accept (accepted : bool + nat) (l : AdminListener) : result :=
  match accepted with
  | inl aborted =>
      if negb aborted && acceptor_open l && negb (listener_stopping_ l) then schedule_accept_retry l else Returned l
  | inr session =>
      if listener_stopping_ l then Returned l
      else
        let l := set_accept_retry_delay 10 l in
        if bool_decide (maximum_admin_connections <= size (sessions_ l))%nat then schedule_accept_retry l
        else match serve_connection session l with
             | Raised l => schedule_accept_retry l
             | Returned l => catch (accept_next l) schedule_accept_retry
             end
  end.

Definition on_accept_retry (aborted : bool) (l : AdminListener) : result := if aborted then Returned l else accept_next l.

Definition emergency_close_noexcept (l : AdminListener) : AdminListener := set_acceptor_open false (set_listener_stopping true l).

Definition recover_accept_noexcept (l : AdminListener) : AdminListener :=
  match schedule_accept_retry l with Returned l => l | Raised l => emergency_close_noexcept l end.

(** [guarded_handler]. *)
Definition guarded (o : result) : AdminListener := match o with Returned l => l | Raised l => recover_accept_noexcept l end.

(** The sessions are stopped; [closes_inside]: the close handler runs meanwhile. *)
Definition stop_on_executor (closes_inside : nat -> bool) (l : AdminListener) : option AdminListener :=
  let l := set_acceptor_open false l in
  visited ← visit_all closes_inside (elements (sessions_ l));
  Some (set_told_to_stop (told_to_stop l ∪ list_to_set visited) l).

(** [stop]: the flag at once, the rest on the strand, unless the dispatch throws. *)
Definition stop (dispatch_throws : bool) (closes_inside : nat -> bool) (l : AdminListener) : option AdminListener :=
  let l := set_listener_stopping true l in
  if dispatch_throws then Some (emergency_close_noexcept l) else stop_on_executor closes_inside l.

Definition session_closed (session : nat) (l : AdminListener) : AdminListener := set_sessions (sessions_ l ∖ {[session]}) l.

(** ** Runs *)

Inductive listener_event :=
| LAccept (accepted : bool + nat)
| LRetry (aborted : bool)
| LClosed (session : nat)
| LStop (dispatch_throws : bool) (closes_inside : nat -> bool).

Definition listener_enabled (e : listener_event) (l : AdminListener) : bool :=
  match e with
  | LAccept (inl aborted) => accept_pending l && (negb aborted || negb (acceptor_open l))
  | LAccept (inr session) => accept_pending l && bool_decide (session ∉ sessions_ l)
  | LRetry aborted => retry_pending l && (negb aborted || negb (acceptor_open l))
  | LClosed session => bool_decide (session ∈ sessions_ l)
  | LStop _ _ => true
  end.

Definition listener_step (e : listener_event) (throws : list bool) (l : AdminListener) : option AdminListener :=
  let l := set_listener_faults throws l in
  match e with
  | LAccept accepted => Some (guarded (on_accept accepted (set_accept_pending false l)))
  | LRetry aborted => Some (guarded (on_accept_retry aborted (set_retry_pending false l)))
  | LClosed session => Some (session_closed session l)
  | LStop dispatch_throws closes_inside => stop dispatch_throws closes_inside l
  end.

Inductive listener_reachable : AdminListener -> Prop :=
| listener_start throws l : accept_next (set_listener_faults throws new_admin_listener) = Returned l -> listener_reachable l
| listener_next e throws l l' :
    listener_reachable l -> listener_enabled e l = true -> listener_step e throws l = Some l' -> listener_reachable l'.

(** ** Invariant *)

Definition bounded (l : AdminListener) : Prop :=
  10 <= accept_retry_delay_ l <= 1000 /\ (size (sessions_ l) <= maximum_admin_connections)%nat.
Definition quiet (l : AdminListener) : Prop := accept_pending l = false /\ retry_pending l = false.
Definition hears (l : AdminListener) : Prop :=
  acceptor_open l = true -> listener_stopping_ l = false -> accept_pending l = negb (retry_pending l).
Definition sound (l : AdminListener) : Prop := bounded l /\ (accept_pending l && retry_pending l = false) /\ hears l.
Definition fine (o : result) : Prop := match o with Returned l => sound l | Raised l => bounded l /\ quiet l end.

Lemma may_throw_cases l : exists rest, may_throw l = Returned (set_listener_faults rest l) \/ may_throw l = Raised (set_listener_faults rest l).
Proof.
  unfold may_throw. destruct (listener_faults l) as [|[] rest] eqn:E; [exists []; left; rewrite <-E; by destruct l|exists rest; by right|exists rest; by left].
Qed.

Lemma quiet_deaf l : bounded l -> quiet l -> not_accepting l = true -> sound l.
Proof.
  intros Hb [E1 E2] Hn. split; [done|]. unfold hears. rewrite E1. split; [done|]. intros Ho Hs. unfold not_accepting in Hn. by rewrite Ho, Hs in Hn.
Qed.

Lemma accept_next_fine l : bounded l -> quiet l -> fine (accept_next l).
Proof.
  intros Hb Hq. unfold accept_next. destruct (not_accepting l) eqn:En; [by apply quiet_deaf|].
  destruct (may_throw_cases l) as [rest [-> | ->]]; cbn; [|done]. destruct Hq as [E1 E2]. split; [done|]. unfold hears. cbn. by rewrite E2.
Qed.

Lemma schedule_fine l : bounded l -> quiet l -> fine (schedule_accept_retry l).
Proof.
  intros Hb Hq. unfold schedule_accept_retry. destruct (not_accepting l) eqn:En; [by apply quiet_deaf|].
  destruct (may_throw_cases l) as [rest [-> | ->]]; cbn [then_ fine]; [|done]. cbv zeta.
  match goal with |- context [may_throw ?x] => destruct (may_throw_cases x) as [rest' [-> | ->]] end; cbn; destruct Hb as [Hd Hs], Hq as [E1 E2].
  - split; [split; cbn; [lia|done]|]. unfold hears. cbn. by rewrite E1.
  - split; [split; cbn; [lia|done]|done].
Qed.

Lemma catch_fine o : fine o -> fine (catch o schedule_accept_retry).
Proof. destruct o; cbn; [done|]. intros [Hb Hq]. by apply schedule_fine. Qed.

Definition state_of (o : result) : AdminListener := match o with Returned l | Raised l => l end.

Lemma serve_fine session l : bounded l -> quiet l -> (size (sessions_ l) < maximum_admin_connections)%nat -> session ∉ sessions_ l ->
  bounded (state_of (serve_connection session l)) /\ quiet (state_of (serve_connection session l)).
Proof.
  intros [Hd Hs] Hq Hlt Hn. unfold serve_connection.
  destruct (may_throw_cases l) as [r1 [-> | ->]]; cbn [then_ state_of]; [|done].
  destruct (may_throw_cases (set_listener_faults r1 l)) as [r2 [-> | ->]]; cbn [then_ state_of]; [|done]. cbv zeta.
  match goal with |- context [may_throw ?x] => destruct (may_throw_cases x) as [r3 [-> | ->]] end; cbn [then_ catch state_of]; (split; [split; [done|]|done]); cbn.
  - rewrite size_union, size_singleton by set_solver. lia.
  - replace (({[session]} ∪ sessions_ l) ∖ {[session]}) with (sessions_ l) by set_solver. done.
Qed.

Lemma on_accept_fine accepted l : bounded l -> quiet l -> (forall session, accepted = inr session -> session ∉ sessions_ l) ->
  (accepted = inl true -> acceptor_open l = false) -> fine (on_accept accepted l).
Proof.
  intros Hb Hq Hn Ha. destruct accepted as [aborted|session]; cbn [on_accept].
  - destruct (negb aborted && _ && _) eqn:E; [by apply schedule_fine|]. apply quiet_deaf; [done..|]. unfold not_accepting.
    destruct aborted; [rewrite Ha by done; by rewrite orb_true_r|]. cbn in E. destruct (acceptor_open l), (listener_stopping_ l); done.
  - destruct (listener_stopping_ l) eqn:Es; [apply quiet_deaf; [done..|]; unfold not_accepting; by rewrite Es|]. cbv zeta.
    assert (Hb' : bounded (set_accept_retry_delay 10 l)) by (split; cbn; [lia|apply Hb]).
    case_bool_decide as Hlt; [by apply schedule_fine|]. apply Nat.nle_gt in Hlt.
    destruct (serve_fine session (set_accept_retry_delay 10 l)) as [H1 H2]; [done..|by apply Hn|].
    destruct (serve_connection _ _) as [l1|l1]; cbn in H1, H2; [by apply catch_fine, accept_next_fine|by apply schedule_fine].
Qed.

Lemma emergency_sound l : bounded l -> quiet l -> sound (emergency_close_noexcept l).
Proof. intros Hb Hq. by apply quiet_deaf. Qed.

Lemma guarded_sound o : fine o -> sound (guarded o).
Proof.
  destruct o as [l|l]; cbn; [done|]. intros [Hb Hq]. unfold recover_accept_noexcept. pose proof (schedule_fine l Hb Hq) as Hf.
  destruct (schedule_accept_retry l) as [l'|l']; cbn in Hf; [done|]. destruct Hf. by apply emergency_sound.
Qed.

Lemma stop_sound dispatch_throws closes_inside l l' : sound l -> stop dispatch_throws closes_inside l = Some l' ->
  sound l' /\ acceptor_open l' = false /\ listener_stopping_ l' = true.
Proof.
  intros (Hb & He & Hh) E. unfold stop, stop_on_executor in E. destruct dispatch_throws; [|destruct (visit_all _ _); cbn in E; [|done]].
  all: injection E as <-; split; [split_and!; [done|done|by intros ?]|done].
Qed.

Lemma listener_step_sound e throws l l' : sound l -> listener_enabled e l = true -> listener_step e throws l = Some l' -> sound l'.
Proof.
  intros Hs He E. pose proof Hs as (Hb & Hx & Hh). destruct e as [accepted|aborted|session|dispatch_throws closes_inside]; cbn [listener_step] in E.
  - injection E as <-. assert (Hp : accept_pending l = true) by (destruct accepted; cbn in He; bool_to_prop; done). rewrite Hp in Hx. cbn in Hx.
    apply guarded_sound, on_accept_fine; [done|done|..].
    + intros session ->. cbn in He. apply andb_true_iff in He as [_ He]. by apply bool_decide_eq_true in He.
    + intros ->. cbn in He. rewrite Hp in He. cbn in *. by destruct (acceptor_open l).
  - injection E as <-. cbn in He. apply andb_true_iff in He as [Hp He]. rewrite Hp, andb_true_r in Hx. unfold on_accept_retry.
    destruct aborted; [|by apply guarded_sound, accept_next_fine]. cbn [guarded]. apply quiet_deaf; [done..|]. unfold not_accepting. cbn in *.
    destruct (acceptor_open l); [done|]. by rewrite orb_true_r.
  - injection E as <-. destruct Hb as [Hd Hz]. split; [|done]. split; [done|]. cbn. etrans; [|exact Hz]. apply subseteq_size. set_solver.
  - by eapply stop_sound; [|exact E].
Qed.

Lemma listener_reachable_sound l : listener_reachable l -> sound l.
Proof.
  induction 1 as [throws l E|e throws l l' _ IH He E]; [|by eapply listener_step_sound].
  pose proof (accept_next_fine (set_listener_faults throws new_admin_listener)) as Hf. rewrite E in Hf. apply Hf; [|done].
  split; cbn; [lia|]. rewrite size_empty. unfold maximum_admin_connections. lia.
Qed.

(** ** Theorems *)

(** Whatever throws and in whatever order handlers run, the administration listener
    never goes deaf: while its acceptor is open and it is not stopping, exactly one of
    an accept and a retry is outstanding, the delay is between 10 ms and 1 s, and it
    never holds more than 128 sessions; after a stop that is defined the acceptor is
    closed and every session has been told to stop. *)
Theorem admin_listener_never_deaf l : listener_reachable l ->
  (acceptor_open l = true -> listener_stopping_ l = false -> accept_pending l = negb (retry_pending l)) /\
  10 <= accept_retry_delay_ l <= 1000 /\
  (size (sessions_ l) <= maximum_admin_connections)%nat /\
  (forall throws closes_inside l', listener_step (LStop false closes_inside) throws l = Some l' ->
     acceptor_open l' = false /\ sessions_ l' ⊆ told_to_stop l').
Proof.
  intros Hs%listener_reachable_sound. pose proof Hs as ([Hd Hz] & Hx & Hh). split_and!; [done|lia..|lia|].
  intros throws closes_inside l' E. cbn in E. unfold stop_on_executor in E. cbn in E.
  destruct (visit_all closes_inside _) as [visited|] eqn:Ev; cbn in E; [|done]. injection E as <-. split; [done|]. cbn.
  assert (Hv : visited = elements (sessions_ l)).
  { destruct (decide (Forall (fun k => closes_inside k = false) (elements (sessions_ l)))) as [Hf|Hf]; [rewrite visit_all_some in Ev by done; congruence|].
    apply not_Forall_Exists in Hf; [|apply _]. apply Exists_exists in Hf as (k & Hk & Hc). apply not_false_is_true in Hc.
    by erewrite visit_all_none in Ev. }
  rewrite Hv, list_to_set_elements_L. set_solver.
Qed.

(** A session that is open closes inside its [stop()] (the strand of the session is
    free, for there is one thread), and its close handler runs inside as well: the
    loop of [stop_on_executor] then stands on an entry that was erased. *)
Definition closes_when_stopped (sessions : nat -> AdminSession) (session : nat) : bool :=
  match step (EStop false) [] (sessions session) with
  | Done l => negb (Nat.eqb (closes l) (closes (sessions session)))
  | _ => false
  end.

Theorem stop_with_open_session_undefined sessions session throws l :
  session ∈ sessions_ l -> reachable (sessions session) -> closed_ (sessions session) = false ->
  listener_step (LStop false (closes_when_stopped sessions)) throws l = None.
Proof.
  intros Hin Hr Hc. cbn. unfold stop_on_executor. cbn. erewrite visit_all_none; [done|by apply elem_of_elements|].
  unfold closes_when_stopped. pose proof (session_reachable_inv _ Hr) as Hi.
  destruct (admin_step_good (EStop false) [] _ Hi eq_refl eq_refl) as (l' & E & Hi'). rewrite E.
  assert (Hc' : closed_ l' = true) by exact (proj2 (close_inv (set_faults [] (sessions session)) (admin_inv_faults _ _ Hi)) l' E).
  pose proof (wk_close _ (iv_weak _ Hi)) as W. pose proof (wk_close _ (iv_weak _ Hi')) as W'.
  pose proof (iv_closed _ Hi) as C. pose proof (iv_closed _ Hi') as C'. rewrite Hc in C. rewrite Hc' in C'.
  destruct (on_close_ (sessions session)), (on_close_ l'); cbn in *; try done. apply negb_true_iff, Nat.eqb_neq. lia.
Qed.

(** An accept fails, the retry succeeds, a session is served but the next accept cannot be started. *)
Definition started_listener : AdminListener := state_of (accept_next new_admin_listener).
Definition next_state (e : listener_event) (throws : list bool) (l : AdminListener) : AdminListener := default l (listener_step e throws l).
Definition served_listener : AdminListener :=
  next_state (LAccept (inr 7%nat)) [false; false; false; true] (next_state (LRetry false) [] (next_state (LAccept (inl false)) [] started_listener)).

Lemma admin_listener_never_deaf_witness :
  accept_pending served_listener = false /\ retry_pending served_listener = true /\ sessions_ served_listener = {[7%nat]} /\
  accept_pending served_listener = negb (retry_pending served_listener).
Proof.
  split_and!; [vm_compute; reflexivity..|].
  refine (proj1 (admin_listener_never_deaf served_listener _) _ _); [|vm_compute; reflexivity..].
  apply (listener_next (LAccept (inr 7%nat)) [false; false; false; true] (next_state (LRetry false) [] (next_state (LAccept (inl false)) [] started_listener))); [|vm_compute; reflexivity..].
  apply (listener_next (LRetry false) [] (next_state (LAccept (inl false)) [] started_listener)); [|vm_compute; reflexivity..].
  apply (listener_next (LAccept (inl false)) [] started_listener); [|vm_compute; reflexivity..].
  apply (listener_start []). reflexivity.
Defined.
