(* ===== verification/AdminAssets.v ===== *)
(** * Files of the administration interface (src/src/admin/AdminServer.cpp, static_response)

    A request whose target is not under /api/ is answered from the directory of the
    interface's own files, without authentication.  The program is a Windows program
    built with Visual C++: paths are those of its [std::filesystem], with [/] and [\] as
    separators, drive letters, UNC names and alternate data streams.  Texts are bytes; the
    conversion of the target to UTF-16, which can only throw or keep ASCII as it is, is
    left out.  The file system is a parameter that tells what [exists],
    [is_regular_file] and [std::ifstream] find at a path.

    The theorem: an answer with status 200 is a file whose path lies below the root, with
    the browser's protections switched on, unless what follows the first slash of the
    target is itself rooted: a second slash, or a drive letter and a colon.  Then it is any file
    of the drive, of another drive or of a network share ([double_slash_leaves_root],
    [drive_letter_leaves_root]). *)

From S2P Require Import Prelude AdminJson.

(** ** Paths *)

Definition is_slash (c : ascii) : bool := is_char c "/" || is_char c "\".
Definition starts_slash (path : str) : bool := match path with c :: _ => is_slash c | [] => false end.

Definition has_drive (path : str) : bool :=
  match path with letter :: colon :: _ => (isupper letter || islower letter) && is_char colon ":" | _ => false end.

(** The prefixes [\\?\], [\\.\] and [\??\]. *)
Definition device_prefix (path : str) : bool :=
  match path with
  | a :: b :: c :: d :: after =>
      is_slash a && is_slash d && negb (starts_slash after) &&
      (is_slash b && (is_char c "?" || is_char c ".") || is_char b "?" && is_char c "?")
  | _ => false
  end.

Fixpoint until_slash (path : str) : nat :=
  match path with c :: path' => if is_slash c then 0%nat else S (until_slash path') | [] => 0%nat end.

(** The length of [root_name()]: [C:], [\\?] and the like, or [\\server]. *)
Definition root_name_length (path : str) : nat :=
  if has_drive path then 2%nat
  else if device_prefix path then 3%nat
  else match path with
       | a :: b :: c :: after => if is_slash a && is_slash b && negb (is_slash c) then (3 + until_slash after)%nat else 0%nat
       | _ => 0%nat
       end.
Definition root_name (path : str) : str := take (root_name_length path) path.

Definition is_absolute (path : str) : bool :=
  if has_drive path then starts_slash (drop 2 path) else (0 <? root_name_length path)%nat.

(** [operator/]: an absolute right side, or one of another root name, replaces the left
    one; one with a root directory replaces all but the left root name. *)
Definition append (left right : str) : str :=
  if is_absolute right then right
  else if negb (bool_decide (root_name right = [])) && negb (bool_decide (root_name left = root_name right)) then right
  else
    let rest := drop (root_name_length right) right in
    if starts_slash rest then root_name left ++ rest
    else if bool_decide (root_name left = left) then left ++ (if (3 <=? length left)%nat then b!"\" else []) ++ rest
    else if starts_slash (reverse left) then left ++ rest
    else left ++ b!"\" ++ rest.

(** Both separators as [/]. *)
Definition generic (path : str) : str := map (fun c => if is_slash c then "/"%char else c) path.

Definition filename (path : str) : str :=
  let rest := drop (root_name_length path) path in
  match rfind_char "/" (generic rest) with Some slash => drop (S slash) rest | None => rest end.

(** The name of an alternate data stream does not belong to the extension. *)
Definition extension (path : str) : str :=
  let name := (break_at ":" (filename path)).1 in
  if bool_decide (name = b!".") || bool_decide (name = b!"..") then []
  else match rfind_char "." name with
       | Some (S dot) => drop (S dot) name
       | _ => []
       end.

(** What the file system has at a path; for a regular file, what opening and reading
    it gives. *)
Inductive entry :=
| missing
| regular (content : option str)
| special                                 (* a directory, a device, ... *)
| stat_error.                             (* [exists] throws [filesystem_error] *)

(** ** Responses *)

Definition content_type (path : str) : str :=
  let e := extension path in
  if bool_decide (e = b!".html") then b!"text/html; charset=utf-8"
  else if bool_decide (e = b!".js") then b!"text/javascript; charset=utf-8"
  else if bool_decide (e = b!".css") then b!"text/css; charset=utf-8"
  else if bool_decide (e = b!".json") then b!"application/json; charset=utf-8"
  else if bool_decide (e = b!".svg") then b!"image/svg+xml"
  else if bool_decide (e = b!".png") then b!"image/png"
  else if bool_decide (e = b!".ico") then b!"image/x-icon"
  else if bool_decide (e = b!".woff2") then b!"font/woff2"
  else b!"application/octet-stream".

Definition content_security_policy : str :=
  b!"default-src 'self'; img-src 'self' data:; style-src 'self'; script-src 'self'; base-uri 'none'; frame-ancestors 'none'; form-action 'self'".

Definition browser_headers : list (str * str) :=
  [(b!"Content-Security-Policy", content_security_policy); (b!"X-Content-Type-Options", b!"nosniff");
   (b!"X-Frame-Options", b!"DENY"); (b!"Referrer-Policy", b!"no-referrer"); (b!"Cache-Control", b!"no-store")].

Definition set_browser_security_headers (r : Response) : Response :=
  fold_left (fun r field => set_field field.1 field.2 r) browser_headers r.

Definition plain_response (request : Request) (status : Z) (kind body : str) : Response :=
  set_browser_security_headers
    {| rs_status := status; rs_version := r_version request; rs_fields := [(b!"Content-Type", kind)];
       rs_keep_alive := r_keep_alive request; rs_body := body |}.

Definition text_response (request : Request) (status : Z) (body : str) : Response :=
  plain_response request status b!"text/plain; charset=utf-8" body.

Section Assets.
Variable files : str -> entry.

(** [exists(path)] and [is_regular_file(path)]; a missing file is not asked for its kind. *)
Definition is_file (path : str) : res bool :=
  match files path with
  | missing | special => Ok false
  | regular _ => Ok true
  | stat_error => Throw (runtime_error b!"filesystem error")
  end.

Definition invalid_path (path : str) : bool :=
  bool_decide (path = []) || negb (starts_with b!"/" path) || contains_str b!".." path ||
  contains_char "\" path || contains_char "%" path.

(** The file a valid path names: itself, or the page when it has no extension and is not a file. *)
Definition asset_path (root path : str) : res str :=
  let path := if bool_decide (path = b!"/") then b!"/index.html" else path in
  let file_path := append root (drop 1 path) in
  present ← is_file file_path;
  if negb present && bool_decide (extension path = []) then Ok (append root b!"index.html") else Ok file_path.

Definition static_response (request : Request) (root : str) : res Response :=
  if negb (bool_decide (r_method request = verb_get)) && negb (bool_decide (r_method request = verb_head))
  then Ok (text_response request 405 b!"Method Not Allowed")
  else
    let path := request_path request in
    if invalid_path path then Ok (text_response request 400 b!"Invalid path")
    else
      file_path ← asset_path root path;
      present ← is_file file_path;
      if negb present then Ok (text_response request 404 b!"Not Found")
      else match files file_path with
           | regular (Some body) =>
               let response := plain_response request 200 (content_type file_path) in
               if bool_decide (r_method request = verb_head)
               then Ok (set_field b!"Content-Length" (to_string (Z.of_nat (length body))) (response []))
               else Ok (response body)
           | _ => Ok (text_response request 500 b!"Cannot read admin asset")
           end.

End Assets.

(** ** Where a path leads *)

(** Walking down the segments: empty ones and [.] stay, [..] goes up. *)
Definition walk (at_ : list str) (segment : str) : list str :=
  if bool_decide (segment = []) || bool_decide (segment = b!".") then at_
  else if bool_decide (segment = b!"..") then removelast at_
  else at_ ++ [segment].
Definition location (path : str) : list str :=
  fold_left walk (split "/" (generic (drop (root_name_length path) path))) [].

(** An absolute path on a drive, and the paths below it, by their text. *)
Definition on_drive (path : str) : Prop := has_drive path = true /\ is_absolute path = true.
Definition below (root file : str) : Prop :=
  on_drive file /\ root_name file = root_name root /\ location root `prefix_of` location file.

(** What [operator/] does not append to its left side. *)
Definition rooted (path : str) : bool := starts_slash path || has_drive path.

Lemma split_cat c a b : split c (a ++ c :: b) = split c a ++ split c b.
Proof.
  induction a as [|x a IH]; cbn; unfold is_char; [by rewrite bool_decide_eq_true_2|]. rewrite IH. case_bool_decide; [done|].
  pose proof (split_nonnil c a). by destruct (split c a).
Qed.

Lemma find_str_inside p before after : is_Some (find_str p (before ++ p ++ after)).
Proof.
  induction before as [|x before IH]; cbn.
  - destruct (p ++ after) as [|x r] eqn:E; cbn; rewrite <-?E; [by destruct p|]. rewrite E. cbn.
    pose proof (starts_with_app p after) as Hs. rewrite E in Hs. rewrite Hs. eauto.
  - destruct (starts_with p _); [eauto|]. destruct IH as [i ->]. cbn. eauto.
Qed.

(** A text without [..] has no segment [..]. *)
Lemma no_parent_segment path : contains_str b!".." path = false -> b!".." ∉ split "/" path.
Proof.
  unfold contains_str. intros Hc Hin. apply bool_decide_eq_false in Hc. apply Hc. clear Hc.
  rewrite <-(join_split "/" path). apply list_elem_of_split in Hin as (l1 & l2 & ->).
  assert (Hj : exists before after, join "/" (l1 ++ b!".." :: l2) = before ++ b!".." ++ after).
  { induction l1 as [|s l1 (before & after & IH)]; cbn [app].
    - exists []. destruct l2; [by exists []|]. eexists. done.
    - exists (s ++ "/"%char :: before), after. cbn [join]. destruct (l1 ++ b!".." :: l2) eqn:E; [by destruct l1|]. rewrite IH, <-app_assoc. done. }
  destruct Hj as (before & after & ->). apply find_str_inside.
Qed.

Lemma walk_down segments at_ : b!".." ∉ segments -> at_ `prefix_of` fold_left walk segments at_.
Proof.
  revert at_. induction segments as [|s segments IH]; intros at_ Hn; [done|]. cbn [fold_left].
  etrans; [|apply IH; set_solver]. unfold walk. destruct (_ || _); [done|]. rewrite bool_decide_eq_false_2 by set_solver. by apply prefix_app_r.
Qed.

Lemma generic_app a b : generic (a ++ b) = generic a ++ generic b.
Proof. apply map_app. Qed.

Lemma generic_id path : contains_char "\" path = false -> generic path = path.
Proof.
  rewrite contains_char_false. intros Hn. unfold generic. rewrite <-(map_id path) at 2. apply map_ext_in. intros c Hc.
  destruct (is_slash c) eqn:Es; [|done]. apply orb_true_iff in Es as [->%is_char_spec| ->%is_char_spec]; [done|].
  apply list_elem_of_In in Hc. done.
Qed.

Lemma rooted_none path : rooted path = false -> root_name_length path = 0%nat /\ is_absolute path = false /\ starts_slash path = false.
Proof.
  unfold rooted. intros [Hs Hd]%orb_false_iff. unfold is_absolute, root_name_length. rewrite Hd.
  assert (device_prefix path = false) as ->.
  { destruct path as [|a [|b [|c [|d l]]]]; try done. cbn in *. by rewrite Hs. }
  assert (match path with a :: b :: c :: after => if is_slash a && is_slash b && negb (is_slash c) then (3 + until_slash after)%nat else 0%nat | _ => 0%nat end = 0%nat) as ->; [|done].
  destruct path as [|a [|b [|c l]]]; try done. cbn in *. by rewrite Hs.
Qed.

(** A path on a drive, taken apart. *)
Lemma on_drive_cases path : on_drive path ->
  exists letter s rest, path = letter :: ":"%char :: s :: rest /\ is_slash s = true /\ isupper letter || islower letter = true.
Proof.
  intros [Hd Ha]. unfold is_absolute in Ha. rewrite Hd in Ha. destruct path as [|letter [|colon [|s rest]]]; try done.
  apply andb_true_iff in Hd as [Hl ->%is_char_spec]. by exists letter, s, rest.
Qed.
Lemma drive_root_name letter rest : isupper letter || islower letter = true ->
  has_drive (letter :: ":"%char :: rest) = true /\ root_name_length (letter :: ":"%char :: rest) = 2%nat.
Proof.
  intros Hl. assert (has_drive (letter :: ":"%char :: rest) = true) as Hd by (cbn; by rewrite Hl).
  split; [done|]. unfold root_name_length. by rewrite Hd.
Qed.

Lemma append_unrooted root rest : on_drive root -> rooted rest = false ->
  append root rest = root ++ (if starts_slash (reverse root) then [] else b!"\") ++ rest.
Proof.
  intros Hr (Hn & Ha & Hs)%rooted_none. unfold append, root_name. rewrite Ha, Hn, take_0, drop_0, Hs. cbn [negb andb].
  rewrite bool_decide_eq_true_2 by done. cbn [negb andb].
  destruct (on_drive_cases root Hr) as (letter & s & r & -> & _ & Hl). destruct (drive_root_name letter (s :: r) Hl) as [_ ->].
  cbn [take]. rewrite bool_decide_eq_false_2 by (intros E; discriminate E). by case_match.
Qed.

Lemma below_append root rest : on_drive root -> rooted rest = false -> contains_char "\" rest = false -> contains_str b!".." rest = false ->
  below root (append root rest).
Proof.
  intros Hr Hu Hb Hn%no_parent_segment. rewrite (append_unrooted root rest Hr Hu).
  destruct (on_drive_cases root Hr) as (letter & s & r & -> & Hs & Hl).
  set (sep := if starts_slash _ then _ else _). cbn [app].
  destruct (drive_root_name letter (s :: r ++ sep ++ rest) Hl) as [Hd Hlen], (drive_root_name letter (s :: r) Hl) as [_ Hlen'].
  split; [split; [done|unfold is_absolute; by rewrite Hd]|]. unfold root_name, location. rewrite Hlen, Hlen'. split; [done|].
  cbn [drop]. change (s :: r ++ sep ++ rest) with ((s :: r) ++ sep ++ rest).
  rewrite !generic_app, (generic_id rest Hb). unfold sep. destruct (starts_slash _) eqn:El.
  - destruct (exists_last (l := s :: r)) as (q & x & Eq); [done|]. rewrite Eq in *.
    change (letter :: ":"%char :: q ++ [x]) with ((letter :: ":"%char :: q) ++ [x]) in El. rewrite reverse_snoc in El. cbn in El.
    rewrite generic_app. change (generic [x]) with [if is_slash x then "/"%char else x]. change (generic []) with (@nil ascii).
    rewrite El, app_nil_l, <-app_assoc. cbn [app]. rewrite (split_cat "/" _ []), (split_cat "/" _ rest), !fold_left_app. by apply walk_down.
  - change (generic b!"\" ++ rest) with ("/"%char :: rest). rewrite (split_cat "/" _ rest), fold_left_app. by apply walk_down.
Qed.

(** ** Theorems *)

Definition has_field (field : str * str) (r : Response) : Prop := field ∈ rs_fields r.

Lemma hardened_plain request status kind body : Forall (fun f => has_field f (plain_response request status kind body)) browser_headers.
Proof. repeat constructor; unfold has_field, plain_response; cbn; rewrite ?elem_of_cons; naive_solver. Qed.

Lemma kept_field f name value r : f.1 <> name -> has_field f r -> has_field f (set_field name value r).
Proof. intros Hn Hf. unfold has_field. cbn. apply elem_of_app. left. by apply list_elem_of_filter. Qed.
Lemma set_field_has name value r : has_field (name, value) (set_field name value r).
Proof. unfold has_field. cbn. apply elem_of_app. right. by apply list_elem_of_singleton. Qed.
Lemma plain_type request status kind body : has_field (b!"Content-Type", kind) (plain_response request status kind body).
Proof.
  unfold plain_response, set_browser_security_headers, browser_headers. cbn [fold_left].
  repeat (apply kept_field; [discriminate|]). by apply list_elem_of_singleton.
Qed.

Lemma break_at_prefix c s : exists rest, s = (break_at c s).1 ++ rest.
Proof.
  induction s as [|x s [rest IH]]; cbn; [by exists []|]. destruct (is_char x c); [by eexists|].
  destruct (break_at c s) as [seg after]. cbn in *. exists rest. by rewrite IH at 1.
Qed.

Lemma contains_str_tail p x s : contains_str p (x :: s) = false -> contains_str p s = false.
Proof.
  unfold contains_str. rewrite !bool_decide_eq_false. intros Hn [i Hi]. apply Hn. apply find_str_Some in Hi. rewrite Hi.
  apply (find_str_inside p (x :: take i s)).
Qed.

Lemma contains_char_tail c x s : contains_char c (x :: s) = false -> contains_char c s = false.
Proof. rewrite !contains_char_false. intros Hn Hin. apply Hn. by right. Qed.

(** What follows the first slash of a target, the query left out. *)
Definition target_rest (target : str) : str := drop 1 (break_at "?" target).1.

Lemma asset_below files root target file : on_drive root ->
  invalid_path (break_at "?" target).1 = false -> rooted (target_rest target) = false ->
  asset_path files root (break_at "?" target).1 = Ok file -> below root file.
Proof.
  unfold target_rest. generalize (break_at "?" target).1 as path. intros path Hr Hv Hs Ha.
  assert (Hindex : below root (append root b!"index.html")) by (by apply below_append).
  unfold invalid_path in Hv. rewrite !orb_false_iff in Hv. destruct Hv as ((((_ & Hslash) & Hdots) & Hback) & _).
  apply negb_false_iff, starts_with_spec in Hslash as [rest ->]. change (drop 1 (b!"/" ++ rest)) with rest in *.
  assert (Hin : below root (append root rest)).
  { apply below_append; [done..|exact (contains_char_tail _ _ _ Hback)|exact (contains_str_tail _ _ _ Hdots)]. }
  unfold asset_path in Ha. destruct (is_file files _) as [present|] eqn:Ef; [|done]. cbn [res_bind mbind] in Ha.
  destruct (negb present && _); injection Ha as <-; [done|]. destruct rest as [|x rest]; [done|].
  rewrite bool_decide_eq_false_2 by done. done.
Qed.


(** A valid path is served from where [operator/] puts it. *)
Lemma appended_file_served files request root rest content :
  r_method request = verb_get -> request_path request = b!"/" ++ rest -> rest <> [] -> invalid_path (b!"/" ++ rest) = false ->
  files (append root rest) = regular (Some content) ->
  exists response, static_response files request root = Ok response /\ rs_status response = 200 /\ rs_body response = content.
Proof.
  intros Hm Hq Hne Hv Hf. unfold static_response. rewrite Hm. rewrite bool_decide_eq_true_2 by done. cbn [negb andb].
  cbv zeta. rewrite Hq, Hv. unfold asset_path. cbv zeta. rewrite (bool_decide_eq_false_2 (b!"/" ++ rest = b!"/")) by (by destruct rest).
  change (drop 1 (b!"/" ++ rest)) with rest. unfold is_file. rewrite Hf. cbn [res_bind mbind negb andb].
  rewrite Hf. cbn [res_bind mbind negb]. rewrite (bool_decide_eq_false_2 (verb_get = verb_head)) by done. by eexists.
Qed.

Lemma path_no_query request : "?"%char ∉ request_path request.
Proof.
  unfold request_path. destruct (break_at "?" (r_target request)) as [seg [r|]] eqn:E; cbn.
  - by apply break_at_Some in E as [_ ?].
  - by apply break_at_None in E as [-> ?].
Qed.

(** A target with two slashes: the right side of [operator/] has a root directory, only
    the drive of the root is kept, and any file of that drive is served. *)
Theorem double_slash_leaves_root files request root rest content :
  r_method request = verb_get -> request_path request = b!"//" ++ rest -> starts_slash rest = false ->
  invalid_path (request_path request) = false -> files (root_name root ++ b!"/" ++ rest) = regular (Some content) ->
  exists response, static_response files request root = Ok response /\ rs_status response = 200 /\ rs_body response = content.
Proof.
  intros Hm Hq Hs Hv Hf. apply (appended_file_served files request root (b!"/" ++ rest)); [done..|by rewrite Hq in Hv|].
  assert (Hn : root_name_length (b!"/" ++ rest) = 0%nat /\ is_absolute (b!"/" ++ rest) = false).
  { assert (has_drive (b!"/" ++ rest) = false) as Hd by by destruct rest.
    unfold is_absolute, root_name_length. rewrite Hd. rewrite Hq in Hv.
    assert (Ha : forall a l, rest = a :: l -> is_char a "?" = false).
    { intros a l ->. apply not_true_iff_false. intros ->%is_char_spec. apply (path_no_query request). rewrite Hq. set_solver. }
    destruct rest as [|a [|b [|c l]]]; try done; specialize (Ha _ _ eq_refl); cbn in Hs |- *; rewrite Hs, ?Ha; cbn [andb orb].
    all: by rewrite ?andb_false_l, ?andb_false_r. }
  unfold append, root_name. destruct Hn as [-> ->]. rewrite take_0, drop_0, (bool_decide_eq_true_2 ([] = [])) by done. done.
Qed.

(** A target that names a drive: the root is dropped, and any file of the machine is served. *)
Theorem drive_letter_leaves_root files request root file content :
  r_method request = verb_get -> request_path request = b!"/" ++ file -> on_drive file ->
  invalid_path (request_path request) = false -> files file = regular (Some content) ->
  exists response, static_response files request root = Ok response /\ rs_status response = 200 /\ rs_body response = content.
Proof.
  intros Hm Hq [Hd Ha] Hv Hf. apply (appended_file_served files request root file); [done..| |by rewrite Hq in Hv|].
  - by intros ->.
  - unfold append. by rewrite Ha.
Qed.

(** A HEAD request for what is not there is answered with a body. *)
Theorem head_error_has_body files request root :
  r_method request = verb_head -> invalid_path (request_path request) = true ->
  exists response, static_response files request root = Ok response /\ rs_body response = b!"Invalid path" /\ rs_keep_alive response = r_keep_alive request.
Proof.
  intros Hm Hv. unfold static_response. rewrite Hm, Hv, (bool_decide_eq_true_2 (verb_head = verb_head)) by done. rewrite andb_false_r. by eexists.
Qed.

Definition asset_request (method : verb) (target : str) : Request :=
  {| r_method := method; r_target := target; r_field _ := []; r_body := []; r_keep_alive := true; r_version := 11 |}.
Definition sample_files (path : str) : entry :=
  if bool_decide (path = b!"D:\srv\ui\index.html") then regular (Some b!"<html>")
  else if bool_decide (path = b!"D:\srv\ui\app.js") then regular (Some b!"run()")
  else if bool_decide (path = b!"D:/data/webserver.db") then regular (Some b!"SQLite format 3")
  else if bool_decide (path = b!"C:/Windows/win.ini") then regular (Some b!"[fonts]")
  else if bool_decide (path = b!"//host/share/x.js") then regular (Some b!"remote()")
  else missing.
Definition asked (target : str) : res (Z * str) :=
  response ← static_response sample_files (asset_request verb_get target) b!"D:\srv\ui"; Ok (rs_status response, rs_body response).

Example asset_served : asked b!"/app.js?v=2" = Ok (200, b!"run()").
Proof. vm_compute. reflexivity. Qed.
(** A page of the interface that is not a file is the page itself. *)
Example page_served : asked b!"/sites/7" = Ok (200, b!"<html>").
Proof. vm_compute. reflexivity. Qed.
Example asset_missing : asked b!"/missing.css" = Ok (404, b!"Not Found").
Proof. vm_compute. reflexivity. Qed.
Example parent_refused : asked b!"/../../etc/passwd" = Ok (400, b!"Invalid path").
Proof. vm_compute. reflexivity. Qed.
Example other_file_served : asked b!"//data/webserver.db" = Ok (200, b!"SQLite format 3").
Proof. vm_compute. reflexivity. Qed.
Example other_drive_served : asked b!"/C:/Windows/win.ini" = Ok (200, b!"[fonts]").
Proof. vm_compute. reflexivity. Qed.
Example share_served : asked b!"///host/share/x.js" = Ok (200, b!"remote()").
Proof. vm_compute. reflexivity. Qed.
(** The same drive in another place of the name is no root: it is a data stream. *)
Example stream_missing : asked b!"/x/C:/Windows/win.ini" = Ok (404, b!"Not Found").
Proof. vm_compute. reflexivity. Qed.

