(* ===== verification/AdminApi.v ===== *)
(** * Administration interface (src/src/admin/AdminApi.{hpp,cpp})

    [handle] answers one request: it authenticates it, dispatches on method and
    path and calls the configuration service, the authentication service, the
    registries and the log.  The state is the two services, which share the
    database; what the read-only pages show of the other components, the clocks, the
    random bytes and the failures of statements are inputs ([Call]).  The interface
    runs on one thread, so a request is one step. *)

From S2P Require Import Prelude BackendProbe LogManager ConnectionRegistry IpAddress HostNormalizer ClientIpResolver UrlAuthenticator Json.
From S2P Require Import RateLimiter RequestPolicy VirtualHostRouter TlsContextManager RuntimeConfig BackendConcurrencyLimiter.
From S2P Require Import AuthService ConfigRepository ConfigService ConfigServiceSpec ConfigBackup AdminJson.

(** ** Inputs *)

(** ServerCore.hpp, [ListenerStatus]. *)
Record ListenerStatus := {
  ls_protocol : str;
  ls_address : str;
  ls_configured_port : Z;
  ls_bound_port : Z;
  ls_site_count : nat;
  ls_status : str
}.

(** What the rest of the process is when the request arrives. *)
Record Surroundings := {
  now_steady : Z;                                   (* the clock of the registries *)
  connection_table : ConnectionTable;
  request_table : RequestTable;
  limiter_state : Impl;
  listener_status_provider_ : option (list ListenerStatus);
  logger_ : option (nat * gmap nat str * gmap nat str)   (* rotated files, access log, error log *)
}.

Record Call := {
  remote_ip : str;
  authorize_now : Z;
  check_now : Z;
  later_now : Z;
  exported_at_unix : Z;
  uptime_seconds : Z;
  salt_input : option str;
  token_input : option str;
  faults : nat -> fault;               (* of the service calls of the request, in order *)
  error_message : error_code -> str;
  probe_inputs : ProbeInputs;          (* of a blocking backend test *)
  around : Surroundings
}.

(** ** Answers *)

Section Responses.
Context `{JsonText}.

Definition json_response (request : Request) (status : Z) (body : json) : res Response :=
  text ← dump body;
  Ok {| rs_status := status; rs_version := r_version request;
        rs_fields := [(b!"Content-Type", b!"application/json; charset=utf-8"); (b!"Cache-Control", b!"no-store");
                      (b!"X-Content-Type-Options", b!"nosniff"); (b!"Referrer-Policy", b!"no-referrer")];
        rs_keep_alive := r_keep_alive request; rs_body := text |}.

Definition configuration_response (request : Request) (body : str) : Response :=
  {| rs_status := 200; rs_version := r_version request;
     rs_fields := [(b!"Content-Type", b!"application/json; charset=utf-8");
                   (b!"Content-Disposition", b!"attachment; filename=webserver-config-backup.json");
                   (b!"Cache-Control", b!"no-store"); (b!"X-Content-Type-Options", b!"nosniff")];
     rs_keep_alive := r_keep_alive request; rs_body := body |}.

Definition error_json (what : str) : json := j_object [(b!"error", JString what)].

Definition backend_probe_response (request : Request) (result : BackendProbeResult) : res Response :=
  json_response request 200 (j_object [
    (b!"success", JBool (pr_success result));
    (b!"protocol", JString (pr_protocol result));
    (b!"remote_address", JString (pr_remote_address result));
    (b!"remote_port", j_u16 (pr_remote_port result));
    (b!"latency_ms", JFloat (pr_latency_ms result));
    (b!"tls_verified", JBool (pr_tls_verified result));
    (b!"error", JString (pr_error result))]).

(** The [catch] clauses of [handle]. *)
Definition error_response (request : Request) (e : exn) : res Response :=
  match e with
  | json_exception => json_response request 400 (error_json b!"invalid JSON request")
  | invalid_argument what => json_response request 400 (error_json what)
  | logic_error what => json_response request 409 (error_json what)
  | runtime_error what =>
      json_response request (if starts_with b!"too many login attempts" what then 429 else 409) (error_json what)
  end.

(** ** The read-only pages of other components *)

Definition listener_json (listener : ListenerStatus) : json :=
  j_object [
    (b!"protocol", JString (ls_protocol listener));
    (b!"address", JString (ls_address listener));
    (b!"configured_port", j_u16 (ls_configured_port listener));
    (b!"bound_port", j_u16 (ls_bound_port listener));
    (b!"site_count", j_size (ls_site_count listener));
    (b!"status", JString (ls_status listener))].

Definition listeners_page (view : Surroundings) : json :=
  j_object [(b!"listeners", JArray (listener_json <$> default [] (listener_status_provider_ view)))].

Definition connection_json (connection : ConnectionInfo) : json :=
  j_object [
    (b!"id", j_u64 (ci_id connection));
    (b!"protocol", JString (ci_protocol connection));
    (b!"source_address", JString (ci_source_address connection));
    (b!"connected_at_unix_ms", j_i64 (ci_connected_at_unix_ms connection));
    (b!"connected_seconds", j_u64 (ci_connected_seconds connection));
    (b!"status", JString (ci_status connection));
    (b!"method", JString (ci_method connection));
    (b!"url", JString (ci_url connection));
    (b!"referer", JString (ci_referer connection))].

Definition connections_page (view : Surroundings) : json :=
  j_object [
    (b!"connections", JArray (connection_json <$> snapshot_connections (connection_table view) 5000 (now_steady view)));
    (b!"total", j_size (connection_count (connection_table view)))].

Definition http_connection_json (connection : HttpRequestInfo) : json :=
  j_object [
    (b!"id", j_u64 (ri_id connection));
    (b!"site_id", j_i64 (ri_site_id connection));
    (b!"site_name", JString (ri_site_name connection));
    (b!"host", JString (ri_host connection));
    (b!"protocol", JString (ri_protocol connection));
    (b!"client_ip", JString (ri_client_ip connection));
    (b!"connected_at_unix_ms", j_i64 (ri_connected_at_unix_ms connection));
    (b!"connected_seconds", j_u64 (ri_connected_seconds connection));
    (b!"status", JString (ri_status connection));
    (b!"method", JString (ri_method connection));
    (b!"url", JString (ri_url connection));
    (b!"referer", JString (ri_referer connection))].

(** The [site_id] parameter: absent or empty for all sites. *)
Definition requested_site (parameters : gmap str str) : res (option Z) :=
  match parameters !! b!"site_id" with
  | None | Some [] => Ok None
  | Some text =>
      match positive_id text with
      | Some id => Ok (Some id)
      | None => Throw (invalid_argument b!"site_id must be a positive integer")
      end
  end.

Definition http_connections_page (request : Request) (view : Surroundings) : res json :=
  site_id ← requested_site (query_parameters request);
  Ok (j_object [
    (b!"connections",
      JArray (http_connection_json <$> snapshot_requests (request_table view) site_id 5000 (now_steady view)));
    (b!"total", j_size (ConnectionRegistry.request_count (request_table view) site_id))]).

(** One site of the metrics page; [live] are the counters by site. *)
Definition backend_metrics_json (live : gmap Z BackendConcurrencyMetrics) (site : SiteRecord) : json :=
  let count (f : BackendConcurrencyMetrics -> Z) := match live !! s_id site with None => 0 | Some m => f m end in
  j_object [
    (b!"site_id", j_i64 (s_id site));
    (b!"site_name", JString (s_name site));
    (b!"backend", JString (s_backend_protocol site ++ b!"://" ++ s_backend_address site ++ b!":" ++
                           to_string (s_backend_port site)));
    (b!"maximum_active", j_u32 (s_backend_max_active_connections site));
    (b!"maximum_queue", j_u32 (s_backend_max_queue site));
    (b!"queue_timeout_seconds", j_u32 (s_backend_queue_timeout_seconds site));
    (b!"active_connections", j_u64 (count bm_active_connections));
    (b!"queue_length", j_u64 (count bm_queue_length));
    (b!"rejected_requests", j_u64 (count bm_rejected_requests));
    (b!"queue_timeouts", j_u64 (count bm_queue_timeouts))].

Definition metrics_page (view : Surroundings) (sites : list SiteRecord) : json :=
  let live := list_to_map ((fun item => (bm_site_id item, item)) <$> metrics (limiter_state view)) in
  j_object [(b!"backends", JArray (backend_metrics_json live <$> sites))].

(** ** Log pages *)

(** The [limit] parameter. *)
Definition log_limit (parameters : gmap str str) : res nat :=
  match parameters !! b!"limit" with
  | None => Ok 100%nat
  | Some text =>
      match from_chars_u 64 text with
      | Some (limit, []) => if (limit =? 100) || (limit =? 500) || (limit =? 1000) then Ok (Z.to_nat limit)
                            else Throw (invalid_argument b!"log limit must be 100, 500, or 1000")
      | _ => Throw (invalid_argument b!"log limit must be 100, 500, or 1000")
      end
  end.

Definition parameter (parameters : gmap str str) (key : str) : str := default [] (parameters !! key).

(** [matched] for a line of the access log. *)
Definition access_matches (parameters : gmap str str) (item : json) : res bool :=
  let value := parameter parameters in
  let matched := contains_folded item b!"host" (value b!"host") && contains_folded item b!"client_ip" (value b!"ip") &&
                 contains_folded item b!"request_id" (value b!"request_id") &&
                 contains_folded item b!"path" (value b!"path") in
  if matched && negb (bool_decide (value b!"status" = [])) then
    match from_chars_u 32 (value b!"status") with
    | Some (requested_status, []) => status ← j_value get_u32 b!"status" 0 item; Ok (status =? requested_status)
    | _ => Throw (invalid_argument b!"status filter must be numeric")
    end
  else Ok matched.

(** [matched] for a line of the error log. *)
Definition error_matches (parameters : gmap str str) (item : json) : res bool :=
  let value := parameter parameters in
  let level := value b!"level" in
  of_level ← (if bool_decide (level = []) then Ok true
              else text ← j_value get_string b!"level" [] item; Ok (bool_decide (text = level)));
  Ok (of_level && contains_folded item b!"request_id" (value b!"request_id") &&
      (contains_folded item b!"component" (value b!"search") || contains_folded item b!"message" (value b!"search"))).

(** One line: the deque of the last [limit] matches. *)
Definition collect_line (matching : json -> res bool) (limit : nat) (line : str) (matches : list json) : res (list json) :=
  match json_parse line with
  | Some (JObject _ as item) =>
      matched ← matching item;
      if negb matched then Ok matches
      else let matches := matches ++ [item] in
           Ok (if (limit <? length matches)%nat then tail matches else matches)
  | _ => Ok matches
  end.

Definition log_page (request : Request) (access : bool) (logger : nat * gmap nat str * gmap nat str) : res json :=
  let '(rotated, access_files, error_files) := logger in
  let parameters := query_parameters request in
  limit ← log_limit parameters;
  lines ← recent_lines rotated (if access then access_files else error_files) 50000;
  matches ← res_fold (collect_line ((if access then access_matches else error_matches) parameters) limit) lines [];
  Ok (j_object [(b!"entries", JArray (reverse matches))]).

End Responses.

(** ** State *)

(** The services of the interface.  They hold references to one repository, which
    is kept in the configuration service. *)
Record Api (R : Type) := { api_config : Service R; api_auth : AuthState () }.
Arguments api_config {R}.
Arguments api_auth {R}.
Arguments Build_Api {R}.

Section AdminApi.
Context `{JsonText} `{AddressText} `{Regex} `{OpenSsl} {R : Type} `{!ReloadTarget R}.
Local Notation Api := (Api R).
Local Open Scope auth_scope.

Variable pbkdf2 : str -> str -> Z -> nat -> option str.
Variable iteration : gmap str Z -> list (str * Z).

Definition attach {DB DB'} (db : DB') (a : AuthState DB) : AuthState DB' :=
  Build_AuthState db (lifetime a) (maximum_active_sessions a) (sessions a) (failures a).
Definition auth_view (s : Api) : AuthState Store := attach (repository_ (api_config s)) (api_auth s).
Definition with_auth (a : AuthState Store) (s : Api) : Api :=
  {| api_config := ConfigService.set_repository (repository a) (api_config s); api_auth := attach () a |}.
Definition with_config (c : Service R) (s : Api) : Api := {| api_config := c; api_auth := api_auth s |}.

(** A call of one of the services. *)
Definition on_auth {A} (m : M (AuthState Store) A) : M Api A := fun s =>
  let '(r, a) := m (auth_view s) in (r, with_auth a s).
Definition on_config {A} (op : Service R -> res A * Service R) : M Api A := fun s =>
  let '(r, c) := op (api_config s) in (r, with_config c s).

(** A call that reads the database. *)
Definition reading {A} (f : fault) (query : Store -> res A) : M Api A := fun s =>
  (match f with read_fails what => Throw (runtime_error what) | _ => query (repository_ (api_config s)) end, s).
Definition inspect {A} (f : Service R -> A) : M Api A := fun s => (Ok (f (api_config s)), s).

(** ** Handlers *)

Section Handlers.
Variables (request : Request) (call : Call).

Definition respond (status : Z) (body : json) : M Api Response := lift (json_response request status body).
Definition unauthorized : M Api Response := respond 401 (error_json b!"authentication required").

(** The guard in front of every handler that changes something. *)
Definition guarded (handler : M Api Response) : M Api Response :=
  if negb (has_mutation_guard request) then respond 403 (error_json b!"missing admin request guard") else handler.

Definition logout_handler (token : str) : M Api Response := guarded (
  on_auth (logout token) ;~
  response <~ respond 200 (j_object [(b!"authenticated", JBool false)]);
  ret (set_field b!"Set-Cookie" expired_session_cookie response)).

Definition status_handler : M Api Response :=
  sites <~ reading (faults call 0) (fun db => Ok (list_sites db));
  active <~ inspect active_revision;
  stored <~ reading (faults call 1) (fun db => Ok (config_revision db));
  restart <~ reading (faults call 2) (fun _ => Ok tt) ;~ inspect restart_required;
  hot <~ inspect hot_reload_enabled;
  respond 200 (j_object [
    (b!"uptime_seconds", j_i64 (uptime_seconds call));
    (b!"site_count", j_size (length sites));
    (b!"active_revision", j_u64 active);
    (b!"stored_revision", j_u64 stored);
    (b!"restart_required", JBool restart);
    (b!"hot_reload_enabled", JBool hot)]).

Definition metrics_handler : M Api Response :=
  sites <~ reading (faults call 0) (fun db => Ok (list_sites db));
  respond 200 (metrics_page (around call) sites).

Definition backup_handler : M Api Response := guarded (
  body <~ reading (faults call 0) (export_configuration (exported_at_unix call));
  ret (configuration_response request body)).

Definition restore_handler : M Api Response := guarded (
  on_config (import_configuration (faults call 0) (r_body request)) ;~
  active <~ inspect active_revision;
  respond 200 (j_object [(b!"restored", JBool true); (b!"active_revision", j_u64 active)])).

Definition logs_handler (access : bool) : M Api Response :=
  match logger_ (around call) with
  | None => respond 503 (error_json b!"logging is unavailable")
  | Some logger => body <~ lift (log_page request access logger); respond 200 body
  end.

Definition reload_handler : M Api Response := guarded (
  on_config (reload_runtime (faults call 0)) ;~
  active <~ inspect active_revision;
  respond 200 (j_object [(b!"reloaded", JBool true); (b!"active_revision", j_u64 active)])).

Definition sites_handler : M Api Response :=
  sites <~ reading (faults call 0) (fun db => Ok (list_sites db));
  sites <~ lift (res_map site_json sites);
  respond 200 (j_object [(b!"sites", JArray sites)]).

Definition probe_handler : M Api Response := guarded (
  backend <~ lift (payload ← parse (r_body request); parse_backend_probe payload);
  result <~ lift (probe_backend (error_message call) (probe_inputs call) backend);
  lift (backend_probe_response request result)).

Definition certificates_handler : M Api Response :=
  certificates <~ reading (faults call 0) (fun db => Ok (list_certificates db));
  respond 200 (j_object [(b!"certificates", JArray (certificate_json <$> certificates))]).

Definition create_certificate_handler : M Api Response := guarded (
  certificate <~ lift (payload ← parse (r_body request); parse_certificate payload);
  certificate <~ on_config (create_certificate (faults call 0) certificate);
  respond 201 (certificate_json certificate)).

(** A PEM text left empty keeps the stored one. *)
Definition merge_certificate (id : Z) (current certificate : CertificateRecord) : CertificateRecord :=
  {| c_id := id; c_name := c_name certificate; c_enabled := c_enabled certificate;
     c_is_default := c_is_default certificate; c_domains := c_domains certificate;
     c_certificate_pem := if bool_decide (c_certificate_pem certificate = []) then c_certificate_pem current
                          else c_certificate_pem certificate;
     c_private_key_pem := if bool_decide (c_private_key_pem certificate = []) then c_private_key_pem current
                          else c_private_key_pem certificate |}.

Definition update_certificate_handler (id : Z) : M Api Response := guarded (
  certificate <~ lift (payload ← parse (r_body request); parse_certificate payload);
  current <~ reading (faults call 0) (find_certificate id);
  certificate <~ on_config (update_certificate (faults call 1) (merge_certificate id current certificate));
  respond 200 (certificate_json certificate)).

Definition delete_certificate_handler (id : Z) : M Api Response := guarded (
  on_config (delete_certificate (faults call 0) id) ;~
  respond 200 (j_object [(b!"deleted", JBool true)])).

Definition settings_handler : M Api Response :=
  settings <~ reading (faults call 0) (fun db => Ok (runtime_settings db));
  respond 200 (settings_json settings).

Definition update_settings_handler : M Api Response := guarded (
  settings <~ lift (payload ← parse (r_body request); parse_settings payload);
  settings <~ on_config (update_runtime_settings (faults call 0) settings);
  respond 200 (settings_json settings)).

Definition create_site_handler : M Api Response := guarded (
  site <~ lift (payload ← parse (r_body request); parse_site payload);
  site <~ on_config (create_site (faults call 0) site);
  body <~ lift (site_json site);
  respond 201 body).

Definition update_site_handler (id : Z) : M Api Response := guarded (
  site <~ lift (payload ← parse (r_body request); parse_site payload);
  site <~ on_config (update_site (faults call 0) (set_s_id id site));
  body <~ lift (site_json site);
  respond 200 body).

Definition delete_site_handler (id : Z) : M Api Response := guarded (
  on_config (delete_site (faults call 0) id) ;~
  respond 200 (j_object [(b!"deleted", JBool true)])).

(** ** Dispatch *)

Definition is_method (method : verb) : bool := bool_decide (r_method request = method).

Definition handle_authenticated (path token : str) : M Api Response :=
  let at_ method p := is_method method && bool_decide (path = p) in
  if at_ verb_post b!"/api/auth/logout" then logout_handler token
  else if at_ verb_get b!"/api/status" then status_handler
  else if at_ verb_get b!"/api/listeners" then respond 200 (listeners_page (around call))
  else if at_ verb_get b!"/api/connections" then respond 200 (connections_page (around call))
  else if at_ verb_get b!"/api/http-connections" then
    body <~ lift (http_connections_page request (around call)); respond 200 body
  else if at_ verb_get b!"/api/backends/metrics" then metrics_handler
  else if at_ verb_get b!"/api/config/backup" then backup_handler
  else if at_ verb_post b!"/api/config/restore" then restore_handler
  else if at_ verb_get b!"/api/logs/access" || at_ verb_get b!"/api/logs/error" then
    logs_handler (bool_decide (path = b!"/api/logs/access"))
  else if at_ verb_post b!"/api/runtime/reload" then reload_handler
  else if at_ verb_get b!"/api/sites" then sites_handler
  else if at_ verb_post b!"/api/backends/test" then probe_handler
  else if at_ verb_get b!"/api/certificates" then certificates_handler
  else if at_ verb_post b!"/api/certificates" then create_certificate_handler
  else match (if is_method verb_put || is_method verb_delete then certificate_id_from_path path else None) with
  | Some id => if is_method verb_put then update_certificate_handler id else delete_certificate_handler id
  | None =>
  if at_ verb_get b!"/api/settings" then settings_handler
  else if at_ verb_put b!"/api/settings" then update_settings_handler
  else if at_ verb_post b!"/api/sites" then create_site_handler
  else match (if is_method verb_put || is_method verb_delete then site_id_from_path path else None) with
  | Some id => if is_method verb_put then update_site_handler id else delete_site_handler id
  | None => respond 404 (error_json b!"admin API endpoint not found")
  end end.

(** [POST /api/auth/setup] and [POST /api/auth/login]. *)
Definition credentials_handler (path : str) : M Api Response := guarded (
  payload <~ lift (parse (r_body request));
  username <~ lift (at_get get_string b!"username" payload);
  password <~ lift (at_get get_string b!"password" payload);
  let entered token :=
    response <~ respond 200 (j_object [(b!"authenticated", JBool true)]);
    ret (set_field b!"Set-Cookie" (session_cookie token) response) in
  if bool_decide (path = b!"/api/auth/setup") then
    token <~ on_auth (create_first_admin pbkdf2 iteration username password (remote_ip call) (check_now call)
                        (later_now call) (salt_input call) (token_input call));
    entered token
  else
    token <~ catch_invalid
      (token <~ on_auth (login pbkdf2 iteration username password (remote_ip call) (check_now call) (later_now call)
                           (token_input call)); ret (Some token))
      (ret None);
    match token with
    | None => respond 401 (error_json b!"invalid username or password")
    | Some token => entered token
    end).

(** The body of the [try] block of [handle]. *)
Definition handle_request : M Api Response :=
  let path := request_path request in
  if is_method verb_get && bool_decide (path = b!"/api/auth/setup-state") then
    required <~ on_auth (fun a => (setup_required a, a));
    respond 200 (j_object [(b!"setup_required", JBool required)])
  else if is_method verb_post && (bool_decide (path = b!"/api/auth/setup") || bool_decide (path = b!"/api/auth/login"))
  then credentials_handler path
  else
    let token := session_token request in
    allowed <~ on_auth (authorize token (authorize_now call));
    if negb allowed then unauthorized else handle_authenticated path token.

(** None for the response: the [catch] clause throws, because the message cannot
    be written. *)
Definition handle : M Api Response := fun s =>
  match handle_request s with
  | (Throw e, s) => (error_response request e, s)
  | r => r
  end.

(** [handle_async]: the request is answered at once, or a probe of the backend is
    started whose result will be the answer. *)
Inductive async_answer := completed (response : Response) | probing (backend : BackendConfig).

(** Its [catch] clauses know no throttling. *)
Definition async_error_response (e : exn) : res Response :=
  match e with
  | json_exception => json_response request 400 (error_json b!"invalid JSON request")
  | invalid_argument what => json_response request 400 (error_json what)
  | logic_error what | runtime_error what => json_response request 409 (error_json what)
  end.

Definition start_probe : M Api async_answer :=
  allowed <~ on_auth (authorize (session_token request) (authorize_now call));
  if negb allowed then response <~ unauthorized; ret (completed response)
  else if negb (has_mutation_guard request)
  then response <~ respond 403 (error_json b!"missing admin request guard"); ret (completed response)
  else backend <~ lift (payload ← parse (r_body request); parse_backend_probe payload); ret (probing backend).

Definition handle_async : M Api async_answer :=
  if negb (is_method verb_post) || negb (bool_decide (request_path request = b!"/api/backends/test"))
  then response <~ handle; ret (completed response)
  else fun s =>
    match start_probe s with
    | (Throw e, s) => (response ← async_error_response e; Ok (completed response), s)
    | r => r
    end.

End Handlers.

(** ** Handlers that only read *)

Definition readonly {A} (m : M Api A) : Prop := forall s, (m s).2 = s.

Lemma readonly_ret {A} (a : A) : readonly (ret a).
Proof. done. Qed.
Lemma readonly_lift {A} (r : res A) : readonly (lift r).
Proof. done. Qed.
Lemma readonly_reading {A} f (q : Store -> res A) : readonly (reading f q).
Proof. done. Qed.
Lemma readonly_inspect {A} (f : Service R -> A) : readonly (inspect f).
Proof. done. Qed.
Lemma readonly_respond request status body : readonly (respond request status body).
Proof. done. Qed.
Lemma readonly_bind {A B} (m : M Api A) (k : A -> M Api B) :
  readonly m -> (forall a, readonly (k a)) -> readonly (bind m k).
Proof.
  intros Hm Hk s. unfold bind. specialize (Hm s). destruct (m s) as [[a|e] s'] eqn:E; cbn in Hm; subst s'; [apply Hk|done].
Qed.
Lemma readonly_guarded request (m : M Api Response) : has_mutation_guard request = false \/ readonly m -> readonly (guarded request m).
Proof. intros Hm. unfold guarded. destruct (has_mutation_guard request); [|apply readonly_respond]. by destruct Hm. Qed.

Create HintDb readonly.
#[local] Hint Resolve readonly_ret readonly_lift readonly_reading readonly_inspect readonly_respond readonly_bind : readonly.

(** The handlers that may change something. *)
Inductive changing (request : Request) (call : Call) (token : str) : M Api Response -> Prop :=
| changing_logout : changing request call token (logout_handler request token)
| changing_restore : changing request call token (restore_handler request call)
| changing_reload : changing request call token (reload_handler request call)
| changing_create_certificate : changing request call token (create_certificate_handler request call)
| changing_update_certificate id : changing request call token (update_certificate_handler request call id)
| changing_delete_certificate id : changing request call token (delete_certificate_handler request call id)
| changing_settings : changing request call token (update_settings_handler request call)
| changing_create_site : changing request call token (create_site_handler request call)
| changing_update_site id : changing request call token (update_site_handler request call id)
| changing_delete_site id : changing request call token (delete_site_handler request call id).

Lemma changing_guarded request call token h :
  changing request call token h -> has_mutation_guard request = false -> readonly h.
Proof. destruct 1; intros Hg; by apply readonly_guarded; left. Qed.

Definition writes (request : Request) : Prop := r_method request ∈ [verb_post; verb_put; verb_delete].

Lemma method_writes request v (path p : str) : v ∈ [verb_post; verb_put; verb_delete] ->
  is_method request v && bool_decide (path = p) = true -> writes request.
Proof. intros Hv [Hm _]%andb_true_iff. apply bool_decide_eq_true in Hm. unfold writes. by rewrite Hm. Qed.

Lemma id_writes {A} request (o : option A) id :
  (if is_method request verb_put || is_method request verb_delete then o else None) = Some id -> writes request.
Proof.
  destruct (_ || _) eqn:E; [|done]. intros _. apply orb_true_iff in E as [E|E]; apply bool_decide_eq_true in E;
    unfold writes; rewrite E; set_solver.
Qed.

Local Ltac reads := eauto 20 with readonly.

Lemma dispatch_cases request call path token :
  readonly (handle_authenticated request call path token) \/
  (writes request /\ changing request call token (handle_authenticated request call path token)).
Proof.
  assert (Hw : forall v p, is_method request v && bool_decide (path = p) = true ->
            v ∈ [verb_post; verb_put; verb_delete] -> writes request) by (intros; by eapply method_writes).
  unfold handle_authenticated. cbv zeta.
  repeat match goal with
  | |- readonly (if ?b then ?x else _) \/ _ =>
      let E := fresh "E" in destruct b eqn:E;
      [first [left; solve [first [apply readonly_respond | reads]] | right; split; [by eapply Hw; [exact E|set_solver]|constructor]
             | left; unfold status_handler, metrics_handler, backup_handler, logs_handler, sites_handler, probe_handler,
                 certificates_handler, settings_handler; first [apply readonly_guarded; right|idtac];
                 try destruct (logger_ (around call)); solve [reads] ]|clear E]
  | |- readonly (match ?o with Some _ => _ | None => _ end) \/ _ =>
      let E := fresh "E" in destruct o eqn:E;
      [apply id_writes in E; right; split; [exact E|case_match; constructor]|clear E]
  end.
  left. apply readonly_respond.
Qed.

(** ** The authentication service and the database *)

Lemma authorize_repository token now (a : AuthState Store) : repository (authorize token now a).2 = repository a.
Proof. unfold authorize. case_bool_decide; [done|]. by destruct (sessions _ !! token). Qed.

Lemma login_repository name password ip t l tok (a : AuthState Store) :
  repository (login pbkdf2 iteration name password ip t l tok a).2 = repository a.
Proof.
  destruct (check_rate_limit_cases ip t a) as [[E _]|(E & _ & Hr & _)].
  - unfold login, bind at 1. by rewrite E.
  - destruct (login_cases pbkdf2 iteration name password ip t l tok a) as [| | |]; try done.
    by destruct (issue_session_other iteration l tok (clear_failures ip (AuthService.checked ip t a))) as (_ & _ & _ & ->).
Qed.

Lemma setup_repository name password ip t l salt tok (a : AuthState Store) :
  let a' := (create_first_admin pbkdf2 iteration name password ip t l salt tok a).2 in
  repository a' = repository a \/
  (admin_rows (repository a) = [] /\ exists rows, repository a' = set_admins rows (repository a)).
Proof.
  destruct (check_rate_limit_cases ip t a) as [[E _]|(E & _ & Hr & _)].
  all: destruct (setup_cases pbkdf2 iteration name password ip t l salt tok a) as [e s' [->|Hs]|salt' hash db Hc Hn _ _ Hd];
    cbn [snd]; try (left; congruence).
  all: try congruence.
  right. destruct (issue_session_other iteration l tok (clear_failures ip (AuthService.set_repository db (AuthService.checked ip t a))))
    as (_ & _ & _ & ->). cbn [admin_user_count store_accounts] in Hn. split.
  - destruct (admin_rows (repository a)); [done|]. cbn in Hn. injection Hn. lia.
  - cbn [create_admin_user store_accounts] in Hd. destruct (create_admin_user (admin_rows _) _) as [rows|]; [|done].
    injection Hd as <-. by exists rows.
Qed.

(** A session that is open when the request arrives. *)
Definition live_session (now : Z) (s : Api) (token : str) : Prop :=
  token <> [] /\ exists expires_at, sessions (api_auth s) !! token = Some expires_at /\ now < expires_at.

Lemma authorize_live token now (s : Api) :
  exists allowed, (authorize token now (auth_view s)).1 = Ok allowed /\ (allowed = true <-> live_session now s token).
Proof.
  unfold authorize, live_session. case_bool_decide as Ht; [by exists false; split; [|naive_solver]|].
  unfold purge_expired_sessions. cbn [set_sessions sessions auth_view attach].
  destruct (sessions (api_auth s) !! token) as [e|] eqn:El.
  - destruct (decide (now < e)) as [Hl|Hl].
    + erewrite map_lookup_filter_Some_2 by eauto. exists true. split; [done|]. naive_solver.
    + rewrite map_lookup_filter_None_2 by naive_solver. exists false. split; [done|]. naive_solver.
  - rewrite map_lookup_filter_None_2 by naive_solver. exists false. split; [done|]. naive_solver.
Qed.

(** ** One request *)

Lemma service_eta (c : Service R) : ConfigService.set_repository (repository_ c) c = c.
Proof. by destruct c. Qed.

Lemma on_auth_config {A} (m : M (AuthState Store) A) s :
  api_config (on_auth m s).2 = ConfigService.set_repository (repository (m (auth_view s)).2) (api_config s).
Proof. unfold on_auth. by destruct (m (auth_view s)). Qed.
Lemma on_auth_result {A} (m : M (AuthState Store) A) s : (on_auth m s).1 = (m (auth_view s)).1.
Proof. unfold on_auth. by destruct (m (auth_view s)). Qed.
Lemma bind_config {A B} (m : M Api A) (k : A -> M Api B) s :
  (forall a s', api_config (k a s').2 = api_config s') -> api_config (bind m k s).2 = api_config (m s).2.
Proof. intros Hk. unfold bind. by destruct (m s) as [[a|e] s']. Qed.

(** What the setup and login requests do to the services' database. *)
Definition first_account (request : Request) (s s' : Api) : Prop :=
  has_mutation_guard request = true /\ r_method request = verb_post /\ request_path request = b!"/api/auth/setup" /\
  admin_rows (repository_ (api_config s)) = [] /\
  exists rows, api_config s' = ConfigService.set_repository (set_admins rows (repository_ (api_config s))) (api_config s).

Lemma entered_config request token s : api_config ((
    response <~ respond request 200 (j_object [(b!"authenticated", JBool true)]);
    ret (set_field b!"Set-Cookie" (session_cookie token) response)) s).2 = api_config s.
Proof. unfold respond, bind, lift. by destruct (json_response _ _ _). Qed.

Lemma credentials_config request call s s' : r_method request = verb_post ->
  s' = (credentials_handler request call (request_path request) s).2 ->
  api_config s' = api_config s \/ first_account request s s'.
Proof.
  intros Hpost. unfold credentials_handler, guarded.
  destruct (has_mutation_guard request) eqn:Hg; [|intros ->; by left]. cbn [negb].
  unfold lift. unfold bind at 1. destruct (parse (r_body request)) as [payload|]; [|intros ->; by left].
  unfold bind at 1. destruct (at_get get_string _ payload) as [username|]; [|intros ->; by left].
  unfold bind at 1. destruct (at_get get_string _ payload) as [password|]; [|intros ->; by left].
  intros Hs. apply (f_equal api_config) in Hs. revert Hs. case_bool_decide as Hp.
  - rewrite bind_config by (intros; apply entered_config). rewrite on_auth_config. intros Hs.
    destruct (setup_repository username password (remote_ip call) (check_now call) (later_now call) (salt_input call)
      (token_input call) (auth_view s)) as [Hr|(Ha & rows & Hr)]; rewrite Hr in Hs.
    + left. rewrite Hs. apply service_eta.
    + right. split_and!; try done. by exists rows.
  - rewrite bind_config by (intros [token|] ?; [apply entered_config|done]). intros Hs. left. rewrite Hs.
    unfold catch_invalid, bind. set (m := on_auth _). assert (Hm : api_config (m s).2 = api_config s).
    { unfold m. rewrite on_auth_config, login_repository. apply service_eta. }
    destruct (m s) as [[token|[]] s1]; exact Hm.
Qed.

Lemma handle_cases request call s :
  let s' := (handle request call s).2 in
  api_config s' = api_config s \/ first_account request s s' \/
  exists h s1, live_session (authorize_now call) s (session_token request) /\ has_mutation_guard request = true /\
    writes request /\ changing request call (session_token request) h /\ api_config s1 = api_config s /\
    handle_request request call s = h s1.
Proof.
  assert (Hs : (handle request call s).2 = (handle_request request call s).2).
  { unfold handle. by destruct (handle_request request call s) as [[]]. }
  cbv zeta. rewrite Hs. unfold handle_request. cbv zeta. destruct (_ && bool_decide (_ = b!"/api/auth/setup-state")) eqn:E1.
  { left. rewrite bind_config by done. rewrite on_auth_config. apply service_eta. }
  destruct (is_method request verb_post && _) eqn:E2.
  { apply andb_true_iff in E2 as [E2 _]. apply bool_decide_eq_true in E2.
    destruct (credentials_config request call s _ E2 eq_refl); auto. }
  set (m := on_auth _). assert (Hm : api_config (m s).2 = api_config s).
  { unfold m. rewrite on_auth_config, authorize_repository. apply service_eta. }
  destruct (authorize_live (session_token request) (authorize_now call) s) as (allowed & Ha & Hl).
  rewrite <-on_auth_result in Ha. fold m in Ha. unfold bind. destruct (m s) as [r s1]. cbn in Ha, Hm. subst r.
  destruct allowed; [|by left]. cbn [negb].
  destruct (dispatch_cases request call (request_path request) (session_token request)) as [Hr|[Hw Hc]].
  { left. by rewrite Hr. }
  destruct (has_mutation_guard request) eqn:Hg.
  - right. right. eexists _, s1. split_and!; [by apply Hl|done|done|exact Hc|done|done].
  - left. by rewrite (changing_guarded _ _ _ _ Hc Hg).
Qed.
End AdminApi.
