(* ===== verification/AdminApiSpec.v ===== *)
(** * Properties of the administration interface (src/src/admin/AdminApi.cpp)

    What a request can change, what its answer says about it, and that sequences of
    requests keep the database and the server together. *)

From S2P Require Import Prelude BackendProbe LogManager ConnectionRegistry IpAddress HostNormalizer ClientIpResolver UrlAuthenticator Json.
From S2P Require Import RateLimiter RequestPolicy VirtualHostRouter TlsContextManager RuntimeConfig BackendConcurrencyLimiter.
From S2P Require Import AuthService ConfigRepository ConfigService ConfigServiceSpec ConfigBackup ServerCore Application AdminJson AdminApi.

(** ** Text that can be shown *)

Section Readable.
Context `{JsonText} `{AddressText} `{Regex} `{OpenSsl}.

Lemma ascii_small c : isdigit c || islower c || is_char c "-" || is_char c "." || is_char c ":" = true -> byte_val c <? 128 = true.
Proof.
  unfold isdigit, islower, is_char. rewrite !orb_true_iff, !andb_true_iff, !bool_decide_eq_true.
  intros [[[[[]|[]]| ->]| ->]| ->]; try reflexivity; apply Z.ltb_lt; lia.
Qed.

Lemma domain_storable a n : normalize_domain a = Some n -> storable_text n.
Proof.
  intros Hn%normalize_normalized. apply storable_ascii, forallb_forall. intros c Hc%list_elem_of_In.
  apply ascii_small. by eapply normalized_host_char.
Qed.
Lemma wildcard_storable a n : normalize_domain a = Some n -> storable_text (b!"*." ++ n).
Proof.
  intros Hn%normalize_normalized. apply storable_ascii. rewrite forallb_app. apply andb_true_iff. split; [done|].
  apply forallb_forall. intros c Hc%list_elem_of_In. apply ascii_small. by eapply normalized_host_char.
Qed.

Lemma pattern_storable pattern : normal_pattern pattern -> storable_text pattern.
Proof.
  unfold normal_pattern. destruct (starts_with b!"*." pattern) eqn:E; intros [a Ha]; [|by eapply domain_storable].
  apply starts_with_spec in E as [t ->]. change (drop 2 (b!"*." ++ t)) with t in Ha. by eapply wildcard_storable.
Qed.

Lemma certificate_domain_storable patterns acc domains : Forall storable_text acc ->
  res_fold normalize_certificate_domain patterns acc = Ok domains -> Forall storable_text domains.
Proof.
  intros Hacc E. eapply (res_fold_keeps (Forall storable_text)); [|exact Hacc|exact E].
  intros pattern l l' Hl. unfold normalize_certificate_domain. cbv zeta.
  destruct (starts_with _ _), (normalize_domain _) as [n|] eqn:En; try done; case_bool_decide; try done; intros [= <-];
    (apply Forall_app; split; [done|]; constructor; [|constructor]); [by eapply wildcard_storable|by eapply domain_storable].
Qed.

(** The strings of a site outside the JSON columns. *)
Record readable_site (site : SiteRecord) : Prop := {
  rd_name : storable_text (s_name site);
  rd_domains : Forall storable_text (s_domains site);
  rd_address : storable_text (s_backend_address site);
  rd_protocol : storable_text (s_backend_protocol site);
  rd_host : storable_text (s_backend_host site);
  rd_sni : storable_text (s_backend_tls_sni site);
  rd_location : storable_text (s_hotlink_redirect_location site)
}.

Lemma readable_id id site : readable_site site -> readable_site (set_s_id id site).
Proof. by intros []. Qed.

(** What a request submits, and what validation makes of it. *)
Record submitted_site (site : SiteRecord) : Prop := {
  sb_name : storable_text (s_name site);
  sb_address : storable_text (s_backend_address site);
  sb_host : storable_text (s_backend_host site);
  sb_location : storable_text (s_hotlink_redirect_location site)
}.

Lemma parsed_site source site : storable source -> parse_site source = Ok site -> submitted_site site.
Proof.
  intros Hs E. unfold parse_site in E. res_inv. constructor; cbn.
  - by eapply at_storable; [|eassumption].
  - by eapply (at_storable b!"backend_address"); [|eassumption].
  - by eapply (value_storable b!"backend_host"); [| |eassumption].
  - by eapply (value_storable b!"hotlink_redirect_location"); [| |eassumption].
Qed.

Lemma validated_readable site site' : submitted_site site -> validate_and_normalize site = Ok site' -> readable_site site'.
Proof.
  intros [Hn Ha Hh Hl] E. pose proof (validated_canonical _ _ E) as Hc. unfold validate_and_normalize in E. res_inv.
  apply catch_json_ok, check_policy_spec, canonicalize_spec in E as (acl & reds & exts & allowed & auth & _ & _ & _ & _ & _ & E).
  pose proof Eb0 as Hp. apply normalize_protocol_spec in Hp. subst a0.
  assert (Haddr : exists x, a1 = set_s_backend_address x (set_s_backend_protocol (ascii_lower (s_backend_protocol site)) site)
                            /\ storable_text x).
  { unfold normalize_address in Eb1. change (s_backend_address (set_s_backend_protocol ?a ?b)) with (s_backend_address b) in Eb1.
    destruct (make_address _).
    - injection Eb1 as <-. exists (s_backend_address site). split; [by destruct site|done].
    - destruct (normalize_domain _) as [n|] eqn:En; [|done]. injection Eb1 as <-. exists n. split; [done|by eapply domain_storable]. }
  destruct Haddr as (x & -> & Hx). apply normalize_sni_spec in Eb3 as (n & -> & Hsni & _). subst site'.
  constructor; cbn; try done.
  - eapply Forall_impl; [apply Hc|]. apply pattern_storable.
  - unfold normalize_protocol in Eb0. cbv zeta in Eb0. change (s_backend_protocol (set_s_backend_protocol ?a ?b)) with a in Eb0.
    destruct (_ && _) eqn:Ep; [done|]. bool_to_prop. apply storable_ascii. destruct Ep as [Ep|Ep]; bool_to_prop; by rewrite Ep.
  - destruct Hsni as [->|[t Ht]]; [by apply storable_ascii|by eapply domain_storable].
Qed.

Lemma site_writable site : fixed_point site -> readable_site site -> exists body, site_json site = Ok body /\ storable body.
Proof.
  intros Hf []. destruct (fixed_canonical _ Hf) as [_ _ _ _ (j1 & P1 & _) (j2 & P2 & _) (j3 & P3 & _) (j4 & P4 & _) _].
  destruct (fixed_url_auth _ Hf) as (u & spec & Pu & Su & Ru & Hv).
  destruct (url_auth_shown u spec Su Ru Hv) as (en & sc & pr & ba & uris & V1 & V2 & V3 & V4 & V5 & V6 & _ & _).
  unfold site_json. rewrite Pu. cbn [mbind res_bind]. rewrite V1, V2, V3, V4, V5, V6, P1, P2, P3, P4. cbn [mbind res_bind].
  eexists. split; [reflexivity|].
  assert (Hparsed : forall t j, parse t = Ok j -> storable j).
  { intros t j. unfold parse. destruct (json_parse t) eqn:E; [|done]. intros [= <-]. by eapply parse_storable. }
  storable_document; eauto using storable_strings.
  - by eapply (value_storable b!"scope"); [| |exact V2].
  - by eapply (value_storable b!"primary_key"); [| |exact V3].
  - by eapply (value_storable b!"backup_key"); [| |exact V4].
  - apply storable_int. lia.
  - by eapply value_json_storable; [done|apply storable_array_nil|exact V6].
Qed.

(** Certificates and settings. *)
Lemma certificate_writable c : storable_text (c_name c) -> Forall storable_text (c_domains c) ->
  storable_text (c_certificate_pem c) -> storable (certificate_json c).
Proof. intros Hn Hd Hp. storable_document; by apply storable_strings. Qed.

Lemma settings_writable source settings : storable source -> parse_settings source = Ok settings -> storable (settings_json settings).
Proof.
  intros Hs E. unfold parse_settings in E. res_inv. storable_document; apply storable_strings; cbn.
  - by eapply (value_strings_storable b!"trusted_proxy_cidrs"); [| |eassumption].
  - eapply (value_strings_storable b!"real_ip_headers"); [done| |eassumption].
    repeat (apply Forall_cons; split; [by apply storable_ascii|]). by apply Forall_nil.
Qed.

(** Error messages of plain text and their document. *)
Lemma json_response_ok request status body : storable body ->
  exists response, json_response request status body = Ok response /\ rs_status response = status.
Proof.
  intros Hb. unfold json_response, dump. destruct (dump_parse body Hb) as (t & -> & _). by eexists.
Qed.

End Readable.

(** ** A request is at most one operation of the service *)

#[local] Instance admin_user_eq_dec : EqDecision AdminUserRecord.
Proof. solve_decision. Defined.

Section Operations.
Context `{JsonText} `{AddressText} `{Regex} `{OpenSsl} {R : Type} `{!ReloadTarget R}.
Local Notation Api := (Api R).
Local Notation db_of s := (repository_ (api_config s)).
Local Open Scope auth_scope.

Variable pbkdf2 : str -> str -> Z -> nat -> option str.
Variable iteration : gmap str Z -> list (str * Z).

Definition readable_store (db : Store) : Prop := Forall (fun c => storable_text (c_certificate_pem c)) (certificate_rows db).

(** What the interface passes on can be shown again. *)
Definition readable_operation (op : service_op) : Prop :=
  match op with
  | SCreateCertificate c | SUpdateCertificate c => storable_text (c_certificate_pem c)
  | SSeedCertificate _ _ _ _ => False
  | _ => True
  end.

Definition succeeds (r : res Response) : Prop := exists response, r = Ok response /\ rs_status response < 400.

Lemma respond_succeeds request status body s : storable body -> status < 400 ->
  succeeds (respond request status body (s : Api)).1.
Proof.
  intros Hb Hs. destruct (json_response_ok request status body Hb) as (response & E & Er).
  exists response. cbn. rewrite E. by split; [|lia].
Qed.

Lemma parsed_storable {text j} : parse text = Ok j -> storable j.
Proof. unfold parse. destruct (json_parse text) eqn:E; [|done]. intros [= <-]. by eapply parse_storable. Qed.

Lemma on_config_state {A} (op : Service R -> res A * Service R) (s : Api) :
  api_config (on_config op s).2 = (op (api_config s)).2 /\ (on_config op s).1 = (op (api_config s)).1.
Proof. unfold on_config. by destruct (op (api_config s)). Qed.

(** The handler is one operation, and answers with success when it succeeds. *)
Definition acts_as (f : fault) (op : service_op) (h : M Api Response) (s : Api) : Prop :=
  api_config (h s).2 = (serve f op (api_config s)).2 /\
  (store_wf (db_of s) -> readable_store (db_of s) ->
    readable_operation op /\ (is_ok (serve f op (api_config s)).1 = true -> succeeds (h s).1)).

Lemma call_acts {A} f op (operation : Service R -> res A * Service R) (k : A -> M Api Response) (s : Api) :
  serve f op (api_config s) = done_with (operation (api_config s)) ->
  (forall a s', api_config (k a s').2 = api_config s') ->
  (store_wf (db_of s) -> readable_store (db_of s) -> readable_operation op /\
    forall a c', operation (api_config s) = (Ok a, c') -> succeeds (k a (with_config c' s)).1) ->
  acts_as f op (bind (on_config operation) k) s.
Proof.
  intros Hs Hq Hk. unfold acts_as. rewrite Hs, bind_config by done.
  unfold done_with, bind, on_config. destruct (operation (api_config s)) as [[a|e] c'] eqn:E; cbn; (split; [done|]);
    intros Hok Hr; destruct (Hk Hok Hr) as [Ho Ha]; (split; [done|]); [intros _; by apply Ha|done].
Qed.

Lemma reply_config request status body (s : Api) : api_config (respond request status body s).2 = api_config s.
Proof. done. Qed.

Lemma done_with_unit {S} (x : res unit * S) : x = done_with x.
Proof. by destruct x as [[[]|] ?]. Qed.

Lemma certificate_found id db c : readable_store db -> find_certificate id db = Ok c -> storable_text (c_certificate_pem c).
Proof.
  unfold find_certificate. intros Hr. destruct (list_find _ _) as [[i x]|] eqn:E; [|done]. intros [= <-].
  apply list_find_Some in E as (Hi & _). apply list_elem_of_lookup_2 in Hi. rewrite list_certificates_perm in Hi.
  unfold readable_store in Hr. rewrite Forall_forall in Hr. by apply Hr.
Qed.

Lemma validated_certificate_readable c c' : validate_and_normalize_certificate c = Ok c' ->
  Forall storable_text (c_domains c') /\ c_name c' = c_name c /\ c_certificate_pem c' = c_certificate_pem c.
Proof.
  unfold validate_and_normalize_certificate. intros E. res_inv.
  split; [|done]. cbn. by eapply certificate_domain_storable; [|eassumption].
Qed.

Lemma create_certificate_validates f c s stored s' : create_certificate f c s = (Ok stored, s') ->
  exists c' id, validate_and_normalize_certificate c = Ok c' /\ stored = set_c_id id c'.
Proof.
  unfold create_certificate, checked. destruct (validate_and_normalize_certificate c) as [c'|]; [|done].
  unfold locked. destruct f; try done; destruct (submit _ _ _ _ s) as [[id|] s1]; try done; intros [= <- <-]; eauto.
Qed.
Lemma update_certificate_validates f c (s : Service R) stored s' : update_certificate f c s = (Ok stored, s') ->
  validate_and_normalize_certificate c = Ok stored.
Proof.
  unfold update_certificate, checked. destruct (c_id c <=? 0); [done|].
  destruct (validate_and_normalize_certificate c) as [c'|]; [|done].
  unfold locked. destruct f; try done; case_match; try done; destruct (submit _ _ _ _ s) as [[u|] s1]; try done; congruence.
Qed.

(** Handlers that first read the request's body. *)
Lemma body_acts {A} request f (read : json -> res A) (k : A -> M Api Response) (s : Api) :
  (forall payload a, parse (r_body request) = Ok payload -> read payload = Ok a -> exists op, acts_as f op (k a) s) ->
  let h := bind (lift (payload ← parse (r_body request); read payload)) k in
  api_config (h s).2 = api_config s \/ exists f op, acts_as f op h s.
Proof.
  intros Hk h. subst h. destruct (parse (r_body request)) as [payload|] eqn:Ep; [|by left].
  destruct (read payload) as [a|] eqn:Er; [|left; unfold bind, lift; cbn [mbind res_bind]; by rewrite Er].
  right. destruct (Hk payload a eq_refl Er) as [op Ha]. exists f, op.
  unfold acts_as, bind, lift in *. cbn [mbind res_bind]. rewrite Er. exact Ha.
Qed.

Lemma shown_config request status (site : SiteRecord) (s : Api) :
  api_config ((body <~ lift (site_json site); respond request status body) s).2 = api_config s.
Proof. unfold bind, lift. by destruct (site_json site). Qed.

Lemma shown_succeeds request status site (s : Api) : fixed_point site -> readable_site site -> status < 400 ->
  succeeds ((body <~ lift (site_json site); respond request status body) s).1.
Proof.
  intros Hf Hr Hs. destruct (site_writable site Hf Hr) as (body & E & Hb). unfold bind, lift. rewrite E.
  by apply respond_succeeds.
Qed.

Lemma create_site_acts request call (s : Api) payload site :
  parse (r_body request) = Ok payload -> parse_site payload = Ok site ->
  acts_as (faults call 0) (SCreateSite site)
    (bind (on_config (create_site (faults call 0) site)) (fun site => body <~ lift (site_json site); respond request 201 body)) s.
Proof.
  intros Ep Es. apply call_acts; [done|intros; apply shown_config|]. intros Hok _. split; [done|]. intros stored c' E.
  pose proof (create_site_fixed _ _ _ _ _ Hok E) as [Hfix _].
  apply create_site_outcome in E as (site' & spec & db & id & Hv & -> & _).
  apply shown_succeeds; [done|do 2 apply readable_id; eapply validated_readable; [|exact Hv]; by eapply parsed_site; [by eapply parsed_storable|]|lia].
Qed.

Lemma update_site_acts request call id (s : Api) payload site :
  parse (r_body request) = Ok payload -> parse_site payload = Ok site ->
  acts_as (faults call 0) (SUpdateSite (set_s_id id site))
    (bind (on_config (update_site (faults call 0) (set_s_id id site)))
       (fun site => body <~ lift (site_json site); respond request 200 body)) s.
Proof.
  intros Ep Es. apply call_acts; [done|intros; apply shown_config|]. intros Hok _. split; [done|]. intros stored c' E.
  pose proof (update_site_fixed _ _ _ _ _ E) as [Hfix _]. apply update_site_outcome in E as (sites & spec & db & Hv & _).
  apply shown_succeeds; [done|eapply validated_readable; [|exact Hv]|lia].
  assert (submitted_site site) as [] by (by eapply parsed_site; [by eapply parsed_storable|]). by constructor.
Qed.

Lemma parsed_certificate source c : storable source -> parse_certificate source = Ok c ->
  storable_text (c_name c) /\ storable_text (c_certificate_pem c).
Proof.
  intros Hs E. unfold parse_certificate in E. res_inv. cbn. split; [by eapply at_storable; [|eassumption]|].
  by eapply (value_storable b!"certificate_pem"); [| |eassumption].
Qed.

Lemma create_certificate_acts request call (s : Api) payload c :
  parse (r_body request) = Ok payload -> parse_certificate payload = Ok c ->
  acts_as (faults call 0) (SCreateCertificate c)
    (bind (on_config (create_certificate (faults call 0) c)) (fun c => respond request 201 (certificate_json c))) s.
Proof.
  intros Ep Ec. destruct (parsed_certificate payload c) as [Hn Hp]; [by eapply parsed_storable|done|].
  apply call_acts; [done|done|]. intros _ _. split; [done|]. intros stored c' (x & id & Hv & ->)%create_certificate_validates.
  apply validated_certificate_readable in Hv as (Hd & En & Epem).
  apply respond_succeeds; [|lia]. apply certificate_writable; cbn; by rewrite ?En, ?Epem.
Qed.

Lemma update_certificate_acts request call id (s : Api) payload c current :
  parse (r_body request) = Ok payload -> parse_certificate payload = Ok c -> find_certificate id (db_of s) = Ok current ->
  let merged := merge_certificate id current c in
  acts_as (faults call 1) (SUpdateCertificate merged)
    (bind (on_config (update_certificate (faults call 1) merged)) (fun c => respond request 200 (certificate_json c))) s.
Proof.
  intros Ep Ec Hf. destruct (parsed_certificate payload c) as [Hn Hp]; [by eapply parsed_storable|done|].
  cbv zeta. apply call_acts; [done|done|]. intros _ Hr.
  assert (Hm : storable_text (c_certificate_pem (merge_certificate id current c))).
  { cbn. case_bool_decide; [by eapply certificate_found|done]. }
  split; [done|]. intros stored c' Hv%update_certificate_validates.
  apply validated_certificate_readable in Hv as (Hd & En & Epem).
  apply respond_succeeds; [|lia]. apply certificate_writable; by rewrite ?En, ?Epem.
Qed.

Lemma update_settings_acts request call (s : Api) payload settings :
  parse (r_body request) = Ok payload -> parse_settings payload = Ok settings ->
  acts_as (faults call 0) (SUpdateSettings settings)
    (bind (on_config (update_runtime_settings (faults call 0) settings)) (fun x => respond request 200 (settings_json x))) s.
Proof.
  intros Ep Es. apply call_acts; [done|done|]. intros _ _. split; [done|]. intros stored c' E.
  assert (stored = settings) as ->.
  { unfold update_runtime_settings, checked, locked in E. destruct (validate_runtime_settings settings); [|done].
    destruct (faults call 0); try done; destruct (submit _ _ _ _ _) as [[u|] s1]; try done; congruence. }
  apply respond_succeeds; [|lia]. by eapply settings_writable; [by eapply parsed_storable|].
Qed.

Lemma acts_as_eq f op (h h' : M Api Response) s : h s = h' s -> acts_as f op h' s -> acts_as f op h s.
Proof. unfold acts_as. by intros ->. Qed.

Lemma put_certificate_operation request call id (s : Api) :
  let h := certificate <~ lift (payload ← parse (r_body request); parse_certificate payload);
           current <~ reading (faults call 0) (find_certificate id);
           certificate <~ on_config (update_certificate (faults call 1) (merge_certificate id current certificate));
           respond request 200 (certificate_json certificate) in
  api_config (h s).2 = api_config s \/ exists f op, acts_as f op h s.
Proof.
  intros h. destruct (parse (r_body request)) as [payload|] eqn:Ep; [|by left].
  destruct (parse_certificate payload) as [c|] eqn:Ec; [|left; unfold h, bind, lift; rewrite ?Ep; cbn; by rewrite ?Ec].
  destruct (reading (faults call 0) (find_certificate id) s) as [[current|] s1] eqn:Ef.
  - assert (find_certificate id (db_of s) = Ok current /\ s1 = s) as [Hf ->].
    { unfold reading in Ef. destruct (faults call 0); try done; by injection Ef. }
    right. exists (faults call 1), (SUpdateCertificate (merge_certificate id current c)).
    eapply acts_as_eq; [|by eapply update_certificate_acts].
    unfold h, lift. unfold bind at 1. rewrite ?Ep. cbn [mbind res_bind]. rewrite ?Ec. unfold bind at 1. by rewrite Ef.
  - left. unfold h, lift. unfold bind at 1. rewrite ?Ep. cbn [mbind res_bind]. rewrite ?Ec. unfold bind at 1. rewrite Ef.
    unfold reading in Ef. by injection Ef as _ <-.
Qed.

(** Operations that return nothing. *)
Lemma unit_acts f op (operation : Service R -> res unit * Service R) (k : M Api Response) (s : Api) :
  readable_operation op -> serve f op (api_config s) = operation (api_config s) ->
  (forall s', api_config (k s').2 = api_config s') -> (forall s', succeeds (k s').1) ->
  acts_as f op (bind (on_config operation) (fun _ => k)) s.
Proof. intros Hr Hs Hq Hk. apply call_acts; [by rewrite <-done_with_unit|done|]. intros _ _. by split. Qed.

Lemma revision_config request (what : str) (s : Api) :
  api_config ((active <~ inspect active_revision;
    respond request 200 (j_object [(what, JBool true); (b!"active_revision", j_u64 active)])) s).2 = api_config s.
Proof. done. Qed.
Lemma revision_succeeds request (what : str) (s : Api) : forallb (fun c => byte_val c <? 128) what = true ->
  succeeds ((active <~ inspect active_revision;
    respond request 200 (j_object [(what, JBool true); (b!"active_revision", j_u64 active)])) s).1.
Proof.
  intros Hw. apply respond_succeeds; [|lia]. apply storable_members.
  repeat (apply Forall_cons; split; [split; [done|]|]); [apply storable_bool|apply storable_u64|by apply Forall_nil].
Qed.
Lemma deleted_succeeds request (s : Api) : succeeds (respond request 200 (j_object [(b!"deleted", JBool true)]) s).1.
Proof. apply respond_succeeds; [|lia]. storable_document. Qed.

Lemma changing_operation request call token h (s : Api) :
  changing request call token h -> has_mutation_guard request = true ->
  api_config (h s).2 = api_config s \/ exists f op, acts_as f op h s.
Proof.
  intros Hc Hg.
  assert (Hguard : forall m : M Api Response, guarded request m = m) by (intros m; unfold guarded; by rewrite Hg).
  destruct Hc; unfold logout_handler, restore_handler, reload_handler, create_certificate_handler,
    update_certificate_handler, delete_certificate_handler, update_settings_handler, create_site_handler, update_site_handler,
    delete_site_handler; rewrite Hguard.
  - left. rewrite bind_config by (intros; unfold respond, bind, lift; by destruct (json_response _ _ _)).
    rewrite on_auth_config. apply service_eta.
  - right. exists (faults call 0), (SImport (r_body request)). apply unit_acts; try done. intros. by apply revision_succeeds.
  - right. exists (faults call 0), SReload. apply unit_acts; try done. intros. by apply revision_succeeds.
  - apply body_acts with (f := faults call 0). intros. exists (SCreateCertificate a). by eapply create_certificate_acts.
  - by apply put_certificate_operation.
  - right. exists (faults call 0), (SDeleteCertificate id). apply unit_acts; try done. intros. apply deleted_succeeds.
  - apply body_acts with (f := faults call 0). intros. exists (SUpdateSettings a). by eapply update_settings_acts.
  - apply body_acts with (f := faults call 0). intros. exists (SCreateSite a). by eapply create_site_acts.
  - apply body_acts with (f := faults call 0). intros. exists (SUpdateSite (set_s_id id a)). by eapply update_site_acts.
  - right. exists (faults call 0), (SDeleteSite id). apply unit_acts; try done. intros. apply deleted_succeeds.
Qed.
(** ** The texts stay readable *)

Lemma elements_storable j : storable j -> is_array j = true -> Forall storable (elements j).
Proof. destruct j; try done. by intros ?%storable_array. Qed.

Lemma member_storable k j v : storable j -> j_at k j = Ok v -> storable v.
Proof.
  intros Hj. unfold j_at. destruct j; try done. destruct (m !! k) as [x|] eqn:E; [|done]. intros [= <-]. by eapply storable_value.
Qed.

Lemma imported_certificates items acc out : Forall storable items -> Forall (fun c => storable_text (c_certificate_pem c)) acc.1 ->
  res_fold import_certificate items acc = Ok out -> Forall (fun c => storable_text (c_certificate_pem c)) out.1.
Proof.
  intros Hi. induction Hi as [|item items Hitem _ IH] in acc |- *; cbn [res_fold]; intros Ha; [by intros [= <-]|].
  destruct (import_certificate item acc) as [acc'|] eqn:E; [|done]. apply IH. clear IH.
  unfold import_certificate in E. destruct (is_object item); [|done]. cbn [negb] in E. res_inv. cbn. apply Forall_app.
  split; [done|]. constructor; [|constructor].
  match goal with Hv : validate_and_normalize_certificate _ = Ok _ |- _ =>
    apply validated_certificate_readable in Hv as (_ & _ & ->) end. cbn. by eapply (at_storable b!"certificate_pem"); [|eassumption].
Qed.

Lemma decoded_readable encoded sites cs settings : decode_backup encoded = Ok (sites, cs, settings) ->
  Forall (fun c => storable_text (c_certificate_pem c)) cs.
Proof.
  intros E. unfold decode_backup in E. res_inv. pose proof (parsed_storable Eb) as Hs.
  unfold decode_document in E. cbv zeta in E. res_inv.
  eapply imported_certificates; [| |eassumption]; [|by apply Forall_nil]. apply elements_storable; [|by bool_to_prop].
  by eapply member_storable; [|eassumption].
Qed.

Lemma zip_readable ids cs : Forall (fun c => storable_text (c_certificate_pem c)) cs ->
  Forall (fun c => storable_text (c_certificate_pem c)) (zip_with set_c_id ids cs).
Proof. intros Hc. induction Hc as [|c cs H' _ IH] in ids |- *; destruct ids; cbn; constructor; auto. Qed.

Lemma serve_readable f op (c : Service R) : store_wf (repository_ c) -> readable_operation op -> readable_store (repository_ c) ->
  readable_store (repository_ (serve f op c).2).
Proof.
  intros Hok Hop Hr. destruct (serve f op c) as [[u|e] c'] eqn:E; [|apply serve_throws in E as [E _ _ _]; cbn; by rewrite E].
  cbn. unfold serve in E. destruct op; try apply done_with_ok in E as [stored E]; try done.
  - apply create_site_outcome in E as (? & ? & ? & ? & _ & _ & _ & Hw & Hm). rewrite (mv_repository _ _ _ _ _ Hm).
    apply create_site_ok in Hw as (_ & _ & Hc & _); [|done]. unfold readable_store. by rewrite Hc.
  - apply update_site_outcome in E as (? & ? & ? & _ & _ & _ & Hw & Hm). rewrite (mv_repository _ _ _ _ _ Hm).
    apply update_site_ok in Hw as (_ & Hc & _). unfold readable_store. by rewrite Hc.
  - apply delete_site_outcome in E as (? & ? & _ & Hw & Hm). rewrite (mv_repository _ _ _ _ _ Hm).
    apply delete_site_ok in Hw as (_ & Hc & _). unfold readable_store. by rewrite Hc.
  - pose proof (create_certificate_validates _ _ _ _ _ E) as (v & i & Hv & Hst).
    apply create_certificate_outcome in E as (? & ? & ? & id & Hst' & _ & Hw & Hm). rewrite (mv_repository _ _ _ _ _ Hm).
    apply create_certificate_ok in Hw as (Hc & _). unfold readable_store. rewrite Hc, <-Hst', Hst. apply Forall_app. split.
    + case_match; [|done]. unfold clear_defaults. by apply Forall_fmap.
    + constructor; [|constructor]. apply validated_certificate_readable in Hv as (_ & _ & Hp). cbn. by rewrite Hp.
  - pose proof (update_certificate_validates _ _ _ _ _ E) as Hv.
    apply update_certificate_outcome in E as (? & ? & _ & Hw & Hm). rewrite (mv_repository _ _ _ _ _ Hm).
    apply update_certificate_ok in Hw as (Hc & _). unfold readable_store. rewrite Hc. apply Forall_fmap.
    eapply Forall_impl; [exact Hr|]. intros row Hrow. cbn. apply validated_certificate_readable in Hv as (_ & _ & Hp).
    destruct (c_id row =? c_id stored); [by rewrite Hp|]. by destruct (c_is_default stored).
  - apply delete_certificate_outcome in E as (? & ? & _ & Hw & Hm). rewrite (mv_repository _ _ _ _ _ Hm).
    apply delete_certificate_ok in Hw as (Hc & _). unfold readable_store. rewrite Hc.
    apply Forall_forall. intros row [_ Hx]%list_elem_of_filter. unfold readable_store in Hr. rewrite Forall_forall in Hr. by apply Hr.
  - apply update_settings_outcome in E as (? & ? & _ & Hw & Hm). rewrite (mv_repository _ _ _ _ _ Hm).
    apply update_settings_ok in Hw as (Hc & _). unfold readable_store. by rewrite Hc.
  - apply import_outcome in E as (? & cs & ? & ? & ? & Hd & _ & Hw & Hm). rewrite (mv_repository _ _ _ _ _ Hm).
    apply replace_configuration_ok in Hw as (_ & (ids & Hc & _) & _); [|done]. unfold readable_store. rewrite Hc.
    apply zip_readable. by eapply decoded_readable.
  - apply reload_outcome in E as (? & _ & _ & Hm). by rewrite (mv_repository _ _ _ _ _ Hm).
Qed.

(** ** The accounts are not the service's *)

Lemma transaction_accounts {A} w (body : Store -> res (A * Store)) db a db' :
  (forall a db', body db = Ok (a, db') -> admin_rows db' = admin_rows db) ->
  transaction w body db = (Ok a, db') -> admin_rows db' = admin_rows db.
Proof. intros Hb E%transaction_ok. by eapply Hb. Qed.

Lemma insert_site_accounts site db x : insert_site site db = Ok x -> admin_rows x.2 = admin_rows db.
Proof. unfold insert_site. intros E. cbv zeta in E. destruct (insert_domains _ _); [|done]. by injection E as <-. Qed.
Lemma insert_certificate_accounts what c db x : insert_certificate what c db = Ok x -> admin_rows x.2 = admin_rows db.
Proof. unfold insert_certificate. intros E. cbv zeta in E. case_bool_decide; [done|]. destruct (_ && _); [done|]. by injection E as <-. Qed.

Lemma replace_accounts w sites cs settings db db' :
  replace_configuration w sites cs settings db = (Ok tt, db') -> admin_rows db' = admin_rows db.
Proof.
  apply transaction_accounts. intros u db1 E. cbv zeta in E. res_inv. cbn.
  apply (res_fold_keeps (fun d => admin_rows d = admin_rows db)) in Eb0; [done| |].
  - intros c d d' Hd E. res_inv. rewrite <-Hd. by eapply insert_certificate_accounts.
  - apply (res_fold_keeps (fun d => admin_rows d = admin_rows db)) in Eb; [done| |done].
    intros x d d' Hd E. res_inv. rewrite <-Hd. by eapply insert_site_accounts.
Qed.

Lemma serve_accounts f op (c : Service R) : admin_rows (repository_ (serve f op c).2) = admin_rows (repository_ c).
Proof.
  destruct (serve f op c) as [[u|e] c'] eqn:E; [|apply serve_throws in E as [E _ _ _]; cbn; by rewrite E].
  cbn. unfold serve in E. destruct op; try apply done_with_ok in E as [stored E].
  - apply create_site_outcome in E as (? & ? & ? & ? & _ & _ & _ & Hw & Hm). rewrite (mv_repository _ _ _ _ _ Hm).
    revert Hw. apply transaction_accounts. intros i d E. res_inv. by eapply insert_site_accounts.
  - apply update_site_outcome in E as (? & ? & ? & _ & _ & _ & Hw & Hm). rewrite (mv_repository _ _ _ _ _ Hm).
    revert Hw. apply transaction_accounts. intros i d E. case_match; [done|]. by res_inv.
  - apply delete_site_outcome in E as (? & ? & _ & Hw & Hm). rewrite (mv_repository _ _ _ _ _ Hm).
    revert Hw. apply transaction_accounts. intros i d E. case_match; [done|]. by res_inv.
  - apply seed_certificate_outcome in E as [[-> _ _ _]|(? & ? & ? & ? & _ & _ & _ & Hw & Hm)]; [done|].
    rewrite (mv_repository _ _ _ _ _ Hm). revert Hw. apply transaction_accounts. intros i d E. cbv zeta in E. res_inv.
    cbn. erewrite insert_certificate_accounts by eassumption. by case_match.
  - apply create_certificate_outcome in E as (? & ? & ? & id & _ & _ & Hw & Hm). rewrite (mv_repository _ _ _ _ _ Hm).
    revert Hw. apply transaction_accounts. intros i d E. cbv zeta in E. res_inv.
    cbn. erewrite insert_certificate_accounts by eassumption. by case_match.
  - apply update_certificate_outcome in E as (? & ? & _ & Hw & Hm). rewrite (mv_repository _ _ _ _ _ Hm).
    revert Hw. apply transaction_accounts. intros i d E. cbv zeta in E. case_match; [done|]. case_match; [done|]. by res_inv.
  - apply delete_certificate_outcome in E as (? & ? & _ & Hw & Hm). rewrite (mv_repository _ _ _ _ _ Hm).
    revert Hw. apply transaction_accounts. intros i d E. case_match; [done|]. by res_inv.
  - apply update_settings_outcome in E as (? & ? & _ & Hw & Hm). rewrite (mv_repository _ _ _ _ _ Hm).
    revert Hw. apply transaction_accounts. intros i d E. by res_inv.
  - apply import_outcome in E as (? & cs & ? & ? & ? & Hd & _ & Hw & Hm). rewrite (mv_repository _ _ _ _ _ Hm).
    by apply replace_accounts in Hw.
  - apply reload_outcome in E as (? & _ & _ & Hm). by rewrite (mv_repository _ _ _ _ _ Hm).
Qed.

(** ** Properties of one request *)

(** The services and the database agree but for the table of accounts. *)
Definition same_but_accounts (c c' : Service R) : Prop :=
  c' = ConfigService.set_repository (set_admins (admin_rows (repository_ c')) (repository_ c)) c.

Lemma same_but_accounts_refl c : same_but_accounts c c.
Proof. unfold same_but_accounts. by destruct c as [[]]. Qed.
Lemma same_accounts_set rows c : same_but_accounts c (ConfigService.set_repository (set_admins rows (repository_ c)) c).
Proof. done. Qed.

(** Nothing an administrator configures has changed, and neither has what runs. *)
Definition unaltered (c c' : Service R) : Prop := exists c1, unchanged c c1 /\ same_but_accounts c1 c'.

Definition failed (r : res Response) : Prop :=
  match r with Ok response => 400 <= rs_status response | Throw _ => True end.

Lemma succeeds_not_failed r : succeeds r -> ~ failed r.
Proof. intros (response & -> & Hs). cbn. lia. Qed.

Lemma handle_succeeds request call s : succeeds (handle_request pbkdf2 iteration request call (s : Api)).1 ->
  (handle pbkdf2 iteration request call s).1 = (handle_request pbkdf2 iteration request call s).1.
Proof. intros (response & E & _). unfold handle. by destruct (handle_request _ _ _ _ _) as [[?|?] ?]. Qed.
Lemma handle_state request call s :
  (handle pbkdf2 iteration request call (s : Api)).2 = (handle_request pbkdf2 iteration request call s).2.
Proof. unfold handle. by destruct (handle_request _ _ _ _ _) as [[?|?] ?]. Qed.

(** A request leaves the services alone, creates the first account, or is one
    operation whose outcome its answer tells. *)
Lemma request_operation request call (s : Api) : store_wf (db_of s) -> readable_store (db_of s) ->
  let '(r, s') := handle pbkdf2 iteration request call s in
  same_but_accounts (api_config s) (api_config s') \/
  exists f op, readable_operation op /\ api_config s' = (serve f op (api_config s)).2 /\
    (is_ok (serve f op (api_config s)).1 = true -> succeeds r).
Proof.
  intros Hok Hr. rewrite (surjective_pairing (handle _ _ _ _ _)).
  destruct (handle_cases pbkdf2 iteration request call s) as [->|[(_ & _ & _ & _ & rows & ->)|(h & s1 & _ & Hg & _ & Hc & Es & Eh)]].
  - left. apply same_but_accounts_refl.
  - left. apply same_accounts_set.
  - rewrite handle_state, Eh. rewrite <-Es in Hok, Hr |- *.
    destruct (changing_operation request call _ h s1 Hc Hg) as [->|(f & op & Hst & Hres)].
    + left. apply same_but_accounts_refl.
    + destruct (Hres Hok Hr) as [Ho Hsuc]. right. exists f, op. split_and!; try done. intros Hi. specialize (Hsuc Hi).
      rewrite handle_succeeds; by rewrite Eh.
Qed.

(** [handle_async] is [handle], but for the probe, which leaves the services alone. *)
Lemma async_cases request call (s : Api) :
  let '(r, s') := handle_async pbkdf2 iteration request call s in
  (exists r0, handle pbkdf2 iteration request call s = (r0, s') /\ r = (response ← r0; Ok (completed response))) \/
  api_config s' = api_config s.
Proof.
  unfold handle_async. destruct (_ || _).
  - unfold bind. destruct (handle _ _ _ _ s) as [[response|e] s1]; cbn; left; eauto.
  - assert (Hs : api_config (start_probe request call s).2 = api_config s).
    { unfold start_probe. rewrite bind_config; [rewrite on_auth_config, authorize_repository; apply service_eta|].
      intros allowed s1. destruct (negb allowed); [unfold unauthorized, respond, bind, lift; by destruct (json_response _ _ _)|].
      destruct (negb _); [unfold respond, bind, lift; by destruct (json_response _ _ _)|].
      unfold bind, lift. by destruct (_ ≫= _). }
    destruct (start_probe request call s) as [[answer|e] s1]; right; exact Hs.
Qed.

Lemma account_change request call (s : Api) : let s' := (handle pbkdf2 iteration request call s).2 in
  (~ same_but_accounts (api_config s) (api_config s') ->
    live_session (authorize_now call) s (session_token request) /\ has_mutation_guard request = true /\ writes request) /\
  (admin_rows (db_of s') <> admin_rows (db_of s) ->
    admin_rows (db_of s) = [] /\ has_mutation_guard request = true /\ request_path request = b!"/api/auth/setup").
Proof.
  destruct (handle_cases pbkdf2 iteration request call s) as [Hs|[(Hg & Hm & Hp & Ha & rows & Hs)|(h & s1 & Hl & Hg & Hw & Hc & Es & Eh)]].
  - cbv zeta. rewrite Hs. split; [intros []; apply same_but_accounts_refl|done].
  - cbv zeta. rewrite Hs. split; [intros []; apply same_accounts_set|done].
  - split; [done|]. intros []. rewrite handle_state, Eh, <-Es.
    destruct (changing_operation request call _ h s1 Hc Hg) as [->|(f & op & -> & _)]; [done|]. apply serve_accounts.
Qed.

Lemma answer_tells request call (s : Api) : store_wf (db_of s) -> readable_store (db_of s) ->
  failed (handle pbkdf2 iteration request call s).1 ->
  unaltered (api_config s) (api_config (handle pbkdf2 iteration request call s).2).
Proof.
  intros Hok Hr Hf. pose proof (request_operation request call s Hok Hr) as Ho.
  rewrite (surjective_pairing (handle _ _ _ _ _)) in Ho. destruct Ho as [Hs|(f & op & _ & -> & Hi)].
  - exists (api_config s). by split; [apply unchanged_refl|].
  - destruct (serve f op (api_config s)) as [[u|e] c'] eqn:E; [by destruct (succeeds_not_failed _ (Hi eq_refl))|].
    exists c'. split; [by eapply serve_throws|apply same_but_accounts_refl].
Qed.

Definition async_failed (r : res async_answer) : Prop :=
  match r with Ok (completed response) => 400 <= rs_status response | Ok (probing _) => False | Throw _ => True end.

(** Only an administrator changes the configuration.  A request after which
    anything but the table of accounts differs carries the token of a session that
    was open when it arrived, has the guard header, and is a POST, PUT or DELETE; and
    the table of accounts changes only by the first setup, while it is empty. *)
Theorem changes_need_session_and_guard request call (s s' : Api) r :
  handle_async pbkdf2 iteration request call s = (r, s') ->
  (~ same_but_accounts (api_config s) (api_config s') ->
    live_session (authorize_now call) s (session_token request) /\ has_mutation_guard request = true /\
    r_method request ∈ [verb_post; verb_put; verb_delete]) /\
  (admin_rows (db_of s') <> admin_rows (db_of s) ->
    admin_rows (db_of s) = [] /\ has_mutation_guard request = true /\ request_path request = b!"/api/auth/setup").
Proof.
  intros E. pose proof (async_cases request call s) as Hc. rewrite E in Hc. destruct Hc as [(r0 & Eh & _)|Hs].
  - pose proof (account_change request call s) as Ha. by rewrite Eh in Ha.
  - rewrite Hs. split; [intros []; apply same_but_accounts_refl|done].
Qed.

(** The first setup: an account that was created is answered with 200, unless there
    are no random bytes for the token of its session. *)
Definition told (s : Api) (x : res Response * Api) : Prop :=
  admin_rows (db_of x.2) <> admin_rows (db_of s) -> succeeds x.1.

Lemma credentials_told request call (s : Api) bytes : token_input call = Some bytes ->
  told s (credentials_handler pbkdf2 iteration request call b!"/api/auth/setup" s).
Proof.
  intros Ht. unfold credentials_handler, guarded. destruct (has_mutation_guard request); [|by intros []]. cbn [negb]. unfold lift.
  unfold bind at 1. destruct (parse (r_body request)) as [payload|]; [|by intros []].
  unfold bind at 1. destruct (at_get get_string _ payload) as [username|]; [|by intros []].
  unfold bind at 1. destruct (at_get get_string _ payload) as [password|]; [|by intros []].
  rewrite bool_decide_eq_true_2 by done. unfold bind at 1, on_auth.
  destruct (setup_cases pbkdf2 iteration username password (remote_ip call) (check_now call) (later_now call) (salt_input call)
    (token_input call) (auth_view s)) as [e s' [->|Hs]|salt hash db _ _ _ _ _].
  - by intros [].
  - intros []. cbn. destruct (check_rate_limit_cases (remote_ip call) (check_now call) (auth_view s)) as [[E _]|(E & _ & Hr & _)];
      rewrite Hs in E; [done|]. injection E as ->. by rewrite Hr.
  - rewrite issue_session_spec, Ht. intros _. unfold bind, respond, lift.
    destruct (json_response_ok request 200 (j_object [(b!"authenticated", JBool true)])) as (response & E & Er); [storable_document|].
    rewrite E. eexists. split; [reflexivity|]. cbn. lia.
Qed.

Lemma setup_told request call (s : Api) bytes : token_input call = Some bytes ->
  told s (handle pbkdf2 iteration request call s).
Proof.
  intros Ht Hn.
  destruct (handle_cases pbkdf2 iteration request call s) as [Hs|[(_ & Hm & Hp & _)|(h & s1 & _ & Hg & _ & Hc & Es & Eh)]].
  { destruct Hn. cbv zeta in Hs. by rewrite Hs. }
  2: { destruct Hn. rewrite handle_state, Eh, <-Es.
       destruct (changing_operation request call _ h s1 Hc Hg) as [->|(f & op & -> & _)]; [done|]. apply serve_accounts. }
  enough (He : told s (handle_request pbkdf2 iteration request call s))
    by (rewrite handle_state in Hn; specialize (He Hn); by rewrite handle_succeeds).
  unfold handle_request. cbv zeta. unfold is_method. rewrite Hm, Hp. rewrite (bool_decide_eq_false_2 (verb_post = verb_get)) by done.
  rewrite (bool_decide_eq_true_2 (verb_post = verb_post)), (bool_decide_eq_true_2 (b!"/api/auth/setup" = b!"/api/auth/setup")) by done.
  by eapply credentials_told.
Qed.


End Operations.

(** ** The running system behind the interface *)

Section System.
Context `{JsonText} `{AddressText} `{Regex} `{OpenSsl}.
Variable pbkdf2 : str -> str -> Z -> nat -> option str.
Variable iteration : gmap str Z -> list (str * Z).

(** The data plane was started; requests arrive one after the other, and in between
    the listeners go on by themselves. *)
Inductive api_reachable : Api Server -> Prop :=
| api_started {R} `{!ReloadTarget R} mf f0 file (r : R) f files c s0 s auth :
    store_wf (tables file) -> open_service mf f0 file r = (Ok tt, s0) ->
    start_data_plane f files c s0 = running s -> api_reachable {| api_config := s; api_auth := auth |}
| api_request request call s :
    api_reachable s -> config_revision (repository_ (api_config s)) + 1 < 2 ^ 63 ->
    api_reachable (handle_async pbkdf2 iteration request call s).2
| api_background s r' :
    api_reachable s -> background (runtime (api_config s)) r' ->
    api_reachable (with_config (set_runtime r' (api_config s)) s).

Lemma handled_whole request call (s : Api Server) : whole_reachable (api_config s) ->
  config_revision (repository_ (api_config s)) + 1 < 2 ^ 63 ->
  whole_reachable (api_config (handle pbkdf2 iteration request call s).2).
Proof.
  intros Hw Hb. destruct (handle_cases pbkdf2 iteration request call s)
    as [Hs|[(_ & _ & _ & _ & rows & Hs)|(h & s1 & _ & Hg & _ & Hc & Es & Eh)]].
  - cbv zeta in Hs. by rewrite Hs.
  - cbv zeta in Hs. rewrite Hs. by apply whole_accounts.
  - rewrite handle_state, Eh. rewrite <-Es in Hw, Hb.
    destruct (changing_operation request call _ h s1 Hc Hg) as [Hs|(f & op & Hs & _)]; rewrite Hs; [done|by apply whole_serve].
Qed.

(** C4: The interface drives the system only through the operations of the
    configuration service: every state reached by requests, valid or not,
    authenticated or not, is a state of the system of configuration service and
    server, so that what is proved of that system holds behind the interface. *)
Theorem requests_stay_within_the_system s : api_reachable s -> whole_reachable (api_config s).
Proof.
  induction 1 as [|request call s _ IH Hb|s r' _ IH Hr]; [by eapply whole_start| |by apply whole_background].
  pose proof (async_cases pbkdf2 iteration request call s) as Hc.
  rewrite (surjective_pairing (handle_async _ _ _ _ _)) in Hc. destruct Hc as [(r0 & Eh & _)|Hs].
  - pose proof (handled_whole request call s IH Hb) as Hw. by rewrite Eh in Hw.
  - by rewrite Hs.
Qed.
End System.

(** ** Sessions and cookies *)

Lemma find_segment_split {A} fuel sep (f : str -> option A) s : (length s <= fuel)%nat -> f [] = None ->
  find_segment fuel sep f s = head (omap f (split sep s)).
Proof.
  intros Hf Hnil. induction fuel as [|fuel IH] in s, Hf |- *.
  { destruct s; [|cbn in Hf; lia]. cbn. by rewrite Hnil. }
  destruct s as [|x s]; [cbn; by rewrite Hnil|]. cbn [find_segment].
  destruct (break_at sep (x :: s)) as [part [rest|]] eqn:E.
  - apply break_at_Some in E as [E Hn]. rewrite E, split_app by done. cbn. destruct (f part); [done|]. apply IH.
    apply (f_equal length) in E. rewrite length_app in E. cbn in E, Hf. lia.
  - apply break_at_None in E as [-> Hn]. rewrite split_notin by done. cbn [omap list_omap]. by destruct (f (x :: s)).
Qed.

Lemma session_token_cookies request cookies : cookies <> [] -> Forall (fun c => ";"%char ∉ c) cookies ->
  r_field request b!"Cookie" = join ";" cookies -> session_token request = default [] (head (omap token_of_part cookies)).
Proof.
  intros Hne Hc E. unfold session_token. cbv zeta. rewrite E, find_segment_split by done. by rewrite split_join.
Qed.

Lemma to_hex_semicolon bytes : ";"%char ∉ to_hex bytes.
Proof.
  unfold to_hex. intros Hin. apply list_elem_of_join in Hin as (l & Hl & Hin). apply list_elem_of_fmap in Hin as (b & -> & _).
  assert (Hd : forall v, default "0"%char (b!"0123456789abcdef" !! Z.to_nat v) <> ";"%char).
  { intros v. destruct (b!"0123456789abcdef" !! Z.to_nat v) as [c|] eqn:E; [|done].
    apply list_elem_of_lookup_2 in E. repeat (apply elem_of_cons in E as [->|E]; [done|]). by apply not_elem_of_nil in E. }
  apply elem_of_cons in Hl as [Hl|Hl]; [by eapply Hd|]. apply list_elem_of_singleton in Hl. by eapply Hd.
Qed.
Lemma to_hex_nonempty bytes : bytes <> [] -> to_hex bytes <> [].
Proof. by destruct bytes. Qed.

Lemma token_found before after part token : Forall (fun c => token_of_part c = None) before ->
  skip_spaces part = session_prefix ++ token -> head (omap token_of_part (before ++ part :: after)) = Some token.
Proof.
  intros Hb Hp. assert (Ht : token_of_part part = Some token).
  { unfold token_of_part. cbv zeta. by rewrite Hp, starts_with_app, drop_app_length. }
  induction Hb as [|c before Hc _ IH]; cbn [app omap list_omap]; [by rewrite Ht|rewrite Hc; exact IH].
Qed.

Section Login.
Context `{JsonText} `{AddressText} `{Regex} `{OpenSsl} {R : Type} `{!ReloadTarget R}.
Local Notation Api := (Api R).
Local Open Scope auth_scope.
Variable pbkdf2 : str -> str -> Z -> nat -> option str.
Variable iteration : gmap str Z -> list (str * Z).

(** A token that was issued is that of an open session. *)
Definition issued (l : Z) (tok : option str) (a : AuthState Store) (r : res str * AuthState Store) : Prop :=
  forall token, r.1 = Ok token -> exists bytes, tok = Some bytes /\ token = to_hex bytes /\
    sessions r.2 !! token = Some (l + lifetime a).

Lemma issue_issued l tok a a' : lifetime a' = lifetime a -> issued l tok a (issue_session iteration l tok a').
Proof.
  intros Hl token. rewrite issue_session_spec. cbv zeta. destruct tok as [bytes|]; [|done]. intros [= <-].
  exists bytes. split; [done|]. split; [done|]. cbn. rewrite lookup_insert_eq.
  destruct (evict_oldest_other iteration (purge_expired_sessions l a')) as (_ & -> & _). cbn. by rewrite Hl.
Qed.

Lemma login_issued name password ip t l tok a : issued l tok a (login pbkdf2 iteration name password ip t l tok a).
Proof.
  destruct (login_cases pbkdf2 iteration name password ip t l tok a) as [| | |Hc _]; try done. apply issue_issued.
  destruct (check_rate_limit_cases ip t a) as [[E _]|(_ & _ & _ & Hl & _)]; [congruence|done].
Qed.
Lemma setup_issued name password ip t l salt tok a :
  issued l tok a (create_first_admin pbkdf2 iteration name password ip t l salt tok a).
Proof.
  destruct (setup_cases pbkdf2 iteration name password ip t l salt tok a) as [|salt' hash db Hc _ _ _ _]; [done|].
  apply issue_issued. destruct (check_rate_limit_cases ip t a) as [[E _]|(_ & _ & _ & Hl & _)]; [congruence|done].
Qed.

Lemma json_response_status request status body response : json_response request status body = Ok response ->
  rs_status response = status.
Proof. unfold json_response. intros E. res_inv. done. Qed.

Lemma error_status request e response : error_response request e = Ok response -> 400 <= rs_status response.
Proof. destruct e; cbn; intros ->%json_response_status; try case_match; lia. Qed.

(** The answer and the state after a successful login or setup. *)
Definition opened (call : Call) (s : Api) (r : res Response * Api) : Prop :=
  forall response, r.1 = Ok response -> rs_status response = 200 -> exists bytes, token_input call = Some bytes /\
    (b!"Set-Cookie", session_cookie (to_hex bytes)) ∈ rs_fields response /\
    sessions (api_auth r.2) !! to_hex bytes = Some (later_now call + lifetime (api_auth s)).

Lemma entered_opened request call (m : M (AuthState Store) str) (s : Api) :
  issued (later_now call) (token_input call) (auth_view s) (m (auth_view s)) ->
  opened call s ((token <~ on_auth m;
    response <~ respond request 200 (j_object [(b!"authenticated", JBool true)]);
    ret (set_field b!"Set-Cookie" (session_cookie token) response)) s).
Proof.
  intros Hi response. unfold bind, on_auth, issued in *. destruct (m (auth_view s)) as [[token|] a]; [|done].
  destruct (Hi token eq_refl) as (bytes & Htok & -> & Hs). unfold respond, lift.
  destruct (json_response _ _ _) as [plain|]; [|done]. intros [= <-] _. exists bytes. split; [done|]. split; [|exact Hs].
  cbn. set_solver.
Qed.

Lemma credentials_opened request call path (s : Api) : opened call s (credentials_handler pbkdf2 iteration request call path s).
Proof.
  unfold credentials_handler, guarded. destruct (negb (has_mutation_guard request)).
  { intros response E%json_response_status. lia. }
  unfold lift. unfold bind at 1. destruct (parse (r_body request)) as [payload|]; [|done].
  unfold bind at 1. destruct (at_get get_string _ payload) as [username|]; [|done].
  unfold bind at 1. destruct (at_get get_string _ payload) as [password|]; [|done].
  case_bool_decide; [apply entered_opened, setup_issued|].
  pose proof (entered_opened request call (login pbkdf2 iteration username password (remote_ip call) (check_now call)
    (later_now call) (token_input call)) s (login_issued _ _ _ _ _ _ _)) as Ho.
  unfold opened, bind, catch_invalid in *. destruct (on_auth _ s) as [[token|[]] s']; try done.
  intros response E%json_response_status. lia.
Qed.

(** Logging in opens a session.  When a login or the first setup is answered with
    200, the answer sets the session cookie to a token made of the random bytes; a
    later request that sends it back, alone or among other cookies, is authenticated
    until the lifetime of the session has passed. *)
Theorem login_opens_session request call bytes response (s s' : Api) :
  r_method request = verb_post -> request_path request ∈ [b!"/api/auth/setup"; b!"/api/auth/login"] ->
  token_input call = Some bytes -> bytes <> [] ->
  handle_async pbkdf2 iteration request call s = (Ok (completed response), s') -> rs_status response = 200 ->
  (b!"Set-Cookie", session_cookie (to_hex bytes)) ∈ rs_fields response /\
  forall request' before part after now, Forall (fun c => ";"%char ∉ c) (before ++ part :: after) ->
    r_field request' b!"Cookie" = join ";" (before ++ part :: after) ->
    Forall (fun c => token_of_part c = None) before -> skip_spaces part = session_prefix ++ to_hex bytes ->
    now < later_now call + lifetime (api_auth s) -> live_session now s' (session_token request').
Proof.
  intros Hm Hp Ht Hb E Hst. unfold handle_async in E.
  replace (negb (is_method request verb_post) || negb (bool_decide (request_path request = b!"/api/backends/test"))) with true in E.
  2: { symmetry. apply orb_true_iff. right. apply negb_true_iff, bool_decide_eq_false. intros Ht'. rewrite Ht' in Hp.
       apply elem_of_cons in Hp as [Hp|Hp]; [done|]. by apply list_elem_of_singleton in Hp. }
  unfold bind in E. destruct (handle _ _ _ _ s) as [[r|] s1] eqn:Eh; [|done]. injection E as -> ->.
  unfold handle in Eh. destruct (handle_request _ _ _ _ s) as [[r|e] s1] eqn:Er.
  2: { injection Eh as Eh _. apply error_status in Eh. lia. }
  injection Eh as -> ->. unfold handle_request in Er. cbv zeta in Er.
  assert (Hget : is_method request verb_get = false) by (unfold is_method; by rewrite Hm).
  assert (Hpost : is_method request verb_post = true) by (unfold is_method; by rewrite Hm). rewrite Hget, Hpost in Er.
  cbn [andb] in Er. replace (_ || _) with true in Er.
  2: { symmetry. apply orb_true_iff. rewrite !bool_decide_eq_true.
       apply elem_of_cons in Hp as [Hp|Hp]; [by left|right]. by apply list_elem_of_singleton in Hp. }
  pose proof (credentials_opened request call (request_path request) s response) as Ho. rewrite Er in Ho.
  destruct (Ho eq_refl Hst) as (bytes' & Hb' & Hin & Hses). rewrite Ht in Hb'. injection Hb' as <-. split; [done|].
  intros request' before part after now Hsemi Hc Hbefore Hpart Hnow.
  rewrite (session_token_cookies request' (before ++ part :: after)), (token_found _ _ _ _ Hbefore Hpart) by (by try destruct before).
  split; [by apply to_hex_nonempty|]. eexists. split; [exact Hses|done].
Qed.
End Login.

(** ** Text from clients *)

(** [dump] refuses text that is not UTF-8, and a request target is any bytes: one open
    connection with such a target, and the page of all connections cannot be written. *)
Theorem unreadable_target_blocks_page `{JsonText} request view connection :
  (forall j, ~ storable j -> json_dump j = None) ->
  connection ∈ snapshot_connections (connection_table view) 5000 (now_steady view) -> ~ storable_text (ci_url connection) ->
  json_response request 200 (connections_page view) = Throw json_exception.
Proof.
  intros Hstrict Hin Hurl. unfold json_response, dump. rewrite Hstrict; [done|]. intros Hs.
  apply storable_object in Hs. destruct (Hs b!"connections" (JArray (connection_json <$> snapshot_connections (connection_table view) 5000 (now_steady view)))) as [_ Ha].
  { by rewrite assoc_spec. }
  apply storable_array in Ha. rewrite Forall_fmap, Forall_forall in Ha. specialize (Ha _ Hin). cbn in Ha.
  apply storable_object in Ha. destruct (Ha b!"url" (JString (ci_url connection))) as [_ Hu]; [by rewrite assoc_spec|]. done.
Qed.

(** ** The log pages *)

Section Logs.
Context `{JsonText}.

(** What the viewer makes of one line: an entry, or nothing. *)
Definition classify (matching : json -> res bool) (line : str) : res (option json) :=
  match json_parse line with
  | Some (JObject _ as item) => matched ← matching item; Ok (if matched : bool then Some item else None)
  | _ => Ok None
  end.

Lemma lastn_short {A} n (l : list A) : (length l <= n)%nat -> lastn n l = l.
Proof. intros Hl. unfold lastn. by replace (length l - n)%nat with 0%nat by lia. Qed.
Lemma lastn_again {A} n (l l' : list A) : lastn n (lastn n l ++ l') = lastn n (l ++ l').
Proof.
  unfold lastn. destruct (decide (length l <= n)%nat).
  - by replace (length l - n)%nat with 0%nat by lia.
  - rewrite !length_app, length_drop. rewrite !drop_app, drop_drop, length_drop.
    f_equal; f_equal; lia.
Qed.
Lemma reverse_lastn {A} n (l : list A) : reverse (lastn n l) = take n (reverse l).
Proof.
  unfold lastn. rewrite <-(take_drop (length l - n) l) at 3. rewrite reverse_app.
  destruct (decide (length l <= n)%nat).
  - replace (length l - n)%nat with 0%nat by lia. rewrite drop_0, take_0. cbn. rewrite app_nil_r.
    by rewrite take_ge by (rewrite length_reverse; lia).
  - rewrite take_app_length'; [done|]. rewrite length_reverse, length_drop. lia.
Qed.

(** The deque holds the last [limit] matches. *)
Lemma collect_spec matching limit lines matches : (0 < limit)%nat ->
  res_fold (collect_line matching limit) lines (lastn limit matches) =
  (entries ← res_map (classify matching) lines; Ok (lastn limit (matches ++ omap id entries))).
Proof.
  intros Hn. induction lines as [|line lines IH] in matches |- *; cbn [res_fold res_map].
  { cbn. by rewrite app_nil_r. }
  assert (Hskip : res_fold (collect_line matching limit) lines (lastn limit matches) =
    (entries ← match res_map (classify matching) lines with Ok ys => Ok (None :: ys) | Throw e => Throw e end;
     Ok (lastn limit (matches ++ omap id entries)))).
  { rewrite IH. by destruct (res_map (classify matching) lines). }
  unfold collect_line at 1, classify at 1. destruct (json_parse line) as [[| | | | | |m]|]; try exact Hskip.
  destruct (matching (JObject m)) as [matched|]; [|done]. cbn [mbind res_bind]. destruct matched; cbn [negb]; [|exact Hskip].
  cbv zeta. set (item := JObject m).
  assert (Hnext : (if (limit <? length (lastn limit matches ++ [item]))%nat then tail (lastn limit matches ++ [item])
                   else lastn limit matches ++ [item]) = lastn limit (matches ++ [item])).
  { rewrite <-lastn_again. set (l := lastn limit matches).
    assert (Hl : (length l <= limit)%nat) by (unfold l; rewrite lastn_length; lia).
    destruct (Nat.ltb_spec limit (length (l ++ [item]))) as [Hlt|Hge]; [|by rewrite lastn_short].
    rewrite length_app in Hlt. cbn in Hlt. unfold lastn. rewrite length_app. cbn [length].
    replace (length l + 1 - limit)%nat with 1%nat by lia. by destruct l; [cbn in *; lia|]. }
  rewrite Hnext, IH. destruct (res_map (classify matching) lines); [|done]. cbn [mbind res_bind omap list_omap].
  by rewrite <-app_assoc.
Qed.

(** The log pages show the newest matching entries, newest first: of the lines the
    log retains, those that are JSON objects and pass the filters, at most as many as
    the limit asks for.  An invalid limit, or a filter that fails on a line, is what
    the page throws. *)
Theorem log_page_shows_newest request access rotated access_files error_files :
  log_page request access (rotated, access_files, error_files) =
  let parameters := query_parameters request in
  limit ← log_limit parameters;
  lines ← recent_lines rotated (if access : bool then access_files else error_files) 50000;
  entries ← res_map (classify ((if access then access_matches else error_matches) parameters)) lines;
  Ok (j_object [(b!"entries", JArray (take limit (reverse (omap id entries))))]).
Proof.
  unfold log_page. cbv zeta. destruct (log_limit (query_parameters request)) as [limit|] eqn:El; [|done].
  cbn [mbind res_bind]. destruct (recent_lines _ _ _) as [lines|]; [|done]. cbn [mbind res_bind].
  assert (Hl : (0 < limit)%nat).
  { unfold log_limit in El. destruct (_ !! _) as [text|]; [|injection El; lia].
    destruct (from_chars_u 64 text) as [[n []]|]; [|done|done]. destruct (_ || _) eqn:En; [|done]. injection El. bool_to_prop. lia. }
  pose proof (collect_spec ((if access then access_matches else error_matches) (query_parameters request)) limit lines [] Hl) as Hc.
  change (lastn limit []) with (@nil json) in Hc. rewrite Hc.
  destruct (res_map _ lines) as [entries|]; [|done]. cbn [mbind res_bind app]. by rewrite reverse_lastn.
Qed.
End Logs.

(** ** Private keys *)

Section Keys.
Context `{JsonText} `{AddressText} `{Regex} `{OpenSsl} {R : Type} `{!ReloadTarget R}.
Local Notation Api := (Api R).
Local Open Scope auth_scope.
Variable pbkdf2 : str -> str -> Z -> nat -> option str.
Variable iteration : gmap str Z -> list (str * Z).

(** The database with every private key blotted out. *)
Definition redact (c : CertificateRecord) : CertificateRecord :=
  {| c_id := c_id c; c_name := c_name c; c_enabled := c_enabled c; c_is_default := c_is_default c; c_domains := c_domains c;
     c_certificate_pem := c_certificate_pem c;
     c_private_key_pem := if bool_decide (c_private_key_pem c = []) then [] else b!"*" |}.
Definition redact_store (db : Store) : Store :=
  set_certificates (redact <$> certificate_rows db) (certificate_sequence db) db.
Definition redact_api (s : Api) : Api :=
  with_config (ConfigService.set_repository (redact_store (repository_ (api_config s))) (api_config s)) s.

Lemma redact_list db : list_certificates (redact_store db) = redact <$> list_certificates db.
Proof.
  unfold list_certificates. cbn [redact_store set_certificates certificate_rows]. rewrite fmap_app. generalize (certificate_rows db).
  intros rows. f_equal; induction rows as [|c rows IH]; [done| |done|]; rewrite fmap_cons, !filter_cons;
    change (c_is_default (redact c)) with (c_is_default c); rewrite IH; by case_decide.
Qed.

Lemma redact_json c : certificate_json (redact c) = certificate_json c.
Proof. unfold certificate_json. cbn [redact c_id c_name c_enabled c_is_default c_domains c_certificate_pem c_private_key_pem].
  by destruct (bool_decide (c_private_key_pem c = [])). Qed.

(** The computation answers without looking at the keys. *)
Definition blind {A} (m : M Api A) : Prop := forall s, m (redact_api s) = ((m s).1, redact_api (m s).2).

Lemma blind_ret {A} (a : A) : blind (ret a).
Proof. done. Qed.
Lemma blind_lift {A} (r : res A) : blind (lift r).
Proof. done. Qed.
Lemma blind_respond request status body : blind (respond request status body).
Proof. done. Qed.
Lemma blind_inspect {A} (f : Service R -> A) : (forall s, f (api_config (redact_api s)) = f (api_config s)) -> blind (inspect f).
Proof. intros Hf s. unfold inspect. by rewrite Hf. Qed.
Lemma blind_reading {A} f (q : Store -> res A) : (forall db, q (redact_store db) = q db) -> blind (reading f q).
Proof. intros Hq s. unfold reading. cbn. by rewrite Hq. Qed.
Lemma blind_bind {A B} (m : M Api A) (k : A -> M Api B) : blind m -> (forall a, blind (k a)) -> blind (bind m k).
Proof.
  intros Hm Hk s. unfold bind. rewrite Hm. destruct (m s) as [[a|e] s']; cbn; [apply Hk|done].
Qed.

Create HintDb blind.
#[local] Hint Resolve blind_ret blind_lift blind_respond blind_bind : blind.
#[local] Hint Extern 1 (blind (reading _ _)) => (by apply blind_reading) : blind.
#[local] Hint Extern 1 (blind (inspect _)) => (by apply blind_inspect) : blind.

Lemma blind_certificates request call : blind (certificates_handler request call).
Proof.
  intros s. unfold certificates_handler, reading, bind. destruct (faults call 0); try done;
    (cbn [fst snd]; cbn [redact_api with_config api_config ConfigService.set_repository repository_];
     rewrite redact_list, <-list_fmap_compose; rewrite (list_fmap_ext (certificate_json ∘ redact) certificate_json);
     [done|intros; apply redact_json]).
Qed.

Lemma blind_get request call path token : r_method request = verb_get -> path <> b!"/api/config/backup" ->
  blind (handle_authenticated (R := R) request call path token).
Proof.
  intros Hm Hp. unfold handle_authenticated. cbv zeta.
  assert (Hn : forall v, v <> verb_get -> is_method request v = false).
  { intros v Hv. unfold is_method. apply bool_decide_eq_false. congruence. }
  rewrite !(Hn verb_post), !(Hn verb_put), !(Hn verb_delete) by done. cbn [andb orb].
  unfold status_handler, metrics_handler, logs_handler, sites_handler, settings_handler.
  repeat match goal with
  | |- blind (if ?b then _ else _) => destruct b eqn:?
  | |- blind match ?o with Some _ => _ | None => _ end => destruct o
  end; try solve [eauto 20 with blind]; [|apply blind_certificates].
  by bool_to_prop.
Qed.

Lemma redact_view (s : Api) : auth_view (redact_api s) = attach (redact_store (repository_ (api_config s))) (api_auth s).
Proof. done. Qed.

Lemma blind_authorize token now : blind (on_auth (authorize token now) : M Api bool).
Proof.
  intros s. unfold on_auth. rewrite redact_view. unfold authorize. case_bool_decide.
  - cbn. unfold with_auth, redact_api, with_config. cbn. by destruct s as [[] []].
  - unfold purge_expired_sessions. cbn [set_sessions sessions attach auth_view].
    destruct (filter _ _ !! token); cbn; unfold with_auth, redact_api, with_config; cbn; by destruct s as [[] []].
Qed.

Lemma blind_setup_state : blind (on_auth (fun a => (setup_required a, a)) : M Api bool).
Proof. intros s. unfold on_auth. rewrite redact_view. by destruct s as [[] []]. Qed.

(** C17: Reading never shows a private key.  The answer to a GET request, other than the
    download of a backup, is the same if every private key of the database is
    blotted out: it depends on which certificates have a key, not on the key. *)
Theorem reads_hide_private_keys request call (s : Api) :
  r_method request = verb_get -> request_path request <> b!"/api/config/backup" ->
  (handle_async pbkdf2 iteration request call (redact_api s)).1 = (handle_async pbkdf2 iteration request call s).1.
Proof.
  intros Hm Hp. assert (Hpost : is_method request verb_post = false) by (unfold is_method; by rewrite Hm).
  assert (Hb : blind (handle_request (R := R) pbkdf2 iteration request call)).
  { unfold handle_request. cbv zeta. rewrite Hpost. cbn [andb]. destruct (_ && _).
    - apply blind_bind; [apply blind_setup_state|auto with blind].
    - apply blind_bind; [apply blind_authorize|]. intros allowed. destruct (negb allowed); [apply blind_respond|by apply blind_get]. }
  unfold handle_async. rewrite Hpost. cbn [negb orb]. unfold bind, handle. rewrite Hb.
  by destruct (handle_request pbkdf2 iteration request call s) as [[r|e] s']; cbn; [|destruct (error_response request e)].
Qed.
End Keys.

(** ** Sample requests *)

Section Sample.
#[local] Existing Instance stored_json.
#[local] Existing Instance loopback_only.
#[local] Existing Instance no_regex.
#[local] Existing Instance permissive_openssl.
#[local] Existing Instance direct_target.

Definition sample_kdf (password salt : str) (iterations : Z) (size : nat) : option str := Some (password ++ salt).

Definition quiet_surroundings : Surroundings :=
  {| now_steady := 0; connection_table := empty_connections; request_table := empty_requests; limiter_state := initial_impl;
     listener_status_provider_ := None; logger_ := None |}.
(** Every probe times out. *)
Definition no_network : ProbeInputs := {| pi_started := 0; pi_throws := []; pi_thrown := runtime_error []; pi_choose _ := (ETimer false, 0, []) |}.
Definition sample_call (f : fault) : Call :=
  {| remote_ip := b!"127.0.0.1"; authorize_now := 10; check_now := 10; later_now := 20; exported_at_unix := 0;
     uptime_seconds := 0; salt_input := Some b!"salt"; token_input := Some b!"xy"; faults _ := f;
     error_message _ := b!"error"; probe_inputs := no_network; around := quiet_surroundings |}.
Definition sample_request (method : verb) (target : str) (fields : list (str * str)) (body : json) : Request :=
  {| r_method := method; r_target := target; r_field name := default [] (snd <$> head (filter (fun f => f.1 = name) fields));
     r_body := token_dump body; r_keep_alive := true; r_version := 11 |}.

Definition sample_api : Api Config :=
  {| api_config := sample_service; api_auth := Build_AuthState () 1000 16 {[b!"aa" := 100]} ∅ |}.

Definition cookie_and_guard : list (str * str) := [(b!"Cookie", b!"theme=dark; ws_admin_session=aa"); (b!"X-WebServer-Admin", b!"1")].
Definition create_request : Request := sample_request verb_post b!"/api/sites" cookie_and_guard
  (j_object [(b!"name", JString b!"a"); (b!"domains", j_strings [b!"A.test"]); (b!"backend_address", JString b!"127.0.0.1");
             (b!"backend_port", JInt 8080)]).
Definition answer (f : fault) (request : Request) : res async_answer * Api Config :=
  handle_async sample_kdf map_to_list request (sample_call f) sample_api.

Lemma changes_need_session_and_guard_witness :
  ~ same_but_accounts (api_config sample_api) (api_config (answer no_fault create_request).2) /\
  live_session 10 sample_api b!"aa" /\ has_mutation_guard create_request = true.
Proof.
  assert (Hr : config_revision (repository_ (api_config (answer no_fault create_request).2)) = 2) by (vm_compute; reflexivity).
  assert (Hn : ~ same_but_accounts (api_config sample_api) (api_config (answer no_fault create_request).2)).
  { intros E. unfold same_but_accounts in E. apply (f_equal (fun c => config_revision (repository_ c))) in E.
    rewrite Hr in E. vm_compute in E. discriminate E. }
  split; [exact Hn|].
  destruct (changes_need_session_and_guard sample_kdf map_to_list create_request (sample_call no_fault) sample_api
    (answer no_fault create_request).2 (answer no_fault create_request).1 (surjective_pairing _)) as [Hc _].
  destruct (Hc Hn) as (Hl & Hg & _). assert (Ht : session_token create_request = b!"aa") by (vm_compute; reflexivity).
  rewrite Ht in Hl. exact (conj Hl Hg).
Defined.


Definition setup_request : Request := sample_request verb_post b!"/api/auth/setup" [(b!"X-WebServer-Admin", b!"1")]
  (j_object [(b!"username", JString b!"admin"); (b!"password", JString b!"correct horse")]).
Definition next_request : Request := sample_request verb_get b!"/api/status" [(b!"Cookie", b!"a=b; ws_admin_session=7879")] JNull.

Lemma login_opens_session_witness :
  (exists response, (answer no_fault setup_request).1 = Ok (completed response) /\ rs_status response = 200) /\
  live_session 1000 (answer no_fault setup_request).2 (session_token next_request) /\ session_token next_request = b!"7879".
Proof.
  assert (Hst : exists response, (answer no_fault setup_request).1 = Ok (completed response) /\
    rs_status response = 200) by (vm_compute; eexists; split; reflexivity). split; [exact Hst|].
  split; [|vm_compute; reflexivity]. destruct Hst as (response & Hr & Hs).
  assert (E : answer no_fault setup_request = (Ok (completed response), (answer no_fault setup_request).2))
    by (rewrite <-Hr; apply surjective_pairing).
  destruct (login_opens_session sample_kdf map_to_list setup_request (sample_call no_fault) b!"xy" response sample_api
    (answer no_fault setup_request).2 eq_refl ltac:(vm_compute; left) eq_refl ltac:(discriminate) E Hs) as [_ Hl].
  apply (Hl next_request [b!"a=b"] b!" ws_admin_session=7879" []);
    [closed_decision|vm_compute; reflexivity|closed_decision|vm_compute; reflexivity|vm_compute; reflexivity].
Defined.

(** The random generator fails after the account was inserted: the first setup is
    answered with 409, the account stays, and setup is not offered again. *)
Definition without_token : Call :=
  {| remote_ip := b!"127.0.0.1"; authorize_now := 10; check_now := 10; later_now := 20; exported_at_unix := 0;
     uptime_seconds := 0; salt_input := Some b!"salt"; token_input := None; faults _ := no_fault;
     error_message _ := b!"error"; probe_inputs := no_network; around := quiet_surroundings |}.
Theorem failed_setup_keeps_account :
  let r := handle_async sample_kdf map_to_list setup_request without_token sample_api in
  (exists response, r.1 = Ok (completed response) /\ rs_status response = 409) /\
  (username <$> admin_rows (repository_ (api_config r.2))) = [b!"admin"].
Proof. cbv zeta. split; [vm_compute; eexists; split; reflexivity|vm_compute; reflexivity]. Qed.

(** A certificate list with a key. *)
Definition with_key : Api Config :=
  {| api_config := serve_all [(no_fault, SCreateCertificate (certificate 0 b!"c" true b!"a.test"))] sample_service;
     api_auth := api_auth sample_api |}.
Definition list_request : Request := sample_request verb_get b!"/api/certificates" cookie_and_guard JNull.

Lemma reads_hide_private_keys_witness :
  (c_private_key_pem <$> list_certificates (repository_ (api_config with_key))) = [b!"key"] /\
  (exists response, (handle_async sample_kdf map_to_list list_request (sample_call no_fault) with_key).1 = Ok (completed response) /\
    rs_status response = 200) /\
  (handle_async sample_kdf map_to_list list_request (sample_call no_fault) (redact_api with_key)).1 =
  (handle_async sample_kdf map_to_list list_request (sample_call no_fault) with_key).1.
Proof.
  split; [vm_compute; reflexivity|]. split; [vm_compute; eexists; split; reflexivity|].
  apply (reads_hide_private_keys sample_kdf map_to_list list_request (sample_call no_fault) with_key); [reflexivity|].
  closed_decision.
Defined.
End Sample.

(** The system of the sample of the data plane, with the interface in front. *)
Section SampleSystem.
#[local] Existing Instance stored_json.
#[local] Existing Instance two_addresses.
#[local] Existing Instance no_regex.
#[local] Existing Instance permissive_openssl.

Definition started_api : Api Server := {| api_config := started_service; api_auth := api_auth sample_api |}.
Definition api_with_site : Api Server :=
  (handle_async sample_kdf map_to_list create_request (sample_call no_fault) started_api).2.

Lemma requests_stay_within_the_system_witness :
  whole_reachable (api_config api_with_site) /\ config_revision (repository_ (api_config api_with_site)) = 4.
Proof.
  assert (Hp : exists s, plane = running s) by (vm_compute; eexists; reflexivity).
  split; [|vm_compute; reflexivity].
  apply (requests_stay_within_the_system sample_kdf map_to_list). apply api_request; [|vm_compute; reflexivity].
  unfold started_api, started_service. destruct Hp as [s Hp]. rewrite Hp.
  exact (api_started _ _ None no_fault new_file no_server no_fault _ all_well before s (api_auth sample_api) migrate_wf before_opened Hp).
Defined.
End SampleSystem.
