(* ===== verification/ServerStatus.v ===== *)
(** * What the server tells about itself (src/src/core/ServerCore.cpp, the getters)

    The endpoints of listeners are given by the operating system when they are bound:
    [endpoint_of] tells address and port of a listener object.

    The theorem: the status list that the administration interface shows has exactly
    one line per listening port of the published configuration, in order. *)

From stdpp Require Import sorting.
From S2P Require Import Prelude BackendProbe LogManager IpAddress HostNormalizer ClientIpResolver UrlAuthenticator Json.
From S2P Require Import RateLimiter RequestPolicy VirtualHostRouter TlsContextManager BackendConcurrencyLimiter RuntimeConfig AdminJson AdminApi.
From S2P Require Import ConnectionAdmission Listener ServerCore.

Section Status.
Context `{AddressText} `{Regex} `{OpenSsl}.
Variable endpoint_of : nat -> str * Z.

Definition listener_status (protocol : str) (kind : ListenerProtocol) (c : Config) (entry : Z * nat) : ListenerStatus :=
  {| ls_protocol := protocol; ls_address := (endpoint_of entry.2).1; ls_configured_port := entry.1; ls_bound_port := (endpoint_of entry.2).2;
     ls_site_count := site_count c kind entry.1; ls_status := b!"Listening" |}.

(** The order of the list: bound port, then protocol. *)
Definition status_before (a b : ListenerStatus) : Prop :=
  ls_bound_port a < ls_bound_port b \/ ls_bound_port a = ls_bound_port b /\ (ls_protocol b = b!"HTTP" -> ls_protocol a = b!"HTTP").
#[export] Instance status_before_dec : RelDecision status_before.
Proof. intros a b. unfold status_before. apply _. Defined.

Definition http_statuses (s : Server) : list ListenerStatus :=
  listener_status b!"HTTP" listen_http (runtime_store_ s) <$> map_to_list (http_listeners_ s).
Definition https_statuses (s : Server) : list ListenerStatus :=
  listener_status b!"HTTPS" listen_https (runtime_store_ s) <$> map_to_list (tls_listeners_ s).

Definition listener_statuses (s : Server) : list ListenerStatus := merge_sort status_before (http_statuses s ++ https_statuses s).

(** [http_local_endpoint], [tls_local_endpoint]. *)
Definition http_local_endpoint (configured_port : Z) (s : Server) : res (str * Z) :=
  match http_listeners_ s !! configured_port with
  | None => Throw (invalid_argument b!"HTTP listener port is not active")
  | Some id => Ok (endpoint_of id)
  end.
Definition tls_local_endpoint (configured_port : Z) (s : Server) : option (str * Z) := endpoint_of <$> tls_listeners_ s !! configured_port.

(** [local_endpoint] of the port in the options, else of any HTTP listener. *)
Definition local_endpoint (port : Z) (s : Server) : res (str * Z) :=
  match http_listeners_ s !! port with
  | Some id => Ok (endpoint_of id)
  | None =>
      match map_to_list (http_listeners_ s) with
      | [] => Throw (logic_error b!"HTTP server has not been started")
      | (_, id) :: _ => Ok (endpoint_of id)
      end
  end.

#[local] Instance status_total : Total status_before.
Proof.
  intros a b. unfold status_before. destruct (Z.lt_trichotomy (ls_bound_port a) (ls_bound_port b)) as [?|[?|?]]; [naive_solver| |naive_solver].
  destruct (decide (ls_protocol a = b!"HTTP")); naive_solver.
Qed.

Definition listed (protocol : str) (s : Server) : list Z :=
  ls_configured_port <$> filter (fun l => ls_protocol l = protocol) (listener_statuses s).

Lemma listed_ports protocol kind (c : Config) (table : gmap Z nat) :
  ls_configured_port <$> (listener_status protocol kind c <$> map_to_list table) = (map_to_list table).*1.
Proof. by rewrite <-list_fmap_compose. Qed.

Lemma filter_statuses protocol protocol' kind c (table : gmap Z nat) :
  filter (fun l => ls_protocol l = protocol') (listener_status protocol kind c <$> map_to_list table) =
  if bool_decide (protocol = protocol') then listener_status protocol kind c <$> map_to_list table else [].
Proof.
  case_bool_decide as E; induction (map_to_list table) as [|x l IH]; [done| |done|]; cbn [fmap list_fmap].
  - by rewrite filter_cons_True, IH.
  - by rewrite filter_cons_False.
Qed.

Lemma listed_perm protocol s : listed protocol s ≡ₚ
  (if bool_decide (b!"HTTP" = protocol) then (map_to_list (http_listeners_ s)).*1 else []) ++
  (if bool_decide (b!"HTTPS" = protocol) then (map_to_list (tls_listeners_ s)).*1 else []).
Proof.
  unfold listed, listener_statuses. rewrite merge_sort_Permutation, filter_app, fmap_app. unfold http_statuses, https_statuses.
  rewrite !filter_statuses. destruct (bool_decide (b!"HTTP" = protocol)), (bool_decide (b!"HTTPS" = protocol)); by rewrite ?listed_ports.
Qed.

(** At every moment of every run of the server, the list of listeners names each
    port of the published configuration exactly once, under its protocol, and no
    other, ordered by the port the listener is bound to. *)
Theorem statuses_show_configured_ports σ : sys_reachable σ ->
  let s := server σ in
  NoDup (listed b!"HTTP" s) /\ list_to_set (listed b!"HTTP" s) =@{gset Z} list_to_set (http_ports (runtime_store_ s)) /\
  NoDup (listed b!"HTTPS" s) /\ list_to_set (listed b!"HTTPS" s) =@{gset Z} list_to_set (https_ports (runtime_store_ s)) /\
  Sorted status_before (listener_statuses s).
Proof.
  intros Hs s. pose proof (sys_inv σ Hs) as Hi.
  assert (Hp1 : listed b!"HTTP" s ≡ₚ (map_to_list (http_listeners_ s)).*1) by (by rewrite listed_perm, app_nil_r).
  assert (Hp2 : listed b!"HTTPS" s ≡ₚ (map_to_list (tls_listeners_ s)).*1) by (by rewrite listed_perm).
  rewrite Hp1, Hp2. split_and!; [apply NoDup_fst_map_to_list| |apply NoDup_fst_map_to_list| |apply Sorted_merge_sort, _].
  - etrans; [|exact (si_http _ Hi)]. symmetry. apply leibniz_equiv, dom_alt.
  - etrans; [|exact (si_tls _ Hi)]. symmetry. apply leibniz_equiv, dom_alt.
Qed.

End Status.

Section Sample.
#[local] Existing Instance loopback_only.
#[local] Existing Instance no_regex.
#[local] Existing Instance permissive_openssl.

Definition sample_endpoint (id : nat) : str * Z := (b!"127.0.0.1", 8000 + Z.of_nat id).

(** After the reload of ServerCore.v ports 81 and 443 are shown. *)
Lemma statuses_show_configured_ports_witness :
  list_to_set (listed sample_endpoint b!"HTTP" (server reloaded)) =@{gset Z} list_to_set (http_ports (runtime_store_ (server reloaded))) /\
  http_ports (runtime_store_ (server reloaded)) = [81].
Proof.
  split; [|vm_compute; reflexivity]. pose proof (statuses_show_configured_ports sample_endpoint reloaded reloaded_reachable) as (_ & Hp & _). exact Hp.
Defined.

Example statuses_shown : (fun l => (ls_protocol l, ls_configured_port l, ls_bound_port l, ls_site_count l)) <$> listener_statuses sample_endpoint (server reloaded) =
  [(b!"HTTP", 81, 8001, 1%nat); (b!"HTTPS", 443, 8002, 1%nat)].
Proof. vm_compute. reflexivity. Qed.
End Sample.
