(* ===== verification/AdminServer.v ===== *)
(** * Requests of the administration interface (src/src/admin/AdminServer.cpp, AdminSession::on_read)

    What the session does with a request it has read: the interface of AdminApi.v for
    targets under /api/ and peers on this machine, the files of AdminAssets.v otherwise;
    and what that is for the session of AdminSession.v. *)

From S2P Require Import Prelude BackendProbe LogManager ConnectionRegistry IpAddress HostNormalizer ClientIpResolver UrlAuthenticator Json.
From S2P Require Import RateLimiter RequestPolicy VirtualHostRouter TlsContextManager RuntimeConfig BackendConcurrencyLimiter.
From S2P Require Import AuthService ConfigRepository ConfigService ConfigServiceSpec ConfigBackup AdminJson AdminApi AdminApiSpec AdminAssets AdminSession.

Section AdminServer.
Context `{JsonText} `{AddressText} `{Regex} `{OpenSsl} {R : Type} `{!ReloadTarget R}.
Local Notation Api := (Api R).
Variable pbkdf2 : str -> str -> Z -> nat -> option str.
Variable iteration : gmap str Z -> list (str * Z).
Variable files : str -> entry.
Variable root : str.

Inductive reply :=
| replied (response : Response)
| tests (backend : BackendConfig)         (* a backend probe was started *)
| aborted.                                (* an exception ends the session *)

(** [loopback]: the peer is known and its address is a loopback address. *)
Definition on_request (loopback : bool) (request : Request) (call : Call) (s : Api) : reply * Api :=
  if starts_with b!"/api/" (r_target request) then
    if negb loopback then (replied (text_response request 403 b!"Loopback access only"), s)
    else match handle_async pbkdf2 iteration request call s with
         | (Ok (completed response), s) => (replied response, s)
         | (Ok (AdminApi.probing backend), s) => (tests backend, s)
         | (Throw _, s) => (aborted, s)
         end
  else match static_response files request root with
       | Ok response => (replied response, s)
       | Throw _ => (aborted, s)
       end.

(** The same for the session: which of its inputs the request is. *)
Definition session_input (loopback : bool) (request : Request) (call : Call) (s : Api) : read_result :=
  let r := (on_request loopback request call s).1 in
  if starts_with b!"/api/" (r_target request) then
    api_request loopback (r_keep_alive request)
      match r with
      | replied response => api_answers (rs_keep_alive response)
      | tests _ => api_probes
      | aborted => api_throws
      end
  else match r with
       | replied response => static_request (rs_keep_alive response) false
       | _ => static_request false true
       end.

(** C2: Only requests from this machine to the interface under /api/ reach the services:
    whatever else is asked leaves configuration, sessions and accounts exactly as they
    are.  A request that changes the configuration comes with a live session and the
    request guard, and one that changes the accounts is the first setup. *)
Theorem administration_is_local loopback request call (s s' : Api) a :
  on_request loopback request call s = (a, s') ->
  (s' <> s -> loopback = true /\ starts_with b!"/api/" (r_target request) = true) /\
  (~ same_but_accounts (api_config s) (api_config s') ->
     live_session (authorize_now call) s (session_token request) /\ has_mutation_guard request = true) /\
  (admin_rows (repository_ (api_config s')) <> admin_rows (repository_ (api_config s)) ->
     admin_rows (repository_ (api_config s)) = [] /\ request_path request = b!"/api/auth/setup").
Proof.
  unfold on_request. intros E.
  assert (Hsame : s' = s -> (s' <> s -> loopback = true /\ starts_with b!"/api/" (r_target request) = true) /\
    (~ same_but_accounts (api_config s) (api_config s') -> live_session (authorize_now call) s (session_token request) /\ has_mutation_guard request = true) /\
    (admin_rows (repository_ (api_config s')) <> admin_rows (repository_ (api_config s)) ->
       admin_rows (repository_ (api_config s)) = [] /\ request_path request = b!"/api/auth/setup")).
  { intros ->. split_and!; [done|intros []; apply same_but_accounts_refl|done]. }
  destruct (starts_with b!"/api/" (r_target request)); [|destruct (static_response _ _ _); injection E as _ <-; by apply Hsame].
  destruct loopback; cbn [negb] in E; [|injection E as _ <-; by apply Hsame]. clear Hsame.
  pose proof (async_cases pbkdf2 iteration request call s) as Hc. destruct (handle_async _ _ _ _ s) as [r s1].
  assert (s1 = s') as -> by (by destruct r as [[]|]; injection E). split; [done|].
  destruct Hc as [(r0 & Eh & _)|Hs].
  - pose proof (account_change pbkdf2 iteration request call s) as Ha. rewrite Eh in Ha. cbv zeta in Ha. destruct Ha as [Ha1 Ha2]. split.
    + intros Hn. by destruct (Ha1 Hn) as (? & ? & _).
    + intros Hn. by destruct (Ha2 Hn) as (? & _ & ?).
  - rewrite Hs. split; [intros []; apply same_but_accounts_refl|done].
Qed.

(** Whatever the services do, a request read by an open session gets one answer. *)
Theorem every_request_is_answered loopback request call (s : Api) l : reachable l -> enabled (ERead (session_input loopback request call s)) l = true ->
  exists l', step (ERead (session_input loopback request call s)) [] l = Done l' /\
    (closed_ l' = false -> requests l' = (responses l' + Nat.b2n (AdminSession.probing l'))%nat).
Proof.
  intros Hr He. assert (Ho : answers_once (ERead (session_input loopback request call s)) = true).
  { unfold session_input. cbv zeta. destruct (starts_with _ _), (on_request _ _ _ _).1; done. }
  destruct (admin_step_good _ [] l (session_reachable_inv _ Hr) He Ho) as (l' & E & Hi). exists l'. split; [done|]. apply (iv_answered _ Hi).
Qed.

End AdminServer.

Section Sample.
#[local] Existing Instance stored_json.
#[local] Existing Instance loopback_only.
#[local] Existing Instance no_regex.
#[local] Existing Instance permissive_openssl.
#[local] Existing Instance direct_target.

(** The request that creates a site (AdminApiSpec.v), from this machine and from another one. *)
Definition sample_reply (loopback : bool) : reply * Api Config :=
  on_request sample_kdf map_to_list sample_files b!"D:\srv\ui" loopback create_request (sample_call no_fault) sample_api.

Example remote_refused : sample_reply false = (replied (text_response create_request 403 b!"Loopback access only"), sample_api).
Proof. reflexivity. Qed.

Lemma administration_is_local_witness :
  ~ same_but_accounts (api_config sample_api) (api_config (sample_reply true).2) /\
  live_session 10 sample_api b!"aa" /\ has_mutation_guard create_request = true.
Proof.
  assert (Hr : config_revision (repository_ (api_config (sample_reply true).2)) = 2) by (vm_compute; reflexivity).
  assert (Hn : ~ same_but_accounts (api_config sample_api) (api_config (sample_reply true).2)).
  { intros E. unfold same_but_accounts in E. apply (f_equal (fun c => config_revision (repository_ c))) in E.
    rewrite Hr in E. vm_compute in E. discriminate E. }
  split; [exact Hn|].
  destruct (administration_is_local sample_kdf map_to_list sample_files b!"D:\srv\ui" true create_request (sample_call no_fault) sample_api
    (sample_reply true).2 (sample_reply true).1 (surjective_pairing _)) as (_ & Hc & _).
  destruct (Hc Hn) as (Hl & Hg). assert (Ht : session_token create_request = b!"aa") by (vm_compute; reflexivity).
  rewrite Ht in Hl. exact (conj Hl Hg).
Defined.
End Sample.
