(* ===== verification/RequestDispatcher.v ===== *)
(** * Request dispatcher (src/src/http/RequestDispatcher.{hpp,cpp})

    One dispatcher per request: it finds the site, applies the TLS, target,
    policy and URL authentication checks in order and either answers or hands
    the request to the proxy.  The request object is Boost.Beast's, reached
    through the class [BeastRequest].  The callbacks and the log are the
    effects a call leaves.  The rate limiter inside a site's policy is shared
    by the requests of a listener, so the configuration is threaded through. *)

From stdpp Require Import sorting.
From S2P Require Import Prelude IpAddress HostNormalizer UrlAuthenticator RateLimiter RequestPolicy.
From S2P Require Import VirtualHostRouter TlsContextManager RuntimeConfig LogManager.

Inductive verb := verb_head | verb_options | verb_connect | verb_other.
#[export] Instance verb_eq_dec : EqDecision verb.
Proof. solve_decision. Defined.

(** What the dispatcher uses of [http::request]: [field name] is the value
    [operator[]] finds, empty when there is none. *)
Class BeastRequest (R : Type) := {
  method_string : R -> str;
  method_verb : R -> verb;
  rq_target : R -> str;
  set_target : str -> R -> R;
  field_count : str -> R -> nat;
  field : str -> R -> str;
  rq_keep_alive : R -> bool;
  rq_version : R -> Z;
  target_set t r : rq_target (set_target t r) = t
}.

Record RequestSecurityContext := {
  forwarded_scheme : str;
  sni_host : option str;
  certificate_matches_host : option (str -> bool)
}.

(** [content_length(n)] or [prepare_payload()]. *)
Inductive framing := content_length_of (n : nat) | payload_prepared.

Record Response := {
  rp_status : Z;
  rp_version : Z;
  rp_content_type : str;
  rp_body : str;
  rp_framing : framing;
  rp_keep_alive : bool;
  rp_location : option str;
  rp_retry_after : option str;
  rp_request_id : option str
}.

Record Dispatcher (R : Type) := {
  dp_listener_port : Z;
  dp_request : R;
  dp_client_ip : str;
  dp_security : RequestSecurityContext;
  dp_on_site_resolved : bool;        (* the callbacks that are set *)
  dp_on_proxy : bool;
  dp_on_complete : bool;
  dp_logger : bool;
  dp_started_at : Z;
  dp_request_id : str;
  dp_request_method : str;
  dp_request_path : str;
  dp_request_host : str;
  dp_completed : bool
}.
Arguments dp_listener_port {_}. Arguments dp_request {_}. Arguments dp_client_ip {_}.
Arguments dp_security {_}. Arguments dp_on_site_resolved {_}. Arguments dp_on_proxy {_}.
Arguments dp_on_complete {_}. Arguments dp_logger {_}. Arguments dp_started_at {_}.
Arguments dp_request_id {_}. Arguments dp_request_method {_}. Arguments dp_request_path {_}.
Arguments dp_request_host {_}. Arguments dp_completed {_}.

(** What a call does to the outside. *)
Inductive Effect (R : Type) :=
  | SiteResolved (site_id : Z) (name host : str)
  | AccessLogged (entry : AccessLogEntry)
  | Completed (response : Response)
  | Proxied (backend : BackendConfig) (request : R) (client_ip scheme request_id : str)
            (settings : RuntimeSettings) (overload : BackendOverloadConfig).
Arguments SiteResolved {_}. Arguments AccessLogged {_}. Arguments Completed {_}. Arguments Proxied {_}.

Section RequestDispatcher.
Context `{AddressText} `{Regex} `{OpenSsl} `{Digest} {R : Type} `{BeastRequest R}.

Definition make_text_response (request : R) (st : Z) (text : str) (keep_alive : bool) : Response :=
  let head := bool_decide (method_verb request = verb_head) in
  {| rp_status := st; rp_version := rq_version request;
     rp_content_type := b!"text/plain; charset=utf-8";
     rp_body := if head then [] else text;
     rp_framing := if head then content_length_of (length text) else payload_prepared;
     rp_keep_alive := keep_alive; rp_location := None; rp_retry_after := None; rp_request_id := None |}.

Definition valid_reverse_proxy_target (request : R) : bool :=
  let target := rq_target request in
  if bool_decide (target = []) then false
  else if bool_decide (target = b!"*") then bool_decide (method_verb request = verb_options)
  else bool_decide (head target = Some "/"%char).

Definition RequestDispatcher (listener_port : Z) (request : R) (client_ip : str)
    (security : RequestSecurityContext) (on_site_resolved on_proxy on_complete logger : bool)
    (now : Z) (request_id : str) : Dispatcher R :=
  {| dp_listener_port := listener_port; dp_request := request; dp_client_ip := client_ip;
     dp_security := security; dp_on_site_resolved := on_site_resolved; dp_on_proxy := on_proxy;
     dp_on_complete := on_complete; dp_logger := logger; dp_started_at := now;
     dp_request_id := request_id; dp_request_method := method_string request;
     dp_request_path := sanitize_request_target (rq_target request);
     dp_request_host := take 512 (field b!"Host" request); dp_completed := false |}.

Definition set_request_host (host : str) (d : Dispatcher R) : Dispatcher R :=
  {| dp_listener_port := dp_listener_port d; dp_request := dp_request d; dp_client_ip := dp_client_ip d;
     dp_security := dp_security d; dp_on_site_resolved := dp_on_site_resolved d; dp_on_proxy := dp_on_proxy d;
     dp_on_complete := dp_on_complete d; dp_logger := dp_logger d; dp_started_at := dp_started_at d;
     dp_request_id := dp_request_id d; dp_request_method := dp_request_method d;
     dp_request_path := dp_request_path d; dp_request_host := host; dp_completed := dp_completed d |}.

Definition set_handlers (site proxy complete completed : bool) (d : Dispatcher R) : Dispatcher R :=
  {| dp_listener_port := dp_listener_port d; dp_request := dp_request d; dp_client_ip := dp_client_ip d;
     dp_security := dp_security d; dp_on_site_resolved := site; dp_on_proxy := proxy;
     dp_on_complete := complete; dp_logger := dp_logger d; dp_started_at := dp_started_at d;
     dp_request_id := dp_request_id d; dp_request_method := dp_request_method d;
     dp_request_path := dp_request_path d; dp_request_host := dp_request_host d; dp_completed := completed |}.

Definition log_access (c : Config) (now : Z) (st bytes : Z) (d : Dispatcher R) : list (Effect R) :=
  if dp_logger d then
    [AccessLogged {| al_request_id := dp_request_id d; al_client_ip := dp_client_ip d;
                     al_scheme := forwarded_scheme (dp_security d); al_listener_port := dp_listener_port d;
                     al_host := dp_request_host d; al_method := dp_request_method d;
                     al_path := dp_request_path d; al_status := st; al_response_bytes := bytes;
                     al_duration := Z.quot (now - dp_started_at d) 1000;
                     al_config_revision := revision c |}]
  else [].

Definition with_request_id (id : str) (response : Response) : Response :=
  if bool_decide (id = []) then response
  else {| rp_status := rp_status response; rp_version := rp_version response;
          rp_content_type := rp_content_type response; rp_body := rp_body response;
          rp_framing := rp_framing response; rp_keep_alive := rp_keep_alive response;
          rp_location := rp_location response; rp_retry_after := rp_retry_after response;
          rp_request_id := Some id |}.

Definition complete (c : Config) (now : Z) (response : Response) (d : Dispatcher R)
    : list (Effect R) * Dispatcher R :=
  if dp_completed d then ([], d)
  else
    let response := with_request_id (dp_request_id d) response in
    (log_access c now (rp_status response) (Z.of_nat (length (rp_body response))) d ++
       (if dp_on_complete d then [Completed response] else []),
     set_handlers false (dp_on_proxy d) false true d).

Definition complete_stream (c : Config) (now st bytes : Z) (d : Dispatcher R)
    : list (Effect R) * Dispatcher R :=
  if dp_completed d then ([], d)
  else (log_access c now st bytes d, set_handlers false false false true d).

(** The handler [cancel] posts to the executor. *)
Definition cancel (d : Dispatcher R) : Dispatcher R := set_handlers false false false (dp_completed d) d.

(** [router->find], with the object the index stands for. *)
Definition find_site (r : Router) (host : str) : option (nat * VirtualHost) :=
  match VirtualHostRouter.find r host with
  | Some i => (fun vh => (i, vh)) <$> hosts r !! i
  | None => None
  end.

Definition listener_protocol (s : RequestSecurityContext) : ListenerProtocol :=
  if bool_decide (forwarded_scheme s = b!"https") then listen_https else listen_http.

(** The HTTPS check on the certificate, the SNI name and the Host header. *)
Definition misdirected (s : RequestSecurityContext) (r : Router) (site : nat) (host : str) : bool :=
  bool_decide (forwarded_scheme s = b!"https") &&
  (let certificate_matches := match certificate_matches_host s with Some f => f host | None => false end in
   let sni_site := match sni_host s with Some sni => fst <$> find_site r sni | None => Some site end in
   negb certificate_matches || negb (bool_decide (sni_site = Some site))).

Definition policy_view (request : R) : RequestView :=
  {| method := method_string request; target := rq_target request;
     user_agent := field b!"User-Agent" request; referer := field b!"Referer" request;
     header_value := Some (fun name => field name request) |}.

(** The rate limiter of the site keeps what [evaluate] recorded. *)
Definition vh_with_policy (p : Policy) (vh : VirtualHost) : VirtualHost :=
  {| vh_name := vh_name vh; vh_backend := vh_backend vh; vh_request_policy := p;
     vh_overload := vh_overload vh; vh_url_authenticator := vh_url_authenticator vh |}.

Definition router_with_policy (site : nat) (p : Policy) (r : Router) : Router :=
  {| hosts := alter (vh_with_policy p) site (hosts r); exact_hosts := exact_hosts r;
     wildcard_hosts := wildcard_hosts r; wildcard_suffixes := wildcard_suffixes r |}.

Definition set_policy (protocol : ListenerProtocol) (port : Z) (site : nat) (p : Policy) (c : Config) : Config :=
  {| revision := revision c; http_ports := http_ports c; https_ports := https_ports c;
     http_routers := match protocol with
                     | listen_http => alter (router_with_policy site p) port (http_routers c)
                     | listen_https => http_routers c
                     end;
     https_routers := match protocol with
                      | listen_https => alter (router_with_policy site p) port (https_routers c)
                      | listen_http => https_routers c
                      end;
     http_site_counts := http_site_counts c; https_site_counts := https_site_counts c;
     tls_contexts := tls_contexts c; settings := settings c; resolver_ranges := resolver_ranges c |}.

(** The response to a policy decision. *)
Definition decision_response (request : R) (d : PolicyDecision) : Response :=
  let r := make_text_response request (status d) (body d) (rq_keep_alive request) in
  {| rp_status := rp_status r; rp_version := rp_version r; rp_content_type := rp_content_type r;
     rp_body := rp_body r; rp_framing := rp_framing r; rp_keep_alive := rp_keep_alive r;
     rp_location := if bool_decide (location d = []) then None else Some (location d);
     rp_retry_after := if retry_after_seconds d =? 0 then None else Some (to_string (retry_after_seconds d));
     rp_request_id := None |}.

(** Clock readings of one call: the rate limiter's, the authenticator's and the
    log's. *)
Record clocks := { policy_now : Z; unix_now : Z; log_now : Z }.

Definition forwarded_request (request : R) (a : UrlAuthResult) : R :=
  if bool_decide (rewritten_target a = []) then request else set_target (rewritten_target a) request.

(** The end of [start], once the policy lets the request through. *)
Definition authenticate_and_forward (c : Config) (t : clocks) (vh : VirtualHost) (d : Dispatcher R)
    : list (Effect R) * Dispatcher R :=
  let request := dp_request d in
  let authentication := authenticate (vh_url_authenticator vh) (rq_target request) (unix_now t) in
  if negb (allowed authentication) then
    complete c (log_now t)
      (make_text_response request 403 b!"URL authentication failed" (rq_keep_alive request)) d
  else
    let request := forwarded_request request authentication in
    if negb (dp_on_proxy d) then
      complete c (log_now t) (make_text_response request 500 b!"Proxy handoff is unavailable" false) d
    else
      ([Proxied (vh_backend vh) request (dp_client_ip d) (forwarded_scheme (dp_security d))
                (dp_request_id d) (settings c) (vh_overload vh)], d).

(** The checks on the site's request. *)
Definition serve_site (c : Config) (t : clocks) (r : Router) (host : str) (site : nat) (vh : VirtualHost)
    (d : Dispatcher R) : res (list (Effect R) * Dispatcher R) * Config :=
  let request := dp_request d in
  let s := dp_security d in
  let answer st text keep :=
    (Ok (complete c (log_now t) (make_text_response request st text keep) d), c) in
  if misdirected s r site host then answer 421 b!"SNI and Host do not identify the same site" false
  else if negb (valid_reverse_proxy_target request) then answer 400 b!"Invalid request target" false
  else if bool_decide (method_verb request = verb_connect) then
    answer 501 b!"CONNECT tunneling is not supported" false
  else
    let '(verdict, p) := evaluate (policy_view request) (dp_client_ip d) host (forwarded_scheme s)
                                  (policy_now t) (vh_request_policy vh) in
    let c := set_policy (listener_protocol s) (dp_listener_port d) site p c in
    match verdict with
    | Throw e => (Throw e, c)
    | Ok (Some decision) => (Ok (complete c (log_now t) (decision_response request decision) d), c)
    | Ok None => (Ok (authenticate_and_forward c t vh d), c)
    end.

Definition site_resolved (vh : VirtualHost) (host : str) (d : Dispatcher R) : list (Effect R) :=
  if dp_on_site_resolved d then [SiteResolved (ov_site_id (vh_overload vh)) (vh_name vh) host] else [].

Definition start (c : Config) (t : clocks) (d : Dispatcher R) : res (list (Effect R) * Dispatcher R) * Config :=
  let request := dp_request d in
  let answer st text keep d :=
    (Ok (complete c (log_now t) (make_text_response request st text keep) d), c) in
  if negb (field_count b!"Host" request =? 1)%nat then answer 400 b!"Invalid Host header" false d
  else
    match normalize_authority (field b!"Host" request) with
    | None => answer 400 b!"Invalid Host header" false d
    | Some host =>
        let d := set_request_host host d in
        match router c (listener_protocol (dp_security d)) (dp_listener_port d) with
        | None => answer 404 b!"Virtual host not found" (rq_keep_alive request) d
        | Some r =>
            match find_site r host with
            | None => answer 404 b!"Virtual host not found" (rq_keep_alive request) d
            | Some (site, vh) =>
                let '(result, c') := serve_site c t r host site vh d in
                (match result with
                 | Ok (effects, d') => Ok (site_resolved vh host d ++ effects, d')
                 | Throw e => Throw e
                 end, c')
            end
        end
    end.


(** ** The policies of the sites *)

(** The policy object, with its rate limiter, of a site of a listener. *)
Definition site_policy (c : Config) (protocol : ListenerProtocol) (port : Z) (site : nat) : option Policy :=
  r ← router c protocol port; vh ← hosts r !! site; Some (vh_request_policy vh).

Lemma router_set_policy protocol port site p c protocol' port' :
  router (set_policy protocol port site p c) protocol' port' =
  if decide (protocol' = protocol /\ port' = port) then router_with_policy site p <$> router c protocol' port'
  else router c protocol' port'.
Proof.
  destruct (decide (protocol' = protocol)) as [->|Hp].
  - destruct (decide (port' = port)) as [->|Hq].
    + rewrite decide_True by done. destruct protocol; cbn; apply lookup_alter_eq.
    + rewrite decide_False by naive_solver. destruct protocol; cbn; by apply lookup_alter_ne.
  - rewrite decide_False by naive_solver. by destruct protocol, protocol'.
Qed.

Lemma site_policy_set protocol port site p c protocol' port' site' :
  site_policy (set_policy protocol port site p c) protocol' port' site' =
  if decide (protocol' = protocol /\ port' = port /\ site' = site)
  then (fun _ => p) <$> site_policy c protocol' port' site' else site_policy c protocol' port' site'.
Proof.
  unfold site_policy. rewrite router_set_policy. destruct (decide (protocol' = protocol /\ port' = port)) as [[-> ->]|Hn].
  2: { by rewrite decide_False by tauto. }
  destruct (router c protocol port) as [r|]; cbn [fmap option_fmap option_map mbind option_bind]; [|by case_decide].
  cbn [hosts router_with_policy]. destruct (decide (site' = site)) as [->|Hs].
  - rewrite decide_True by done. rewrite list_lookup_alter_eq. by destruct (hosts r !! site).
  - rewrite decide_False by tauto. by rewrite list_lookup_alter_ne.
Qed.

(** What one call of [start] does to the policies: every one of them is left alone,
    or is the one of the request's site, evaluated once on the request and kept as
    [evaluate] left it. *)
Definition evaluated (t : clocks) (d : Dispatcher R) (host : str) (p : Policy) : res (option PolicyDecision) * Policy :=
  evaluate (policy_view (dp_request d)) (dp_client_ip d) host (forwarded_scheme (dp_security d)) (policy_now t) p.

Definition threads (c c' : Config) (t : clocks) (d : Dispatcher R) : Prop :=
  forall protocol port site,
    site_policy c' protocol port site = site_policy c protocol port site \/
    protocol = listener_protocol (dp_security d) /\ port = dp_listener_port d /\
    exists host r vh, normalize_authority (field b!"Host" (dp_request d)) = Some host /\
      router c protocol port = Some r /\ find_site r host = Some (site, vh) /\
      site_policy c protocol port site = Some (vh_request_policy vh) /\
      site_policy c' protocol port site = Some (evaluated t d host (vh_request_policy vh)).2.

Lemma find_site_object r host site vh : find_site r host = Some (site, vh) -> hosts r !! site = Some vh.
Proof.
  unfold find_site. destruct (VirtualHostRouter.find r host) as [i|]; [|done].
  destruct (hosts r !! i) as [v|] eqn:E; [|done]. by intros [= <- <-].
Qed.

Lemma found_policy c protocol port r host site vh : router c protocol port = Some r -> find_site r host = Some (site, vh) ->
  site_policy c protocol port site = Some (vh_request_policy vh).
Proof. intros Hr Hf. unfold site_policy. rewrite Hr. cbn. by rewrite (find_site_object _ _ _ _ Hf). Qed.

Lemma start_threads c t d : threads c (start c t d).2 t d.
Proof.
  intros protocol port site. unfold start. destruct (negb _); [by left|].
  destruct (normalize_authority _) as [host|] eqn:Eh; [|by left].
  cbn [dp_security dp_listener_port set_request_host]. destruct (router c _ _) as [r|] eqn:Er; [|by left].
  destruct (find_site r host) as [[site' vh]|] eqn:Ef; [|by left].
  unfold serve_site. cbn [dp_request dp_security dp_client_ip dp_listener_port set_request_host].
  destruct (misdirected _ _ _ _); [by left|]. destruct (negb _); [by left|]. case_bool_decide; [by left|].
  change (evaluate _ _ _ _ _ _) with (evaluated t d host (vh_request_policy vh)).
  destruct (evaluated t d host (vh_request_policy vh)) as [verdict p] eqn:Ee.
  set (c1 := set_policy _ _ _ _ _).
  assert (Hc1 : site_policy c1 protocol port site = site_policy c protocol port site \/
    protocol = listener_protocol (dp_security d) /\ port = dp_listener_port d /\ site = site' /\
    site_policy c1 protocol port site = Some p).
  { unfold c1. rewrite site_policy_set. case_decide as Hd; [|by left]. right. destruct Hd as (-> & -> & ->). split_and!; try done.
    by rewrite (found_policy _ _ _ _ _ _ _ Er Ef). }
  assert (Hgo : site_policy c1 protocol port site = site_policy c protocol port site \/
    protocol = listener_protocol (dp_security d) /\ port = dp_listener_port d /\
    exists host0 r0 vh0, normalize_authority (field b!"Host" (dp_request d)) = Some host0 /\
      router c protocol port = Some r0 /\ find_site r0 host0 = Some (site, vh0) /\
      site_policy c protocol port site = Some (vh_request_policy vh0) /\
      site_policy c1 protocol port site = Some (evaluated t d host0 (vh_request_policy vh0)).2).
  { destruct Hc1 as [?|(-> & -> & -> & Hp)]; [by left|right]. split_and!; try done. exists host, r, vh.
    split_and!; try done; [by eapply found_policy|]. by rewrite Ee. }
  rewrite Eh in Hgo. destruct verdict as [[decision|]|e]; exact Hgo.
Qed.

(** ** A configuration in service *)

(** The site object of a running listener: the settings of its configuration
    and a policy that has served some requests. *)
Definition current (vc : VirtualHostConfig) (vh : VirtualHost) : Prop :=
  vh_name vh = vc_name vc /\ vh_backend vh = vc_backend vc /\ vh_overload vh = vc_overload vc /\
  serves (vc_policy vc) (vc_domains vc) (vh_request_policy vh) /\
  UrlAuthenticator (vc_url_auth vc) = Ok (vh_url_authenticator vh).

Definition router_current (sites : list VirtualHostConfig) (r : Router) : Prop :=
  tables r (binds sites) /\ StronglySorted longer (wildcard_hosts r) /\ Forall2 current sites (hosts r).

Definition config_current (spec : RuntimeConfigSpec) (c : Config) : Prop :=
  forall protocol port r, router c protocol port = Some r ->
    router_current (served protocol port (spec_sites spec)) r.

(** The configurations a server holds: an accepted one, and what the requests
    it serves make of it. *)
Inductive serving (spec : RuntimeConfigSpec) : Config -> Prop :=
  | serving_new c : RuntimeConfig spec = Ok c -> serving spec c
  | serving_next c t (d : Dispatcher R) : serving spec c -> serving spec (start c t d).2.

Lemma built_current sites hs : Forall2 built sites hs -> Forall2 current sites hs.
Proof.
  intros HF. eapply Forall2_impl; [exact HF|]. intros vc vh (? & ? & ? & Hp & ?).
  split_and!; try done. by apply serves_new.
Qed.

Lemma accepted_current spec c : RuntimeConfig spec = Ok c -> config_current spec c.
Proof.
  intros Hc protocol port r Hr. pose proof Hc as (routes & Hro & _ & Hh & Hs & _)%RuntimeConfig_parts.
  assert (Hne : exists hs, routes_for protocol routes !! port = Some hs /\ VirtualHostRouter hs = Ok r).
  { destruct protocol; cbn in *; [by apply (built_router_spec _ _ _ _ Hh)|by apply (built_router_spec _ _ _ _ Hs)]. }
  destruct Hne as (hs & Hhs & Hv). rewrite (routes_served _ _ _ _ Hro) in Hhs.
  case_decide; [done|]. injection Hhs as <-.
  destruct (VirtualHostRouter_tables _ _ Hv) as (Ht & Hb & Hsort).
  split_and!; [done|done|by apply built_current].
Qed.


Lemma set_policy_current spec c protocol port r site p vc :
  config_current spec c -> router c protocol port = Some r ->
  served protocol port (spec_sites spec) !! site = Some vc -> serves (vc_policy vc) (vc_domains vc) p ->
  config_current spec (set_policy protocol port site p c).
Proof.
  intros Hc Hr Hvc Hp protocol' port' r'. rewrite router_set_policy.
  case_decide as Hd; [|apply Hc]. destruct Hd as [-> ->]. rewrite Hr. intros [= <-].
  destruct (Hc _ _ _ Hr) as ([? ? ? ?] & Hs & HF). split_and!; [done|done|].
  cbn. apply Forall2_alter_r; [done|]. intros x vh Hx _ (? & ? & ? & ? & ?).
  assert (x = vc) as -> by congruence. done.
Qed.

Lemma find_site_routed sites r host :
  router_current sites r ->
  match find_site r host with
  | Some (i, vh) => routed sites host (Some i) /\ exists vc, sites !! i = Some vc /\ hosts r !! i = Some vh /\ current vc vh
  | None => routed sites host None
  end.
Proof.
  intros (Ht & Hs & HF). pose proof (lookup_routed sites r _ host Ht (reflexivity _) Hs) as Hr.
  unfold find_site, VirtualHostRouter.find.
  destruct (match exact_hosts r !! host with Some i => Some i | None => _ end) as [i|] eqn:E; [|done].
  assert (Hb : exists w d, binds sites w d i) by (destruct Hr as [?|[_ (d & ? & _)]]; eauto).
  destruct Hb as (w & d & vc & pat & Hvc & _).
  destruct (Forall2_lookup_l _ _ _ _ _ HF Hvc) as (vh & Hvh & Hcur). rewrite Hvh. cbn. eauto 6.
Qed.

(** ** The outcomes of [start] *)

(** The responses the dispatcher gives on its own. *)
Definition documented (resp : Response) : Prop :=
  (rp_status resp ∈ [301; 302; 307; 308] /\ is_Some (rp_location resp)) \/
  (rp_status resp ∈ [400; 403; 404; 405; 414; 421; 429; 500; 501] /\ rp_location resp = None).

(** Everything a forwarded request went through, in terms of the sites of its
    listener; [c] and [c'] are the configuration before and after it. *)
Record admitted (c c' : Config) (sites : list VirtualHostConfig) (t : clocks) (d : Dispatcher R) (host : str) (site : nat)
    (vc : VirtualHostConfig) (a : UrlAuthResult) : Prop := {
  ad_host : field_count b!"Host" (dp_request d) = 1%nat /\
            normalize_authority (field b!"Host" (dp_request d)) = Some host;
  ad_site : routed sites host (Some site) /\ sites !! site = Some vc;
  ad_tls : forwarded_scheme (dp_security d) = b!"https" ->
           (exists f, certificate_matches_host (dp_security d) = Some f /\ f host = true) /\
           (forall sni, sni_host (dp_security d) = Some sni -> routed sites sni (Some site));
  ad_target : valid_reverse_proxy_target (dp_request d) = true /\ method_verb (dp_request d) <> verb_connect;
  ad_policy : exists p p', serves (vc_policy vc) (vc_domains vc) p /\
              site_policy c (listener_protocol (dp_security d)) (dp_listener_port d) site = Some p /\
              evaluated t d host p = (Ok None, p') /\
              site_policy c' (listener_protocol (dp_security d)) (dp_listener_port d) site = Some p';
  ad_auth : exists ua, UrlAuthenticator (vc_url_auth vc) = Ok ua /\
            a = authenticate ua (rq_target (dp_request d)) (unix_now t) /\ allowed a = true
}.

Inductive start_outcome (spec : RuntimeConfigSpec) (c : Config) (t : clocks) (d : Dispatcher R)
    : res (list (Effect R) * Dispatcher R) * Config -> Prop :=
  | start_answered pre resp c1 c' d1 :
      documented resp -> pre = [] \/ (exists id name h, pre = [SiteResolved id name h]) ->
      (d1 = d \/ exists h, d1 = set_request_host h d) -> config_current spec c' ->
      start_outcome spec c t d
        (Ok (pre ++ (complete c1 (log_now t) resp d1).1, (complete c1 (log_now t) resp d1).2), c')
  | start_forwarded host site vc vh a c' :
      admitted c c' (served (listener_protocol (dp_security d)) (dp_listener_port d) (spec_sites spec))
        t d host site vc a ->
      current vc vh -> config_current spec c' ->
      start_outcome spec c t d
        (Ok (site_resolved vh host d ++
             [Proxied (vh_backend vh) (forwarded_request (dp_request d) a) (dp_client_ip d)
                (forwarded_scheme (dp_security d)) (dp_request_id d) (settings c') (vh_overload vh)],
             set_request_host host d), c').

Lemma documented_text request st text keep :
  st ∈ [400; 403; 404; 405; 414; 421; 429; 500; 501] -> documented (make_text_response request st text keep).
Proof. intros Hs. right. done. Qed.

Lemma documented_decision request d : decision_ok d -> documented (decision_response request d).
Proof.
  intros [[Hs Hl]|[Hs Hl]]; [left|right]; cbn.
  - rewrite bool_decide_eq_false_2 by done. eauto.
  - rewrite bool_decide_eq_true_2 by done. split; [set_solver|done].
Qed.


Lemma misdirected_false sites s r site host :
  router_current sites r -> misdirected s r site host = false -> forwarded_scheme s = b!"https" ->
  (exists f, certificate_matches_host s = Some f /\ f host = true) /\
  (forall sni, sni_host s = Some sni -> routed sites sni (Some site)).
Proof.
  intros Hr Hm Hs. unfold misdirected in Hm. rewrite bool_decide_eq_true_2 in Hm by done. cbn in Hm.
  apply orb_false_iff in Hm as [Hc Hsni]. apply negb_false_iff in Hc, Hsni. apply bool_decide_eq_true in Hsni.
  split.
  - destruct (certificate_matches_host s); [eauto|done].
  - intros sni E. rewrite E in Hsni. pose proof (find_site_routed sites r sni Hr) as Hf.
    destruct (find_site r sni) as [[j vh]|]; cbn in Hsni; [|done]. injection Hsni as ->. apply Hf.
Qed.

(** An answer before and after the site is known. *)
Lemma answered_early spec c t d d1 request st text keep :
  config_current spec c -> st ∈ [400; 403; 404; 405; 414; 421; 429; 500; 501] ->
  (d1 = d \/ exists h, d1 = set_request_host h d) ->
  start_outcome spec c t d (Ok (complete c (log_now t) (make_text_response request st text keep) d1), c).
Proof.
  intros Hc Hst Hd. rewrite (surjective_pairing (complete _ _ _ _)).
  apply (start_answered spec c t d []); auto. by apply documented_text.
Qed.

(** What [start] makes of the result of [serve_site]. *)
Definition at_site (vh : VirtualHost) (host : str) (d : Dispatcher R)
    (result : res (list (Effect R) * Dispatcher R) * Config) : res (list (Effect R) * Dispatcher R) * Config :=
  (match result.1 with
   | Ok (effects, d') => Ok (site_resolved vh host d ++ effects, d')
   | Throw e => Throw e
   end, result.2).

Lemma answered_at_site spec c c1 c' t d vh host resp :
  documented resp -> config_current spec c' ->
  start_outcome spec c t d
    (at_site vh host (set_request_host host d) (Ok (complete c1 (log_now t) resp (set_request_host host d)), c')).
Proof.
  intros Hd Hc. unfold at_site. cbn [fst snd]. rewrite (surjective_pairing (complete _ _ _ _)).
  apply start_answered; eauto. unfold site_resolved. case_match; eauto.
Qed.

Lemma forward_cases spec c c' t d host site vc vh p0 :
  config_current spec c' -> current vc vh ->
  (forall a, allowed a = true ->
     a = authenticate (vh_url_authenticator vh) (rq_target (dp_request d)) (unix_now t) ->
     admitted c c' (served (listener_protocol (dp_security d)) (dp_listener_port d) (spec_sites spec)) t d host site vc a) ->
  p0 = set_request_host host d ->
  start_outcome spec c t d (at_site vh host p0 (Ok (authenticate_and_forward c' t vh p0), c')).
Proof.
  intros Hc Hcv Had ->. unfold authenticate_and_forward. cbn [dp_request dp_on_proxy set_request_host].
  destruct (allowed (authenticate _ _ _)) eqn:Ea; cbn [negb].
  2:{ apply answered_at_site; [apply documented_text; set_solver|done]. }
  destruct (dp_on_proxy d); cbn [negb].
  2:{ apply answered_at_site; [apply documented_text; set_solver|done]. }
  apply (start_forwarded spec c t d host site vc vh); auto.
Qed.

Lemma serve_site_cases spec c t d r host site vc vh :
  let sites := served (listener_protocol (dp_security d)) (dp_listener_port d) (spec_sites spec) in
  config_current spec c ->
  router c (listener_protocol (dp_security d)) (dp_listener_port d) = Some r ->
  field_count b!"Host" (dp_request d) = 1%nat ->
  normalize_authority (field b!"Host" (dp_request d)) = Some host ->
  routed sites host (Some site) -> sites !! site = Some vc -> current vc vh -> find_site r host = Some (site, vh) ->
  start_outcome spec c t d (at_site vh host (set_request_host host d) (serve_site c t r host site vh (set_request_host host d))).
Proof.
  intros sites Hc Er Hcount Hnorm Hroute Hvc Hcv Hfound. pose proof (Hc _ _ _ Er) as Hcur.
  unfold serve_site. cbn [dp_request dp_security dp_client_ip dp_listener_port set_request_host].
  destruct (misdirected _ _ _ _) eqn:Em; [apply answered_at_site; [apply documented_text; set_solver|done]|].
  destruct (valid_reverse_proxy_target (dp_request d)) eqn:Et; cbn [negb];
    [|apply answered_at_site; [apply documented_text; set_solver|done]].
  case_bool_decide as Ev; [apply answered_at_site; [apply documented_text; set_solver|done]|].
  pose proof Hcv as (_ & _ & _ & Hserve & Hua).
  destruct (evaluate_ok (policy_view (dp_request d)) (dp_client_ip d) host (forwarded_scheme (dp_security d))
    (policy_now t) (vh_request_policy vh) (serves_wf _ _ _ Hserve)) as [(o & Ho & Hok) _].
  pose proof (serves_next _ _ _ (policy_view (dp_request d)) (dp_client_ip d) host (forwarded_scheme (dp_security d))
    (policy_now t) Hserve) as Hnext.
  destruct (evaluate _ _ _ _ _ _) as [verdict p] eqn:Ee. cbn in Ho, Hnext. subst verdict.
  pose proof (found_policy _ _ _ _ _ _ _ Er Hfound) as Hpol.
  assert (Hc' : config_current spec (set_policy (listener_protocol (dp_security d)) (dp_listener_port d) site p c))
    by (by apply (set_policy_current spec c _ _ r site p vc)).
  destruct o as [dec|]; [apply answered_at_site; [by apply documented_decision, Hok|done]|].
  apply (forward_cases spec c _ t d host site vc vh); auto.
  intros a Ha Hauth. split; auto.
  - intros Hs. by apply (misdirected_false _ _ r site host).
  - exists (vh_request_policy vh), p. split_and!; try done. rewrite site_policy_set, decide_True by done. by rewrite Hpol.
  - eauto.
Qed.

Lemma start_cases spec c t d : config_current spec c -> start_outcome spec c t d (start c t d).
Proof.
  intros Hc. unfold start.
  destruct (field_count b!"Host" (dp_request d) =? 1)%nat eqn:Ehc;
    [apply Nat.eqb_eq in Ehc; cbn [negb]|apply answered_early; [done|set_solver|by left]].
  destruct (normalize_authority _) as [host|] eqn:Eh; [|apply answered_early; [done|set_solver|by left]].
  cbn [dp_security dp_listener_port set_request_host].
  destruct (router c _ _) as [r|] eqn:Er; [|apply answered_early; [done|set_solver|eauto]].
  pose proof (find_site_routed _ r host (Hc _ _ _ Er)) as Hf.
  destruct (find_site r host) as [[site vh]|] eqn:Ef; [|apply answered_early; [done|set_solver|eauto]].
  destruct Hf as (Hroute & vc & Hvc & _ & Hcv).
  pose proof (serve_site_cases spec c t d r host site vc vh Hc Er Ehc Eh Hroute Hvc Hcv Ef) as Ho.
  unfold at_site in Ho. by destruct (serve_site _ _ _ _ _ _ _) as [[[]|] c'].
Qed.

Lemma serving_current spec c : serving spec c -> config_current spec c.
Proof.
  induction 1 as [c Hc|c t d _ IH]; [by apply accepted_current|].
  by destruct (start_cases spec c t d IH).
Qed.

(** The effects of [complete]: at most a log entry and the response. *)
Lemma complete_effects c now resp (d : Dispatcher R) e :
  e ∈ (complete c now resp d).1 ->
  (exists entry, e = AccessLogged entry) \/ e = Completed (with_request_id (dp_request_id d) resp).
Proof.
  unfold complete, log_access. destruct (dp_completed d); cbn; [by intros ?%elem_of_nil|].
  destruct (dp_logger d), (dp_on_complete d); set_solver.
Qed.

(** What a handoff carries. *)
Lemma proxied_admitted spec c t d effects d' c' b rq ip scheme id st ov :
  serving spec c -> start c t d = (Ok (effects, d'), c') ->
  Proxied b rq ip scheme id st ov ∈ effects ->
  exists host site vc a,
    admitted c c' (served (listener_protocol (dp_security d)) (dp_listener_port d) (spec_sites spec)) t d host site vc a /\
    b = vc_backend vc /\ ov = vc_overload vc /\ rq = forwarded_request (dp_request d) a /\
    ip = dp_client_ip d /\ scheme = forwarded_scheme (dp_security d) /\ id = dp_request_id d.
Proof.
  intros Hs Hst Hin. apply serving_current in Hs.
  pose proof (start_cases spec c t d Hs) as Ho. rewrite Hst in Ho.
  inversion Ho as [pre resp c1 c2 d1 Hd Hpre Hd1 Hc|host site vc vh a c2 Had Hcv Hc]; subst.
  - exfalso. apply elem_of_app in Hin as [Hin|[[? ?]|?]%complete_effects]; [|done|done].
    destruct Hpre as [->|(? & ? & ? & ->)]; set_solver.
  - exists host, site, vc, a. destruct Hcv as (_ & Hb & Hov & _).
    assert (Hnot : Proxied b rq ip scheme id st ov ∉ site_resolved vh host d)
      by (unfold site_resolved; case_match; set_solver).
    apply elem_of_app in Hin as [Hin|Hin]; [done|]. apply list_elem_of_singleton in Hin. injection Hin as -> -> -> -> -> -> ->.
    by split_and!.
Qed.

(** ** Main theorems *)

(** C10: only admitted requests reach a backend.  If the dispatcher hands a
    request to the proxy, while the server runs an accepted configuration, then
    the request has one valid Host header; the listener's sites route that host
    to the site whose backend and limits are passed on; over HTTPS the
    certificate covers the host and the SNI name belongs to the same site; the
    target is in origin form (or [*] for OPTIONS) and the method is not CONNECT;
    the site's policy, in the state all earlier requests left its rate limiter in, let
    it pass, and the state that evaluation left is the one the next request meets; the
    site's URL authentication allowed it; and what is passed on is the request itself,
    with the rewritten target if the authentication gave one.  Whatever the outcome,
    the policy of every other site is as before, and that of the request's site is as
    before or evaluated once on this request. *)
Theorem dispatch_forwards_only_admitted spec c t d effects d' c' :
  serving spec c -> start c t d = (Ok (effects, d'), c') ->
  threads c c' t d /\
  forall b rq ip scheme id st ov, In (Proxied b rq ip scheme id st ov) effects ->
  exists host site vc a,
    admitted c c' (served (listener_protocol (dp_security d)) (dp_listener_port d) (spec_sites spec))
      t d host site vc a /\
    b = vc_backend vc /\ ov = vc_overload vc /\ rq = forwarded_request (dp_request d) a /\
    rq_target rq = (if bool_decide (rewritten_target a = []) then rq_target (dp_request d) else rewritten_target a) /\
    ip = dp_client_ip d /\ scheme = forwarded_scheme (dp_security d) /\ id = dp_request_id d.
Proof.
  intros Hs Hst. split; [pose proof (start_threads c t d) as Ht; by rewrite Hst in Ht|].
  intros b rq ip scheme id st ov Hin%list_elem_of_In.
  destruct (proxied_admitted _ _ _ _ _ _ _ _ _ _ _ _ _ _ Hs Hst Hin) as (host & site & vc & a & Had & Hb & Hov & Hrq & Hrest).
  exists host, site, vc, a. rewrite Hrq. split_and!; try done; try apply Hrest.
  unfold forwarded_request. case_bool_decide; [done|apply target_set].
Qed.

(** C28: the dispatcher always comes to an end.  While the server runs an
    accepted configuration, [start] never throws, whatever the request, and an
    answer it gives itself has one of the documented statuses, with a Location
    exactly when it is a redirect. *)
Theorem dispatch_never_throws spec c t d :
  serving spec c ->
  exists effects d', (start c t d).1 = Ok (effects, d') /\
    forall resp, In (Completed resp) effects -> documented resp.
Proof.
  intros Hs. apply serving_current in Hs. destruct (start_cases spec c t d Hs) as [pre resp c1 c' d1 Hd Hpre| ].
  - eexists _, _. split; [done|]. intros resp' Hin%list_elem_of_In.
    apply elem_of_app in Hin as [Hin|[[? ?]|Hin]%complete_effects]; [|done|].
    + destruct Hpre as [->|(? & ? & ? & ->)]; set_solver.
    + injection Hin as ->. unfold with_request_id. by case_bool_decide.
  - eexists _, _. split; [done|]. intros resp' Hin%list_elem_of_In.
    apply elem_of_app in Hin as [Hin|Hin]; [|set_solver].
    unfold site_resolved in Hin. case_match; set_solver.
Qed.

(** ** One answer per request *)

(** What may happen around [start]: cancellation and the end of a proxied
    stream. *)
Inductive SideOp := DoCancel | DoStream (now st bytes : Z).

Fixpoint run_side (c : Config) (ops : list SideOp) (d : Dispatcher R) : list (Effect R) * Dispatcher R :=
  match ops with
  | [] => ([], d)
  | op :: rest =>
      let '(e, d') := match op with
                      | DoCancel => ([], cancel d)
                      | DoStream now st bytes => complete_stream c now st bytes d
                      end in
      let '(es, d'') := run_side c rest d' in (e ++ es, d'')
  end.

Definition is_answer (e : Effect R) : bool := match e with Completed _ => true | _ => false end.
Definition is_log (e : Effect R) : bool := match e with AccessLogged _ => true | _ => false end.
Definition is_handoff (e : Effect R) : bool := match e with Proxied _ _ _ _ _ _ _ => true | _ => false end.
Definition count_effects (p : Effect R -> bool) (es : list (Effect R)) : nat :=
  length (filter (fun e => p e = true) es).

Lemma count_effects_app p es es' : count_effects p (es ++ es') = (count_effects p es + count_effects p es')%nat.
Proof. unfold count_effects. by rewrite filter_app, length_app. Qed.

(** How a call moves the dispatcher: it logs exactly when it completes it, and
    answers at most then. *)
Record moves (d d' : Dispatcher R) (es : list (Effect R)) : Prop := {
  mv_log : (count_effects is_log es + (if dp_completed d && dp_logger d then 1 else 0) =
            if dp_completed d' && dp_logger d' then 1 else 0)%nat;
  mv_answer : (count_effects is_answer es + (if dp_completed d then 1 else 0) <=
               if dp_completed d' then 1 else 0)%nat;
  mv_logger : dp_logger d' = dp_logger d
}.

Lemma moves_trans d1 d2 d3 es es' : moves d1 d2 es -> moves d2 d3 es' -> moves d1 d3 (es ++ es').
Proof. intros [? ? ?] [? ? ?]. split; rewrite ?count_effects_app; [lia|lia|congruence]. Qed.

Lemma complete_moves c now resp (d : Dispatcher R) :
  moves d (complete c now resp d).2 (complete c now resp d).1 /\
  count_effects is_handoff (complete c now resp d).1 = 0%nat.
Proof.
  unfold complete, log_access. destruct (dp_completed d) eqn:E; cbn.
  - split; [split; cbn; rewrite ?E; lia || done|done].
  - destruct (dp_logger d) eqn:El, (dp_on_complete d); split; try (by vm_compute);
      split; cbn; rewrite ?E, ?El; try done; vm_compute; lia.
Qed.

Lemma stream_moves c now st bytes (d : Dispatcher R) :
  moves d (complete_stream c now st bytes d).2 (complete_stream c now st bytes d).1 /\
  count_effects is_answer (complete_stream c now st bytes d).1 = 0%nat.
Proof.
  unfold complete_stream, log_access. destruct (dp_completed d) eqn:E; cbn.
  - split; [split; cbn; rewrite ?E; lia || done|done].
  - destruct (dp_logger d) eqn:El; split; try (by vm_compute);
      split; cbn; rewrite ?E, ?El; try done; vm_compute; lia.
Qed.

Lemma run_side_moves c ops : forall d,
  moves d (run_side c ops d).2 (run_side c ops d).1 /\ count_effects is_answer (run_side c ops d).1 = 0%nat.
Proof.
  induction ops as [|op ops IH]; intros d; cbn [run_side]; [by split|].
  destruct op as [|now st bytes].
  - destruct (IH (cancel d)) as [[? ? ?] Ha]. destruct (run_side c ops (cancel d)) as [es d2]. by split.
  - destruct (stream_moves c now st bytes d) as [Hm Ha]. destruct (complete_stream c now st bytes d) as [e d1].
    destruct (IH d1) as [Hm' Ha']. destruct (run_side c ops d1) as [es d2]. cbn [fst snd] in *.
    split; [by eapply moves_trans|]. rewrite count_effects_app. lia.
Qed.

Lemma start_moves spec c t d es d' :
  config_current spec c -> (start c t d).1 = Ok (es, d') ->
  moves d d' es /\ (count_effects is_answer es + count_effects is_handoff es <= 1)%nat.
Proof.
  intros Hc. destruct (start_cases spec c t d Hc) as [pre resp c1 c' d1 _ Hpre Hd1|host site vc vh a c' Had];
    cbn [fst]; intros [= <- <-].
  - destruct (complete_moves c1 (log_now t) resp d1) as [[M1 M2 M3] M4].
    assert (Hsame : dp_completed d1 = dp_completed d /\ dp_logger d1 = dp_logger d)
      by (by destruct Hd1 as [->|[h ->]]).
    destruct Hsame as [S1 S2]. rewrite S1, S2 in *.
    assert (Hz : count_effects is_log pre = 0%nat /\ count_effects is_answer pre = 0%nat /\
                 count_effects is_handoff pre = 0%nat) by (by destruct Hpre as [->|(? & ? & ? & ->)]).
    destruct Hz as (Z1 & Z2 & Z3).
    split; [split|]; rewrite ?count_effects_app, ?Z1, ?Z2, ?Z3; [done|done|done|].
    rewrite M4. destruct (dp_completed (complete c1 (log_now t) resp d1).2); lia.
  - unfold site_resolved. destruct (dp_on_site_resolved d); (split; [split|]; cbn; try done; lia).
Qed.

(** One answer, one log line.  In the life of a dispatcher, with
    cancellations and stream ends before and after [start], the client gets at
    most one response, a request handed to the proxy gets none from the
    dispatcher, and the access log gets exactly one line once the request is
    completed (none before), if a logger is set. *)
Theorem request_answered_once spec c t d before after e1 d1 e2 d2 e3 d3 :
  serving spec c -> dp_completed d = false ->
  run_side c before d = (e1, d1) -> (start c t d1).1 = Ok (e2, d2) -> run_side c after d2 = (e3, d3) ->
  let all := e1 ++ e2 ++ e3 in
  (count_effects is_answer all + count_effects is_handoff e2 <= 1)%nat /\
  count_effects is_log all = (if dp_completed d3 && dp_logger d then 1 else 0)%nat /\
  (dp_completed d1 = true -> count_effects is_answer all = 0%nat).
Proof.
  intros Hs Hd R1 R2 R3. apply serving_current in Hs.
  destruct (run_side_moves c before d) as [[L1 A1 G1] Z1]. rewrite R1 in *.
  destruct (start_moves spec c t d1 e2 d2 Hs R2) as [[L2 A2 G2] Z2].
  destruct (run_side_moves c after d2) as [[L3 A3 G3] Z3]. rewrite R3 in *. cbn [fst snd] in *.
  rewrite Hd in *. cbn [andb] in *. cbn zeta. rewrite !count_effects_app.
  assert (G : dp_logger d3 = dp_logger d) by congruence. rewrite G in L3.
  split; [lia|]. split; [lia|]. intros Hc. rewrite Hc in A2. destruct (dp_completed d2); lia.
Qed.

End RequestDispatcher.

(** ** A concrete server *)

#[local] Existing Instance loopback_only.
#[local] Existing Instance no_regex.
#[local] Existing Instance permissive_openssl.
#[local] Existing Instance sample_digest.

Record PlainRequest := { pr_verb : verb; pr_method : str; pr_target : str; pr_fields : list (str * str) }.

Definition matching_fields (name : str) (r : PlainRequest) : list str :=
  snd <$> filter (fun f => ascii_lower f.1 = ascii_lower name) (pr_fields r).

#[local, refine] Instance plain_request : BeastRequest PlainRequest := {
  method_string := pr_method; method_verb := pr_verb; rq_target := pr_target;
  set_target t r := {| pr_verb := pr_verb r; pr_method := pr_method r; pr_target := t; pr_fields := pr_fields r |};
  field_count name r := length (matching_fields name r);
  field name r := default [] (head (matching_fields name r));
  rq_keep_alive _ := true; rq_version _ := 11
}.
Proof. done. Defined.

Definition sample_request (h : str) : PlainRequest :=
  {| pr_verb := verb_other; pr_method := b!"GET"; pr_target := b!"/cart?item=1"; pr_fields := [(b!"host", h)] |}.

Definition sample_dispatcher (h : str) : Dispatcher PlainRequest :=
  RequestDispatcher 443 (sample_request h) b!"192.0.2.1"
    {| forwarded_scheme := b!"https"; sni_host := Some b!"example.com"; certificate_matches_host := Some (fun _ => true) |}
    true true true true 0 b!"id".

Definition sample_clocks : clocks := {| policy_now := 0; unix_now := 0; log_now := 1000 |}.

Definition sample_start (h : str) := start RuntimeConfig.sample_config sample_clocks (sample_dispatcher h).

Definition start_effects (h : str) : list (Effect PlainRequest) :=
  match (sample_start h).1 with Ok (es, _) => es | Throw _ => [] end.

Definition shop_backend : BackendConfig := plain_backend b!"127.0.0.1" 8090.

Lemma dispatch_forwards_only_admitted_witness :
  exists c' host site vc a,
    admitted RuntimeConfig.sample_config c' (served listen_https 443 (spec_sites RuntimeConfig.sample_spec)) sample_clocks
      (sample_dispatcher b!"WWW.Example.com:443") host site vc a /\ shop_backend = vc_backend vc.
Proof.
  destruct (sample_start b!"WWW.Example.com:443") as [[[es d']|e] c'] eqn:E.
  2:{ exfalso. assert (H : is_ok (sample_start b!"WWW.Example.com:443").1 = true) by (vm_compute; reflexivity).
      rewrite E in H. discriminate. }
  assert (Hes : es = start_effects b!"WWW.Example.com:443") by (unfold start_effects; by rewrite E).
  assert (Hin : In (Proxied shop_backend (sample_request b!"WWW.Example.com:443") b!"192.0.2.1" b!"https" b!"id"
                      default_settings default_overload) es).
  { rewrite Hes. vm_compute. right. left. reflexivity. }
  destruct (dispatch_forwards_only_admitted RuntimeConfig.sample_spec RuntimeConfig.sample_config sample_clocks
    (sample_dispatcher b!"WWW.Example.com:443") es d' c'
    (serving_new _ _ sample_config_accepted) E) as [_ Hfw].
  destruct (Hfw _ _ _ _ _ _ _ Hin) as (host & site & vc & a & Had & Hb & _).
  exists c', host, site, vc, a. split; [exact Had|exact Hb].
Defined.

Lemma dispatch_never_throws_witness :
  exists effects d', (sample_start b!"other.example").1 = Ok (effects, d') /\
    forall resp, In (Completed resp) effects -> documented resp.
Proof.
  exact (dispatch_never_throws RuntimeConfig.sample_spec RuntimeConfig.sample_config sample_clocks
    (sample_dispatcher b!"other.example") (serving_new _ _ sample_config_accepted)).
Defined.

Lemma request_answered_once_witness :
  exists e2 d2 d3,
    (sample_start b!"other.example").1 = Ok (e2, d2) /\
    run_side RuntimeConfig.sample_config [DoStream 5 200 0; DoCancel] d2 = ([], d3) /\
    count_effects is_log e2 = 1%nat /\ count_effects is_answer e2 = 1%nat.
Proof.
  destruct (sample_start b!"other.example") as [[[e2 d2]|e] c'] eqn:E.
  2:{ exfalso. assert (H : is_ok (sample_start b!"other.example").1 = true) by (vm_compute; reflexivity).
      rewrite E in H. discriminate. }
  exists e2, d2, (cancel d2).
  assert (Hd2 : dp_completed d2 = true).
  { pose proof E as E'. vm_compute in E'. injection E' as _ <- _. reflexivity. }
  assert (Hside : run_side RuntimeConfig.sample_config [DoStream 5 200 0; DoCancel] d2 = ([], cancel d2)).
  { cbn [run_side]. unfold complete_stream. rewrite Hd2. reflexivity. }
  destruct (request_answered_once RuntimeConfig.sample_spec RuntimeConfig.sample_config sample_clocks
    (sample_dispatcher b!"other.example") [] [DoStream 5 200 0; DoCancel] [] (sample_dispatcher b!"other.example")
    e2 d2 [] (cancel d2) (serving_new _ _ sample_config_accepted) eq_refl eq_refl
    (f_equal fst E) Hside) as (_ & Hlog & _).
  split; [reflexivity|]. split; [exact Hside|]. rewrite app_nil_r in Hlog. split.
  - cbn [app] in Hlog. rewrite Hlog. cbn [cancel set_handlers dp_completed]. rewrite Hd2. reflexivity.
  - vm_compute in E. injection E as <- _ _. reflexivity.
Defined.
