(* ===== verification/SessionRequest.v ===== *)
(** * From a session to the dispatcher
    (src/src/http/HttpSession.cpp, TlsHttpSession.cpp: [on_header_read])

    What a session passes to the dispatcher it creates: the client's address, from
    the peer and the headers the configuration trusts, and for TLS what the
    handshake selected.  The theorem composes the SNI callback, the session and the
    dispatcher. *)

From S2P Require Import Prelude IpAddress HostNormalizer ClientIpResolver UrlAuthenticator RateLimiter RequestPolicy.
From S2P Require Import VirtualHostRouter TlsContextManager RuntimeConfig LogManager RequestDispatcher.

Section SessionRequest.
Context `{AddressText} `{Regex} `{OpenSsl} `{Digest} {R : Type} `{!BeastRequest R}.

(** Text of the peer for the connection registry; no endpoint, no address. *)
Definition source_address (endpoint : option (address * Z)) : str :=
  match endpoint with
  | None => b!"unknown"
  | Some (a, port) =>
      if is_v4 a then address_to_string a ++ b!":" ++ to_string port
      else b!"[" ++ address_to_string a ++ b!"]:" ++ to_string port
  end.

(** The first field of each name, in the order of priority. *)
Definition found_headers (priority : list str) (request : R) : list (str * str) :=
  omap (fun name => if (field_count name request =? 0)%nat then None else Some (name, field name request)) priority.

Definition session_client_ip (c : Config) (peer : address) (request : R) : str :=
  resolve (resolver_ranges c) peer (found_headers (RuntimeConfig.real_ip_headers (settings c)) request).

Definition plain_security : RequestSecurityContext :=
  {| forwarded_scheme := b!"http"; RequestDispatcher.sni_host := None; certificate_matches_host := None |}.
Definition tls_security (selected : SslContextHolder) (state : TlsConnectionState) : RequestSecurityContext :=
  {| forwarded_scheme := b!"https"; RequestDispatcher.sni_host := TlsContextManager.sni_host state;
     certificate_matches_host := Some (matches_domain selected) |}.

Definition session_dispatcher (c : Config) (listener_port : Z) (peer : address) (request : R)
    (security : RequestSecurityContext) (logger : bool) (now : Z) (request_id : str) : Dispatcher R :=
  RequestDispatcher listener_port request (session_client_ip c peer request) security true true true logger now request_id.

(** The security context of a TLS session: [tls_state_] after the handshake with the
    contexts [m] the listener gave it; no context, no request. *)
Definition session_security (m : Manager) (state : TlsConnectionState) : option RequestSecurityContext :=
  i ← selected_context state; h ← contexts m !! i; Some (tls_security h state).

(** What the handshake leaves behind when the SNI callback lets it go on: a context
    of the manager; the default one for a client that names no server, and one whose
    certificate covers the name otherwise. *)
Lemma handshake_selects certificates reject m server_name switch_ok state :
  TlsContextManager certificates reject = Ok m ->
  server_name_callback m server_name switch_ok (initialize_connection m) = (tlsext_ok, state) ->
  exists i h cert, selected_context state = Some i /\ contexts m !! i = Some h /\ certificates !! i = Some cert /\
    make_holder cert = Ok h /\
    (server_name = None -> default_context m = Some i /\ TlsContextManager.sni_host state = None) /\
    (forall name, server_name = Some name -> reject = true -> exists sni,
       normalize_domain name = Some sni /\ TlsContextManager.sni_host state = Some sni /\ covers cert sni).
Proof.
  intros Hm Hcb. pose proof (contexts_configured _ _ _ Hm) as HF.
  apply manager_inv in Hm as (Hcov & Hrej & di & dc & Hdef & Hdc & _).
  assert (Hat : forall i, (exists c, certificates !! i = Some c) -> exists h c, contexts m !! i = Some h /\ certificates !! i = Some c /\ make_holder c = Ok h).
  { intros i [c Hc]. destruct (Forall2_lookup_l _ _ _ _ _ HF Hc) as (h & ? & ?). eauto. }
  unfold server_name_callback in Hcb. destruct server_name as [name|].
  - destruct (normalize_domain name ≫= find m) as [i|] eqn:Ef.
    + destruct switch_ok; [|done]. injection Hcb as <-. destruct (normalize_domain name) as [sni|] eqn:En; [|done]. cbn in Ef.
      destruct (find_sound _ _ _ Hcov Ef) as (h & Hi & Hmt). destruct (Forall2_lookup_r _ _ _ _ _ HF Hi) as (c & Hc & Hh).
      exists i, h, c. split_and!; try done. intros n [= <-] _. exists sni. split_and!; try done. by eapply holder_covers.
    + rewrite Hrej in Hcb. destruct reject; [done|]. injection Hcb as <-.
      destruct (Hat di (ex_intro _ _ Hdc)) as (h & c & ? & ? & ?). exists di, h, c. by split_and!.
  - injection Hcb as <-. destruct (Hat di (ex_intro _ _ Hdc)) as (h & c & ? & ? & ?). exists di, h, c. by split_and!.
Qed.

(** C11: Over TLS a request reaches a backend only under a certificate the client was
    shown.  A connection is accepted under an accepted configuration [c0] and its
    handshake runs the SNI callback of that configuration's certificates; later, while
    the server may already run another configuration [c], the session hands one of its
    requests over.  Then the handshake selected one of the certificates configured in
    [c0], a domain of that certificate covers the request's Host, and the Host is
    routed to the site of the backend; a client that named no server was shown the
    default certificate; with unknown names rejected, the name a client sent is
    covered by the selected certificate too; and that name is routed to the same site.
    The client address that goes along is the peer's unless the peer is trusted. *)
Theorem tls_request_under_its_certificate spec0 c0 m server_name switch_ok state security
    spec c t port peer rq logger now id effects d' c' b rq' ip scheme rid st ov :
  RuntimeConfig spec0 = Ok c0 -> tls_contexts c0 = Some m ->
  server_name_callback m server_name switch_ok (initialize_connection m) = (tlsext_ok, state) ->
  session_security m state = Some security -> serving spec c ->
  start c t (session_dispatcher c port peer rq security logger now id) = (Ok (effects, d'), c') ->
  In (Proxied b rq' ip scheme rid st ov) effects ->
  let sites := served listen_https port (spec_sites spec) in
  exists host site vc i cert,
    selected_context state = Some i /\ spec_tls_certificates spec0 !! i = Some cert /\
    normalize_authority (field b!"Host" rq) = Some host /\ covers cert host /\
    routed sites host (Some site) /\ sites !! site = Some vc /\ b = vc_backend vc /\
    (server_name = None -> default_context m = Some i) /\
    (forall name, server_name = Some name -> spec_reject_unknown_sni spec0 = true ->
       exists sni, normalize_domain name = Some sni /\ covers cert sni /\ routed sites sni (Some site)) /\
    scheme = b!"https" /\ ip = session_client_ip c peer rq /\
    (is_trusted (resolver_ranges c) peer = false -> ip = address_to_string peer).
Proof.
  intros Hc0 Hm Hcb Hsec Hs Hst Hin%list_elem_of_In sites.
  destruct (handshake_selects _ _ _ _ _ _ (configured_manager _ _ _ Hc0 Hm) Hcb) as (i & h & cert & Hi & Hh & Hcert & Hholder & Hnone & Hname).
  unfold session_security in Hsec. rewrite Hi in Hsec. cbn in Hsec. rewrite Hh in Hsec. cbn in Hsec. injection Hsec as <-.
  destruct (proxied_admitted _ _ _ _ _ _ _ _ _ _ _ _ _ _ Hs Hst Hin) as (host & site & vc & a & Had & Hb & _ & _ & Hip & Hsc & _).
  destruct Had as [[_ Hhost] [Hr Hv] Htls _ _ _]. destruct (Htls eq_refl) as [(f & [= <-] & Hf) Hsni].
  exists host, site, vc, i, cert. split_and!; try done; [by eapply holder_covers|by intros [? _]%Hnone| |].
  - intros name En Hrej. destruct (Hname name En Hrej) as (sni & Hn & Hst' & Hcov). exists sni. split_and!; try done. by apply Hsni.
  - intros Ht. rewrite Hip. cbn. unfold session_client_ip, resolve. by rewrite Ht.
Qed.

End SessionRequest.

(** ** A sample: a TLS client of the sample server *)

Section Sample.
#[local] Existing Instance loopback_only.
#[local] Existing Instance no_regex.
#[local] Existing Instance permissive_openssl.
#[local] Existing Instance sample_digest.
#[local] Existing Instance plain_request.

Definition peer_address : address := V4 3221225985.
Definition server_contexts : Manager := Eval vm_compute in default sample_manager (tls_contexts sample_config).
Definition sample_state : TlsConnectionState := Eval vm_compute in
  (server_name_callback server_contexts (Some b!"Example.com") true (initialize_connection server_contexts)).2.

Lemma tls_request_under_its_certificate_witness :
  exists security es d' c' b rq' ip scheme rid st ov,
    session_security server_contexts sample_state = Some security /\
    start sample_config sample_clocks (session_dispatcher sample_config 443 peer_address (sample_request b!"WWW.Example.com:443")
      security true 0 b!"id") = (Ok (es, d'), c') /\
    In (Proxied b rq' ip scheme rid st ov) es /\
    exists host site vc i cert,
      selected_context sample_state = Some i /\ spec_tls_certificates sample_spec !! i = Some cert /\
      normalize_authority b!"WWW.Example.com:443" = Some host /\ covers cert host /\
      routed (served listen_https 443 (spec_sites sample_spec)) host (Some site) /\
      served listen_https 443 (spec_sites sample_spec) !! site = Some vc /\ b = vc_backend vc.
Proof.
  destruct (session_security server_contexts sample_state) as [security|] eqn:Es; [|vm_compute in Es; discriminate Es].
  set (d := session_dispatcher sample_config 443 peer_address (sample_request b!"WWW.Example.com:443") security true 0 b!"id").
  destruct (start sample_config sample_clocks d) as [[[es d']|e] c'] eqn:E.
  2: { exfalso. pose proof (f_equal (fun x => is_ok x.1) E) as E'. unfold d in E'. vm_compute in Es. injection Es as <-.
       vm_compute in E'. discriminate E'. }
  assert (Hin : exists b rq' ip scheme rid st ov, In (Proxied b rq' ip scheme rid st ov) es).
  { pose proof (f_equal (fun x => match x.1 with Ok r => r.1 | Throw _ => [] end) E) as E'. cbv beta in E'. cbn [fst] in E'. subst es.
    unfold d. vm_compute in Es. injection Es as <-. vm_compute. do 7 eexists. right. left. reflexivity. }
  destruct Hin as (b & rq' & ip & scheme & rid & st & ov & Hin).
  destruct (tls_request_under_its_certificate sample_spec sample_config server_contexts (Some b!"Example.com") true sample_state security
    sample_spec sample_config sample_clocks 443 peer_address (sample_request b!"WWW.Example.com:443")
    true 0 b!"id" es d' c' b rq' ip scheme rid st ov sample_config_accepted ltac:(vm_compute; reflexivity) ltac:(vm_compute; reflexivity)
    Es (serving_new _ _ sample_config_accepted) E Hin)
    as (host & site & vc & i & cert & H1 & H2 & H3 & H4 & H5 & H6 & H7 & _).
  exists security, es, d', c', b, rq', ip, scheme, rid, st, ov.
  split; [reflexivity|]. split; [exact E|]. split; [exact Hin|].
  exists host, site, vc, i, cert. exact (conj H1 (conj H2 (conj H3 (conj H4 (conj H5 (conj H6 H7)))))).
Defined.
End Sample.
