(* ===== verification/ProxyHeaders.v ===== *)
(** * Header rewriting of the proxy (src/src/proxy/ProxyTransaction.hpp)

    What the proxy does to the header of a request before it goes to the
    backend and to the header of a response before it goes to the client, and
    the key under which a backend connection is pooled.  The header container is
    Boost.Beast's, reached through the class [BeastFields]: a header is observed
    through the values of each field name, in order, and names are compared
    without regard to case. *)

From S2P Require Import Prelude IpAddress HostNormalizer VirtualHostRouter.

(** [boost::beast::iequals]. *)
Definition iequals (a b : str) : bool := bool_decide (ascii_lower a = ascii_lower b).
Arguments iequals : simpl never.

Class BeastFields (F : Type) := {
  values : str -> F -> list str;
  erase : str -> F -> F;
  set_field : str -> str -> F -> F;
  (** [message::keep_alive(bool)] and [message::chunked()] *)
  set_keep_alive : bool -> F -> F;
  chunked_of : list str -> bool;
  values_erase n m f : values n (erase m f) = if iequals n m then [] else values n f;
  values_set n m v f : values n (set_field m v f) = if iequals n m then [v] else values n f;
  values_keep_alive n b f : iequals n b!"Connection" = false -> values n (set_keep_alive b f) = values n f;
  values_iequals n m f : iequals n m = true -> values n f = values m f;
  not_chunked : chunked_of [] = false
}.

Section ProxyHeaders.
Context {F : Type} `{BeastFields F}.

(** [request_[name]]: the first value, or the empty string. *)
Definition first_value (n : str) (f : F) : str := default [] (head (values n f)).

(** [request_.chunked()] looks at the Transfer-Encoding field. *)
Definition chunked (f : F) : bool := chunked_of (values b!"Transfer-Encoding" f).

Definition blank (c : ascii) : bool := is_char c " " || (byte_val c =? 9).

Fixpoint trim_front (s : str) : str :=
  match s with
  | c :: r => if blank c then trim_front r else s
  | [] => []
  end.

Definition trim (s : str) : str := reverse (trim_front (reverse (trim_front s))).

Definition token_character (c : ascii) : bool :=
  isalnum c || contains_char c b!"!#$%&'*+-.^_`|~".

Definition valid_token (token : str) : bool :=
  negb (bool_decide (token = [])) && forallb token_character token.

(** The loop over the comma-separated tokens of one Connection value. *)
Definition connection_tokens (value : str) : list str :=
  filter (fun t => valid_token t = true) (trim <$> split "," value).

(** The names collected from every Connection field. *)
Definition named_fields (f : F) : list str := mjoin (connection_tokens <$> values b!"Connection" f).

Definition erase_named (preserve_upgrade : bool) (named : list str) (f : F) : F :=
  fold_left (fun f name => if preserve_upgrade && iequals name b!"upgrade" then f else erase name f) named f.

Definition strip_hop_headers (preserve_upgrade preserve_transfer_encoding : bool) (f : F) : F :=
  let f := erase_named preserve_upgrade (named_fields f) f in
  let f := if preserve_upgrade then f else erase b!"Upgrade" (erase b!"Connection" f) in
  let f := erase b!"Trailer" (erase b!"TE" (erase b!"Keep-Alive" f)) in
  let f := if preserve_transfer_encoding then f else erase b!"Transfer-Encoding" f in
  erase b!"Proxy-Authorization" (erase b!"Proxy-Authenticate" (erase b!"Proxy-Connection" f)).

Definition forwarding_names : list str :=
  [b!"Forwarded"; b!"X-Forwarded-For"; b!"X-Forwarded-Host"; b!"X-Forwarded-Proto"; b!"X-Real-IP";
   b!"CF-Connecting-IP"; b!"True-Client-IP"; b!"X-Request-ID"].

Definition remove_forwarding_headers (f : F) : F := fold_left (fun f n => erase n f) forwarding_names f.

Definition effective_backend_host (backend : BackendConfig) (f : F) : str :=
  if negb (bool_decide (be_host backend = [])) then be_host backend else first_value b!"Host" f.

Definition effective_tls_sni (backend : BackendConfig) : str :=
  if negb (bool_decide (be_tls_sni backend = [])) then be_tls_sni backend
  else if negb (bool_decide (be_host backend = [])) then
    match normalize_authority (be_host backend) with
    | Some normalized => normalized
    | None => be_address backend
    end
  else be_address backend.

Definition backend_pool_key (backend : BackendConfig) (f : F) : str :=
  (match be_protocol backend with backend_https => b!"https|" | backend_http => b!"http|" end) ++
  be_address backend ++ b!":" ++ to_string (be_port backend) ++ b!"|" ++
  effective_backend_host backend f ++ b!"|" ++ effective_tls_sni backend ++ b!"|" ++
  (if be_tls_verify_certificate backend then b!"verify" else b!"insecure").

Definition prepare_request (backend : BackendConfig) (client_ip scheme request_id : str)
    (websocket keep_alive_enabled : bool) (f : F) : F :=
  let f := strip_hop_headers websocket true (remove_forwarding_headers f) in
  let f := set_field b!"Host" (effective_backend_host backend f) f in
  let f := set_field b!"X-Real-IP" client_ip f in
  let f := set_field b!"X-Forwarded-For" client_ip f in
  let f := set_field b!"X-Forwarded-Proto" scheme f in
  let f := if bool_decide (request_id = []) then f else set_field b!"X-Request-ID" request_id f in
  if websocket then f else erase b!"Expect" (set_keep_alive keep_alive_enabled f).

(** The header part of [on_response_header]. *)
Definition prepare_response (request_id : str) (client_keep_alive : bool) (f : F) : F :=
  let f := strip_hop_headers false true f in
  let f := if bool_decide (request_id = []) then f else set_field b!"X-Request-ID" request_id f in
  set_keep_alive client_keep_alive f.

(** ** Which fields survive *)

Lemma iequals_refl n : iequals n n = true.
Proof. by apply bool_decide_eq_true. Qed.

(** Comparisons of literal names. *)
Ltac eval_iequals :=
  repeat match goal with
  | |- context [iequals ?a ?b] =>
      let r := eval vm_compute in (iequals a b) in
      match r with true => idtac | false => idtac end;
      change (iequals a b) with r
  end.

Definition named_in (n : str) (names : list str) : bool := existsb (iequals n) names.

Lemma named_in_cons n m names : named_in n (m :: names) = iequals n m || named_in n names.
Proof. reflexivity. Qed.

Lemma values_erase_list n names f :
  values n (fold_left (fun f m => erase m f) names f) = if named_in n names then [] else values n f.
Proof.
  revert f. induction names as [|m names IH]; intros f; cbn [fold_left]; [done|].
  rewrite IH, values_erase, named_in_cons. destruct (iequals n m), (named_in n names); done.
Qed.

Lemma values_erase_named n up names f :
  values n (erase_named up names f) =
  if named_in n (filter (fun m => up && iequals m b!"upgrade" = false) names) then [] else values n f.
Proof.
  unfold erase_named. revert f. induction names as [|m names IH]; intros f; cbn [fold_left]; [done|].
  rewrite IH, filter_cons. destruct (up && iequals m b!"upgrade") eqn:E.
  - by rewrite decide_False.
  - rewrite decide_True, named_in_cons, values_erase by done.
    destruct (iequals n m), (named_in n _); done.
Qed.

(** The fields [strip_hop_headers] always removes. *)
Definition hop_names (preserve_upgrade preserve_transfer_encoding : bool) : list str :=
  [b!"Keep-Alive"; b!"TE"; b!"Trailer"; b!"Proxy-Connection"; b!"Proxy-Authenticate"; b!"Proxy-Authorization"] ++
  (if preserve_upgrade then [] else [b!"Connection"; b!"Upgrade"]) ++
  (if preserve_transfer_encoding then [] else [b!"Transfer-Encoding"]).

Definition stripped_names (up te : bool) (f : F) : list str :=
  filter (fun m => up && iequals m b!"upgrade" = false) (named_fields f) ++ hop_names up te.

Lemma named_in_app n a b : named_in n (a ++ b) = named_in n a || named_in n b.
Proof. apply existsb_app. Qed.

Lemma values_strip n up te f :
  values n (strip_hop_headers up te f) = if named_in n (stripped_names up te f) then [] else values n f.
Proof.
  unfold strip_hop_headers, stripped_names. rewrite !named_in_app.
  rewrite !values_erase. destruct te; rewrite ?values_erase; destruct up; rewrite ?values_erase, values_erase_named;
    cbn; repeat (destruct (iequals n _); cbn; try by rewrite ?orb_true_r); by rewrite ?orb_false_r.
Qed.

(** ** The forwarded request *)

(** The fields the proxy writes itself. *)
Definition written (request_id : str) : list str :=
  [b!"Host"; b!"X-Real-IP"; b!"X-Forwarded-For"; b!"X-Forwarded-Proto"] ++
  (if bool_decide (request_id = []) then [] else [b!"X-Request-ID"]).

(** The fields of the client's request it takes out. *)
Definition removed (websocket : bool) (f : F) : list str :=
  stripped_names websocket true f ++ forwarding_names ++ (if websocket then [] else [b!"Expect"]).

Lemma values_remove_forwarding n f :
  values n (remove_forwarding_headers f) = if named_in n forwarding_names then [] else values n f.
Proof. apply values_erase_list. Qed.

Lemma stripped_remove_forwarding up te f :
  stripped_names up te (remove_forwarding_headers f) = stripped_names up te f.
Proof. unfold stripped_names, named_fields. by rewrite values_remove_forwarding. Qed.

(** The header before the proxy writes its own fields. *)
Lemma values_stripped n websocket f :
  values n (strip_hop_headers websocket true (remove_forwarding_headers f)) =
  if named_in n (stripped_names websocket true f ++ forwarding_names) then [] else values n f.
Proof.
  rewrite values_strip, stripped_remove_forwarding, values_remove_forwarding, named_in_app.
  by destruct (named_in n (stripped_names _ _ _)).
Qed.

Lemma values_prepare n backend ip scheme id websocket ka f :
  iequals n b!"Connection" = false ->
  let stripped := strip_hop_headers websocket true (remove_forwarding_headers f) in
  values n (prepare_request backend ip scheme id websocket ka f) =
  if negb websocket && iequals n b!"Expect" then []
  else if negb (bool_decide (id = [])) && iequals n b!"X-Request-ID" then [id]
  else if iequals n b!"X-Forwarded-Proto" then [scheme]
  else if iequals n b!"X-Forwarded-For" then [ip]
  else if iequals n b!"X-Real-IP" then [ip]
  else if iequals n b!"Host" then [effective_backend_host backend stripped]
  else values n stripped.
Proof.
  intros Hc stripped. unfold prepare_request. fold stripped.
  destruct websocket; rewrite ?values_erase, ?values_keep_alive by done; cbn [negb andb];
    (case_bool_decide; rewrite ?values_set; cbn [negb andb]; done).
Qed.

Lemma iequals_trans_false a b c : iequals a b = true -> iequals b c = false -> iequals a c = false.
Proof.
  unfold iequals. rewrite bool_decide_eq_true, !bool_decide_eq_false. congruence.
Qed.

Lemma effective_host_stripped backend websocket f :
  effective_backend_host backend (strip_hop_headers websocket true (remove_forwarding_headers f)) =
  if negb (bool_decide (be_host backend = [])) then be_host backend
  else if named_in b!"Host" (stripped_names websocket true f) then [] else first_value b!"Host" f.
Proof.
  unfold effective_backend_host, first_value. rewrite values_stripped, named_in_app, orb_false_r.
  by destruct (named_in b!"Host" (stripped_names websocket true f)).
Qed.


(** A client can take the framing out of its own request.  A Connection
    field that names Content-Length, or Transfer-Encoding, makes the proxy drop
    that field, while the body is still streamed to the backend: with no length
    and no chunks, the backend reads the body as the next request. *)
Theorem connection_option_drops_framing backend ip scheme id websocket ka f :
  (named_in b!"Content-Length" (named_fields f) = true ->
     values b!"Content-Length" (prepare_request backend ip scheme id websocket ka f) = []) /\
  (named_in b!"Transfer-Encoding" (named_fields f) = true ->
     chunked (prepare_request backend ip scheme id websocket ka f) = false).
Proof.
  assert (Hn : forall n, named_in n (named_fields f) = true -> iequals n b!"upgrade" = false ->
            named_in n (stripped_names websocket true f) = true).
  { intros n Hn Hu. unfold stripped_names. rewrite named_in_app. apply orb_true_iff. left.
    apply existsb_exists in Hn as (m & Hm & He). apply existsb_exists. exists m. split; [|done].
    apply list_elem_of_In, list_elem_of_filter. split; [|by apply list_elem_of_In].
    destruct websocket; [|done]. destruct (iequals m b!"upgrade") eqn:E; [|done].
    unfold iequals in *. rewrite bool_decide_eq_true in E, He. rewrite bool_decide_eq_false in Hu. congruence. }
  split; intros Hin; unfold chunked; rewrite values_prepare by done;
    eval_iequals; rewrite !andb_false_r, values_stripped, named_in_app, Hn by done; auto using not_chunked.
Qed.

(** ** Pool keys *)

Lemma app_sep_inj (c : ascii) (a b a' b' : str) :
  c ∉ a -> c ∉ a' -> a ++ c :: b = a' ++ c :: b' -> a = a' /\ b = b'.
Proof.
  intros Ha Ha' E. pose proof (break_at_app c a b Ha) as E1. pose proof (break_at_app c a' b' Ha') as E2.
  rewrite E, E2 in E1. by injection E1 as -> ->.
Qed.

Lemma app_last_sep_inj (c : ascii) (a b a' b' : str) :
  c ∉ b -> c ∉ b' -> a ++ c :: b = a' ++ c :: b' -> a = a' /\ b = b'.
Proof.
  intros Hb Hb' E%(f_equal reverse). rewrite !reverse_app, !reverse_cons, <-!app_assoc in E. cbn in E.
  apply app_sep_inj in E as [E1%(inj reverse) E2%(inj reverse)]; [done|by rewrite elem_of_reverse..].
Qed.

Lemma to_string_no_sep c z : number_char c = false -> c ∉ to_string z.
Proof.
  intros Hc Hin. pose proof (to_string_number z) as Hn. rewrite forallb_forall in Hn.
  specialize (Hn c). rewrite <-list_elem_of_In in Hn. rewrite (Hn Hin) in Hc. done.
Qed.

(** What identifies a backend connection. *)
Definition connection_identity (backend : BackendConfig) (f : F) :=
  (be_protocol backend, be_address backend, be_port backend, effective_backend_host backend f,
   effective_tls_sni backend, be_tls_verify_certificate backend).

Definition no_bar (backend : BackendConfig) (f : F) : Prop :=
  "|"%char ∉ be_address backend /\ "|"%char ∉ effective_backend_host backend f /\
  "|"%char ∉ effective_tls_sni backend.

(** A pooled connection serves only its own kind.  If two requests compute
    the same pool key, they agree on the protocol, the address and port, the
    Host sent to the backend, the TLS server name and whether the certificate is
    verified; so a connection opened without verification, or for another
    server name, is never reused for a request that asks for more. *)
Theorem pool_key_separates b1 f1 b2 f2 :
  no_bar b1 f1 -> no_bar b2 f2 -> backend_pool_key b1 f1 = backend_pool_key b2 f2 ->
  connection_identity b1 f1 = connection_identity b2 f2.
Proof.
  intros (A1 & H1 & S1) (A2 & H2 & S2) E. unfold backend_pool_key in E.
  assert (Hproto : forall b (r : str), (match be_protocol b with backend_https => b!"https|" | backend_http => b!"http|" end) ++ r =
    (match be_protocol b with backend_https => b!"https" | backend_http => b!"http" end) ++ "|"%char :: r)
    by (intros b r; by destruct (be_protocol b)).
  rewrite !Hproto in E. apply app_sep_inj in E as [Ep E];
    [|destruct (be_protocol b1); closed_decision|destruct (be_protocol b2); closed_decision].
  assert (Hp : be_protocol b1 = be_protocol b2) by (by destruct (be_protocol b1), (be_protocol b2)).
  rewrite !(app_assoc (be_address _)), !(app_assoc (be_address _ ++ _)) in E.
  apply app_sep_inj in E as [Eap E];
    [|rewrite !not_elem_of_app; repeat split; [done|closed_decision|by apply to_string_no_sep]..].
  rewrite <-!app_assoc in Eap. apply app_last_sep_inj in Eap as [Ea Eport]; [|by apply to_string_no_sep..].
  apply app_sep_inj in E as [Eh E]; [|done|done]. apply app_sep_inj in E as [Es Ev]; [|done|done].
  apply (inj to_string) in Eport.
  unfold connection_identity. rewrite Hp, Ea, Eport, Eh, Es.
  by destruct (be_tls_verify_certificate b1), (be_tls_verify_certificate b2).
Qed.

End ProxyHeaders.

(** ** A concrete header *)

Notation header := (list (str * str)).

Lemma iequals_sym a b : iequals a b = iequals b a.
Proof. unfold iequals. apply bool_decide_ext. split; congruence. Qed.

Lemma iequals_trans a b c : iequals a b = true -> iequals c a = iequals c b.
Proof. unfold iequals. rewrite bool_decide_eq_true. by intros ->. Qed.

Lemma filter_erased n m (f : list (str * str)) :
  filter (fun x => iequals n x.1 = true) (filter (fun x => iequals x.1 m = false) f) =
  if iequals n m then [] else filter (fun x => iequals n x.1 = true) f.
Proof.
  induction f as [|[k v] f IH]; [by destruct (iequals n m)|].
  destruct (iequals k m) eqn:Hk.
  - rewrite (filter_cons_False _ (k, v)), IH by (cbn [fst]; congruence).
    destruct (iequals n m) eqn:Enm; [done|]. rewrite filter_cons_False; [done|].
    cbn [fst]. rewrite (iequals_trans k m n Hk). congruence.
  - rewrite (filter_cons_True _ (k, v)) by done. destruct (iequals n k) eqn:Hn.
    + rewrite !(filter_cons_True (fun x => iequals n x.1 = true)), IH by done.
      by rewrite (iequals_sym n m), (iequals_trans n k m Hn), (iequals_sym m k), Hk.
    + rewrite !(filter_cons_False (fun x => iequals n x.1 = true)), IH by (cbn [fst]; congruence). done.
Qed.

#[export, refine] Instance list_fields : BeastFields header := {
  values n f := snd <$> filter (fun x => iequals n x.1 = true) f;
  erase n f := filter (fun x => iequals x.1 n = false) f;
  set_field n v f := filter (fun x => iequals x.1 n = false) f ++ [(n, v)];
  set_keep_alive b f := filter (fun x => iequals x.1 b!"Connection" = false) f ++
                        (if b then [] else [(b!"Connection", b!"close")]);
  chunked_of vs := match last vs with Some v => ends_with b!"chunked" (ascii_lower v) | None => false end
}.
Proof.
  - intros n m f. rewrite filter_erased. by destruct (iequals n m).
  - intros n m v f. rewrite filter_app, fmap_app, filter_erased, filter_cons. cbn [fst].
    destruct (iequals n m); [by rewrite decide_True|]. rewrite decide_False by done. by rewrite app_nil_r.
  - intros n b f Hn. rewrite filter_app, fmap_app, filter_erased, Hn. destruct b; [by rewrite app_nil_r|].
    rewrite filter_cons, decide_False by (cbn [fst]; congruence). by rewrite app_nil_r.
  - intros n m f Hnm. f_equal. apply list_filter_iff. intros [k v]. cbn.
    by rewrite (iequals_sym n k), (iequals_sym m k), (iequals_trans n m k Hnm).
  - done.
Defined.

Definition smuggling_header : header :=
  [(b!"Host", b!"shop.example"); (b!"Connection", b!"close, content-length"); (b!"Content-Length", b!"44");
   (b!"EO-Connecting-IP", b!"203.0.113.7")].

Definition shop : BackendConfig := plain_backend b!"127.0.0.1" 8090.

Lemma connection_option_drops_framing_witness :
  values b!"Content-Length" (prepare_request shop b!"192.0.2.1" b!"http" b!"id" false true smuggling_header) = [].
Proof.
  exact (proj1 (connection_option_drops_framing shop b!"192.0.2.1" b!"http" b!"id" false true smuggling_header) eq_refl).
Defined.

Lemma pool_key_separates_witness :
  connection_identity shop smuggling_header = connection_identity shop (tail smuggling_header ++ [(b!"hOST", b!"shop.example")]).
Proof.
  apply (pool_key_separates shop smuggling_header shop);
    [closed_decision|closed_decision|vm_compute; reflexivity].
Defined.
