(* ===== verification/ProxyTransaction.v ===== *)
(** * Proxy transaction (src/src/proxy/ProxyTransaction.hpp)

    [ProxyTransactionImpl] forwards one client request to one backend: it waits
    for a concurrency permit, takes a pooled connection or resolves and connects
    (with a TLS handshake for https), writes the request, streams the body while
    it reads the response, relays the response, or tunnels bytes for a WebSocket.

    [Tx] has the class's members under their names; an optional or smart-pointer
    member is the boolean that it holds a value ([response_parser_] also keeps
    [is_done()]).  Each member function is a definition of type [Tx -> outcome];
    [Undefined] stands for undefined behaviour: a null dereference, or two reads
    or two writes at the same time on one stream, which Asio forbids and which
    here also overwrite the message the first of them still uses.  The slots
    [c_write], [c_read], [b_write] and [b_read] hold the operations that are
    outstanding on the client and the backend stream; an event completes one of
    them and runs its completion handler.  What Beast, Asio and OpenSSL answer
    during a handler is the record [Obs].  [tape] says which of the statements
    that allocate throw: [start_client_operation] and [start_backend_operation]
    undo their counter, and [guarded_handler] turns any exception into
    [abort_from_exception_noexcept].

    The theorems hold for every order of completions, every answer of the
    libraries and every exception: one completion per transaction, no operation
    outstanding when it is reported, no transaction that waits for nothing, and
    cancellation that ends.  Undefined behaviour needs a request body that is
    streamed, and a trace shows that such a request does reach it. *)

From S2P Require Import Prelude VirtualHostRouter RuntimeConfig ProxyHeaders.

(** ** Data *)

Definition http_transfer_chunk_size : Z := 16 * 1024.

(** The error codes the handlers tell apart; [err_timeout] is
    [beast::error::timeout] or [asio::error::timed_out]. *)
Inductive error_code := need_buffer | body_limit | err_timeout | err_eof | operation_aborted | err_other.
#[export] Instance error_code_eq_dec : EqDecision error_code.
Proof. solve_decision. Defined.

Inductive BackendAcquireResult := acquire_granted | acquire_queue_full | acquire_queue_timeout.

Record DeferredFinish := { df_status : Z; df_bytes : Z; df_keep_alive : bool }.

(** The asynchronous operations, by their completion handlers. *)
Inductive client_write := cw_continue | cw_header | cw_body | cw_upgrade | cw_flush | cw_tunnel | cw_error.
Inductive client_read := cr_body | cr_tunnel.
Inductive backend_write := bw_connect | bw_handshake | bw_header | bw_body | bw_last | bw_flush | bw_tunnel.
Inductive backend_read := br_header | br_body | br_upgrade | br_tunnel.

(** What the transaction does to its surroundings. *)
Inductive log_entry :=
| completion (status bytes : Z) (keep_alive : bool)
| failure (error : error_code)
| error_response (status : Z) (retry_after : option Z) (keep_alive : bool) (body : str)
| pool_release (key : str) (pending : nat) (response_done upload_complete : bool).

Record Obs := {
  o_error : option error_code;
  o_transferred : Z;
  o_parser_done : bool;
  o_body_left : Z;
  o_serializer_done : bool;
  o_result_int : Z;
  o_keep_alive : bool;
  o_socket_open : bool;
  o_client_buffered : bool;
  o_backend_buffered : bool;
  o_pooled : bool;
  o_sni_ok : bool
}.

Record Tx := MkTx {
  backend_stream_ : bool;
  pending_acquire_ : bool;
  permit_ : bool;
  completion_ : bool;
  request_serializer_ : bool;
  response_parser_ : option bool;
  response_serializer_ : bool;
  upgrade_parser_ : bool;
  http_transfer_buffer_ : bool;
  response_transfer_buffer_ : bool;
  tunnel_buffers_ : bool;
  deferred_finish_ : option DeferredFinish;
  client_keep_alive_ : bool;
  request_body_done_ : bool;
  request_upload_complete_ : bool;
  response_header_started_ : bool;
  early_backend_response_ : bool;
  stop_request_upload_ : bool;
  client_cancel_requested_ : bool;
  backend_close_requested_ : bool;
  backend_from_pool_ : bool;
  retried_pooled_connection_ : bool;
  error_keep_alive_ : bool;
  backend_keep_alive_ : bool;
  connecting_ : bool;
  completed_ : bool;
  client_operations_pending_ : nat;
  backend_operations_pending_ : nat;
  status_ : Z;
  response_bytes_ : Z;
  (** what the libraries hold, and ghost state *)
  client_parser_done : bool;
  body_more : bool;
  started : bool;
  acquiring : bool;
  waiting : nat;
  resolving : bool;
  c_write : option client_write;
  c_read : option client_read;
  b_write : option backend_write;
  b_read : option backend_read;
  header_writes : nat;
  log : list log_entry;
  tape : list bool
}.

(** Field update: [eta] with one projection replaced. *)
Definition eta (s : Tx) : Tx := MkTx (backend_stream_ s) (pending_acquire_ s) (permit_ s) (completion_ s)
  (request_serializer_ s) (response_parser_ s) (response_serializer_ s) (upgrade_parser_ s)
  (http_transfer_buffer_ s) (response_transfer_buffer_ s) (tunnel_buffers_ s) (deferred_finish_ s)
  (client_keep_alive_ s) (request_body_done_ s) (request_upload_complete_ s) (response_header_started_ s)
  (early_backend_response_ s) (stop_request_upload_ s) (client_cancel_requested_ s)
  (backend_close_requested_ s) (backend_from_pool_ s) (retried_pooled_connection_ s) (error_keep_alive_ s)
  (backend_keep_alive_ s) (connecting_ s) (completed_ s) (client_operations_pending_ s)
  (backend_operations_pending_ s) (status_ s) (response_bytes_ s) (client_parser_done s) (body_more s)
  (started s) (acquiring s) (waiting s) (resolving s) (c_write s) (c_read s) (b_write s) (b_read s)
  (header_writes s) (log s) (tape s).

Definition set_backend_stream_ (v : bool) (s : Tx) : Tx := ltac:(record_update eta backend_stream_ s v).
Definition set_pending_acquire_ (v : bool) (s : Tx) : Tx := ltac:(record_update eta pending_acquire_ s v).
Definition set_permit_ (v : bool) (s : Tx) : Tx := ltac:(record_update eta permit_ s v).
Definition set_completion_ (v : bool) (s : Tx) : Tx := ltac:(record_update eta completion_ s v).
Definition set_request_serializer_ (v : bool) (s : Tx) : Tx := ltac:(record_update eta request_serializer_ s v).
Definition set_response_parser_ (v : option bool) (s : Tx) : Tx := ltac:(record_update eta response_parser_ s v).
Definition set_response_serializer_ (v : bool) (s : Tx) : Tx := ltac:(record_update eta response_serializer_ s v).
Definition set_upgrade_parser_ (v : bool) (s : Tx) : Tx := ltac:(record_update eta upgrade_parser_ s v).
Definition set_http_transfer_buffer_ (v : bool) (s : Tx) : Tx := ltac:(record_update eta http_transfer_buffer_ s v).
Definition set_response_transfer_buffer_ (v : bool) (s : Tx) : Tx := ltac:(record_update eta response_transfer_buffer_ s v).
Definition set_tunnel_buffers_ (v : bool) (s : Tx) : Tx := ltac:(record_update eta tunnel_buffers_ s v).
Definition set_deferred_finish_ (v : option DeferredFinish) (s : Tx) : Tx := ltac:(record_update eta deferred_finish_ s v).
Definition set_client_keep_alive_ (v : bool) (s : Tx) : Tx := ltac:(record_update eta client_keep_alive_ s v).
Definition set_request_body_done_ (v : bool) (s : Tx) : Tx := ltac:(record_update eta request_body_done_ s v).
Definition set_request_upload_complete_ (v : bool) (s : Tx) : Tx := ltac:(record_update eta request_upload_complete_ s v).
Definition set_response_header_started_ (v : bool) (s : Tx) : Tx := ltac:(record_update eta response_header_started_ s v).
Definition set_early_backend_response_ (v : bool) (s : Tx) : Tx := ltac:(record_update eta early_backend_response_ s v).
Definition set_stop_request_upload_ (v : bool) (s : Tx) : Tx := ltac:(record_update eta stop_request_upload_ s v).
Definition set_client_cancel_requested_ (v : bool) (s : Tx) : Tx := ltac:(record_update eta client_cancel_requested_ s v).
Definition set_backend_close_requested_ (v : bool) (s : Tx) : Tx := ltac:(record_update eta backend_close_requested_ s v).
Definition set_backend_from_pool_ (v : bool) (s : Tx) : Tx := ltac:(record_update eta backend_from_pool_ s v).
Definition set_retried_pooled_connection_ (v : bool) (s : Tx) : Tx := ltac:(record_update eta retried_pooled_connection_ s v).
Definition set_error_keep_alive_ (v : bool) (s : Tx) : Tx := ltac:(record_update eta error_keep_alive_ s v).
Definition set_backend_keep_alive_ (v : bool) (s : Tx) : Tx := ltac:(record_update eta backend_keep_alive_ s v).
Definition set_connecting_ (v : bool) (s : Tx) : Tx := ltac:(record_update eta connecting_ s v).
Definition set_completed_ (v : bool) (s : Tx) : Tx := ltac:(record_update eta completed_ s v).
Definition set_client_operations_pending_ (v : nat) (s : Tx) : Tx := ltac:(record_update eta client_operations_pending_ s v).
Definition set_backend_operations_pending_ (v : nat) (s : Tx) : Tx := ltac:(record_update eta backend_operations_pending_ s v).
Definition set_status_ (v : Z) (s : Tx) : Tx := ltac:(record_update eta status_ s v).
Definition set_response_bytes_ (v : Z) (s : Tx) : Tx := ltac:(record_update eta response_bytes_ s v).
Definition set_client_parser_done (v : bool) (s : Tx) : Tx := ltac:(record_update eta client_parser_done s v).
Definition set_body_more (v : bool) (s : Tx) : Tx := ltac:(record_update eta body_more s v).
Definition set_started (v : bool) (s : Tx) : Tx := ltac:(record_update eta started s v).
Definition set_acquiring (v : bool) (s : Tx) : Tx := ltac:(record_update eta acquiring s v).
Definition set_waiting (v : nat) (s : Tx) : Tx := ltac:(record_update eta waiting s v).
Definition set_resolving (v : bool) (s : Tx) : Tx := ltac:(record_update eta resolving s v).
Definition set_c_write (v : option client_write) (s : Tx) : Tx := ltac:(record_update eta c_write s v).
Definition set_c_read (v : option client_read) (s : Tx) : Tx := ltac:(record_update eta c_read s v).
Definition set_b_write (v : option backend_write) (s : Tx) : Tx := ltac:(record_update eta b_write s v).
Definition set_b_read (v : option backend_read) (s : Tx) : Tx := ltac:(record_update eta b_read s v).
Definition set_header_writes (v : nat) (s : Tx) : Tx := ltac:(record_update eta header_writes s v).
Definition set_log (v : list log_entry) (s : Tx) : Tx := ltac:(record_update eta log s v).
Definition set_tape (v : list bool) (s : Tx) : Tx := ltac:(record_update eta tape s v).

Inductive outcome := Done (s : Tx) | Threw (s : Tx) | Undefined.

Definition seq (m k : Tx -> outcome) (s : Tx) : outcome :=
  match m s with Done s' => k s' | Threw s' => Threw s' | Undefined => Undefined end.
Notation "m ;; k" := (seq m k) (at level 100, right associativity) : tx_scope.
Notation "'UPD' f" := (fun s => Done (f s)) (at level 60) : tx_scope.
Notation "'WHEN' c 'THEN' m 'ELSE' k" := (fun s => if c s then m s else k s) (at level 99, c at level 60, m at level 99, k at level 99) : tx_scope.
Open Scope tx_scope.

Definition skip : Tx -> outcome := Done.

(** A dereference. *)
Definition deref (present : Tx -> bool) (s : Tx) : outcome := if present s then Done s else Undefined.

(** A statement that allocates: the next entry of the tape says whether it throws. *)
Definition pop (s : Tx) : bool * Tx :=
  match tape s with [] => (false, s) | t :: r => (t, set_tape r s) end.
Definition may_throw (s : Tx) : outcome := let '(t, s) := pop s in if t then Threw s else Done s.

Definition is_set {A} (o : option A) : bool := match o with Some _ => true | None => false end.
Definition note (e : log_entry) (s : Tx) : Tx := set_log (log s ++ [e]) s.

(** ** Operations *)

Section ProxyTransaction.
Context {F : Type} `{BeastFields F}.
Context (backend : BackendConfig) (settings : RuntimeSettings) (overload : BackendOverloadConfig).
Context (client_ip scheme request_id : str) (request : F).

(** [beast::websocket::is_upgrade(request_)], [request_.keep_alive()] and
    whether the client's parser has the whole request at construction. *)
Context (websocket_ keep_alive0 parser_done0 : bool).

Definition keep_alive_enabled : bool := backend_keep_alive settings && be_keep_alive backend.
Definition expect_continue_ : bool := iequals (first_value b!"Expect" request) b!"100-continue".
Definition prepared : F := prepare_request backend client_ip scheme request_id websocket_ keep_alive_enabled request.
Definition request_chunked : bool := chunked prepared.
Definition is_https : bool := match be_protocol backend with backend_https => true | backend_http => false end.

(** The constructor. *)
Definition initial : Tx :=
  MkTx false false false true false None false false false false false None keep_alive0 false false false false
    false false false false false false false false false 0 0 0 0
    parser_done0 false false false 0 false None None None None 0 [] [].

Definition maybe_release_closed_backend (s : Tx) : Tx :=
  if backend_close_requested_ s && (backend_operations_pending_ s =? 0)%nat
  then set_backend_stream_ false s else s.

(** Asynchronous initiations: they may throw, and a stream takes one reader
    and one writer. *)
Definition initiate_client_write (w : client_write) : Tx -> outcome :=
  may_throw ;; WHEN (fun s => is_set (c_write s)) THEN (fun _ => Undefined) ELSE UPD (set_c_write (Some w)).
Definition initiate_client_read (r : client_read) : Tx -> outcome :=
  may_throw ;; WHEN (fun s => is_set (c_read s)) THEN (fun _ => Undefined) ELSE UPD (set_c_read (Some r)).
Definition initiate_backend_write (w : backend_write) : Tx -> outcome :=
  deref backend_stream_ ;; may_throw ;;
  WHEN (fun s => is_set (b_write s)) THEN (fun _ => Undefined) ELSE UPD (set_b_write (Some w)).
Definition initiate_backend_read (r : backend_read) : Tx -> outcome :=
  deref backend_stream_ ;; may_throw ;;
  WHEN (fun s => is_set (b_read s)) THEN (fun _ => Undefined) ELSE UPD (set_b_read (Some r)).

Definition start_backend_operation (initiation : Tx -> outcome) (s : Tx) : outcome :=
  match initiation (set_backend_operations_pending_ (S (backend_operations_pending_ s)) s) with
  | Threw s' => Threw (set_backend_operations_pending_ (pred (backend_operations_pending_ s')) s')
  | r => r
  end.

Definition finish_backend_operation (s : Tx) : Tx :=
  maybe_release_closed_backend (set_backend_operations_pending_ (pred (backend_operations_pending_ s)) s).

Definition start_client_operation (initiation : Tx -> outcome) (s : Tx) : outcome :=
  match initiation (set_client_operations_pending_ (S (client_operations_pending_ s)) s) with
  | Threw s' => Threw (set_client_operations_pending_ (pred (client_operations_pending_ s')) s')
  | r => r
  end.

Definition finish_client_operation (s : Tx) : Tx :=
  set_client_operations_pending_ (pred (client_operations_pending_ s)) s.

(** [expire_backend_after], [expire_backend_never] and the other uses of
    [with_backend] that start nothing. *)
Definition expire_backend : Tx -> outcome := deref backend_stream_.

Definition close_backend (s : Tx) : Tx :=
  if negb (backend_stream_ s) then s
  else maybe_release_closed_backend (set_backend_close_requested_ true s).

Definition finish (status bytes : Z) (keep_alive : bool) (s : Tx) : Tx :=
  if completed_ s then s else
  let s := set_connecting_ false (set_completed_ true s) in
  let s := set_permit_ false (set_pending_acquire_ false s) in
  if completion_ s then note (completion status bytes keep_alive) (set_completion_ false s) else s.

Definition maybe_finish_deferred (s : Tx) : Tx :=
  match deferred_finish_ s with
  | None => s
  | Some deferred =>
      if negb (client_operations_pending_ s =? 0)%nat || negb (backend_operations_pending_ s =? 0)%nat then s
      else finish (df_status deferred) (df_bytes deferred) (df_keep_alive deferred)
             (set_deferred_finish_ None (maybe_release_closed_backend s))
  end.

Definition finish_when_io_quiesced (status bytes : Z) (keep_alive : bool) (s : Tx) : Tx :=
  if completed_ s then s else
  let s := set_deferred_finish_ (Some {| df_status := status; df_bytes := bytes; df_keep_alive := keep_alive |}) s in
  let s := if negb (client_operations_pending_ s =? 0)%nat && negb (client_cancel_requested_ s)
           then set_client_cancel_requested_ true s else s in
  maybe_finish_deferred s.

(** [if (failure_) failure_(error);] *)
Definition call_failure (error : error_code) : Tx -> outcome := may_throw ;; UPD (note (failure error)).

Definition send_error (status : Z) (body : str) : Tx -> outcome :=
  UPD close_backend ;;
  UPD (set_status_ status) ;;
  may_throw ;;
  UPD (fun s => set_error_keep_alive_
    (client_keep_alive_ s && client_parser_done s &&
     negb (status =? 400) && negb (status =? 413) && negb (status =? 408)) s) ;;
  UPD (fun s => note (error_response status
    (if status =? 503 then Some (ov_queue_timeout_seconds overload) else None) (error_keep_alive_ s) body) s) ;;
  UPD (set_response_bytes_ (Z.of_nat (length body))) ;;
  start_client_operation (initiate_client_write cw_error).

Definition is_timeout (error : error_code) : bool := bool_decide (error = err_timeout).

Definition fail (error : error_code) : Tx -> outcome :=
  WHEN completed_ THEN skip ELSE
  (UPD (set_connecting_ false) ;;
   call_failure error ;;
   send_error (if is_timeout error then 504 else 502)
              (if is_timeout error then b!"Gateway Timeout" else b!"Bad Gateway")).

Definition fail_after_header (error : error_code) : Tx -> outcome :=
  WHEN completed_ THEN skip ELSE
  (call_failure error ;;
   UPD close_backend ;;
   UPD (fun s => finish_when_io_quiesced (if status_ s =? 0 then 502 else status_ s) (response_bytes_ s) false s)).

Definition finish_tunnel (error : error_code) : Tx -> outcome :=
  WHEN completed_ THEN skip ELSE
  ((if negb (bool_decide (error = err_eof)) && negb (bool_decide (error = operation_aborted))
    then call_failure error else skip) ;;
   UPD close_backend ;;
   UPD (fun s => finish_when_io_quiesced 101 (response_bytes_ s) false s)).

Definition abort_from_exception_noexcept (s : Tx) : outcome :=
  let completion_already_started := completed_ s in
  (UPD (set_connecting_ false) ;;
   UPD close_backend ;;
   WHEN (fun _ => completion_already_started) THEN skip
   ELSE (UPD (fun s => maybe_finish_deferred (set_client_cancel_requested_ true (set_deferred_finish_
           (Some {| df_status := if status_ s =? 0 then 500 else status_ s;
                    df_bytes := response_bytes_ s; df_keep_alive := false |}) s))))) s.

(** *** Connecting *)

Definition start_on_executor : Tx -> outcome :=
  may_throw ;; UPD (fun s => set_acquiring true (set_pending_acquire_ true s)).

Definition cancel_on_executor : Tx -> outcome :=
  WHEN completed_ THEN skip ELSE
  (UPD (set_connecting_ false) ;;
   UPD close_backend ;;
   UPD (fun s => finish_when_io_quiesced (if status_ s =? 0 then 499 else status_ s) (response_bytes_ s) false s)).

Definition write_request_header : Tx -> outcome :=
  UPD (set_request_serializer_ true) ;;
  expire_backend ;;
  UPD (fun s => set_header_writes (S (header_writes s)) s) ;;
  start_backend_operation (initiate_backend_write bw_header).

Definition connect_backend (o : Obs) : Tx -> outcome :=
  UPD (set_backend_from_pool_ false) ;;
  UPD (set_backend_close_requested_ false) ;;
  may_throw ;;
  UPD (set_backend_stream_ true) ;;
  WHEN (fun _ => is_https && negb (o_sni_ok o)) THEN fail err_other ELSE
  (UPD (set_connecting_ true) ;;
   may_throw ;; UPD (fun s => set_waiting (S (waiting s)) s) ;;
   may_throw ;; UPD (set_resolving true)).

Definition on_backend_permit (result : BackendAcquireResult) (o : Obs) : Tx -> outcome :=
  UPD (set_pending_acquire_ false) ;;
  WHEN completed_ THEN skip ELSE
  match result with
  | acquire_queue_timeout => send_error 503 b!"Backend Queue Timeout"
  | acquire_queue_full => send_error 503 b!"Backend Overloaded"
  | acquire_granted =>
      UPD (set_permit_ true) ;;
      fun s =>
      let '(bad_alloc, s) := if websocket_ then (false, s) else pop s in
      if bad_alloc then send_error 503 b!"Insufficient Memory" s else
      (UPD (fun s => if websocket_ then s else set_http_transfer_buffer_ true s) ;;
       may_throw ;;
       UPD (fun s => if keep_alive_enabled && negb websocket_ && o_pooled o
                     then set_backend_from_pool_ true (set_backend_stream_ true (set_backend_close_requested_ false s))
                     else s) ;;
       WHEN backend_stream_ THEN write_request_header ELSE connect_backend o) s
  end.

Definition on_connect_timeout (error : option error_code) : Tx -> outcome :=
  WHEN (fun s => is_set error || negb (connecting_ s) || completed_ s) THEN skip ELSE
  (UPD (set_connecting_ false) ;; UPD close_backend ;; fail err_timeout).

Definition on_resolved (error : option error_code) : Tx -> outcome :=
  WHEN (fun s => negb (connecting_ s) || completed_ s) THEN skip ELSE
  match error with
  | Some e => UPD (set_connecting_ false) ;; fail e
  | None => expire_backend ;; start_backend_operation (initiate_backend_write bw_connect)
  end.

(** The test most handlers make before they go on. *)
Definition closing (s : Tx) : bool := is_set (deferred_finish_ s) || backend_close_requested_ s || completed_ s.
Definition finishing (s : Tx) : bool := is_set (deferred_finish_ s) || completed_ s.

Definition on_connect (o : Obs) : Tx -> outcome :=
  UPD finish_backend_operation ;;
  WHEN closing THEN (UPD maybe_finish_deferred) ELSE
  WHEN (fun s => negb (connecting_ s) || completed_ s) THEN skip ELSE
  match o_error o with
  | Some e => fail e
  | None =>
      if is_https then expire_backend ;; start_backend_operation (initiate_backend_write bw_handshake)
      else UPD (set_connecting_ false) ;; write_request_header
  end.

Definition on_tls_handshake (o : Obs) : Tx -> outcome :=
  UPD finish_backend_operation ;;
  WHEN closing THEN (UPD maybe_finish_deferred) ELSE
  WHEN (fun s => negb (connecting_ s) || completed_ s) THEN skip ELSE
  (UPD (set_connecting_ false) ;;
   match o_error o with Some e => fail e | None => write_request_header end).

(** *** Request and response *)

Definition read_request_body_chunk : Tx -> outcome :=
  WHEN (fun s => completed_ s || stop_request_upload_ s) THEN skip ELSE
  (deref http_transfer_buffer_ ;; start_client_operation (initiate_client_read cr_body)).

Definition read_response_header : Tx -> outcome :=
  WHEN (fun s => response_header_started_ s || completed_ s) THEN skip ELSE
  (UPD (set_response_header_started_ true) ;;
   may_throw ;; UPD (set_response_parser_ (Some false)) ;;
   expire_backend ;;
   start_backend_operation (initiate_backend_read br_header)).

Definition send_continue : Tx -> outcome :=
  may_throw ;; start_client_operation (initiate_client_write cw_continue).

Definition read_upgrade_response : Tx -> outcome :=
  may_throw ;; UPD (set_upgrade_parser_ true) ;;
  expire_backend ;;
  start_backend_operation (initiate_backend_read br_upgrade).

Definition on_request_header_written (o : Obs) : Tx -> outcome :=
  UPD finish_backend_operation ;;
  WHEN closing THEN (UPD maybe_finish_deferred) ELSE
  match o_error o with
  | Some e =>
      WHEN (fun s => backend_from_pool_ s && negb (retried_pooled_connection_ s) && (o_transferred o =? 0))
      THEN (UPD (set_retried_pooled_connection_ true) ;; UPD close_backend ;;
            UPD (set_request_serializer_ false) ;; connect_backend o)
      ELSE fail e
  | None =>
      UPD (set_backend_from_pool_ false) ;;
      UPD (set_request_serializer_ false) ;;
      WHEN (fun _ => websocket_) THEN read_upgrade_response ELSE
      WHEN (fun s => negb (client_parser_done s)) THEN
        (WHEN (fun _ => expect_continue_) THEN send_continue
         ELSE (read_response_header ;; read_request_body_chunk))
      ELSE (UPD (set_request_upload_complete_ true) ;; read_response_header)
  end.

Definition on_continue_written (o : Obs) : Tx -> outcome :=
  UPD finish_client_operation ;;
  WHEN finishing THEN (UPD maybe_finish_deferred) ELSE
  match o_error o with
  | Some e => fail e
  | None => read_response_header ;; read_request_body_chunk
  end.

Definition finish_request_body : Tx -> outcome :=
  WHEN (fun s => completed_ s || stop_request_upload_ s) THEN skip ELSE
  WHEN (fun _ => negb request_chunked) THEN (UPD (set_request_upload_complete_ true)) ELSE
  (expire_backend ;; start_backend_operation (initiate_backend_write bw_last)).

Definition body_error_status (e : error_code) : Z :=
  match e with body_limit => 413 | err_timeout => 408 | _ => 400 end.
Definition body_error_text (e : error_code) : str :=
  match e with
  | body_limit => b!"Payload Too Large" | err_timeout => b!"Request Timeout" | _ => b!"Invalid Request Body"
  end.

(** [error && error != http::error::need_buffer] *)
Definition hard_error (e : option error_code) : option error_code :=
  match e with Some need_buffer | None => None | Some e => Some e end.

Definition produced (o : Obs) : Z := u64 (http_transfer_chunk_size - o_body_left o).

Definition on_request_body_read (o : Obs) : Tx -> outcome :=
  UPD finish_client_operation ;;
  WHEN (fun s => is_set (deferred_finish_ s)) THEN (UPD maybe_finish_deferred) ELSE
  WHEN (fun s => completed_ s || stop_request_upload_ s) THEN skip ELSE
  match hard_error (o_error o) with
  | Some e => send_error (body_error_status e) (body_error_text e)
  | None =>
      deref http_transfer_buffer_ ;;
      UPD (fun s => set_request_body_done_ (client_parser_done s) s) ;;
      WHEN (fun _ => produced o =? 0) THEN
        (WHEN request_body_done_ THEN finish_request_body ELSE read_request_body_chunk)
      ELSE (expire_backend ;; start_backend_operation (initiate_backend_write bw_body))
  end.

Definition on_request_body_written (o : Obs) : Tx -> outcome :=
  UPD finish_backend_operation ;;
  WHEN (fun s => is_set (deferred_finish_ s)) THEN (UPD maybe_finish_deferred) ELSE
  WHEN (fun s => completed_ s || stop_request_upload_ s) THEN skip ELSE
  match o_error o with
  | Some e => fail e
  | None => WHEN request_body_done_ THEN finish_request_body ELSE read_request_body_chunk
  end.

Definition on_request_body_finished (o : Obs) : Tx -> outcome :=
  UPD finish_backend_operation ;;
  WHEN (fun s => is_set (deferred_finish_ s)) THEN (UPD maybe_finish_deferred) ELSE
  WHEN (fun s => completed_ s || stop_request_upload_ s) THEN skip ELSE
  match o_error o with
  | Some e => fail e
  | None => UPD (set_request_upload_complete_ true)
  end.

Definition parser_is_done (s : Tx) : bool := default false (response_parser_ s).

(** The end of [on_response_header], once the response is to be forwarded. *)
Definition forward_response_header (o : Obs) : Tx -> outcome :=
  UPD (set_status_ (o_result_int o)) ;;
  UPD (fun s => set_backend_keep_alive_ (o_keep_alive o && negb (early_backend_response_ s)) s) ;;
  may_throw ;;
  UPD (fun s => set_response_serializer_ true (set_body_more (negb (parser_is_done s)) s)) ;;
  start_client_operation (initiate_client_write cw_header).

Definition on_response_header (o : Obs) : Tx -> outcome :=
  UPD finish_backend_operation ;;
  WHEN (fun s => backend_close_requested_ s || completed_ s) THEN (UPD maybe_finish_deferred) ELSE
  match o_error o with
  | Some e => fail e
  | None =>
      deref (fun s => is_set (response_parser_ s)) ;;
      if (100 <=? o_result_int o) && (o_result_int o <? 200) && negb (o_result_int o =? 101) then
        UPD (set_response_parser_ None) ;; UPD (set_response_header_started_ false) ;; read_response_header
      else if o_result_int o =? 101 then send_error 502 b!"Unexpected protocol upgrade"
      else
        UPD (fun s => set_early_backend_response_ (negb (request_upload_complete_ s)) s) ;;
        UPD (fun s => set_stop_request_upload_ (early_backend_response_ s) s) ;;
        UPD (fun s => if early_backend_response_ s then set_client_keep_alive_ false s else s) ;;
        fun s =>
        let '(bad_alloc, s) := if early_backend_response_ s && negb (parser_is_done s) then pop s else (false, s) in
        if bad_alloc then send_error 503 b!"Insufficient Memory" s else
        (UPD (fun s => if early_backend_response_ s && negb (parser_is_done s)
                       then set_response_transfer_buffer_ true s else s) ;;
         forward_response_header o) s
  end.

Definition transfer_buffer (s : Tx) : bool := response_transfer_buffer_ s || http_transfer_buffer_ s.

Definition read_body_chunk : Tx -> outcome :=
  deref transfer_buffer ;;
  deref (fun s => is_set (response_parser_ s)) ;;
  expire_backend ;;
  start_backend_operation (initiate_backend_read br_body).

Definition finish_normal (o : Obs) : Tx -> outcome :=
  WHEN (fun s => early_backend_response_ s || negb (request_upload_complete_ s)) THEN
    (UPD close_backend ;; UPD (fun s => finish_when_io_quiesced (status_ s) (response_bytes_ s) false s))
  ELSE
  ((WHEN (fun s => keep_alive_enabled && backend_keep_alive_ s && backend_stream_ s && o_socket_open o) THEN
      (expire_backend ;; may_throw ;;
       UPD (fun s => note (pool_release (backend_pool_key backend prepared) (backend_operations_pending_ s)
                             (parser_is_done s) (request_upload_complete_ s)) s) ;;
       UPD (set_backend_stream_ false))
    ELSE (UPD close_backend)) ;;
   UPD (fun s => finish (status_ s) (response_bytes_ s) (client_keep_alive_ s) s)).

Definition write_body_chunk : Tx -> outcome :=
  deref response_serializer_ ;; start_client_operation (initiate_client_write cw_body).

Definition on_header_written (o : Obs) : Tx -> outcome :=
  UPD finish_client_operation ;;
  WHEN finishing THEN (UPD maybe_finish_deferred) ELSE
  match o_error o with
  | Some e => fail_after_header e
  | None =>
      deref (fun s => is_set (response_parser_ s)) ;;
      WHEN parser_is_done THEN
        (if o_serializer_done o then finish_normal o else write_body_chunk)
      ELSE read_body_chunk
  end.

Definition on_body_read (o : Obs) : Tx -> outcome :=
  UPD finish_backend_operation ;;
  WHEN (fun s => backend_close_requested_ s || completed_ s) THEN (UPD maybe_finish_deferred) ELSE
  match hard_error (o_error o) with
  | Some e => fail_after_header e
  | None =>
      deref transfer_buffer ;;
      deref (fun s => is_set (response_parser_ s)) ;;
      UPD (fun s => set_body_more (negb (parser_is_done s)) s) ;;
      UPD (fun s => set_response_bytes_ (u64 (response_bytes_ s + produced o)) s) ;;
      write_body_chunk
  end.

Definition on_body_written (o : Obs) : Tx -> outcome :=
  UPD finish_client_operation ;;
  WHEN finishing THEN (UPD maybe_finish_deferred) ELSE
  match o_error o with
  | Some need_buffer =>
      deref (fun s => is_set (response_parser_ s)) ;;
      WHEN (fun s => parser_is_done s && o_serializer_done o) THEN finish_normal o ELSE read_body_chunk
  | Some e => fail_after_header e
  | None => if o_serializer_done o then finish_normal o else write_body_chunk
  end.

Definition on_error_written (o : Obs) : Tx -> outcome :=
  UPD finish_client_operation ;;
  WHEN finishing THEN (UPD maybe_finish_deferred) ELSE
  UPD (fun s => finish_when_io_quiesced (status_ s) (response_bytes_ s)
                  (negb (is_set (o_error o)) && error_keep_alive_ s) s).

(** *** WebSocket tunnel *)

Definition read_from_client : Tx -> outcome :=
  deref tunnel_buffers_ ;; start_client_operation (initiate_client_read cr_tunnel).
Definition read_from_backend : Tx -> outcome :=
  deref tunnel_buffers_ ;; start_backend_operation (initiate_backend_read br_tunnel).
Definition start_tunnel : Tx -> outcome := read_from_client ;; read_from_backend.

Definition flush_backend_buffer (o : Obs) : Tx -> outcome :=
  if o_backend_buffered o then start_client_operation (initiate_client_write cw_flush) else start_tunnel.
Definition flush_client_buffer (o : Obs) : Tx -> outcome :=
  if o_client_buffered o then start_backend_operation (initiate_backend_write bw_flush) else flush_backend_buffer o.

Definition on_upgrade_response (o : Obs) : Tx -> outcome :=
  UPD finish_backend_operation ;;
  WHEN closing THEN (UPD maybe_finish_deferred) ELSE
  match o_error o with
  | Some e => fail e
  | None =>
      deref upgrade_parser_ ;;
      if negb (o_result_int o =? 101) then send_error 502 b!"WebSocket backend rejected upgrade"
      else fun s =>
        let '(bad_alloc, s) := pop s in
        if bad_alloc then send_error 503 b!"Insufficient Memory" s else
        (UPD (set_tunnel_buffers_ true) ;;
         UPD (set_status_ 101) ;;
         may_throw ;;
         expire_backend ;;
         start_client_operation (initiate_client_write cw_upgrade)) s
  end.

Definition on_upgrade_written (o : Obs) : Tx -> outcome :=
  UPD finish_client_operation ;;
  WHEN finishing THEN (UPD maybe_finish_deferred) ELSE
  match o_error o with Some e => fail e | None => flush_client_buffer o end.

Definition on_client_buffer_flushed (o : Obs) : Tx -> outcome :=
  UPD finish_backend_operation ;;
  WHEN closing THEN (UPD maybe_finish_deferred) ELSE
  match o_error o with Some e => fail e | None => flush_backend_buffer o end.

Definition on_backend_buffer_flushed (o : Obs) : Tx -> outcome :=
  UPD finish_client_operation ;;
  WHEN finishing THEN (UPD maybe_finish_deferred) ELSE
  match o_error o with Some e => fail e | None => start_tunnel end.

Definition on_client_tunnel_read (o : Obs) : Tx -> outcome :=
  UPD finish_client_operation ;;
  WHEN finishing THEN (UPD maybe_finish_deferred) ELSE
  match o_error o with
  | Some e => finish_tunnel e
  | None => deref tunnel_buffers_ ;; start_backend_operation (initiate_backend_write bw_tunnel)
  end.

Definition on_backend_tunnel_written (o : Obs) : Tx -> outcome :=
  UPD finish_backend_operation ;;
  WHEN closing THEN (UPD maybe_finish_deferred) ELSE
  match o_error o with
  | Some e => finish_tunnel e
  | None => UPD (fun s => set_response_bytes_ (u64 (response_bytes_ s + o_transferred o)) s) ;; read_from_client
  end.

Definition on_backend_tunnel_read (o : Obs) : Tx -> outcome :=
  UPD finish_backend_operation ;;
  WHEN closing THEN (UPD maybe_finish_deferred) ELSE
  match o_error o with
  | Some e => finish_tunnel e
  | None => deref tunnel_buffers_ ;; start_client_operation (initiate_client_write cw_tunnel)
  end.

Definition on_client_tunnel_written (o : Obs) : Tx -> outcome :=
  UPD finish_client_operation ;;
  WHEN finishing THEN (UPD maybe_finish_deferred) ELSE
  match o_error o with
  | Some e => finish_tunnel e
  | None => UPD (fun s => set_response_bytes_ (u64 (response_bytes_ s + o_transferred o)) s) ;; read_from_backend
  end.

(** ** Events *)

(** [ev_start] and [ev_cancel] are the dispatched bodies of [start()] and
    [cancel()]; [ev_dispatch_failed] is a dispatch that throws. *)
Inductive event :=
| ev_start
| ev_cancel
| ev_dispatch_failed
| ev_permit (result : BackendAcquireResult) (o : Obs)
| ev_timer (error : option error_code)
| ev_resolved (error : option error_code)
| ev_client_write (o : Obs)
| ev_client_read (o : Obs)
| ev_backend_write (o : Obs)
| ev_backend_read (o : Obs).

(** Only an outstanding operation completes; a serializer is not done while
    [body().more] announces another buffer. *)
Definition enabled (e : event) (s : Tx) : bool :=
  match e with
  | ev_start => negb (started s)
  | ev_cancel | ev_dispatch_failed => true
  | ev_permit _ _ => acquiring s
  | ev_timer _ => negb (waiting s =? 0)%nat
  | ev_resolved _ => resolving s
  | ev_client_write o => is_set (c_write s) && negb (o_serializer_done o && body_more s)
  | ev_client_read _ => is_set (c_read s)
  | ev_backend_write _ => is_set (b_write s)
  | ev_backend_read _ => is_set (b_read s)
  end.

Definition client_write_handler (w : client_write) : Obs -> Tx -> outcome :=
  match w with
  | cw_continue => on_continue_written
  | cw_header => on_header_written
  | cw_body => on_body_written
  | cw_upgrade => on_upgrade_written
  | cw_flush => on_backend_buffer_flushed
  | cw_tunnel => on_client_tunnel_written
  | cw_error => on_error_written
  end.
Definition client_read_handler (r : client_read) : Obs -> Tx -> outcome :=
  match r with cr_body => on_request_body_read | cr_tunnel => on_client_tunnel_read end.
Definition backend_write_handler (w : backend_write) : Obs -> Tx -> outcome :=
  match w with
  | bw_connect => on_connect
  | bw_handshake => on_tls_handshake
  | bw_header => on_request_header_written
  | bw_body => on_request_body_written
  | bw_last => on_request_body_finished
  | bw_flush => on_client_buffer_flushed
  | bw_tunnel => on_backend_tunnel_written
  end.
Definition backend_read_handler (r : backend_read) : Obs -> Tx -> outcome :=
  match r with
  | br_header => on_response_header
  | br_body => on_body_read
  | br_upgrade => on_upgrade_response
  | br_tunnel => on_backend_tunnel_read
  end.

(** The completed operation leaves its slot; a read through a parser changes
    [is_done()]. *)
Definition handler (e : event) (s : Tx) : outcome :=
  match e with
  | ev_start => start_on_executor (set_started true s)
  | ev_cancel => cancel_on_executor s
  | ev_dispatch_failed => abort_from_exception_noexcept s
  | ev_permit r o => on_backend_permit r o (set_acquiring false s)
  | ev_timer error => on_connect_timeout error (set_waiting (pred (waiting s)) s)
  | ev_resolved error => on_resolved error (set_resolving false s)
  | ev_client_write o =>
      match c_write s with Some w => client_write_handler w o (set_c_write None s) | None => Done s end
  | ev_client_read o =>
      match c_read s with
      | Some cr_body => client_read_handler cr_body o (set_c_read None (set_client_parser_done (o_parser_done o) s))
      | Some r => client_read_handler r o (set_c_read None s)
      | None => Done s
      end
  | ev_backend_write o =>
      match b_write s with Some w => backend_write_handler w o (set_b_write None s) | None => Done s end
  | ev_backend_read o =>
      match b_read s with
      | Some r => backend_read_handler r o (set_b_read None
                    (match r, response_parser_ s with
                     | (br_header | br_body), Some _ => set_response_parser_ (Some (o_parser_done o)) s
                     | _, _ => s
                     end))
      | None => Done s
      end
  end.

(** [guarded_handler]: one event, with the exceptions its handler meets. *)
Definition step (e : event) (throws : list bool) (s : Tx) : outcome :=
  match handler e (set_tape throws s) with
  | Threw s' => abort_from_exception_noexcept s'
  | r => r
  end.

(** A run; [None] when an event is not enabled. *)
Fixpoint run (es : list (event * list bool)) (s : Tx) : option outcome :=
  match es with
  | [] => Some (Done s)
  | (e, throws) :: rest =>
      if enabled e s then
        match step e throws s with Done s' => run rest s' | r => Some r end
      else None
  end.

Inductive reachable : Tx -> Prop :=
| reach_initial : reachable initial
| reach_step s e throws s' : reachable s -> enabled e s = true -> step e throws s = Done s' -> reachable s'.

(** ** The invariant *)

(** A request whose body is still to come and is streamed to the backend. *)
Definition streamed : bool := negb websocket_ && negb parser_done0.

Definition occupied {A} (o : option A) : nat := if is_set o then 1 else 0.
Definition idle (s : Tx) : Prop := c_write s = None /\ c_read s = None /\ b_write s = None /\ b_read s = None.
Definition is_completion (e : log_entry) : bool := match e with completion _ _ _ => true | _ => false end.

(** A connection is handed to the pool with nothing outstanding on it, its
    response read to the end and its request sent to the end. *)
Definition clean (e : log_entry) : Prop :=
  match e with
  | pool_release _ pending response_done upload_complete => pending = 0%nat /\ response_done = true /\ upload_complete = true
  | _ => True
  end.

(** What holds at every statement of every handler, also when one throws. *)
Definition wf (s : Tx) : Prop :=
  client_operations_pending_ s = (occupied (c_write s) + occupied (c_read s))%nat /\
  backend_operations_pending_ s = (occupied (b_write s) + occupied (b_read s))%nat /\
  (backend_stream_ s = false -> b_write s = None /\ b_read s = None) /\
  (acquiring s = true -> idle s) /\
  (started s = false -> idle s) /\
  (completed_ s = true -> idle s /\ permit_ s = false /\ backend_stream_ s = false /\
                          deferred_finish_ s = None /\ connecting_ s = false) /\
  completion_ s = negb (completed_ s) /\
  length (filter (fun e => is_completion e = true) (log s)) = (if completed_ s then 1 else 0)%nat /\
  Forall clean (log s) /\
  (header_writes s <= 1 + (if retried_pooled_connection_ s then 1 else 0))%nat /\
  (streamed = false -> c_read s <> Some cr_body /\ (websocket_ = false -> client_parser_done s = true)).

(** A finish is deferred: the backend is closed and operations are awaited. *)
Definition quiescing (s : Tx) : Prop :=
  is_set (deferred_finish_ s) = true /\ started s = true /\ acquiring s = false /\ connecting_ s = false /\
  (backend_stream_ s = true -> backend_close_requested_ s = true) /\
  (client_operations_pending_ s + backend_operations_pending_ s <> 0)%nat.

Definition has_transfer_buffer (s : Tx) : Prop := websocket_ || http_transfer_buffer_ s = true.
Definition backend_open (s : Tx) : Prop := backend_stream_ s = true /\ backend_close_requested_ s = false.

(** The upload beside the response: what is outstanding for it. *)
Inductive upload (s : Tx) : Prop :=
| up_none : c_read s = None -> b_write s = None -> upload s
| up_read : c_read s = Some cr_body -> b_write s = None -> streamed = true -> upload s
| up_write : c_read s = None -> b_write s = Some bw_body -> streamed = true -> upload s
| up_last : c_read s = None -> b_write s = Some bw_last -> streamed = true -> upload s.

(** The states in which the transaction is under way and no finish is deferred. *)
Inductive active (s : Tx) : Prop :=
| ph_new :
    started s = false -> acquiring s = false -> connecting_ s = false -> idle s -> backend_stream_ s = false ->
    backend_close_requested_ s = false -> header_writes s = 0%nat -> retried_pooled_connection_ s = false ->
    response_header_started_ s = false -> stop_request_upload_ s = false -> request_upload_complete_ s = false -> active s
| ph_acquiring :
    started s = true -> acquiring s = true -> connecting_ s = false -> idle s -> backend_stream_ s = false ->
    backend_close_requested_ s = false -> header_writes s = 0%nat -> retried_pooled_connection_ s = false ->
    response_header_started_ s = false -> stop_request_upload_ s = false -> request_upload_complete_ s = false -> active s
| ph_connecting :
    started s = true -> acquiring s = false -> connecting_ s = true -> backend_open s ->
    c_write s = None -> c_read s = None -> b_read s = None ->
    (b_write s = None /\ resolving s = true \/
     (b_write s = Some bw_connect \/ b_write s = Some bw_handshake) /\ resolving s = false) ->
    header_writes s = (if retried_pooled_connection_ s then 1 else 0)%nat -> has_transfer_buffer s ->
    response_header_started_ s = false -> stop_request_upload_ s = false -> request_upload_complete_ s = false -> active s
| ph_header :
    started s = true -> acquiring s = false -> connecting_ s = false -> backend_open s ->
    c_write s = None -> c_read s = None -> b_read s = None -> b_write s = Some bw_header ->
    header_writes s = S (if retried_pooled_connection_ s then 1 else 0) -> has_transfer_buffer s ->
    response_header_started_ s = false -> stop_request_upload_ s = false -> request_upload_complete_ s = false -> active s
| ph_continue :
    started s = true -> acquiring s = false -> connecting_ s = false -> backend_open s ->
    c_write s = Some cw_continue -> c_read s = None -> b_read s = None -> b_write s = None ->
    http_transfer_buffer_ s = true -> streamed = true ->
    response_header_started_ s = false -> stop_request_upload_ s = false -> request_upload_complete_ s = false -> active s
| ph_response :
    started s = true -> acquiring s = false -> connecting_ s = false -> backend_open s ->
    c_write s = None -> b_read s = Some br_header -> http_transfer_buffer_ s = true ->
    is_set (response_parser_ s) = true -> response_header_started_ s = true -> stop_request_upload_ s = false ->
    upload s -> request_upload_complete_ s = negb (is_set (c_read s) || is_set (b_write s)) -> active s
| ph_relay :
    started s = true -> acquiring s = false -> connecting_ s = false -> backend_open s ->
    ((c_write s = Some cw_header \/ c_write s = Some cw_body) /\ b_read s = None /\
     response_parser_ s = Some (negb (body_more s)) \/
     c_write s = None /\ b_read s = Some br_body) ->
    http_transfer_buffer_ s = true -> is_set (response_parser_ s) = true -> response_serializer_ s = true ->
    early_backend_response_ s = stop_request_upload_ s -> upload s ->
    (stop_request_upload_ s = false -> request_upload_complete_ s = true /\ c_read s = None /\ b_write s = None) ->
    active s
| ph_upgrade :
    started s = true -> acquiring s = false -> connecting_ s = false -> backend_open s ->
    (c_write s = None /\ b_write s = None /\ b_read s = Some br_upgrade /\ upgrade_parser_ s = true \/
     tunnel_buffers_ s = true /\
     (c_write s = Some cw_upgrade /\ b_write s = None /\ b_read s = None \/
      c_write s = None /\ b_write s = Some bw_flush /\ b_read s = None \/
      c_write s = Some cw_flush /\ b_write s = None /\ b_read s = None)) ->
    c_read s = None -> active s
| ph_tunnel :
    started s = true -> acquiring s = false -> connecting_ s = false -> backend_open s -> tunnel_buffers_ s = true ->
    (c_read s = Some cr_tunnel /\ b_write s = None \/ c_read s = None /\ b_write s = Some bw_tunnel) ->
    (b_read s = Some br_tunnel /\ c_write s = None \/ b_read s = None /\ c_write s = Some cw_tunnel) -> active s
| ph_error :
    started s = true -> acquiring s = false -> connecting_ s = false -> c_write s = Some cw_error ->
    (backend_stream_ s = true -> backend_close_requested_ s = true) ->
    (c_read s = None \/ c_read s = Some cr_body /\ streamed = true) ->
    (b_write s = None \/ b_write s = Some bw_connect \/ b_write s = Some bw_handshake \/
     (b_write s = Some bw_body \/ b_write s = Some bw_last) /\ streamed = true) ->
    (b_read s = None \/ b_read s = Some br_header) -> active s.

Definition Inv (s : Tx) : Prop :=
  wf s /\ (completed_ s = true \/ completed_ s = false /\ quiescing s \/
           completed_ s = false /\ deferred_finish_ s = None /\ active s).

Ltac destruct_wf Hwf :=
  destruct Hwf as (Wcp & Wbp & Wst & Wacq & Wnew & Wcomp & Wcb & Wlog & Wclean & Whw & Wstr).
Ltac split_wf := unfold wf; split_and!.
Ltac split_disj := repeat match goal with H : _ \/ _ |- _ => destruct H | H : _ /\ _ |- _ => destruct H end.

(** The one state from which an event can lead to undefined behaviour: an error
    response is being written while the upload of a streamed body goes on. *)
Definition hazardous (s : Tx) : Prop := streamed = true /\ c_write s = Some cw_error.

Section Steps.
(** What is known where something undefined happens. *)
Variable U : Prop.

Definition good (r : outcome) : Prop :=
  match r with Done s => Inv s | Threw s => wf s | Undefined => U end.

(** *** Building blocks *)

Definition live (s : Tx) : Prop :=
  completed_ s = true \/ completed_ s = false /\ quiescing s \/
  completed_ s = false /\ deferred_finish_ s = None /\ active s.

Lemma inv_intro s : wf s -> live s -> Inv s.
Proof. by split. Qed.

Lemma good_may_throw (k : Tx -> outcome) s :
  wf s -> (forall t, good (k (set_tape t s))) -> good ((may_throw ;; k) s).
Proof.
  intros Hwf Hk. unfold seq, may_throw, pop. destruct (tape s) as [|[] t] eqn:E.
  - destruct s. cbn in E. subst. apply (Hk []).
  - exact Hwf.
  - apply Hk.
Qed.

Definition running (s : Tx) : Prop := completed_ s = false /\ started s = true /\ acquiring s = false.

(** Starting an operation: the new state only has to be live. *)
Ltac start_op slot s Hslot Hlive :=
  unfold start_client_operation, start_backend_operation, initiate_client_write, initiate_client_read,
    initiate_backend_write, initiate_backend_read, seq, deref, may_throw, pop; cbn;
  try (destruct (backend_stream_ s) eqn:Estream; [cbn|by apply Hslot]);
  destruct (tape s) as [|[] t] eqn:Etape; [|assumption|]; cbn;
  (destruct (slot s) eqn:Eslot; [by apply Hslot|]; cbn; apply inv_intro; [|
     first [by apply Hlive|destruct s; cbn in *; subst; by apply (Hlive [])]]).
Ltac count_op Hwf Eslot :=
  destruct_wf Hwf; split_wf; cbn; try done; try congruence;
  rewrite Eslot in *; cbn in *; lia.

Lemma good_start_client_write w s :
  wf s -> running s -> (is_set (c_write s) = true -> U) ->
  (forall t, c_write s = None ->
     live (set_c_write (Some w) (set_tape t (set_client_operations_pending_ (S (client_operations_pending_ s)) s)))) ->
  good (start_client_operation (initiate_client_write w) s).
Proof. intros Hwf (Hc & Hs & Ha) Hslot Hlive. start_op c_write s Hslot Hlive; count_op Hwf Eslot. Qed.

Lemma good_start_client_read r s :
  wf s -> running s -> (is_set (c_read s) = true -> U) -> (r = cr_body -> streamed = true) ->
  (forall t, c_read s = None ->
     live (set_c_read (Some r) (set_tape t (set_client_operations_pending_ (S (client_operations_pending_ s)) s)))) ->
  good (start_client_operation (initiate_client_read r) s).
Proof.
  intros Hwf (Hc & Hs & Ha) Hslot Hstr Hlive.
  assert (Hbody : streamed = false -> Some r <> Some cr_body) by (intros E1 [= E2]; rewrite Hstr in E1 by auto; done).
  start_op c_read s Hslot Hlive; destruct_wf Hwf; split_wf; cbn; try done; try congruence;
    try (rewrite Eslot in *; cbn in *; lia); intros Hx; (split; [by apply Hbody|by apply Wstr]).
Qed.

Lemma good_start_backend_write w s :
  wf s -> running s -> (backend_stream_ s && negb (is_set (b_write s)) = false -> U) ->
  (forall t, backend_stream_ s = true -> b_write s = None ->
     live (set_b_write (Some w) (set_tape t (set_backend_operations_pending_ (S (backend_operations_pending_ s)) s)))) ->
  good (start_backend_operation (initiate_backend_write w) s).
Proof. intros Hwf (Hc & Hs & Ha) Hslot Hlive. start_op b_write s Hslot Hlive; count_op Hwf Eslot. Qed.

Lemma good_start_backend_read r s :
  wf s -> running s -> (backend_stream_ s && negb (is_set (b_read s)) = false -> U) ->
  (forall t, backend_stream_ s = true -> b_read s = None ->
     live (set_b_read (Some r) (set_tape t (set_backend_operations_pending_ (S (backend_operations_pending_ s)) s)))) ->
  good (start_backend_operation (initiate_backend_read r) s).
Proof. intros Hwf (Hc & Hs & Ha) Hslot Hlive. start_op b_read s Hslot Hlive; count_op Hwf Eslot. Qed.

(** A completed operation leaves its slot and its counter. *)
Lemma wf_finish_client s cw cr :
  wf s -> client_operations_pending_ s <> 0%nat -> (cr = None \/ cr = c_read s) -> (pred (client_operations_pending_ s) = occupied cw + occupied cr)%nat ->
  wf (finish_client_operation (set_c_read cr (set_c_write cw s))).
Proof.
  intros Hwf Hn Hcr Hp. destruct_wf Hwf. assert (Hni : ~ idle s).
  { intros (E1 & E2 & _). rewrite E1, E2 in Wcp. done. }
  split_wf; cbn; try done; intros Hx; [exfalso..|by destruct Hcr as [->| ->]; [split; [|apply Wstr]|apply Wstr]]; apply Hni; first [by apply Wacq|by apply Wnew|by apply Wcomp].
Qed.

Lemma wf_finish_backend s bw br :
  wf s -> backend_operations_pending_ s <> 0%nat -> (pred (backend_operations_pending_ s) = occupied bw + occupied br)%nat ->
  wf (finish_backend_operation (set_b_read br (set_b_write bw s))).
Proof.
  intros Hwf Hn Hp. destruct_wf Hwf. assert (Hni : ~ idle s).
  { intros (_ & _ & E1 & E2). rewrite E1, E2 in Wbp. done. }
  unfold finish_backend_operation, maybe_release_closed_backend. cbn.
  assert (Hs : backend_stream_ s = true) by (destruct (backend_stream_ s) eqn:E; [done|destruct Wst as [E1 E2]; [done|]; by rewrite E1, E2 in Wbp]).
  match goal with |- wf (if ?c then _ else _) => destruct c eqn:Ec end; split_wf; cbn; try done; try exact Hp;
    try (intros Hx; exfalso; apply Hni; first [by apply Wacq|by apply Wnew|by apply Wcomp]); intros Hx; [|congruence].
  apply andb_true_iff in Ec as [_ Ec]. apply Nat.eqb_eq in Ec. rewrite Hp in Ec. destruct bw, br; done.
Qed.

(** Finishing. *)
Lemma wf_not_idle s :
  wf s -> (client_operations_pending_ s + backend_operations_pending_ s <> 0)%nat ->
  started s = true /\ acquiring s = false.
Proof.
  intros Hwf Hn. destruct_wf Hwf. assert (Hni : ~ idle s).
  { intros (E1 & E2 & E3 & E4). rewrite E1, E2 in Wcp. rewrite E3, E4 in Wbp. rewrite Wcp, Wbp in Hn. done. }
  destruct (started s) eqn:E1; [|by destruct Hni; apply Wnew]. destruct (acquiring s) eqn:E2; [|done].
  by destruct Hni; apply Wacq.
Qed.

Lemma wf_idle s :
  wf s -> client_operations_pending_ s = 0%nat -> backend_operations_pending_ s = 0%nat -> idle s.
Proof.
  intros Hwf E1 E2. destruct_wf Hwf. rewrite E1 in Wcp. rewrite E2 in Wbp. unfold idle.
  by destruct (c_write s), (c_read s), (b_write s), (b_read s).
Qed.

Lemma completed_inv status bytes keep_alive s :
  wf s -> idle s -> completed_ s = false -> backend_stream_ s = false -> deferred_finish_ s = None ->
  Inv (finish status bytes keep_alive s).
Proof.
  intros Hwf Hi Hc Hs Hd. unfold finish. rewrite Hc. destruct_wf Hwf. cbn. rewrite Wcb, Hc. cbn.
  apply inv_intro; [|by left]. split_wf; cbn; try done.
  - rewrite filter_app, length_app, Wlog, Hc. done.
  - apply Forall_app. by repeat constructor.
Qed.

Lemma maybe_finish_good s :
  wf s -> completed_ s = false -> is_set (deferred_finish_ s) = true -> connecting_ s = false ->
  (backend_stream_ s = true -> backend_close_requested_ s = true) -> Inv (maybe_finish_deferred s).
Proof.
  intros Hwf Hc Hd Hcn Hs. unfold maybe_finish_deferred.
  destruct (deferred_finish_ s) as [d|] eqn:Ed; [|done].
  case_match eqn:Ep.
  - assert (Hn : (client_operations_pending_ s + backend_operations_pending_ s <> 0)%nat) by (apply orb_true_iff in Ep as [Ep|Ep]; bool_to_prop; lia).
    destruct (wf_not_idle s Hwf Hn). apply inv_intro; [done|]. right; left. split; [done|]. unfold quiescing. by rewrite Ed.
  - bool_to_prop. pose proof (wf_idle s Hwf ltac:(done) ltac:(done)) as Hi.
    unfold maybe_release_closed_backend. destruct (backend_stream_ s) eqn:Es.
    + rewrite Hs, H1 by done. cbn. apply completed_inv; cbn; try done.
      destruct_wf Hwf. split_wf; cbn; try done.
      * intros _. destruct Hi as (_ & _ & ? & ?). done.
      * congruence.
    + assert (E : (if backend_close_requested_ s && (backend_operations_pending_ s =? 0)%nat then set_backend_stream_ false s else s) = s).
      { case_match; [|done]. destruct s. cbn in *. by subst. }
      rewrite E. apply completed_inv; cbn; try done. destruct_wf Hwf. split_wf; cbn; try done. congruence.
Qed.

Lemma finish_quiesced_good status bytes keep_alive s :
  wf s -> completed_ s = false -> connecting_ s = false ->
  (backend_stream_ s = true -> backend_close_requested_ s = true) ->
  Inv (finish_when_io_quiesced status bytes keep_alive s).
Proof.
  intros Hwf Hc Hcn Hs. unfold finish_when_io_quiesced. rewrite Hc. cbn.
  assert (Hwf' : forall d, wf (set_deferred_finish_ (Some d) s)).
  { intros d. destruct_wf Hwf. split_wf; cbn; try done. congruence. }
  match goal with |- Inv (maybe_finish_deferred (if ?c then _ else _)) => destruct c end;
    apply maybe_finish_good; try done; apply Hwf'.
Qed.

Lemma close_backend_good s :
  wf s -> completed_ s = false ->
  wf (close_backend s) /\ (backend_stream_ (close_backend s) = true -> backend_close_requested_ (close_backend s) = true).
Proof.
  intros Hwf Hc. unfold close_backend. destruct (backend_stream_ s) eqn:E; cbn; [|by rewrite E].
  unfold maybe_release_closed_backend. cbn. case_match eqn:Ep; (split; [|done]); [|done].
  apply Nat.eqb_eq in Ep. destruct_wf Hwf. rewrite Ep in Wbp. split_wf; cbn; try done; try congruence.
  intros _. by destruct (b_write s), (b_read s).
Qed.

(** All but two members survive [close_backend]. *)
Lemma close_backend_cases s :
  wf s -> completed_ s = false ->
  exists b c, close_backend s = set_backend_stream_ b (set_backend_close_requested_ c s) /\
    wf (set_backend_stream_ b (set_backend_close_requested_ c s)) /\ (b = true -> c = true).
Proof.
  intros Hwf Hc. destruct (close_backend_good s Hwf Hc) as [Hwf' Hx].
  assert (E : close_backend s = set_backend_stream_ (backend_stream_ (close_backend s))
    (set_backend_close_requested_ (backend_close_requested_ (close_backend s)) s))
    by (unfold close_backend, maybe_release_closed_backend; destruct s; cbn; by repeat case_match).
  eexists _, _. split; [exact E|]. split; [by rewrite <-E|done].
Qed.

Lemma wf_note e s : wf s -> is_completion e = false -> clean e -> wf (note e s).
Proof.
  intros Hwf He Hc. destruct_wf Hwf. split_wf; try done; cbn.
  - rewrite filter_app, length_app, Wlog, filter_cons, decide_False by (by rewrite He). cbn. lia.
  - apply Forall_app. by repeat constructor.
Qed.

(** States from which an error can be sent to the client. *)
Definition stale (s : Tx) : Prop :=
  (c_read s = None \/ c_read s = Some cr_body /\ streamed = true) /\
  (b_write s = None \/ b_write s = Some bw_connect \/ b_write s = Some bw_handshake \/
   (b_write s = Some bw_body \/ b_write s = Some bw_last) /\ streamed = true) /\
  (b_read s = None \/ b_read s = Some br_header).
Definition erroring (s : Tx) : Prop :=
  wf s /\ running s /\ deferred_finish_ s = None /\
  (is_set (c_write s) = true -> U) /\ stale s.

Lemma send_error_good status body s :
  erroring s -> connecting_ s = false -> good (send_error status body s).
Proof.
  intros (Hwf & Hr & Hd & Hw & Hstale) Hcn. unfold send_error, seq at 1.
  destruct (close_backend_cases s Hwf (proj1 Hr)) as (b & c & -> & Hwf' & Hbc).
  apply good_may_throw; [exact Hwf'|intros t]. apply good_start_client_write; [|done|done|].
  - by apply (wf_note (error_response _ _ _ _) _ Hwf').
  - intros t' _. destruct Hr as (? & ? & ?), Hstale as (? & ? & ?). right; right. split; [done|]. split; [done|].
    by apply ph_error.
Qed.
#[local] Arguments send_error : simpl never.

Lemma call_failure_good e (k : Tx -> outcome) s :
  wf s -> (forall t l, wf (set_log l (set_tape t s)) -> good (k (set_log l (set_tape t s)))) ->
  good ((call_failure e ;; k) s).
Proof.
  intros Hwf Hk.
  assert (Hgo : good ((may_throw ;; (fun s => k (note (failure e) s))) s)).
  { apply good_may_throw; [done|intros t]. apply Hk. by apply (wf_note (failure e) (set_tape t s)). }
  unfold call_failure, seq in *. destruct (may_throw s); done.
Qed.

Lemma fail_good e s : erroring s -> good (fail e s).
Proof.
  intros (Hwf & Hr & Hd & Hw & Hstale). unfold fail. rewrite (proj1 Hr).
  assert (Hwf' : wf (set_connecting_ false s)) by (destruct Hr; destruct_wf Hwf; split_wf; try done; cbn; congruence).
  apply (call_failure_good e _ (set_connecting_ false s) Hwf'). intros t l Hwf2. by apply send_error_good.
Qed.
#[local] Arguments fail : simpl never.

Lemma fail_after_header_good e s :
  wf s -> running s -> connecting_ s = false -> good (fail_after_header e s).
Proof.
  intros Hwf Hr Hcn. unfold fail_after_header. rewrite (proj1 Hr).
  apply call_failure_good; [done|]. intros t l Hwf2. unfold seq.
  destruct (close_backend_cases _ Hwf2 (proj1 Hr)) as (b & c & -> & Hwf' & Hbc).
  destruct Hr. by apply finish_quiesced_good.
Qed.

Lemma finish_tunnel_good e s :
  wf s -> running s -> connecting_ s = false -> good (finish_tunnel e s).
Proof.
  intros Hwf Hr Hcn. unfold finish_tunnel. rewrite (proj1 Hr).
  assert (Hgo : forall t l, wf (set_log l (set_tape t s)) -> good ((UPD close_backend ;;
    UPD (fun s => finish_when_io_quiesced 101 (response_bytes_ s) false s)) (set_log l (set_tape t s)))).
  { intros t l Hwf2. unfold seq. destruct (close_backend_cases _ Hwf2 (proj1 Hr)) as (b & c & -> & Hwf' & Hbc).
    destruct Hr. by apply finish_quiesced_good. }
  case_match; [by apply call_failure_good|]. specialize (Hgo (tape s) (log s) Hwf). by destruct s.
Qed.
#[local] Arguments fail_after_header : simpl never.
#[local] Arguments finish_tunnel : simpl never.

Lemma abort_good s : wf s -> exists s', abort_from_exception_noexcept s = Done s' /\ Inv s'.
Proof.
  intros Hwf. unfold abort_from_exception_noexcept, seq, skip.
  destruct (completed_ s) eqn:Hc.
  - eexists; split; [done|]. destruct_wf Hwf. destruct Wcomp as (? & ? & Hs & ? & ?); [done|].
    unfold close_backend. cbn. rewrite Hs. cbn. apply inv_intro; [|by left]. by split_wf.
  - assert (Hwf' : wf (set_connecting_ false s)) by (destruct_wf Hwf; split_wf; try done; cbn; congruence).
    destruct (close_backend_cases _ Hwf' Hc) as (b & c & -> & Hwf2 & Hbc).
    eexists; split; [done|]. apply maybe_finish_good; try done. destruct_wf Hwf2. split_wf; try done. cbn in *. congruence.
Qed.

Lemma initial_ok : Inv initial.
Proof.
  split.
  - unfold wf, idle, streamed. cbn. repeat split; try done; try lia; try constructor.
    destruct websocket_, parser_done0; done.
  - right; right. repeat split. by apply ph_new.
Qed.

(** *** Completion handlers *)

Lemma wf_busy s : wf s -> completed_ s = true -> idle s.
Proof. intros Hwf Hc. destruct_wf Hwf. by apply Wcomp. Qed.

(** While a finish is deferred, a completion only counts down. *)
Lemma quiesced_client s cw cr :
  wf s -> completed_ s = false -> quiescing s -> client_operations_pending_ s <> 0%nat -> (cr = None \/ cr = c_read s) ->
  (pred (client_operations_pending_ s) = occupied cw + occupied cr)%nat ->
  Inv (maybe_finish_deferred (finish_client_operation (set_c_read cr (set_c_write cw s)))).
Proof.
  intros Hwf Hc (Hd & Hs & Ha & Hcn & Hbc & _) Hn Hcr Hp. apply maybe_finish_good; try done. by apply wf_finish_client.
Qed.

Lemma quiesced_backend s bw br :
  wf s -> completed_ s = false -> quiescing s -> backend_operations_pending_ s <> 0%nat ->
  (pred (backend_operations_pending_ s) = occupied bw + occupied br)%nat ->
  Inv (maybe_finish_deferred (finish_backend_operation (set_b_read br (set_b_write bw s)))).
Proof.
  intros Hwf Hc (Hd & Hs & Ha & Hcn & Hbc & _) Hn Hp.
  assert (Hwf' := wf_finish_backend s bw br Hwf Hn Hp).
  apply maybe_finish_good; try done;
    unfold finish_backend_operation, maybe_release_closed_backend; cbn; by case_match.
Qed.

Lemma pending_backend_write s w :
  wf s -> b_write s = Some w ->
  backend_operations_pending_ s <> 0%nat /\ backend_stream_ s = true /\
  (pred (backend_operations_pending_ s) = occupied (@None backend_write) + occupied (b_read s))%nat.
Proof.
  intros Hwf Hw. destruct_wf Hwf. rewrite Hw in *. cbn in Wbp. rewrite Wbp. split; [done|].
  split; [destruct (backend_stream_ s); [done|by destruct Wst as [? ?]]|done].
Qed.

Lemma pending_backend_read s r :
  wf s -> b_read s = Some r ->
  backend_operations_pending_ s <> 0%nat /\ backend_stream_ s = true /\
  (pred (backend_operations_pending_ s) = occupied (b_write s) + occupied (@None backend_read))%nat.
Proof.
  intros Hwf Hw. destruct_wf Hwf. rewrite Hw in *. cbn in Wbp. rewrite Wbp, Nat.add_1_r. split; [done|].
  split; [destruct (backend_stream_ s); [done|by destruct Wst as [? ?]]|]. cbn. lia.
Qed.

Lemma pending_client_write s w :
  wf s -> c_write s = Some w ->
  client_operations_pending_ s <> 0%nat /\
  (pred (client_operations_pending_ s) = occupied (@None client_write) + occupied (c_read s))%nat.
Proof. intros Hwf Hw. destruct_wf Hwf. rewrite Hw in *. cbn in Wcp. by rewrite Wcp. Qed.

Lemma pending_client_read s r :
  wf s -> c_read s = Some r ->
  client_operations_pending_ s <> 0%nat /\
  (pred (client_operations_pending_ s) = occupied (c_write s) + occupied (@None client_read))%nat.
Proof. intros Hwf Hw. destruct_wf Hwf. rewrite Hw in *. cbn in Wcp. rewrite Wcp, Nat.add_1_r. cbn. lia. Qed.

Lemma finish_backend_deferred s : deferred_finish_ (finish_backend_operation s) = deferred_finish_ s.
Proof. unfold finish_backend_operation, maybe_release_closed_backend. by case_match. Qed.
Lemma quiescing_backend s s0 : quiescing s -> deferred_finish_ s0 = deferred_finish_ s ->
  is_set (deferred_finish_ (finish_backend_operation s0)) = true.
Proof. intros (Hd & _) E. by rewrite finish_backend_deferred, E. Qed.
Lemma finish_backend_close s : backend_close_requested_ (finish_backend_operation s) = backend_close_requested_ s.
Proof. unfold finish_backend_operation, maybe_release_closed_backend. by case_match. Qed.

(** The cases of a completion: no operation is outstanding after the
    completion callback, a deferred finish counts down, and an active state is
    left to the caller. *)
Lemma backend_write_cases w (P : Tx -> outcome) s :
  Inv s -> b_write s = Some w ->
  (completed_ s = false -> quiescing s ->
   P (set_b_write None s) = Done (maybe_finish_deferred (finish_backend_operation (set_b_write None s)))) ->
  (completed_ s = false -> deferred_finish_ s = None -> active s -> backend_stream_ s = true ->
   wf (finish_backend_operation (set_b_write None s)) -> good (P (set_b_write None s))) ->
  good (P (set_b_write None s)).
Proof.
  intros [Hwf Hlive] Hw HQ HA. destruct (pending_backend_write s _ Hwf Hw) as (Hn & Hst & Hp).
  destruct Hlive as [Hc|[[Hc Hq]|(Hc & Hd & Ha)]].
  - destruct (wf_busy s Hwf Hc) as (? & ? & ? & ?). congruence.
  - rewrite HQ by done. apply (quiesced_backend s None (b_read s) Hwf Hc Hq Hn Hp).
  - apply HA; try done. apply (wf_finish_backend s None (b_read s) Hwf Hn Hp).
Qed.

Lemma backend_read_cases r (P : Tx -> outcome) s pd :
  Inv s -> b_read s = Some r -> let s0 := set_b_read None (set_response_parser_ pd s) in
  (completed_ s = false -> quiescing s -> backend_close_requested_ s = true ->
   P s0 = Done (maybe_finish_deferred (finish_backend_operation s0))) ->
  (completed_ s = false -> deferred_finish_ s = None -> active s -> backend_stream_ s = true ->
   wf (finish_backend_operation s0) -> good (P s0)) ->
  good (P s0).
Proof.
  intros [Hwf Hlive] Hw s0 HQ HA. destruct (pending_backend_read s _ Hwf Hw) as (Hn & Hst & Hp).
  destruct Hlive as [Hc|[[Hc Hq]|(Hc & Hd & Ha)]].
  - destruct (wf_busy s Hwf Hc) as (? & ? & ? & ?). congruence.
  - rewrite HQ by (try done; by apply Hq).
    apply (quiesced_backend (set_response_parser_ pd s) (b_write s) None Hwf Hc Hq Hn Hp).
  - apply HA; try done. apply (wf_finish_backend (set_response_parser_ pd s) (b_write s) None Hwf Hn Hp).
Qed.

Lemma client_write_cases w (P : Tx -> outcome) s :
  Inv s -> c_write s = Some w ->
  (completed_ s = false -> quiescing s ->
   P (set_c_write None s) = Done (maybe_finish_deferred (finish_client_operation (set_c_write None s)))) ->
  (completed_ s = false -> deferred_finish_ s = None -> active s ->
   wf (finish_client_operation (set_c_write None s)) -> good (P (set_c_write None s))) ->
  good (P (set_c_write None s)).
Proof.
  intros [Hwf Hlive] Hw HQ HA. destruct (pending_client_write s _ Hwf Hw) as (Hn & Hp).
  destruct Hlive as [Hc|[[Hc Hq]|(Hc & Hd & Ha)]].
  - destruct (wf_busy s Hwf Hc) as (? & ? & ? & ?). congruence.
  - rewrite HQ by done. apply (quiesced_client s None (c_read s)); auto.
  - apply HA; try done. apply (wf_finish_client s None (c_read s)); auto.
Qed.

Lemma client_read_cases r (P : Tx -> outcome) s pd :
  Inv s -> c_read s = Some r -> (r = cr_tunnel -> pd = client_parser_done s) ->
  let s0 := set_c_read None (set_client_parser_done pd s) in
  (completed_ s = false -> quiescing s -> P s0 = Done (maybe_finish_deferred (finish_client_operation s0))) ->
  (completed_ s = false -> deferred_finish_ s = None -> active s -> wf (finish_client_operation s0) -> good (P s0)) ->
  good (P s0).
Proof.
  intros [Hwf Hlive] Hw Hpd s0 HQ HA. destruct (pending_client_read s _ Hwf Hw) as (Hn & Hp).
  assert (Hwf' : wf (set_client_parser_done pd s)).
  { destruct_wf Hwf. split_wf; try done. cbn. intros Hx. destruct (Wstr Hx) as [H1 H2]. split; [done|].
    destruct r; [congruence|]. by rewrite Hpd. }
  destruct Hlive as [Hc|[[Hc Hq]|(Hc & Hd & Ha)]].
  - destruct (wf_busy s Hwf Hc) as (? & ? & ? & ?). congruence.
  - rewrite HQ by done. apply (quiesced_client (set_client_parser_done pd s) (c_write s) None); auto.
  - apply HA; try done. apply (wf_finish_client (set_client_parser_done pd s) (c_write s) None); auto.
Qed.

Lemma finish_backend_open s :
  backend_close_requested_ s = false ->
  finish_backend_operation s = set_backend_operations_pending_ (pred (backend_operations_pending_ s)) s.
Proof. intros E. unfold finish_backend_operation, maybe_release_closed_backend. cbn. by rewrite E. Qed.

Lemma finish_backend_cases s :
  exists b n, finish_backend_operation s = set_backend_stream_ b (set_backend_operations_pending_ n s) /\
    (b = true -> backend_stream_ s = true).
Proof.
  unfold finish_backend_operation, maybe_release_closed_backend. case_match.
  - by exists false, (pred (backend_operations_pending_ s)).
  - exists (backend_stream_ s), (pred (backend_operations_pending_ s)). split; [by destruct s|done].
Qed.

(** An operation on the backend that ends while an error is being written. *)
Lemma error_goes_on s :
  wf (finish_backend_operation s) -> running s -> deferred_finish_ s = None -> connecting_ s = false ->
  c_write s = Some cw_error -> (backend_stream_ s = true -> backend_close_requested_ s = true) -> stale s ->
  Inv (maybe_finish_deferred (finish_backend_operation s)).
Proof.
  intros Hwf (Hc & Hs & Ha) Hd Hcn Hw Hb (S1 & S2 & S3). unfold maybe_finish_deferred. rewrite finish_backend_deferred, Hd.
  destruct (finish_backend_cases s) as (b & n & E & Eb). rewrite E in *.
  apply inv_intro; [done|]. right; right. split; [done|]. split; [done|]. apply ph_error; try done. cbn. auto.
Qed.

(** Rule out the phases that do not have the operation outstanding. *)
Ltac active_phase Ha :=
  destruct Ha; try (exfalso; unfold idle in *; split_disj;
    try match goal with H : upload _ |- _ => destruct H end; congruence);
  unfold backend_open in *; destruct_and?.

(** Evaluate the test of a conditional from the members that are known. *)
Ltac known := unfold closing, finishing; cbn; repeat match goal with H : ?a = _ |- context [?a] => rewrite H end; reflexivity.
Ltac ev :=
  cbv beta;
  lazymatch goal with
  | |- good (if ?c then _ else _) =>
      first [replace c with false by (symmetry; known) | replace c with true by (symmetry; known)]
  end.

Lemma good_upd f (k : Tx -> outcome) s : good (k (f s)) -> good ((UPD f ;; k) s).
Proof. done. Qed.
Lemma good_deref p (k : Tx -> outcome) s : p s = true -> good (k s) -> good ((deref p ;; k) s).
Proof. intros E. unfold seq, deref. by rewrite E. Qed.
Ltac upd := apply good_upd; cbv beta.

Ltac rewrite_known := cbn; repeat match goal with H : ?a = _ |- context [?a] => rewrite H end; cbn.
Ltac side := first [assumption | rewrite_known; solve [done | auto 6 | tauto | congruence] | cbn; solve [done | auto 6 | tauto | congruence]].
Ltac sides := unfold running, idle, backend_open, has_transfer_buffer in *; split_and?; side.
Ltac erroring_tac := unfold erroring, running, stale; split_and!; side.

Lemma live_active s : completed_ s = false -> deferred_finish_ s = None -> active s -> live s.
Proof. intros. right; right. auto. Qed.

(** Show that the new state is in the given phase. *)
Ltac to_phase ph := apply live_active; [side|side|apply ph; unfold backend_open, has_transfer_buffer in *; try (split_and?; side)].

Lemma write_request_header_good s :
  wf s -> running s -> deferred_finish_ s = None -> connecting_ s = false -> backend_open s -> idle s -> has_transfer_buffer s ->
  header_writes s = (if retried_pooled_connection_ s then 1 else 0)%nat ->
  response_header_started_ s = false -> stop_request_upload_ s = false -> request_upload_complete_ s = false ->
  good (write_request_header s).
Proof.
  intros Hwf Hr Hd Hcn [Hs Hcl] (H1 & H2 & H3 & H4) Ht Hn He1 He2 He3. unfold write_request_header, seq, expire_backend, deref. cbn.
  rewrite Hs. apply good_start_backend_write; [|done|cbn; by rewrite Hs, H3|].
  - destruct_wf Hwf. split_wf; try done. cbn. lia.
  - intros t _ _. right; right. split; [apply Hr|]. split; [done|]. destruct Hr as (? & ? & ?).
    apply ph_header; try done. cbn. by rewrite Hn.
Qed.
#[local] Arguments write_request_header : simpl never.

Lemma wf_not_connecting s : wf s -> wf (set_connecting_ false s).
Proof. intros Hwf. destruct_wf Hwf. split_wf; try done. cbn. intros Hc. destruct (Wcomp Hc) as (? & ? & ? & ? & ?). auto. Qed.

(** The two outcomes the backend handlers share. *)
Lemma closing_quiesced s s0 : quiescing s -> deferred_finish_ s0 = deferred_finish_ s ->
  closing (finish_backend_operation s0) = true.
Proof. intros Hq E. unfold closing. by rewrite (quiescing_backend s s0 Hq E). Qed.
Lemma closing_error s : backend_close_requested_ s = true -> closing (finish_backend_operation s) = true.
Proof. intros E. unfold closing. by rewrite finish_backend_close, E, orb_true_r. Qed.

Lemma on_connect_good o s :
  Inv s -> b_write s = Some bw_connect -> good (on_connect o (set_b_write None s)).
Proof.
  intros HI Hw. apply (backend_write_cases bw_connect (on_connect o)); [done|done|..].
  - intros Hc Hq. unfold on_connect, seq. by rewrite (closing_quiesced _ _ Hq).
  - intros Hc Hd Ha Hst Hwf1. unfold on_connect. upd. active_phase Ha.
    + destruct H7 as [[? ?]|[? ?]]; [congruence|].
      rewrite finish_backend_open in * by done. ev. ev. destruct (o_error o) as [e|]; [apply fail_good; erroring_tac|].
      destruct is_https.
      * apply good_deref; [side|]. apply good_start_backend_write; [done|by repeat split|side|].
        intros t _ _. to_phase ph_connecting.
      * upd. apply wf_not_connecting in Hwf1. apply write_request_header_good; sides.
    + rewrite closing_error by (cbn; auto). apply error_goes_on; unfold stale; sides.
Qed.

Lemma on_tls_handshake_good o s :
  Inv s -> b_write s = Some bw_handshake -> good (on_tls_handshake o (set_b_write None s)).
Proof.
  intros HI Hw. apply (backend_write_cases bw_handshake (on_tls_handshake o)); [done|done|..].
  - intros Hc Hq. unfold on_tls_handshake, seq. by rewrite (closing_quiesced _ _ Hq).
  - intros Hc Hd Ha Hst Hwf1. unfold on_tls_handshake. upd. active_phase Ha.
    + destruct H7 as [[? ?]|[? ?]]; [congruence|].
      rewrite finish_backend_open in * by done. ev. ev. upd.
      apply wf_not_connecting in Hwf1.
      destruct (o_error o) as [e|]; [apply fail_good; erroring_tac|apply write_request_header_good; sides].
    + rewrite closing_error by (cbn; auto). apply error_goes_on; unfold stale; sides.
Qed.

(** *** Start, permit and connection *)

Lemma wf_serializer b s : wf s -> wf (set_request_serializer_ b s).
Proof. done. Qed.

Lemma connect_backend_good o s :
  wf s -> running s -> deferred_finish_ s = None -> connecting_ s = false -> idle s -> has_transfer_buffer s ->
  header_writes s = (if retried_pooled_connection_ s then 1 else 0)%nat ->
  response_header_started_ s = false -> stop_request_upload_ s = false -> request_upload_complete_ s = false ->
  good (connect_backend o s).
Proof.
  intros Hwf Hr Hd Hcn (H1 & H2 & H3 & H4) Ht Hn He1 He2 He3. unfold connect_backend. upd. upd.
  apply good_may_throw; [done|]. intros t. upd. destruct Hr as (Hc & Hs & Ha).
  assert (Hwf' : forall v t, wf (set_connecting_ v (set_backend_stream_ true (set_tape t (set_backend_close_requested_ false
    (set_backend_from_pool_ false s)))))).
  { intros v t'. destruct_wf Hwf. split_wf; try done; cbn; congruence. }
  destruct (is_https && negb (o_sni_ok o)).
  - apply fail_good. specialize (Hwf' (connecting_ s) t). erroring_tac.
  - upd. apply good_may_throw; [apply Hwf'|]. intros t2. upd. apply good_may_throw; [apply (Hwf' true t2)|]. intros t3.
    apply inv_intro; [apply (Hwf' true t3)|]. to_phase ph_connecting.
Qed.

Lemma start_good s : Inv s -> started s = false -> good (start_on_executor (set_started true s)).
Proof.
  intros [Hwf Hlive] Hs. unfold start_on_executor.
  assert (Hidle : idle s) by (destruct_wf Hwf; by apply Wnew).
  assert (Hwf' : forall t a, wf (set_tape t (set_acquiring a (set_started true s)))).
  { intros t a. destruct_wf Hwf. split_wf; try done. }
  apply good_may_throw; [apply (Hwf' (tape s) (acquiring s))|]. intros t. apply inv_intro; [apply (Hwf' t true)|].
  destruct Hlive as [Hc|[[Hc Hq]|(Hc & Hd & Ha)]]; [by left|destruct Hq as (_ & ? & _); congruence|].
  destruct Ha; try congruence. to_phase ph_acquiring.
Qed.

Lemma permit_granted_good o s :
  wf s -> completed_ s = false -> deferred_finish_ s = None -> started s = true -> acquiring s = false ->
  connecting_ s = false -> idle s -> backend_stream_ s = false -> backend_close_requested_ s = false ->
  header_writes s = (if retried_pooled_connection_ s then 1 else 0)%nat ->
  response_header_started_ s = false -> stop_request_upload_ s = false -> request_upload_complete_ s = false ->
  has_transfer_buffer s ->
  good ((may_throw ;;
       UPD (fun s => if keep_alive_enabled && negb websocket_ && o_pooled o
                     then set_backend_from_pool_ true (set_backend_stream_ true (set_backend_close_requested_ false s))
                     else s) ;;
       WHEN backend_stream_ THEN write_request_header ELSE connect_backend o) s).
Proof.
  intros Hwf Hc Hd Hs Ha Hcn Hi Hst Hcl Hn He1 He2 He3 Ht.
  apply good_may_throw; [done|]. intros t. upd. destruct (keep_alive_enabled && negb websocket_ && o_pooled o).
  - ev. assert (wf (set_backend_from_pool_ true (set_backend_stream_ true (set_backend_close_requested_ false (set_tape t s)))))
      by (destruct_wf Hwf; split_wf; try done; cbn; congruence).
    apply write_request_header_good; sides.
  - ev. apply connect_backend_good; sides.
Qed.

Lemma on_backend_permit_good r o s :
  Inv s -> acquiring s = true -> good (on_backend_permit r o (set_acquiring false s)).
Proof.
  intros [Hwf Hlive] Hacq. unfold on_backend_permit. upd.
  assert (Hwf' : forall p, wf (set_permit_ p (set_pending_acquire_ false (set_acquiring false s))) \/ completed_ s = true).
  { intros p. destruct (completed_ s) eqn:Hc; [by right|left]. destruct_wf Hwf. split_wf; try done. cbn; congruence. }
  destruct Hlive as [Hc|[[Hc Hq]|(Hc & Hd & Ha)]].
  - ev. apply inv_intro; [|by left]. destruct_wf Hwf. by split_wf.
  - destruct Hq as (_ & _ & ? & _). congruence.
  - ev. assert (Hwf2 : forall p, wf (set_permit_ p (set_pending_acquire_ false (set_acquiring false s))))
      by (intros p; destruct (Hwf' p); [done|congruence]). clear Hwf'.
    destruct Ha; try congruence. unfold idle in *; destruct_and?. destruct r; [upd|apply send_error_good; specialize (Hwf2 (permit_ s)); [erroring_tac|done]..].
    assert (Hgo : forall b t, websocket_ || b = true -> good ((may_throw ;;
       UPD (fun s => if keep_alive_enabled && negb websocket_ && o_pooled o
                     then set_backend_from_pool_ true (set_backend_stream_ true (set_backend_close_requested_ false s))
                     else s) ;;
       WHEN backend_stream_ THEN write_request_header ELSE connect_backend o) (set_http_transfer_buffer_ b
         (set_tape t (set_permit_ true (set_pending_acquire_ false (set_acquiring false s))))))).
    { intros b t Hb. specialize (Hwf2 true). apply permit_granted_good; sides. }
    destruct websocket_; [apply (Hgo (http_transfer_buffer_ s) (tape s) eq_refl)|].
    unfold pop. change (tape (set_permit_ true (set_pending_acquire_ false (set_acquiring false s)))) with (tape s).
    destruct (tape s) as [|[] t] eqn:Et; [apply (Hgo true (tape s) eq_refl)| |apply (Hgo true t eq_refl)].
    apply send_error_good; [|done]. specialize (Hwf2 true). erroring_tac.
Qed.

(** Members that no phase of a transaction that is not connecting reads. *)
Lemma inv_neutral s w r t :
  Inv s -> (connecting_ s = true -> r = resolving s) -> Inv (set_waiting w (set_resolving r (set_tape t s))).
Proof.
  intros [Hwf Hlive] Hr. split; [exact Hwf|].
  destruct Hlive as [Hc|[[Hc Hq]|(Hc & Hd & Ha)]]; [by left|by right; left|]. right; right. split; [done|]. split; [done|].
  destruct Ha; [apply ph_new|apply ph_acquiring| |apply ph_header|apply ph_continue|apply ph_response|
    apply ph_relay|apply ph_upgrade|apply ph_tunnel|apply ph_error]; try done;
    try (match goal with H : upload _ |- _ => destruct H end; [by apply up_none|by apply up_read|by apply up_write|by apply up_last]).
  apply ph_connecting; try done. cbn. by rewrite Hr.
Qed.

Lemma connecting_phase s :
  Inv s -> connecting_ s = true ->
  completed_ s = false /\ deferred_finish_ s = None /\ started s = true /\ acquiring s = false /\ backend_open s /\
  c_write s = None /\ c_read s = None /\ b_read s = None /\
  (b_write s = None /\ resolving s = true \/
   (b_write s = Some bw_connect \/ b_write s = Some bw_handshake) /\ resolving s = false) /\
  header_writes s = (if retried_pooled_connection_ s then 1 else 0)%nat /\ has_transfer_buffer s /\
  response_header_started_ s = false /\ stop_request_upload_ s = false /\ request_upload_complete_ s = false.
Proof.
  intros [Hwf Hlive] Hcn. destruct Hlive as [Hc|[[Hc Hq]|(Hc & Hd & Ha)]].
  - destruct_wf Hwf. destruct (Wcomp Hc) as (_ & _ & _ & _ & ?). congruence.
  - destruct Hq as (_ & _ & _ & ? & _). congruence.
  - destruct Ha; try congruence. auto 20.
Qed.

Lemma on_connect_timeout_good e s n : Inv s -> good (on_connect_timeout e (set_waiting n s)).
Proof.
  intros HI. unfold on_connect_timeout. cbn [connecting_ completed_ set_waiting].
  destruct (is_set e); [apply (inv_neutral s n (resolving s) (tape s) HI); auto|].
  destruct (connecting_ s) eqn:Hcn; [|apply (inv_neutral s n (resolving s) (tape s) HI); auto].
  destruct (connecting_phase s HI Hcn) as (Hc & Hd & Hs & Ha & Ho & H1 & H2 & H3 & H4 & _). rewrite Hc. cbn [orb negb].
  destruct HI as [Hwf _]. upd. upd. apply wf_not_connecting in Hwf.
  destruct (close_backend_cases (set_connecting_ false (set_waiting n s)) Hwf Hc) as (b & c & -> & Hwf' & Hbc).
  apply fail_good. destruct H4 as [[? ?]|[[?|?] ?]]; erroring_tac.
Qed.

Lemma on_resolved_good e s : Inv s -> resolving s = true -> good (on_resolved e (set_resolving false s)).
Proof.
  intros HI Hres. unfold on_resolved. cbn [connecting_ completed_ set_resolving].
  destruct (connecting_ s) eqn:Hcn; [|apply (inv_neutral s (waiting s) false (tape s) HI); congruence].
  destruct (connecting_phase s HI Hcn) as (Hc & Hd & Hs & Ha & [Ho Hcl] & H1 & H2 & H3 & H4 & Hrest).
  destruct H4 as [[H4 _]|[_ ?]]; [|congruence]. rewrite Hc. cbn [orb negb]. destruct HI as [Hwf _].
  destruct e as [e|].
  - upd. apply wf_not_connecting in Hwf. apply fail_good. erroring_tac.
  - apply good_deref; [done|]. destruct_and!. apply good_start_backend_write; [done|sides|side|].
    intros t _ _. to_phase ph_connecting.
Qed.

Lemma cancel_good s : Inv s -> good (cancel_on_executor s).
Proof.
  intros [Hwf Hlive]. unfold cancel_on_executor. destruct (completed_ s) eqn:Hc; [by split; [|left]|]. upd. upd.
  apply wf_not_connecting in Hwf.
  destruct (close_backend_cases (set_connecting_ false s) Hwf Hc) as (b & c & -> & Hwf' & Hbc).
  by apply finish_quiesced_good.
Qed.

(** *** Request and response *)

Lemma seq_assoc (a b c : Tx -> outcome) s : ((a ;; b) ;; c) s = (a ;; (b ;; c)) s.
Proof. unfold seq. by destruct (a s). Qed.
Lemma seq_skip (m : Tx -> outcome) s : (m ;; skip) s = m s.
Proof. unfold seq, skip. by destruct (m s). Qed.

(** Starting an operation that is not the handler's last statement. *)
Lemma start_backend_read_then r (k : Tx -> outcome) s :
  wf s -> running s -> backend_stream_ s = true -> b_read s = None ->
  (forall t, let s' := set_b_read (Some r) (set_tape t (set_backend_operations_pending_ (S (backend_operations_pending_ s)) s)) in
     wf s' -> good (k s')) ->
  good ((start_backend_operation (initiate_backend_read r) ;; k) s).
Proof.
  intros Hwf (Hc & Hs & Ha) Hst Hr Hk.
  assert (Hgo : forall t, good (k (set_b_read (Some r) (set_tape t
    (set_backend_operations_pending_ (S (backend_operations_pending_ s)) s))))).
  { intros t. apply Hk. destruct_wf Hwf. split_wf; try done; cbn; try congruence. rewrite Hr in Wbp. cbn in Wbp. lia. }
  unfold seq at 1, start_backend_operation, initiate_backend_read, seq, deref, may_throw, pop. cbn. rewrite Hst. cbn.
  destruct (tape s) as [|[] t] eqn:Et; cbn; [rewrite Hr; cbn|exact Hwf|rewrite Hr; apply Hgo].
  specialize (Hgo []). destruct s. cbn in *. by subst.
Qed.

Lemma start_client_read_then r (k : Tx -> outcome) s :
  wf s -> running s -> c_read s = None -> (r = cr_body -> streamed = true) ->
  (forall t, let s' := set_c_read (Some r) (set_tape t (set_client_operations_pending_ (S (client_operations_pending_ s)) s)) in
     wf s' -> good (k s')) ->
  good ((start_client_operation (initiate_client_read r) ;; k) s).
Proof.
  intros Hwf (Hc & Hs & Ha) Hr Hbody Hk.
  assert (Hgo : forall t, good (k (set_c_read (Some r) (set_tape t
    (set_client_operations_pending_ (S (client_operations_pending_ s)) s))))).
  { intros t. apply Hk. destruct_wf Hwf. split_wf; try done; cbn; try congruence; [rewrite Hr in Wcp; cbn in Wcp; lia|].
    intros Hx. split; [|by apply Wstr]. intros [= Hy]. rewrite Hbody in Hx by done. done. }
  unfold seq at 1, start_client_operation, initiate_client_read, seq, may_throw, pop. cbn.
  destruct (tape s) as [|[] t] eqn:Et; cbn; [rewrite Hr; cbn|exact Hwf|rewrite Hr; apply Hgo].
  specialize (Hgo []). destruct s. cbn in *. by subst.
Qed.

Lemma read_response_header_good (k : Tx -> outcome) s :
  wf s -> running s -> backend_open s -> b_read s = None -> response_header_started_ s = false ->
  (forall t, let s' := set_b_read (Some br_header) (set_tape t (set_backend_operations_pending_ (S (backend_operations_pending_ s))
     (set_response_parser_ (Some false) (set_response_header_started_ true s)))) in wf s' -> good (k s')) ->
  good ((read_response_header ;; k) s).
Proof.
  intros Hwf Hrun (Hst & Hcl) Hr Hh Hk.
  assert (E : (read_response_header ;; k) s = ((UPD (set_response_header_started_ true) ;;
    may_throw ;; UPD (set_response_parser_ (Some false)) ;; expire_backend ;;
    start_backend_operation (initiate_backend_read br_header)) ;; k) s)
    by (unfold seq at 1 3, read_response_header; by rewrite Hh, (proj1 Hrun)).
  rewrite E, seq_assoc. upd. rewrite seq_assoc. apply good_may_throw; [done|]. intros t.
  rewrite seq_assoc. upd. rewrite seq_assoc. apply good_deref; [done|].
  by apply start_backend_read_then.
Qed.

Lemma read_request_body_chunk_good s :
  wf s -> running s -> http_transfer_buffer_ s = true -> streamed = true -> stop_request_upload_ s = false -> c_read s = None ->
  (forall t, c_read s = None ->
     live (set_c_read (Some cr_body) (set_tape t (set_client_operations_pending_ (S (client_operations_pending_ s)) s)))) ->
  good (read_request_body_chunk s).
Proof.
  intros Hwf Hr Hb Hstr Hstop Hn Hl. unfold read_request_body_chunk. rewrite (proj1 Hr), Hstop.
  apply good_deref; [done|]. apply good_start_client_read; try done. by rewrite Hn.
Qed.

(** The response is awaited while the upload goes on. *)
Lemma upload_begins s :
  wf s -> running s -> deferred_finish_ s = None -> connecting_ s = false -> backend_open s ->
  c_write s = None -> c_read s = None -> b_write s = None -> b_read s = None -> http_transfer_buffer_ s = true ->
  streamed = true -> response_header_started_ s = false -> stop_request_upload_ s = false ->
  request_upload_complete_ s = false -> good ((read_response_header ;; read_request_body_chunk) s).
Proof.
  intros Hwf Hr Hd Hcn Ho H1 H2 H3 H4 Hb Hstr Hh Hstop Hup. destruct Hr as (? & ? & ?).
  apply read_response_header_good; try done. intros t s' Hwf'.
  apply read_request_body_chunk_good; try done. intros t' _. to_phase ph_response. by apply up_read.
Qed.

Lemma response_awaited s :
  wf s -> running s -> deferred_finish_ s = None -> connecting_ s = false -> backend_open s ->
  c_write s = None -> b_read s = None -> http_transfer_buffer_ s = true ->
  response_header_started_ s = false -> stop_request_upload_ s = false -> upload s ->
  request_upload_complete_ s = negb (is_set (c_read s) || is_set (b_write s)) ->
  good (read_response_header s).
Proof.
  intros Hwf Hr Hd Hcn Ho H1 H4 Hb Hh Hstop Hu Hup. rewrite <-seq_skip. destruct Hr as (? & ? & ?).
  apply read_response_header_good; try done. intros t s' Hwf'. apply inv_intro; [done|].
  to_phase ph_response. destruct Hu; [by apply up_none|by apply up_read|by apply up_write|by apply up_last].
Qed.

Lemma on_request_header_written_good o s :
  Inv s -> b_write s = Some bw_header -> good (on_request_header_written o (set_b_write None s)).
Proof.
  intros HI Hw. apply (backend_write_cases bw_header (on_request_header_written o)); [done|done|..].
  - intros Hc Hq. unfold on_request_header_written, seq. by rewrite (closing_quiesced _ _ Hq).
  - intros Hc Hd Ha Hst Hwf1. unfold on_request_header_written. upd. active_phase Ha.
    rewrite finish_backend_open in * by done. ev. destruct (o_error o) as [e|].
    + match goal with |- good (if ?c then _ else _) => destruct c eqn:Epool end; [|apply fail_good; erroring_tac].
      apply andb_true_iff in Epool as [Epool _]. apply andb_true_iff in Epool as [_ Epool].
      apply negb_true_iff in Epool. cbn in Epool. rewrite Epool in *. upd. upd.
      assert (Hwf2 : wf (set_retried_pooled_connection_ true (set_backend_operations_pending_
        (pred (backend_operations_pending_ (set_b_write None s))) (set_b_write None s))))
        by (destruct_wf Hwf1; split_wf; try done; cbn in *; lia).
      destruct (close_backend_cases _ Hwf2 Hc) as (b & c & -> & Hwf3 & Hbc). upd.
      clear HI Hwf1 Hwf2.
      apply (wf_serializer false) in Hwf3. apply connect_backend_good; sides.
    + upd. upd. unfold has_transfer_buffer in *. destruct websocket_ eqn:Ews; cbv beta iota.
      * apply good_may_throw; [done|]. intros t. upd. apply good_deref; [done|].
        apply good_start_backend_read; [done|sides|side|]. intros t' _ _. to_phase ph_upgrade.
      * match goal with |- good (if ?c then _ else _) => destruct c eqn:Ed end.
        -- apply negb_true_iff in Ed. cbn in Ed.
           assert (Hs : streamed = true).
           { destruct_wf Hwf1. destruct streamed; [done|]. cbn in Wstr. destruct Wstr as [_ Wx]; [done|]. rewrite Wx in Ed; done. }
           cbv beta. destruct expect_continue_.
           ++ apply good_may_throw; [done|]. intros t. apply good_start_client_write; [done|sides|side|].
              intros t' _. to_phase ph_continue.
           ++ apply upload_begins; sides.
        -- upd. apply response_awaited; try sides. by apply up_none.
Qed.

Lemma on_continue_written_good o s :
  Inv s -> c_write s = Some cw_continue -> good (on_continue_written o (set_c_write None s)).
Proof.
  intros HI Hw. apply (client_write_cases cw_continue (on_continue_written o)); [done|done|..].
  - intros Hc (Hq & _). unfold on_continue_written, seq, finishing. cbn. by rewrite Hq.
  - intros Hc Hd Ha Hwf1. unfold on_continue_written. upd. active_phase Ha. ev.
    destruct (o_error o) as [e|]; [apply fail_good; erroring_tac|apply upload_begins; sides].
Qed.

(** *** The upload *)

(** Between two operations of the upload: the response is awaited, or an
    error is being written. *)
Inductive between (s : Tx) : Prop :=
| bt_response :
    backend_open s -> c_write s = None -> b_read s = Some br_header -> http_transfer_buffer_ s = true ->
    is_set (response_parser_ s) = true -> response_header_started_ s = true ->
    c_read s = None -> b_write s = None -> request_upload_complete_ s = false -> between s
| bt_error :
    U -> c_write s = Some cw_error -> (backend_stream_ s = true -> backend_close_requested_ s = true) -> stale s -> between s.

Definition uploading (s : Tx) : Prop :=
  wf s /\ running s /\ deferred_finish_ s = None /\ connecting_ s = false /\ stop_request_upload_ s = false /\
  streamed = true /\ between s.

Ltac to_error := to_phase ph_error; unfold stale in *; destruct_and?; first [assumption | cbn; tauto].

Lemma good_deref_or p (k : Tx -> outcome) s :
  (p s = false -> U) -> (p s = true -> good (k s)) -> good ((deref p ;; k) s).
Proof. intros Hs Hk. unfold seq, deref. destruct (p s); [by apply Hk|by apply Hs]. Qed.

(** Between two operations of the upload either the stream and the buffers are
    there and the slots free, or what is known of the hazard holds. *)
Ltac upload_known Hb :=
  let H := fresh in intros H; destruct Hb; [exfalso; unfold backend_open in *; destruct_and?; cbn in *;
    repeat match goal with E : ?x = _, K : context [?x] |- _ => rewrite E in K end; cbn in *; congruence|assumption].

Lemma upload_write_good w s :
  uploading s -> w = bw_body \/ w = bw_last -> good ((expire_backend ;; start_backend_operation (initiate_backend_write w)) s).
Proof.
  intros (Hwf & (Hc & Hs & Ha) & Hd & Hcn & Hstop & Hstr & Hb) Hw. apply good_deref_or; [upload_known Hb|]. intros Hst.
  apply good_start_backend_write; [done|done|upload_known Hb|]. intros t _ Hnone. destruct Hb.
  - to_phase ph_response. destruct Hw as [-> | ->]; [by apply up_write|by apply up_last].
  - destruct Hw as [-> | ->]; to_error.
Qed.

Lemma upload_read_good s : uploading s -> good (read_request_body_chunk s).
Proof.
  intros (Hwf & (Hc & Hs & Ha) & Hd & Hcn & Hstop & Hstr & Hb). unfold read_request_body_chunk. ev.
  apply good_deref_or; [upload_known Hb|]. intros Hbuf. apply good_start_client_read; [done|done|upload_known Hb|done|]. intros t Hnone.
  destruct Hb.
  - to_phase ph_response. by apply up_read.
  - to_error.
Qed.

Lemma upload_done_good s : uploading s -> good (Done (set_request_upload_complete_ true s)).
Proof.
  intros (Hwf & (Hc & Hs & Ha) & Hd & Hcn & Hstop & Hstr & Hb). apply inv_intro; [done|]. destruct Hb.
  - to_phase ph_response. by apply up_none.
  - to_error.
Qed.

Lemma finish_request_body_good s : uploading s -> good (finish_request_body s).
Proof.
  intros Hu. pose proof Hu as (Hwf & (Hc & Hs & Ha) & Hd & Hcn & Hstop & Hstr & Hb). unfold finish_request_body. ev.
  cbv beta. destruct request_chunked; [apply upload_write_good; auto|by apply upload_done_good].
Qed.

(** A handler of the upload in a state in which the upload has been stopped. *)
Lemma upload_stopped s :
  wf s -> completed_ s = false -> deferred_finish_ s = None -> started s = true -> acquiring s = false ->
  connecting_ s = false -> backend_open s ->
  ((c_write s = Some cw_header \/ c_write s = Some cw_body) /\ b_read s = None /\
     response_parser_ s = Some (negb (body_more s)) \/
     c_write s = None /\ b_read s = Some br_body) ->
  http_transfer_buffer_ s = true -> is_set (response_parser_ s) = true -> response_serializer_ s = true ->
  early_backend_response_ s = stop_request_upload_ s -> c_read s = None -> b_write s = None ->
  stop_request_upload_ s = true -> good (Done s).
Proof. intros. apply inv_intro; [done|]. to_phase ph_relay. by apply up_none. Qed.

Lemma error_stays s :
  wf s -> running s -> deferred_finish_ s = None -> connecting_ s = false -> c_write s = Some cw_error ->
  (backend_stream_ s = true -> backend_close_requested_ s = true) -> stale s -> good (Done s).
Proof. intros ? (? & ? & ?) ? ? ? ? ?. apply inv_intro; [done|]. to_error. Qed.

Lemma upload_read_continues o s :
  uploading s -> good (match hard_error (o_error o) with
    | Some e => send_error (body_error_status e) (body_error_text e)
    | None =>
        deref http_transfer_buffer_ ;;
        UPD (fun s => set_request_body_done_ (client_parser_done s) s) ;;
        WHEN (fun _ => produced o =? 0) THEN
          (WHEN request_body_done_ THEN finish_request_body ELSE read_request_body_chunk)
        ELSE (expire_backend ;; start_backend_operation (initiate_backend_write bw_body))
    end s).
Proof.
  intros Hu. pose proof Hu as (Hwf & (? & ? & ?) & ? & ? & ? & ? & Hb). destruct (hard_error (o_error o)) as [e|].
  - apply send_error_good; [|done]. destruct Hb; [erroring_tac|]. unfold stale in *. destruct_and?. erroring_tac.
  - apply good_deref_or; [upload_known Hb|]. intros Hbuf. upd.
    assert (Hu2 : uploading (set_request_body_done_ (client_parser_done s) s)).
    { split; [done|]. do 5 (split; [done|]). destruct Hb; [by apply bt_response|by apply bt_error]. }
    destruct (produced o =? 0); [|apply upload_write_good; auto].
    match goal with |- good (if ?c then _ else _) => destruct c end;
      [by apply finish_request_body_good|by apply upload_read_good].
Qed.

Lemma body_read_streamed s : wf s -> c_read s = Some cr_body -> streamed = true.
Proof. intros Hwf Hr. destruct_wf Hwf. destruct streamed; [done|]. by destruct Wstr. Qed.

Lemma on_request_body_read_good o s :
  Inv s -> (hazardous s -> U) -> c_read s = Some cr_body ->
  good (on_request_body_read o (set_c_read None (set_client_parser_done (o_parser_done o) s))).
Proof.
  intros HI HU Hw. apply (client_read_cases cr_body (on_request_body_read o)); [done|done|done|..].
  - intros Hc (Hq & _). unfold on_request_body_read, seq. cbn. by rewrite Hq.
  - intros Hc Hd Ha Hwf1. unfold on_request_body_read. upd. ev.
    pose proof (body_read_streamed s (proj1 HI) Hw) as Hstr. clear HI. active_phase Ha.
    + ev. apply upload_read_continues. match goal with H : upload s |- _ => destruct H; try congruence end.
      unfold uploading. split_and!; try sides. apply bt_response; sides.
    + destruct (stop_request_upload_ s) eqn:Hstop.
      * ev. match goal with H : upload s |- _ => destruct H; try congruence end. apply upload_stopped; sides.
      * match goal with H : false = false -> _ |- _ => destruct H as (? & ? & ?); [done|] end. congruence.
    + destruct (stop_request_upload_ s) eqn:Hstop; ev.
      * apply error_stays; unfold stale; sides.
      * apply upload_read_continues. unfold uploading. split_and!; try sides. apply bt_error; [by apply HU; split|unfold stale; sides..].
Qed.

Lemma upload_write_continues o s :
  uploading s -> good (match o_error o with
    | Some e => fail e
    | None => WHEN request_body_done_ THEN finish_request_body ELSE read_request_body_chunk
    end s).
Proof.
  intros Hu. pose proof Hu as (Hwf & (? & ? & ?) & ? & ? & ? & ? & Hb). destruct (o_error o) as [e|].
  - apply fail_good. destruct Hb; [erroring_tac|]. unfold stale in *. destruct_and?. erroring_tac.
  - match goal with |- good (if ?c then _ else _) => destruct c end;
      [by apply finish_request_body_good|by apply upload_read_good].
Qed.

Lemma upload_last_continues o s :
  uploading s -> good (match o_error o with Some e => fail e | None => UPD (set_request_upload_complete_ true) end s).
Proof.
  intros Hu. pose proof Hu as (Hwf & (? & ? & ?) & ? & ? & ? & ? & Hb). destruct (o_error o) as [e|].
  - apply fail_good. destruct Hb; [erroring_tac|]. unfold stale in *. destruct_and?. erroring_tac.
  - by apply upload_done_good.
Qed.

(** [on_request_body_written] and [on_request_body_finished]. *)
Lemma upload_handler_good w (k : Tx -> outcome) s :
  Inv s -> (hazardous s -> U) -> b_write s = Some w -> w = bw_body \/ w = bw_last -> (forall s1, uploading s1 -> good (k s1)) ->
  good ((UPD finish_backend_operation ;;
    WHEN (fun s => is_set (deferred_finish_ s)) THEN (UPD maybe_finish_deferred) ELSE
    WHEN (fun s => completed_ s || stop_request_upload_ s) THEN skip ELSE k) (set_b_write None s)).
Proof.
  intros HI HU Hw Hww Hk. apply (backend_write_cases w); [done|done|..].
  - intros Hc Hq. unfold seq. by rewrite (quiescing_backend _ _ Hq).
  - intros Hc Hd Ha Hst Hwf1. upd. clear HI. active_phase Ha.
    + match goal with H : upload s |- _ => destruct H; try congruence end; rewrite finish_backend_open in * by done; ev; ev;
        apply Hk; unfold uploading; split_and!; try sides; apply bt_response; sides.
    + rewrite finish_backend_open in * by done. ev. destruct (stop_request_upload_ s) eqn:Hstop.
      * ev. match goal with H : upload s |- _ => destruct H; try congruence end; apply upload_stopped; sides.
      * match goal with H : false = false -> _ |- _ => destruct H as (? & ? & ?); [done|] end. congruence.
    + assert (Hstr : streamed = true) by (destruct Hww as [-> | ->]; split_disj; congruence).
      destruct (finish_backend_cases (set_b_write None s)) as (b & n & E & Eb). rewrite E in *. ev.
      destruct (stop_request_upload_ s) eqn:Hstop; ev.
      * apply error_stays; unfold stale; sides.
      * apply Hk. unfold uploading. split_and!; try sides. apply bt_error; [by apply HU; split|unfold stale; sides..].
Qed.

Lemma on_request_body_written_good o s :
  Inv s -> (hazardous s -> U) -> b_write s = Some bw_body -> good (on_request_body_written o (set_b_write None s)).
Proof. intros HI HU Hw. apply (upload_handler_good bw_body); auto using upload_write_continues. Qed.

Lemma on_request_body_finished_good o s :
  Inv s -> (hazardous s -> U) -> b_write s = Some bw_last -> good (on_request_body_finished o (set_b_write None s)).
Proof. intros HI HU Hw. apply (upload_handler_good bw_last); auto using upload_last_continues. Qed.

(** *** The response *)

Lemma on_error_written_good o s :
  Inv s -> c_write s = Some cw_error -> good (on_error_written o (set_c_write None s)).
Proof.
  intros HI Hw. apply (client_write_cases cw_error (on_error_written o)); [done|done|..].
  - intros Hc (Hq & _). unfold on_error_written, seq, finishing. cbn. by rewrite Hq.
  - intros Hc Hd Ha Hwf1. unfold on_error_written. upd. clear HI. active_phase Ha. ev.
    by apply finish_quiesced_good.
Qed.

Lemma upload_ext s s' : c_read s' = c_read s -> b_write s' = b_write s -> upload s -> upload s'.
Proof.
  intros E1 E2 Hu. destruct Hu; [apply up_none|apply up_read|apply up_write|apply up_last]; congruence.
Qed.

Lemma upload_stale s : upload s -> b_read s = None \/ b_read s = Some br_header -> stale s.
Proof. intros Hu Hb. split_and!; destruct Hu; auto 6. Qed.

(** Between two operations of the relay of the response. *)
Definition relaying (s : Tx) : Prop :=
  wf s /\ running s /\ deferred_finish_ s = None /\ connecting_ s = false /\ backend_open s /\
  c_write s = None /\ b_read s = None /\ http_transfer_buffer_ s = true /\ is_set (response_parser_ s) = true /\
  early_backend_response_ s = stop_request_upload_ s /\ upload s /\
  (stop_request_upload_ s = false -> request_upload_complete_ s = true /\ c_read s = None /\ b_write s = None).

Lemma forward_response_header_good o s : relaying s -> good (forward_response_header o s).
Proof.
  intros (Hwf & (Hc & Hs & Ha) & Hd & Hcn & (Hst & Hcl) & H1 & H2 & H3 & H4 & H5 & Hu & H6).
  unfold forward_response_header. upd. upd. apply good_may_throw; [done|]. intros t. upd.
  apply good_start_client_write; [done|sides|side|]. intros t' _. to_phase ph_relay.
  - left. split; [by left|]. split; [done|]. unfold parser_is_done. cbn.
    destruct (response_parser_ s) as [b|]; [|done]. cbn. by rewrite negb_involutive.
  - by apply (upload_ext s).
Qed.

Lemma response_accepted_good o s :
  relaying s ->
  good ((fun s =>
        let '(bad_alloc, s) := if early_backend_response_ s && negb (parser_is_done s) then pop s else (false, s) in
        if bad_alloc then send_error 503 b!"Insufficient Memory" s else
        (UPD (fun s => if early_backend_response_ s && negb (parser_is_done s)
                       then set_response_transfer_buffer_ true s else s) ;;
         forward_response_header o) s) s).
Proof.
  intros Hr.
  assert (Hgo : forall t b, relaying (set_tape t (set_response_transfer_buffer_ b s))).
  { intros t b. unfold relaying in *. destruct_and!. split_and!; try done. by apply (upload_ext s). }
  cbv beta. unfold pop. destruct (early_backend_response_ s && negb (parser_is_done s)) eqn:E.
  - destruct (tape s) as [|[] t] eqn:Et.
    + upd. rewrite E. apply forward_response_header_good. specialize (Hgo (tape s) true). by destruct s.
    + destruct Hr as (Hwf & (Hc & Hs & Ha) & Hd & Hcn & (Hst & Hcl) & H1 & H2 & H3 & H4 & H5 & Hu & H6).
      apply send_error_good; [|done]. pose proof (upload_stale s Hu (or_introl H2)) as (? & ? & ?). erroring_tac.
    + upd. change (early_backend_response_ (set_tape t s) && negb (parser_is_done (set_tape t s)))
        with (early_backend_response_ s && negb (parser_is_done s)). rewrite E.
      apply forward_response_header_good, (Hgo t true).
  - upd. rewrite E. apply forward_response_header_good. specialize (Hgo (tape s) (response_transfer_buffer_ s)).
    by destruct s.
Qed.

Lemma relaying_begins s :
  wf s -> running s -> deferred_finish_ s = None -> connecting_ s = false -> backend_open s ->
  c_write s = None -> b_read s = None -> http_transfer_buffer_ s = true -> is_set (response_parser_ s) = true ->
  upload s -> request_upload_complete_ s = negb (is_set (c_read s) || is_set (b_write s)) ->
  let s1 := set_early_backend_response_ (negb (request_upload_complete_ s)) s in
  let s2 := set_stop_request_upload_ (early_backend_response_ s1) s1 in
  relaying (if early_backend_response_ s2 then set_client_keep_alive_ false s2 else s2).
Proof.
  intros Hwf Hr Hd Hcn Ho H1 H2 H3 H4 Hu Hup s1 s2.
  assert (Hstop : negb (request_upload_complete_ s) = false ->
    request_upload_complete_ s = true /\ c_read s = None /\ b_write s = None).
  { intros E. apply negb_false_iff in E. split; [done|]. rewrite Hup in E. by destruct (c_read s), (b_write s). }
  destruct (early_backend_response_ s2); unfold relaying; split_and!; try done; try (by apply (upload_ext s)); apply Hr.
Qed.

Lemma on_response_header_good o s pd :
  Inv s -> b_read s = Some br_header -> is_set pd = is_set (response_parser_ s) ->
  good (on_response_header o (set_b_read None (set_response_parser_ pd s))).
Proof.
  intros HI Hw Hpd. apply (backend_read_cases br_header (on_response_header o)); [done|done|..].
  - intros Hc Hq Hcl. unfold on_response_header, seq. rewrite finish_backend_close. cbn. by rewrite Hcl.
  - intros Hc Hd Ha Hst Hwf1. unfold on_response_header. upd. clear HI. active_phase Ha.
    + rewrite finish_backend_open in * by done. ev.
      pose proof (upload_stale (set_b_read None s) ltac:(by apply (upload_ext s)) (or_introl eq_refl)) as (? & ? & ?).
      destruct (o_error o) as [e|]; [apply fail_good; erroring_tac|]. apply good_deref; [cbn; congruence|].
      match goal with |- good ((if ?c then _ else _) _) => destruct c end.
      { upd. upd. apply response_awaited; try sides. by apply (upload_ext s). }
      match goal with |- good ((if ?c then _ else _) _) => destruct c end.
      { apply send_error_good; [erroring_tac|done]. }
      upd. upd. upd. apply response_accepted_good, relaying_begins; try sides. by apply (upload_ext s).
    + assert (Hcl : backend_close_requested_ s = true) by auto. rewrite finish_backend_close. ev.
      apply error_goes_on; unfold stale; sides.
Qed.

Lemma relaying_idle s :
  relaying s -> stop_request_upload_ s = false -> idle s /\ backend_operations_pending_ s = 0%nat.
Proof.
  intros (Hwf & _ & _ & _ & _ & H1 & H2 & _ & _ & _ & _ & H6) Hstop. destruct (H6 Hstop) as (_ & H3 & H4).
  split; [done|]. destruct_wf Hwf. by rewrite Wbp, H2, H4.
Qed.

Lemma good_when c (a b k : Tx -> outcome) s :
  (c s = true -> good ((a ;; k) s)) -> (c s = false -> good ((b ;; k) s)) ->
  good (((WHEN c THEN a ELSE b) ;; k) s).
Proof. intros H1 H2. unfold seq at 1. destruct (c s); auto. Qed.

Lemma finish_normal_good o s : relaying s -> parser_is_done s = true -> good (finish_normal o s).
Proof.
  intros Hrel Hdone. pose proof Hrel as (Hwf & (Hc & Hs & Ha) & Hd & Hcn & (Hst & Hcl) & H1 & H2 & H3 & H4 & H5 & Hu & H6).
  unfold finish_normal. rewrite H5. destruct (stop_request_upload_ s) eqn:Hstop; cbn [orb].
  { upd. destruct (close_backend_cases s Hwf Hc) as (b & c & -> & Hwf' & Hbc). by apply finish_quiesced_good. }
  destruct (H6 eq_refl) as (Hup & H7 & H8). destruct (relaying_idle s Hrel Hstop) as [Hidle Hpend].
  rewrite Hup. cbn [negb].
  assert (Hwf' : wf (set_backend_stream_ false s)) by (destruct_wf Hwf; split_wf; try done; cbn; congruence).
  apply good_when; intros _.
  - rewrite seq_assoc. apply good_deref; [done|]. rewrite seq_assoc. apply good_may_throw; [done|]. intros t.
    rewrite seq_assoc. upd. upd. apply completed_inv; try done.
    by apply (wf_note (pool_release _ _ _ _) (set_backend_stream_ false (set_tape t s))).
  - upd. unfold close_backend, maybe_release_closed_backend. rewrite Hst. cbn [negb].
    cbn [backend_close_requested_ backend_operations_pending_ set_backend_close_requested_]. rewrite Hpend. cbn [Nat.eqb andb].
    by apply completed_inv.
Qed.

Lemma write_body_chunk_good s :
  relaying s -> response_serializer_ s = true -> response_parser_ s = Some (negb (body_more s)) ->
  good (write_body_chunk s).
Proof.
  intros (Hwf & (Hc & Hs & Ha) & Hd & Hcn & (Hst & Hcl) & H1 & H2 & H3 & H4 & H5 & Hu & H6) Hser Hp.
  apply good_deref; [done|]. apply good_start_client_write; [done|sides|side|]. intros t _.
  to_phase ph_relay. by apply (upload_ext s).
Qed.

Lemma read_body_chunk_good s : relaying s -> response_serializer_ s = true -> good (read_body_chunk s).
Proof.
  intros (Hwf & (Hc & Hs & Ha) & Hd & Hcn & (Hst & Hcl) & H1 & H2 & H3 & H4 & H5 & Hu & H6) Hser.
  apply good_deref; [unfold transfer_buffer; rewrite H3; by rewrite orb_true_r|]. apply good_deref; [done|].
  apply good_deref; [done|]. apply good_start_backend_read; [done|sides|side|]. intros t _ _.
  to_phase ph_relay. by apply (upload_ext s).
Qed.

Lemma relay_fails e s : relaying s -> good (fail_after_header e s).
Proof. intros (Hwf & Hr & Hd & Hcn & _). by apply fail_after_header_good. Qed.

(** The client-side handlers of the relay resume in a [relaying] state. *)
Lemma relay_resumes s :
  completed_ s = false -> deferred_finish_ s = None -> active s -> c_write s = Some cw_header \/ c_write s = Some cw_body ->
  wf (finish_client_operation (set_c_write None s)) ->
  relaying (finish_client_operation (set_c_write None s)) /\ response_serializer_ s = true /\
  response_parser_ s = Some (negb (body_more s)).
Proof.
  intros Hc Hd Ha Hw Hwf. destruct Hw as [Hw|Hw]; active_phase Ha;
    (destruct H4 as [[_ [? ?]]|[? ?]]; [|congruence]); (split; [|done]);
    unfold relaying; split_and!; try done; by apply (upload_ext s).
Qed.

Lemma on_header_written_good o s :
  Inv s -> c_write s = Some cw_header -> (o_serializer_done o = true -> body_more s = false) ->
  good (on_header_written o (set_c_write None s)).
Proof.
  intros HI Hw Hmore. apply (client_write_cases cw_header (on_header_written o)); [done|done|..].
  - intros Hc (Hq & _). unfold on_header_written, seq, finishing. cbn. by rewrite Hq.
  - intros Hc Hd Ha Hwf1. destruct (relay_resumes s Hc Hd Ha (or_introl Hw) Hwf1) as (Hr & Hser & Hp).
    unfold on_header_written. upd. ev. destruct (o_error o) as [e|]; [by apply relay_fails|].
    apply good_deref; [cbn; by rewrite Hp|].
    match goal with |- good (if ?c then _ else _) => destruct c eqn:Ed end; [|by apply read_body_chunk_good].
    destruct (o_serializer_done o); [by apply finish_normal_good|by apply write_body_chunk_good].
Qed.

Lemma on_body_written_good o s :
  Inv s -> c_write s = Some cw_body -> (o_serializer_done o = true -> body_more s = false) ->
  good (on_body_written o (set_c_write None s)).
Proof.
  intros HI Hw Hmore. apply (client_write_cases cw_body (on_body_written o)); [done|done|..].
  - intros Hc (Hq & _). unfold on_body_written, seq, finishing. cbn. by rewrite Hq.
  - intros Hc Hd Ha Hwf1. destruct (relay_resumes s Hc Hd Ha (or_intror Hw) Hwf1) as (Hr & Hser & Hp).
    unfold on_body_written. upd. ev. destruct (o_error o) as [[]|]; try (by apply relay_fails).
    + apply good_deref; [cbn; by rewrite Hp|].
      match goal with |- good (if ?c then _ else _) => destruct c eqn:Ed end; [|by apply read_body_chunk_good].
      apply andb_true_iff in Ed as [Ed _]. by apply finish_normal_good.
    + destruct (o_serializer_done o) eqn:Eser; [|by apply write_body_chunk_good].
      apply finish_normal_good; [done|]. unfold parser_is_done. cbn. rewrite Hp, Hmore by done. done.
Qed.

Lemma on_body_read_good o s pd :
  Inv s -> b_read s = Some br_body -> is_set pd = is_set (response_parser_ s) ->
  good (on_body_read o (set_b_read None (set_response_parser_ pd s))).
Proof.
  intros HI Hw Hpd. apply (backend_read_cases br_body (on_body_read o)); [done|done|..].
  - intros Hc Hq Hcl. unfold on_body_read, seq. rewrite finish_backend_close. cbn. by rewrite Hcl.
  - intros Hc Hd Ha Hst Hwf1. unfold on_body_read. upd. clear HI. active_phase Ha.
    destruct H4 as [(_ & ? & _)|[? ?]]; [congruence|].
    rewrite finish_backend_open in * by done. ev.
    assert (Hr : relaying (set_backend_operations_pending_ (pred (backend_operations_pending_
      (set_b_read None (set_response_parser_ pd s)))) (set_b_read None (set_response_parser_ pd s)))).
    { unfold relaying. split_and!; try sides. by apply (upload_ext s). }
    destruct (hard_error (o_error o)) as [e|]; [by apply relay_fails|].
    apply good_deref; [unfold transfer_buffer; cbn; rewrite H5; by rewrite orb_true_r|].
    apply good_deref; [cbn; congruence|]. upd. upd.
    apply write_body_chunk_good; [|done|].
    + unfold relaying in *. destruct_and!. split_and!; try done. by apply (upload_ext s).
    + unfold parser_is_done. cbn. destruct pd; [cbn; by rewrite negb_involutive|]. cbn in Hpd. congruence.
Qed.

(** *** The WebSocket tunnel *)

(** Between two operations of the upgrade. *)
Definition upgrading (s : Tx) : Prop :=
  wf s /\ running s /\ deferred_finish_ s = None /\ connecting_ s = false /\ backend_open s /\ idle s.

Lemma upgrade_fails e s : upgrading s -> good (fail e s).
Proof. intros (? & (? & ? & ?) & ? & ? & ? & (? & ? & ? & ?)). apply fail_good. erroring_tac. Qed.

Lemma start_tunnel_good s : upgrading s -> tunnel_buffers_ s = true -> good (start_tunnel s).
Proof.
  intros (Hwf & (Hc & Hs & Ha) & Hd & Hcn & (Hst & Hcl) & (H1 & H2 & H3 & H4)) Htb. unfold start_tunnel, read_from_client.
  rewrite seq_assoc. apply good_deref; [done|]. apply start_client_read_then; [done|sides|done|done|].
  intros t s' Hwf'. apply good_deref; [done|]. apply good_start_backend_read; [done|done|subst s'; side|].
  intros t' _ _. subst s'. to_phase ph_tunnel.
Qed.

Lemma flush_backend_buffer_good o s : upgrading s -> tunnel_buffers_ s = true -> good (flush_backend_buffer o s).
Proof.
  intros Hu Htb. unfold flush_backend_buffer. destruct (o_backend_buffered o); [|by apply start_tunnel_good].
  destruct Hu as (Hwf & (Hc & Hs & Ha) & Hd & Hcn & (Hst & Hcl) & (H1 & H2 & H3 & H4)).
  apply good_start_client_write; [done|sides|side|]. intros t _. to_phase ph_upgrade.
Qed.

Lemma flush_client_buffer_good o s : upgrading s -> tunnel_buffers_ s = true -> good (flush_client_buffer o s).
Proof.
  intros Hu Htb. unfold flush_client_buffer. destruct (o_client_buffered o); [|by apply flush_backend_buffer_good].
  destruct Hu as (Hwf & (Hc & Hs & Ha) & Hd & Hcn & (Hst & Hcl) & (H1 & H2 & H3 & H4)).
  apply good_start_backend_write; [done|sides|side|]. intros t _ _. to_phase ph_upgrade.
Qed.

Lemma on_upgrade_response_good o s pd :
  Inv s -> b_read s = Some br_upgrade -> good (on_upgrade_response o (set_b_read None (set_response_parser_ pd s))).
Proof.
  intros HI Hw. apply (backend_read_cases br_upgrade (on_upgrade_response o)); [done|done|..].
  - intros Hc Hq Hcl. unfold on_upgrade_response, seq. by rewrite (closing_quiesced _ _ Hq).
  - intros Hc Hd Ha Hst Hwf1. unfold on_upgrade_response. upd. clear HI. active_phase Ha.
    destruct H4 as [(? & ? & _ & ?)|(_ & [(? & ? & ?)|[(? & ? & ?)|(? & ? & ?)]])]; try congruence.
    rewrite finish_backend_open in * by done. ev.
    destruct (o_error o) as [e|]; [apply fail_good; erroring_tac|]. apply good_deref; [done|].
    match goal with |- good ((if ?c then _ else _) _) => destruct c end; [apply send_error_good; [erroring_tac|done]|].
    cbv beta. unfold pop. cbn [tape set_backend_operations_pending_ set_b_read set_response_parser_].
    destruct (tape s) as [|[] t]; [|apply send_error_good; [erroring_tac|done]|];
      (upd; upd; apply good_may_throw; [done|]; intros t'; apply good_deref; [done|];
       apply good_start_client_write; [done|sides|side|]; intros t2 _; to_phase ph_upgrade).
Qed.

Lemma upgrade_resumes s w :
  completed_ s = false -> deferred_finish_ s = None -> active s -> c_write s = Some w -> w = cw_upgrade \/ w = cw_flush ->
  wf (finish_client_operation (set_c_write None s)) ->
  upgrading (finish_client_operation (set_c_write None s)) /\ tunnel_buffers_ s = true.
Proof.
  intros Hc Hd Ha Hw Hww Hwf. destruct Hww as [-> | ->]; active_phase Ha;
    (destruct H4 as [(? & ? & _ & ?)|(? & [(? & ? & ?)|[(? & ? & ?)|(? & ? & ?)]])]; try congruence);
    unfold upgrading; split_and!; sides.
Qed.

Lemma on_upgrade_written_good o s :
  Inv s -> c_write s = Some cw_upgrade -> good (on_upgrade_written o (set_c_write None s)).
Proof.
  intros HI Hw. apply (client_write_cases cw_upgrade (on_upgrade_written o)); [done|done|..].
  - intros Hc (Hq & _). unfold on_upgrade_written, seq, finishing. cbn. by rewrite Hq.
  - intros Hc Hd Ha Hwf1. destruct (upgrade_resumes s _ Hc Hd Ha Hw (or_introl eq_refl) Hwf1) as [Hu Ht].
    unfold on_upgrade_written. upd. ev. destruct (o_error o); [by apply upgrade_fails|by apply flush_client_buffer_good].
Qed.

Lemma on_backend_buffer_flushed_good o s :
  Inv s -> c_write s = Some cw_flush -> good (on_backend_buffer_flushed o (set_c_write None s)).
Proof.
  intros HI Hw. apply (client_write_cases cw_flush (on_backend_buffer_flushed o)); [done|done|..].
  - intros Hc (Hq & _). unfold on_backend_buffer_flushed, seq, finishing. cbn. by rewrite Hq.
  - intros Hc Hd Ha Hwf1. destruct (upgrade_resumes s _ Hc Hd Ha Hw (or_intror eq_refl) Hwf1) as [Hu Ht].
    unfold on_backend_buffer_flushed. upd. ev. destruct (o_error o); [by apply upgrade_fails|by apply start_tunnel_good].
Qed.

Lemma on_client_buffer_flushed_good o s :
  Inv s -> b_write s = Some bw_flush -> good (on_client_buffer_flushed o (set_b_write None s)).
Proof.
  intros HI Hw. apply (backend_write_cases bw_flush (on_client_buffer_flushed o)); [done|done|..].
  - intros Hc Hq. unfold on_client_buffer_flushed, seq. by rewrite (closing_quiesced _ _ Hq).
  - intros Hc Hd Ha Hst Hwf1. unfold on_client_buffer_flushed. upd. clear HI. active_phase Ha.
    destruct H4 as [(? & ? & _ & ?)|(? & [(? & ? & ?)|[(? & ? & ?)|(? & ? & ?)]])]; try congruence.
    rewrite finish_backend_open in * by done. ev.
    assert (Hu : upgrading (set_backend_operations_pending_ (pred (backend_operations_pending_ (set_b_write None s)))
      (set_b_write None s))) by (unfold upgrading; split_and!; sides).
    destruct (o_error o); [by apply upgrade_fails|by apply flush_backend_buffer_good].
Qed.

(** The four tunnel handlers. *)
Ltac tunnel_phase Ha := active_phase Ha; repeat match goal with H : _ /\ _ \/ _ /\ _ |- _ => destruct H as [[? ?]|[? ?]] end; try congruence.

Lemma on_client_tunnel_read_good o s :
  Inv s -> c_read s = Some cr_tunnel -> good (on_client_tunnel_read o (set_c_read None s)).
Proof.
  intros HI Hw. 
  apply (client_read_cases cr_tunnel (on_client_tunnel_read o) s (client_parser_done s)); [done|done|done|..].
  - intros Hc (Hq & _). unfold on_client_tunnel_read, seq, finishing. cbn. by rewrite Hq.
  - intros Hc Hd Ha Hwf1. unfold on_client_tunnel_read. upd. clear HI. tunnel_phase Ha; ev;
      (destruct (o_error o); [apply finish_tunnel_good; sides|]; apply good_deref; [done|];
       apply good_start_backend_write; [done|sides|side|]; intros t _ _; to_phase ph_tunnel).
Qed.

Lemma on_client_tunnel_written_good o s :
  Inv s -> c_write s = Some cw_tunnel -> good (on_client_tunnel_written o (set_c_write None s)).
Proof.
  intros HI Hw. apply (client_write_cases cw_tunnel (on_client_tunnel_written o)); [done|done|..].
  - intros Hc (Hq & _). unfold on_client_tunnel_written, seq, finishing. cbn. by rewrite Hq.
  - intros Hc Hd Ha Hwf1. unfold on_client_tunnel_written. upd. clear HI. tunnel_phase Ha; ev;
      (destruct (o_error o); [apply finish_tunnel_good; sides|]; upd; apply good_deref; [done|];
       apply good_start_backend_read; [done|sides|side|]; intros t _ _; to_phase ph_tunnel).
Qed.

Lemma on_backend_tunnel_written_good o s :
  Inv s -> b_write s = Some bw_tunnel -> good (on_backend_tunnel_written o (set_b_write None s)).
Proof.
  intros HI Hw. apply (backend_write_cases bw_tunnel (on_backend_tunnel_written o)); [done|done|..].
  - intros Hc Hq. unfold on_backend_tunnel_written, seq. by rewrite (closing_quiesced _ _ Hq).
  - intros Hc Hd Ha Hst Hwf1. unfold on_backend_tunnel_written. upd. clear HI. tunnel_phase Ha;
      rewrite finish_backend_open in * by done; ev;
      (destruct (o_error o); [apply finish_tunnel_good; sides|]; upd; apply good_deref; [done|];
       apply good_start_client_read; [done|sides|side|done|]; intros t _; to_phase ph_tunnel).
Qed.

Lemma on_backend_tunnel_read_good o s pd :
  Inv s -> b_read s = Some br_tunnel -> good (on_backend_tunnel_read o (set_b_read None (set_response_parser_ pd s))).
Proof.
  intros HI Hw. apply (backend_read_cases br_tunnel (on_backend_tunnel_read o)); [done|done|..].
  - intros Hc Hq Hcl. unfold on_backend_tunnel_read, seq. by rewrite (closing_quiesced _ _ Hq).
  - intros Hc Hd Ha Hst Hwf1. unfold on_backend_tunnel_read. upd. clear HI. tunnel_phase Ha;
      rewrite finish_backend_open in * by done; ev;
      (destruct (o_error o); [apply finish_tunnel_good; sides|]; apply good_deref; [done|];
       apply good_start_client_write; [done|sides|side|]; intros t _; to_phase ph_tunnel).
Qed.

(** ** The invariant is kept *)

Lemma handler_good e s : Inv s -> (hazardous s -> U) -> enabled e s = true -> good (handler e s).
Proof.
  intros HI HU He. destruct e; cbn [enabled] in He; cbn [handler].
  - apply start_good; [done|by apply negb_true_iff].
  - by apply cancel_good.
  - destruct (abort_good s (proj1 HI)) as (s' & -> & HI'). done.
  - by apply on_backend_permit_good.
  - by apply on_connect_timeout_good.
  - by apply on_resolved_good.
  - apply andb_true_iff in He as [Hw He]. destruct (c_write s) as [w|] eqn:Ew; [|done].
    assert (Hmore : o_serializer_done o = true -> body_more s = false)
      by (intros E; rewrite E in He; by apply negb_true_iff in He).
    destruct w; cbn [client_write_handler];
      [by apply on_continue_written_good|by apply on_header_written_good|by apply on_body_written_good|
       by apply on_upgrade_written_good|by apply on_backend_buffer_flushed_good|by apply on_client_tunnel_written_good|
       by apply on_error_written_good].
  - destruct (c_read s) as [[]|] eqn:Er; [|..|done]; [by apply on_request_body_read_good|by apply on_client_tunnel_read_good].
  - destruct (b_write s) as [w|] eqn:Ew; [|done]. destruct w; cbn [backend_write_handler];
      [by apply on_connect_good|by apply on_tls_handshake_good|by apply on_request_header_written_good|
       by apply on_request_body_written_good|by apply on_request_body_finished_good|
       by apply on_client_buffer_flushed_good|by apply on_backend_tunnel_written_good].
  - destruct (b_read s) as [r|] eqn:Er; [|done].
    assert (Hs : set_response_parser_ (response_parser_ s) s = s) by (by destruct s).
    destruct r; cbn [backend_read_handler].
    + destruct (response_parser_ s) eqn:Ep; [apply on_response_header_good; try done; by rewrite Ep|].
      rewrite <-Hs. apply on_response_header_good; try done. by rewrite Ep.
    + destruct (response_parser_ s) eqn:Ep; [apply on_body_read_good; try done; by rewrite Ep|].
      rewrite <-Hs. apply on_body_read_good; try done. by rewrite Ep.
    + rewrite <-Hs. by apply on_upgrade_response_good.
    + rewrite <-Hs. by apply on_backend_tunnel_read_good.
Qed.

End Steps.

Lemma set_tape_inv t s : Inv s -> Inv (set_tape t s).
Proof.
  intros HI. assert (E := inv_neutral s (waiting s) (resolving s) t HI (fun _ => eq_refl)). by destruct s.
Qed.

Lemma step_good e throws s :
  Inv s -> enabled e s = true ->
  match step e throws s with Done s' => Inv s' | Threw _ => False | Undefined => hazardous s end.
Proof.
  intros HI He. unfold step. assert (Hg := handler_good (hazardous s) e (set_tape throws s) (set_tape_inv throws s HI) (fun h => h) He).
  destruct (handler e (set_tape throws s)) as [s'|s'|]; [done| |done].
  destruct (abort_good s' Hg) as (s2 & -> & HI2). done.
Qed.

Lemma reachable_Inv s : reachable s -> Inv s.
Proof.
  induction 1 as [|s e throws s' _ IH He Hs]; [apply initial_ok|].
  pose proof (step_good e throws s IH He) as Hg. by rewrite Hs in Hg.
Qed.

(** A run passes through the hazardous state. *)
Definition through_hazard (es : list (event * list bool)) : Prop :=
  exists es1 x es2 s, es = es1 ++ x :: es2 /\ run es1 initial = Some (Done s) /\ hazardous s.

Lemma run_app es es' s : run (es ++ es') s = match run es s with Some (Done s') => run es' s' | r => r end.
Proof.
  revert s. induction es as [|[e throws] es IH]; intros s; [done|]. cbn [app run]. destruct (enabled e s); [|done].
  by destruct (step e throws s).
Qed.

(** Every run ends in a state that satisfies the invariant, or in undefined
    behaviour out of the hazardous state; no exception escapes. *)
Lemma run_good es r : run es initial = Some r ->
  match r with Done s => Inv s | Threw _ => False | Undefined => through_hazard es end.
Proof.
  revert r. induction es as [|[e throws] es IH] using rev_ind; intros r; [intros [= <-]; apply initial_ok|].
  rewrite run_app. destruct (run es initial) as [r0|] eqn:E; [|done]. specialize (IH r0 eq_refl). destruct r0 as [s|s|].
  - cbn [run]. destruct (enabled e s) eqn:He; [|done]. pose proof (step_good e throws s IH He) as Hg.
    destruct (step e throws s) as [s'| |]; [by intros [= <-]|done|]. intros [= <-]. by exists es, (e, throws), [], s.
  - done.
  - intros [= <-]. destruct IH as (es1 & x & es2 & s & -> & Hs & Hh). exists es1, x, (es2 ++ [(e, throws)]), s.
    by rewrite <-app_assoc.
Qed.

(** ** A deferred finish *)

Definition outstanding (s : Tx) : nat := (client_operations_pending_ s + backend_operations_pending_ s)%nat.

Definition is_io (e : event) : bool :=
  match e with ev_client_write _ | ev_client_read _ | ev_backend_write _ | ev_backend_read _ => true | _ => false end.
Definition io_events (es : list (event * list bool)) : nat := length (filter (fun x => is_io x.1 = true) es).

(** What a completion handler does while a finish is deferred. *)
Definition drained (e : event) (s : Tx) : Tx :=
  match e with
  | ev_client_write _ => finish_client_operation (set_c_write None s)
  | ev_client_read o =>
      finish_client_operation (set_c_read None
        (match c_read s with Some cr_body => set_client_parser_done (o_parser_done o) s | _ => s end))
  | ev_backend_write _ => finish_backend_operation (set_b_write None s)
  | ev_backend_read o =>
      finish_backend_operation (set_b_read None
        (match b_read s, response_parser_ s with
         | Some (br_header | br_body), Some _ => set_response_parser_ (Some (o_parser_done o)) s
         | _, _ => s
         end))
  | _ => s
  end.

Lemma quiescing_handler e s :
  Inv s -> completed_ s = false -> quiescing s -> enabled e s = true -> is_io e = true ->
  handler e s = Done (maybe_finish_deferred (drained e s)).
Proof.
  intros HI Hc Hq He Hio. pose proof Hq as (Hd & _ & _ & _ & Hcl & _).
  destruct e; try done; cbn [enabled] in He; cbn [handler drained].
  - apply andb_true_iff in He as [He _]. destruct (c_write s) as [[]|]; [..|done];
      cbn [client_write_handler]; unfold on_continue_written, on_header_written, on_body_written, on_upgrade_written,
        on_backend_buffer_flushed, on_client_tunnel_written, on_error_written, seq, finishing; cbn; by rewrite Hd.
  - destruct (c_read s) as [[]|]; [..|done]; cbn [client_read_handler];
      unfold on_request_body_read, on_client_tunnel_read, seq, finishing; cbn; by rewrite Hd.
  - destruct (b_write s) as [[]|]; [..|done]; cbn [backend_write_handler];
      unfold on_connect, on_tls_handshake, on_request_header_written, on_request_body_written, on_request_body_finished,
        on_client_buffer_flushed, on_backend_tunnel_written, seq, closing; by rewrite (quiescing_backend s _ Hq).
  - destruct (b_read s) as [r|] eqn:Er; [|done]. destruct (pending_backend_read s r (proj1 HI) Er) as (_ & Hst & _).
    destruct r; cbn [backend_read_handler]; destruct (response_parser_ s);
      unfold on_response_header, on_body_read, on_upgrade_response, on_backend_tunnel_read, seq, closing;
      rewrite ?finish_backend_close; cbn; rewrite ?(quiescing_backend s _ Hq) by done; try done; by rewrite (Hcl Hst).
Qed.

Lemma finish_backend_pending s :
  backend_operations_pending_ (finish_backend_operation s) = pred (backend_operations_pending_ s) /\
  client_operations_pending_ (finish_backend_operation s) = client_operations_pending_ s /\
  completed_ (finish_backend_operation s) = completed_ s.
Proof. unfold finish_backend_operation, maybe_release_closed_backend. by case_match. Qed.

Lemma close_backend_pending s :
  outstanding (close_backend s) = outstanding s /\ completed_ (close_backend s) = completed_ s /\
  deferred_finish_ (close_backend s) = deferred_finish_ s.
Proof. unfold close_backend, maybe_release_closed_backend. by repeat case_match. Qed.

Lemma drained_outstanding e s :
  wf s -> enabled e s = true -> is_io e = true ->
  (S (outstanding (drained e s)) = outstanding s)%nat /\ completed_ (drained e s) = completed_ s /\
  deferred_finish_ (drained e s) = deferred_finish_ s.
Proof.
  intros Hwf He Hio. destruct_wf Hwf. unfold outstanding. destruct e; try done; cbn [enabled] in He; cbn [drained].
  - apply andb_true_iff in He as [He _]. cbn. destruct (c_write s); [|done]. rewrite Wcp. by cbn.
  - destruct (c_read s) as [[]|]; [..|done]; cbn; rewrite Wcp, Nat.add_1_r; by cbn.
  - destruct (finish_backend_pending (set_b_write None s)) as (-> & -> & ->). rewrite finish_backend_deferred.
    destruct (b_write s); [|done]. cbn. rewrite Wbp. cbn. split; [lia|done].
  - destruct (b_read s) as [r|]; [|done]. 
    match goal with |- context [finish_backend_operation ?x] => destruct (finish_backend_pending x) as (-> & -> & ->) end.
    rewrite finish_backend_deferred. destruct r, (response_parser_ s); cbn; rewrite Wbp, Nat.add_1_r; cbn; (split; [lia|done]).
Qed.

Lemma finish_completes status bytes keep_alive s : completed_ (finish status bytes keep_alive s) = true.
Proof. unfold finish. destruct (completed_ s) eqn:E; [done|]. cbn. by destruct (completion_ s). Qed.

Lemma maybe_finish_outstanding s :
  completed_ s = false -> is_set (deferred_finish_ s) = true ->
  completed_ (maybe_finish_deferred s) = true \/
  outstanding (maybe_finish_deferred s) = outstanding s /\ is_set (deferred_finish_ (maybe_finish_deferred s)) = true.
Proof.
  intros Hc Hd. unfold maybe_finish_deferred. destruct (deferred_finish_ s) eqn:E; [|done].
  match goal with |- context [if ?c then s else _] => destruct c end; [right; by rewrite E|left].
  apply finish_completes.
Qed.

Lemma quiescing_other e s :
  completed_ s = false -> quiescing s -> enabled e s = true -> is_io e = false ->
  exists s', handler e s = Done s' /\
    (completed_ s' = true \/ is_set (deferred_finish_ s') = true /\ outstanding s' = outstanding s).
Proof.
  intros Hc (Hd & Hs & Ha & Hcn & _) He Hio. destruct e; try done; cbn [enabled] in He; cbn [handler].
  - by rewrite Hs in He.
  - unfold cancel_on_executor, seq. rewrite Hc. eexists; split; [done|].
    destruct (close_backend_pending (set_connecting_ false s)) as (E1 & E2 & _). cbn in E2.
    unfold finish_when_io_quiesced. rewrite E2, Hc. cbv zeta.
    match goal with |- context [maybe_finish_deferred ?x] => destruct (maybe_finish_outstanding x) as [?|[E3 E4]] end.
    1-2: by case_match; cbn; rewrite ?E2.
    + by left.
    + right. split; [done|]. rewrite E3. rewrite <-(E1 : _ = outstanding s). by case_match.
  - unfold abort_from_exception_noexcept, seq. cbv beta zeta. rewrite Hc. eexists; split; [done|].
    destruct (close_backend_pending (set_connecting_ false s)) as (E1 & E2 & _). cbn in E2.
    match goal with |- context [maybe_finish_deferred ?x] => destruct (maybe_finish_outstanding x) as [?|[E3 E4]] end;
      [cbn; by rewrite E2|done|by left|right; split; [done|]; rewrite E3; exact E1].
  - congruence.
  - unfold on_connect_timeout. cbn [connecting_ set_waiting completed_]. rewrite Hcn. cbn [negb].
    rewrite orb_true_r. eexists; split; [done|]. right. done.
  - unfold on_resolved. cbn [connecting_ set_resolving completed_]. rewrite Hcn. eexists; split; [done|]. right. done.
Qed.

(** One event while a finish is deferred: a completion takes one operation
    away and none is started. *)
Lemma quiescing_step e throws s :
  Inv s -> completed_ s = false -> quiescing s -> enabled e s = true ->
  exists s', step e throws s = Done s' /\
    (completed_ s' = true \/
     completed_ s' = false /\ quiescing s' /\ (outstanding s' + (if is_io e then 1 else 0) = outstanding s)%nat).
Proof.
  intros HI0 Hc Hq0 He. pose proof (step_good e throws s HI0 He) as Hg. unfold step in *.
  pose proof (set_tape_inv throws s HI0) as HI. assert (Hq : quiescing (set_tape throws s)) by exact Hq0.
  change (outstanding s) with (outstanding (set_tape throws s)).
  assert (Hgo : exists s', handler e (set_tape throws s) = Done s' /\ (completed_ s' = true \/
    is_set (deferred_finish_ s') = true /\ (outstanding s' + (if is_io e then 1 else 0) = outstanding (set_tape throws s))%nat)).
  { destruct (is_io e) eqn:Hio.
    - rewrite (quiescing_handler e (set_tape throws s)) by done. eexists; split; [done|].
      destruct (drained_outstanding e (set_tape throws s) (proj1 HI) He Hio) as (E1 & E2 & E3).
      destruct (maybe_finish_outstanding (drained e (set_tape throws s))) as [?|[E4 E5]]; [by rewrite E2|rewrite E3; apply Hq| |].
      + by left.
      + right. split; [done|]. rewrite E4. lia.
    - destruct (quiescing_other e (set_tape throws s) Hc Hq He Hio) as (s' & E & [?|[? ?]]); exists s'; (split; [done|]);
        [by left|right; split; [done|lia]]. }
  destruct Hgo as (s' & E & Hgo). rewrite E in *. exists s'. split; [done|]. destruct Hgo as [?|[Hd Hn]]; [by left|].
  destruct Hg as [_ [?|[[? ?]|(_ & ? & _)]]]; [by left|by right|]. by destruct (deferred_finish_ s').
Qed.

Lemma abort_completed s :
  completed_ s = true -> exists s', abort_from_exception_noexcept s = Done s' /\ completed_ s' = true.
Proof.
  intros Hc. unfold abort_from_exception_noexcept, seq. cbv beta zeta. rewrite Hc. eexists; split; [done|].
  destruct (close_backend_pending (set_connecting_ false s)) as (_ & -> & _). done.
Qed.

Lemma completed_step e throws s :
  Inv s -> completed_ s = true -> enabled e s = true -> exists s', step e throws s = Done s' /\ completed_ s' = true.
Proof.
  intros HI Hc He. destruct HI as [Hwf _]. pose proof (wf_busy s Hwf Hc) as (H1 & H2 & H3 & H4).
  unfold step. destruct e; cbn [enabled handler] in *.
  - assert (Hp : completed_ (pop (set_started true (set_tape throws s))).2 = true)
      by (unfold pop; cbn [tape set_started set_tape]; by destruct throws).
    unfold start_on_executor, may_throw, seq. destruct (pop _) as [[] s1]; [by apply abort_completed|by eexists].
  - unfold cancel_on_executor. cbn [completed_ set_tape]. rewrite Hc. by eexists.
  - destruct (abort_completed (set_tape throws s) Hc) as (s' & -> & ?). by eexists.
  - unfold on_backend_permit, seq. cbn [completed_ set_tape set_pending_acquire_ set_acquiring]. rewrite Hc. by eexists.
  - unfold on_connect_timeout. cbn [completed_ set_tape set_waiting]. rewrite Hc, orb_true_r. by eexists.
  - unfold on_resolved. cbn [completed_ set_tape set_resolving]. rewrite Hc, orb_true_r. by eexists.
  - by rewrite H1 in He.
  - by rewrite H2 in He.
  - by rewrite H3 in He.
  - by rewrite H4 in He.
Qed.

(** A run that starts while a finish is deferred, or after completion. *)
Definition settling (s : Tx) : Prop := Inv s /\ (completed_ s = true \/ completed_ s = false /\ quiescing s).

Lemma settling_run es s r :
  settling s -> run es s = Some r ->
  exists s', r = Done s' /\ settling s' /\
    (completed_ s' = true \/ (outstanding s' + io_events es = outstanding s)%nat).
Proof.
  revert s. induction es as [|[e throws] es IH]; intros s [HI Hs] Hrun; cbn [run] in Hrun.
  - injection Hrun as <-. exists s. unfold io_events. cbn. rewrite Nat.add_0_r.
    split; [done|]. split; [by split|by right].
  - destruct (enabled e s) eqn:He; [|done]. pose proof (step_good e throws s HI He) as Hg. destruct Hs as [Hc|[Hc Hq]].
    + destruct (completed_step e throws s HI Hc He) as (s1 & E & Hc1). rewrite E in *.
      destruct (IH s1) as (s' & -> & Hs' & Hn); [by split; [|left]|done|]. exists s'. split; [done|]. split; [done|].
      left. destruct Hn as [?|Hn]; [done|]. destruct Hs' as [_ [?|[Hc' Hq']]]; [done|].
      destruct Hg as [Hwf1 _]. pose proof (wf_busy s1 Hwf1 Hc1) as (H1 & H2 & H3 & H4). destruct_wf Hwf1.
      destruct Hq' as (_ & _ & _ & _ & _ & Hne). unfold outstanding in Hn. rewrite H1, H2 in Wcp. rewrite H3, H4 in Wbp.
      cbn in Wcp, Wbp. lia.
    + destruct (quiescing_step e throws s HI Hc Hq He) as (s1 & E & Hs1). rewrite E in *.
      destruct (IH s1) as (s' & -> & Hs' & Hn); [split; [done|]; destruct Hs1 as [?|(? & ? & _)]; auto|done|].
      exists s'. split; [done|]. split; [done|]. destruct Hn as [?|Hn]; [by left|].
      destruct Hs1 as [Hc1|(_ & _ & Hn1)].
      * left. destruct Hs' as [_ [?|[_ (_ & _ & _ & _ & _ & Hne)]]]; [done|].
        destruct Hg as [Hwf1 _]. pose proof (wf_busy s1 Hwf1 Hc1) as (H1 & H2 & H3 & H4). destruct_wf Hwf1.
        unfold outstanding in Hn. rewrite H1, H2 in Wcp. rewrite H3, H4 in Wbp. cbn in Wcp, Wbp. lia.
      * right. unfold io_events. rewrite filter_cons. cbn [fst].
        destruct (is_io e); [rewrite decide_True by done|rewrite decide_False by done]; cbn [length];
          fold (io_events es); lia.
Qed.

(** *** Theorems *)


Lemma under_way s : Inv s -> started s = true -> completed_ s = false ->
  acquiring s = true \/ connecting_ s = true /\ resolving s = true \/
  exists e, is_io e = true /\ enabled e s = true.
Proof.
  intros HI Hs Hc. assert (Hio : ~ idle s -> exists e, is_io e = true /\ enabled e s = true).
  { intros Hni.
    set (o := {| o_error := None; o_transferred := 0; o_parser_done := false; o_body_left := 0; o_serializer_done := false;
      o_result_int := 200; o_keep_alive := false; o_socket_open := false; o_client_buffered := false;
      o_backend_buffered := false; o_pooled := false; o_sni_ok := true |}).
    destruct (c_write s) eqn:E1; [exists (ev_client_write o); cbn; by rewrite E1|].
    destruct (c_read s) eqn:E2; [exists (ev_client_read o); cbn; by rewrite E2|].
    destruct (b_write s) eqn:E3; [exists (ev_backend_write o); cbn; by rewrite E3|].
    destruct (b_read s) eqn:E4; [exists (ev_backend_read o); cbn; by rewrite E4|]. by destruct Hni. }
  destruct HI as [Hwf [?|[[_ Hq]|(_ & Hd & Ha)]]]; [congruence| |].
  - right; right. apply Hio. intros Hi. destruct Hi as (H1 & H2 & H3 & H4). destruct_wf Hwf.
    destruct Hq as (_ & _ & _ & _ & _ & Hn). rewrite Wcp, Wbp, H1, H2, H3, H4 in Hn. done.
  - unfold idle in Hio. destruct Ha; try congruence; auto;
      try (right; right; apply Hio; intros (? & ? & ? & ?); split_disj; congruence).
    destruct H7 as [[? ?]|[[?|?] ?]]; [by right; left; auto|right; right; apply Hio; intros (? & ? & ? & ?); congruence..].
Qed.


(** C21: Cancellation ends.  After [cancel()] no new operation is started and
    nothing undefined happens, whatever follows; every completion takes one of
    the outstanding operations away, and when the last of them has completed
    the transaction has reported its completion. *)
Theorem cancel_quiesces s throws s1 es r :
  reachable s -> step ev_cancel throws s = Done s1 -> run es s1 = Some r ->
  exists s2, r = Done s2 /\
    (completed_ s2 = true \/ (outstanding s2 + io_events es = outstanding s1)%nat /\ outstanding s2 <> 0%nat).
Proof.
  intros Hr Hstep Hrun. pose proof (reachable_Inv s Hr) as HI.
  pose proof (step_good ev_cancel throws s HI eq_refl) as HI1. rewrite Hstep in HI1.
  assert (Hs : settling s1).
  { split; [done|]. destruct HI1 as [_ [?|[?|(Hc1 & Hd1 & _)]]]; [by left|by right|exfalso].
    unfold step in Hstep. cbn [handler] in Hstep. unfold cancel_on_executor, seq in Hstep.
    destruct (completed_ (set_tape throws s)) eqn:Hc; cbn in Hstep.
    - injection Hstep as <-. congruence.
    - injection Hstep as <-. unfold finish_when_io_quiesced in *.
      destruct (close_backend_pending (set_connecting_ false (set_tape throws s))) as (_ & E2 & _).
      change (completed_ (set_connecting_ false (set_tape throws s))) with (completed_ (set_tape throws s)) in E2.
      rewrite E2, Hc in *. cbv zeta in *.
      match type of Hd1 with context [maybe_finish_deferred ?x] => destruct (maybe_finish_outstanding x) as [?|[_ Hx]] end.
      + case_match; cbn; by rewrite E2.
      + by case_match.
      + congruence.
      + by rewrite Hd1 in Hx. }
  destruct (settling_run es s1 r Hs Hrun) as (s2 & -> & [_ Hs2] & Hn). exists s2. split; [done|].
  destruct Hs2 as [?|[_ (_ & _ & _ & _ & _ & Hne)]]; [by left|]. destruct Hn as [?|?]; [by left|by right].
Qed.

(** Without a streamed request body no event leads to undefined behaviour:
    no handler uses a backend stream, buffer or parser that is gone, and no
    stream ever has two reads or two writes at once. *)
Theorem unstreamed_requests_are_safe s e throws :
  streamed = false -> reachable s -> enabled e s = true -> exists s', step e throws s = Done s'.
Proof.
  intros Hst Hr He. pose proof (step_good e throws s (reachable_Inv s Hr) He) as Hg.
  destruct (step e throws s) as [s'| |]; [by exists s'|done|]. destruct Hg as [? _]. congruence.
Qed.

(** A connection goes back to the pool only when it is clean (nothing is
    outstanding on it, its response has been read to the end and the request has
    been sent to the end), and the request header is written at most twice, the
    second time only after the retry on a fresh connection. *)
Theorem pooled_connection_is_clean s :
  reachable s -> Forall clean (log s) /\ (header_writes s <= 1 + (if retried_pooled_connection_ s then 1 else 0))%nat.
Proof. intros Hr. destruct (reachable_Inv s Hr) as [Hwf _]. by destruct_wf Hwf. Qed.

Lemma run_reachable es s s' : reachable s -> run es s = Some (Done s') -> reachable s'.
Proof.
  revert s. induction es as [|[e throws] es IH]; intros s Hr Hrun; cbn [run] in Hrun; [by injection Hrun as <-|].
  destruct (enabled e s) eqn:He; [|done]. destruct (step e throws s) as [s1| |] eqn:Es; [|done..].
  apply (IH s1); [|done]. by eapply reach_step.
Qed.

End ProxyTransaction.

(** ** Concrete runs *)

Definition demo_request : header := [(b!"Host", b!"shop.example"); (b!"Content-Length", b!"44")].
Definition demo_overload : BackendOverloadConfig :=
  {| ov_site_id := 1; ov_site_name := b!"shop"; ov_maximum_active_connections := 8; ov_maximum_queue := 8;
     ov_queue_timeout_seconds := 5 |}.
Notation demo f := (f shop default_settings demo_overload b!"192.0.2.1" b!"http" b!"id" demo_request false).

(** The answers of the libraries: an error, whether a parser is done, the bytes
    left in a buffer, whether the serializer is done. *)
Definition answer (e : option error_code) (done : bool) (left : Z) (serialized : bool) : Obs :=
  {| o_error := e; o_transferred := 0; o_parser_done := done; o_body_left := left; o_serializer_done := serialized;
     o_result_int := 200; o_keep_alive := true; o_socket_open := true; o_client_buffered := false;
     o_backend_buffered := false; o_pooled := false; o_sni_ok := true |}.
Definition fine : Obs := answer None true 0 true.

Definition no_throw (es : list event) : list (event * list bool) := (fun e => (e, [])) <$> es.

(** Permit, resolution, connection, request header, response header. *)
Definition connecting_events : list (event * list bool) :=
  no_throw [ev_start; ev_permit acquire_granted fine; ev_resolved None; ev_backend_write fine].
Definition whole_exchange : list (event * list bool) :=
  connecting_events ++ no_throw [ev_backend_write fine; ev_backend_read fine; ev_client_write fine].

Definition final (done : bool) (es : list (event * list bool)) : Tx :=
  match demo run es (initial true done) with Some (Done s) => s | _ => initial true done end.

Definition is_final (done : bool) (es : list (event * list bool)) : bool :=
  match demo run es (initial true done) with Some (Done _) => true | _ => false end.

Lemma final_reachable done es : is_final done es = true -> demo reachable true done (final done es).
Proof.
  unfold is_final, final. intros E. destruct (demo run es (initial true done)) as [[s| |]|] eqn:Er; try done.
  by apply (run_reachable _ _ _ _ _ _ _ _ _ _ es (initial true done)); [apply reach_initial|].
Qed.


Definition header_sent : list (event * list bool) := connecting_events ++ no_throw [ev_backend_write fine].


(** Cancelled while the response and the next piece of the body are awaited. *)
Definition cancelled : Tx := final false (header_sent ++ no_throw [ev_cancel]).
Definition aborted : Obs := answer (Some operation_aborted) false 0 false.

Lemma cancel_quiesces_witness :
  outstanding cancelled = 2%nat /\
  completed_ (final false (header_sent ++ no_throw [ev_cancel; ev_backend_read aborted; ev_client_read aborted])) = true.
Proof.
  split; [reflexivity|].
  destruct (cancel_quiesces shop default_settings demo_overload b!"192.0.2.1" b!"http" b!"id" demo_request false true false
    (final false header_sent) [] cancelled (no_throw [ev_backend_read aborted; ev_client_read aborted])
    (Done (final false (header_sent ++ no_throw [ev_cancel; ev_backend_read aborted; ev_client_read aborted]))))
    as (s2 & E & Hs2).
  - apply final_reachable. vm_compute. reflexivity.
  - vm_compute. reflexivity.
  - vm_compute. reflexivity.
  - injection E as <-. destruct Hs2 as [Hc|[_ Hn]]; [exact Hc|]. exfalso. apply Hn. vm_compute. reflexivity.
Defined.

Lemma unstreamed_requests_are_safe_witness :
  exists s', demo step (ev_backend_read (answer (Some err_eof) false 0 false)) [true] (final true header_sent) = Done s'.
Proof.
  apply (unstreamed_requests_are_safe _ _ _ _ _ _ _ _ true true).
  - reflexivity.
  - apply final_reachable. vm_compute. reflexivity.
  - vm_compute. reflexivity.
Defined.

Lemma pooled_connection_is_clean_witness :
  Forall clean (log (final true whole_exchange)) /\ header_writes (final true whole_exchange) = 1%nat /\
  existsb (fun e => match e with pool_release _ _ _ _ => true | _ => false end) (log (final true whole_exchange)) = true.
Proof.
  destruct (pooled_connection_is_clean _ _ _ _ _ _ _ _ _ _ _ (final_reachable true whole_exchange ltac:(vm_compute; reflexivity)))
    as [Hc _].
  split; [exact Hc|]. split; vm_compute; reflexivity.
Defined.

(** The backend resets the connection while the body is uploaded: the response
    read and the body write both fail, and both send an error response. *)
Definition reset : Obs := answer (Some err_other) false 0 false.
Definition reset_during_upload : list (event * list bool) :=
  header_sent ++ no_throw [ev_client_read (answer None false 0 false); ev_backend_read reset; ev_backend_write reset].

(** The response read fails while the next piece of the body is awaited. *)
Definition reset_before_data : list (event * list bool) :=
  header_sent ++ no_throw [ev_backend_read reset; ev_client_read (answer None false 0 false)].

(** With a streamed body undefined behaviour is reachable in two ways.  When
    the backend resets the connection during the upload, the failed read and the
    failed write each start an error response: the second replaces the message
    the first is still writing, and two writes run on the client's stream.  When
    the response read fails and a piece of the body then arrives, the handler
    writes it to a backend stream that [close_backend] has destroyed. *)
Theorem streamed_upload_reaches_undefined :
  demo run reset_during_upload (initial true false) = Some Undefined /\
  demo run reset_before_data (initial true false) = Some Undefined.
Proof. split; vm_compute; reflexivity. Qed.
